(* ===== verification/_CoqProject ===== *)
-Q . S2P
Prelude.v
GoStrings.v
Sha256.v
GoPath.v
GoTime.v
Json.v
K8sTypes.v
JsonDecode.v
PatchText.v
Prog.v
Protocol.v
Config.v
K8sClient.v
Util.v
Kubelet.v
Console.v
MountInfoTable.v
MountPod.v
PodMount.v
Progress.v
FakeClient.v
ProcessMount.v
Juicefs.v
Secrets.v
Quiet.v
ControllerService.v
Driver.v
Flags.v
Startup.v
NodeService.v
Completion.v
IdLocks.v
RefLock.v
Registry.v
Publication.v
PodDriver.v
PodShape.v
Reconciler.v
Backoff.v
Polling.v
Warmup.v
DeepCopy.v
Sim.v
Examples.v
ExamplesDriver.v
ExamplesPolling.v
ExamplesWarmup.v
ExamplesStartup.v
ExamplesDeepCopy.v
