(* ===== verification/Prelude.v ===== *)
(** * dfs-csi: the CSI driver of a distributed file system

    ** The program

    dfs-csi (Go, module [dfs-csi]) is a Kubernetes CSI driver.  The
    controller service creates, deletes and expands volumes and snapshots,
    which are directories of a file system, and keeps their quotas on a
    management console.  The node service publishes a volume to an
    application pod: it mounts the file system through a mount pod, makes the
    directory of the volume and binds it to the target path of the kubelet.
    One mount pod serves many targets; every target is a reference, an
    annotation of the pod whose key is a hash of the target path.  A
    reconciler on every node looks at the mount pods again and again: it
    drops references of application pods that are gone, deletes mount pods
    without references, makes deleted but referenced ones again and mounts
    broken targets again.

    A second process, the warm-up controller, loads paths of volumes into the
    caches of the nodes that use them, by commands in the mount pods.

    The parts call each other as follows; the names are those of the source
    below [src/pkg] and of the definitions.
<<
      cmd/driver/main.go - driver/driver.go, controller/reconciler.go, cmd/app/pod_manager.go
      driver/controller.go --.                       .- juicefs/mount/pod_mount.go
                             |- juicefs/juicefs.go --|- juicefs/mount/pod.go
      driver/node.go --------'     |        |        '- juicefs/mount/process_mount.go
                                   |        '- juicefs/console.go
                                   '- juicefs/config/{config,setting}.go
      controller/reconciler.go ----.
                                   |- controller/pod_driver.go - controller/mountinfo.go
      controller/pod_controller.go '
      all of them: util/{util,pod}.go, juicefs/k8sclient/{client,kubelet_client}.go
      warmup/warmup.go - warmup/controllers/cache_controller.go
>>
    ** The model

    A pure Go function is a function.  A function with effects is a [prog]
    ([Prog.v]): a tree of calls to the environment (requests to the API
    server, the console, the kubelet; the file system and mount table;
    commands; the clock; locks and shared maps of the process), each with a
    continuation for the answer.  [exec p tr r] holds of every trace of calls
    and answers that [p] can exchange with any environment, and of its result
    [r]: a value, an error, a panic, or the exhaustion of the model's fuel.  A
    theorem about [exec] therefore holds whatever the API server, other
    processes and other goroutines do between two calls.  Locks are calls
    too, so that "under the lock" is a statement about the trace.

    Concurrency is explicit in [Protocol.v]: a configuration is a shared world
    and a pool of programs, a step answers one call of one program, and
    [steps] are all interleavings.  A program logic ([wp]) shows that a program
    keeps to a protocol whatever it is answered.

    - [Prelude]: tactics, the hint database [dfs] and lemmas on lists and
      options.  [GoStrings], [GoPath], [GoTime], [Sha256], [Json],
      [JsonDecode]: what the source uses of Go's [strings], [path/filepath],
      [time], [strconv], [crypto/sha256] and [encoding/json].
    - [K8sTypes]: Kubernetes objects and errors.  [PatchText]: the text of the
      patches and JSON pointers.
    - [Config]: [juicefs/config/config.go] (process-wide settings, the table
      of pod locks) and [setting.go] ([ParseSetting]).
    - [K8sClient]: the requests of [juicefs/k8sclient/client.go].  [Kubelet]:
      its constructor, and [kubelet_client.go].  [FakeClient]:
      [fake_client.go], the double of the unit tests.
    - [Util]: [util/util.go] and [util/pod.go].
    - [Console]: [juicefs/console.go].
    - [MountInfoTable]: [controller/mountinfo.go].
    - [MountPod]: [juicefs/mount/pod.go].  [PodMount]:
      [juicefs/mount/pod_mount.go].  [ProcessMount]:
      [juicefs/mount/process_mount.go] and [interface.go].
    - [Juicefs]: [juicefs/juicefs.go].  [Secrets]: what its log shows of the
      secrets.
    - [ControllerService]: [driver/controller.go].  [NodeService]:
      [driver/node.go].
    - [PodDriver]: [controller/pod_driver.go].  [Reconciler]:
      [controller/reconciler.go] and [pod_controller.go].  [Backoff]: the
      table of back-offs of client-go that the polling loop keeps.  [Polling]:
      the goroutines of one turn of that loop, which share the table, the
      group they belong to and the variable [err].
    - [Driver]: [driver/driver.go], [identity.go], [version.go], [fakes.go],
      the constructors of the services, and [ParseEndpoint] of [util.go].
      [Startup]: [cmd/driver/main.go], [cmd/app/pod_manager.go],
      [StartReconciler], [SetupWithManager] and [warmup/warmup.go].  [Flags]:
      the command lines of the two processes and Go's [flag.Parse].
    - [Warmup]: [warmup/controllers/cache_controller.go].  [DeepCopy]: the
      types of [warmup/api/v1alpha1] and their deep copies, over a heap of
      pointers, maps and slices.
    - [RefLock], [IdLocks]: the two locking disciplines under concurrency, over
      pools of whole requests to the node and the controller service. [Quiet]:
      what the provider never calls. [Registry]: the abstract specification of
      the references and its refinement. [Publication]: a published volume
      keeps its mount pod. [Progress]: when mounts and unmounts succeed.
      [Completion]: when whole requests to the node service are answered.
      [PodShape]: well-formed mount pods.
    - [Sim]: an executable node (API server, files, mounts, clock).
      [Examples], [ExamplesDriver], [ExamplesPolling], [ExamplesWarmup],
      [ExamplesStartup]: the theorems applied to runs on it.
      [ExamplesDeepCopy]: a deep copy in a concrete heap.

    ** What is proved

    - References (C1, C2, C4, C11 to C13, C18, [RefLock], [Registry],
      [Publication]): over every server that fulfils the class [RefServer], in
      every interleaving of [NodePublishVolume] and [NodeUnpublishVolume]
      requests and requests to the controller service, a mount pod is deleted
      only while it has no reference and no request changes the reference of
      another target; the driver refines a registry of references
      ([Registry.rstep]) over every [RegistryServer], so that a reference stays
      until its own unpublication; a volume whose publication was answered
      keeps its mount pod and its reference.  The laws of these servers say
      that a patch or a creation that was answered with an error may or may
      not have been applied.  The passes of the reconciler are not among the
      requests: C19 shows that they break the first of these claims.
    - Mounting (C5, C6, C16): a mount is reported as done only after, under
      the pod lock, its reference was seen on the pod or sent to the server
      (which took it, or refused it for another reason than a conflict, an
      error the code drops) and the mount was then seen at the mount path; the
      pod that was created is well formed and carries the reference, delay,
      finalizer and a command from which the mount path is read back.
    - The reconciler (C7 to C10, C17, C20, C37, C38): which references a pass
      takes off, when it deletes a pod, which deleted pods it makes again and
      which it leaves (C9 goes through every branch), what it mounts again, when it gives up with a conflict; in every interleaving of the
      goroutines of a turn, whose back-off changes and why; how the back-off of
      a pod grows.
    - The node service (C14, C15, C21, C22, C36): an answer without error
      implies that every step was done, in order; a request that the server,
      the file system and the commands serve is answered without an error; the
      unmount loop ends when the mounts stacked on the target are gone.
    - The controller service (C3, C23 to C25): an answer without error implies
      that every step was done under the lock of the id; operations on one id
      exclude each other in every interleaving; the lock is given back on
      every way out, errors and panics included.
    - The processes (C27, C28): which reconciler a driver starts, the command
      lines it accepts and the flags they set.  The warm-up (C29 to C31) and
      the independence of deep copies (C40).
    - Helpers (C26, C32 to C35): patches survive their JSON text, the secrets
      of [AuthFs] do not reach the log, the one-pass loop over the mount table computes the
      record of every mount point, target paths round trip, the delayed
      deletion.
    - Behaviour that differs from what the code means to do: C19 (the
      reconciler deletes a pod that a mount just referenced), C30 and C31 (the
      nodes and paths the warm-up misses), the zone offset in C35, C39 (the
      variable [err] the goroutines of a turn share), [JUmount_never_delays]
      (the delay it can never take), [checkBindAndMount_reads_last_entry] (the
      address of a loop variable), [AddRefOfMount_swallows] (a patch error that
      is dropped), [MountFs_logs_source] (a password in the log).
    Theorems without such an id state further facts of the same parts.

    ** Bounds and fuel

    Loops over data are structural.  The loops that Go bounds by nothing but
    the environment carry fuel and end in [NoFuel] without it:
    [CreateTarget] and [AddRefOfMount] (as long as the server answers with a
    conflict or a mount is corrupted), [del_ref_loop], [wait_ready_loop] (until
    a deadline of the clock) and [umount_loop] (as long as something is
    mounted; C36 bounds the rounds by the mounts that were taken off).  A
    theorem that concludes from a result [Ok] holds for every fuel; C14 and
    C15 say how much fuel is enough for an answer in terms of the conflicts,
    stacked mounts and early looks of the run, and the runs of the example files show that the
    results are reached.  The loops the source bounds by a number
    ([wait_until_mount], [process_wait]) have exactly that number of rounds.
    The JSON reader's fuel is the length of the text, which [parse_print]
    shows to be enough.  Durations and instants are integers in nanoseconds,
    the kubelet's timeout a 64-bit product; sizes are not limited to 64 bits,
    as the driver only compares and prints them.

    ** What is not modelled

    - The YAML decoder of [setting.go], the decoder of the kubelet's pod list,
      [url.Parse] and the parser of resource quantities, which are libraries,
      are parameters ([decoder], [Libs], [quantity_ok], [unmarshal_pods],
      [url_Parse]).  The JSON the driver exchanges with the console, the JSON
      of [setting.go], the version and the patches are modelled as texts; the
      programs carry a patch as the value ([Patch]) that C26 reads back from
      its text.
    - Logging, but for the lines of [AuthFs], [ceFormat] and [MountFs], whose
      arguments come from the secrets; they are taken to be written at every
      verbosity.
    - Contexts: a request that is cancelled is one that answers with an error.
    - The gRPC and controller libraries (their calls are operations of the
      environment; the flags they register are the parameter [LibFlags]), the
      registration of the warm-up types with the API machinery, the capacity
      of slices and their sharing of one array in [DeepCopy], the fakes of
      [tests/sanity], which lack methods of the interfaces they stand for. *)
From stdpp Require Export base gmap strings list fin_maps sorting.
From Stdlib Require Export ZArith Lia Ascii.
From stdpp Require Import options.

#[global] Open Scope Z_scope.

(** ** Hint database and tactics of the development *)
Create HintDb dfs discriminated.

(** [split_ex]: open every existential and conjunction of the context. *)
Ltac split_ex :=
  repeat match goal with
  | H : exists x, _ |- _ => let y := fresh x in destruct H as [y H]
  | H : _ /\ _ |- _ => destruct H
  end.

(** [bool_prop]: turn boolean tests of the code into propositions. *)
Ltac bool_prop :=
  repeat match goal with
  | H : (_ && _)%bool = true |- _ => apply andb_true_iff in H as [? ?]
  | H : (_ && _)%bool = false |- _ => apply andb_false_iff in H
  | H : (_ || _)%bool = false |- _ => apply orb_false_iff in H as [? ?]
  | H : (_ || _)%bool = true |- _ => apply orb_true_iff in H
  | H : negb _ = true |- _ => apply negb_true_iff in H
  | H : negb _ = false |- _ => apply negb_false_iff in H
  | H : bool_decide _ = true |- _ => apply bool_decide_eq_true in H
  | H : bool_decide _ = false |- _ => apply bool_decide_eq_false in H
  | H : (_ =? _) = true |- _ => apply Z.eqb_eq in H
  | H : (_ =? _) = false |- _ => apply Z.eqb_neq in H
  | H : (_ <? _) = true |- _ => apply Z.ltb_lt in H
  | H : (_ <? _) = false |- _ => apply Z.ltb_ge in H
  | H : (_ <=? _) = true |- _ => apply Z.leb_le in H
  | H : (_ <=? _) = false |- _ => apply Z.leb_gt in H
  end.

(** [list_app]: equality of lists up to associativity of append. *)
Ltac list_app := repeat (progress (simpl; rewrite <-?app_assoc, ?app_nil_r)); reflexivity.

(** ** Go maps

    A Go [map[string]string] is [None] when it is nil and [Some m] otherwise;
    reading a nil map is the same as reading an empty one. *)
Abbreviation gomap := (option (gmap string string)).

(** The contents of a Go map: a nil map has none. *)
Definition gm (m : gomap) : gmap string string := default ∅ m.

(** [v, ok := m[k]]. *)
Definition mlookup (m : gomap) (k : string) : option string := gm m !! k.

(** [m[k]]: the zero value when the key is absent. *)
Definition mget (m : gomap) (k : string) : string := default EmptyString (mlookup m k).

(** ** Lists *)

Lemma filter_length_zero {A} (P : A -> Prop) `{forall x, Decision (P x)} (l : list A) :
  length (filter P l) = 0%nat <-> Forall (fun x => ~ P x) l.
Proof.
  induction l as [|x l IH]; [naive_solver constructor|].
  rewrite filter_cons, Forall_cons. case_decide; simpl; naive_solver lia.
Qed.

Lemma Forall_map_to_list (m : gmap string string) (P : string * string -> Prop) l :
  l ≡ₚ map_to_list m -> Forall P l -> forall k v, m !! k = Some v -> P (k, v).
Proof.
  intros Hp Hl k v Hk. rewrite Hp, Forall_forall in Hl.
  apply Hl, elem_of_map_to_list, Hk.
Qed.

Lemma Forall_forallb {A} (f : A -> bool) l : forallb f l = true -> Forall (fun x => f x = true) l.
Proof. rewrite forallb_forall, Forall_forall. setoid_rewrite list_elem_of_In. done. Qed.

Lemma elem_of_flat_map {A B} (f : A -> list B) (l : list A) y :
  y ∈ flat_map f l <-> exists x, x ∈ l /\ y ∈ f x.
Proof.
  rewrite list_elem_of_In, in_flat_map. setoid_rewrite list_elem_of_In. done.
Qed.
