(* ===== verification/GoStrings.v ===== *)
(** * Go's [strings] package

    The functions of Go's [strings] package that the driver calls, on byte
    strings ([string] is a list of 8-bit characters, as a Go string is a
    sequence of bytes).  [Fields] and [TrimSpace] recognise the white space
    of Unicode in its UTF-8 form, [Split] and [ReplaceAll] are applied to
    separators that are not empty.

    The second half proves the facts the components use: [Join] undoes
    [Split], and a separator that carries a marker character absent from the
    rest of the string splits it exactly once. *)
From S2P Require Import Prelude.
From stdpp Require Import options.

(** [strings.HasPrefix(s, p)]. *)
Definition HasPrefix (s p : string) : bool := String.prefix p s.
Arguments HasPrefix : simpl never.

(** The string without its first [n] bytes. *)
Fixpoint sdrop (n : nat) (s : string) : string :=
  match n, s with
  | O, _ => s
  | S _, EmptyString => EmptyString
  | S n', String _ s' => sdrop n' s'
  end.

(** The first [n] bytes of the string. *)
Fixpoint stake (n : nat) (s : string) : string :=
  match n, s with
  | O, _ => EmptyString
  | S _, EmptyString => EmptyString
  | S n', String c s' => String c (stake n' s')
  end.

(** [strings.TrimPrefix(s, p)]. *)
Definition TrimPrefix (s p : string) : string :=
  if HasPrefix s p then sdrop (String.length p) s else s.

(** [strings.HasSuffix(s, p)]. *)
Definition HasSuffix (s p : string) : bool :=
  (String.length p <=? String.length s)%nat &&
  String.eqb (sdrop (String.length s - String.length p) s) p.

(** [strings.TrimSuffix(s, p)]. *)
Definition TrimSuffix (s p : string) : string :=
  if HasSuffix s p then stake (String.length s - String.length p) s else s.

(** [strings.Index(s, sub)]: -1 when [sub] does not occur. *)
Fixpoint Index (s sub : string) : Z :=
  if HasPrefix s sub then 0
  else match s with
       | EmptyString => -1
       | String _ s' => let i := Index s' sub in if i <? 0 then -1 else i + 1
       end.

(** [strings.LastIndex(s, sub)]: -1 when [sub] does not occur. *)
Fixpoint LastIndex (s sub : string) : Z :=
  match s with
  | EmptyString => if HasPrefix s sub then 0 else -1
  | String _ s' =>
      let i := LastIndex s' sub in
      if i <? 0 then (if HasPrefix s sub then 0 else -1) else i + 1
  end.

(** [strings.Contains(s, sub)]. *)
Definition Contains (s sub : string) : bool := 0 <=? Index s sub.

(** Put a byte in front of the first piece of a list of pieces. *)
Definition cons_head (c : ascii) (l : list string) : list string :=
  match l with
  | [] => [String c EmptyString]
  | h :: t => String c h :: t
  end.

(** [strings.Split(s, sep)] for a non-empty [sep]; [skip] counts the bytes of
    the separator that are still to be consumed. *)
Fixpoint split_go (sep : string) (skip : nat) (s : string) : list string :=
  match s with
  | EmptyString => [EmptyString]
  | String c s' =>
      match skip with
      | S k => split_go sep k s'
      | O => if HasPrefix s sep
             then EmptyString :: split_go sep (String.length sep - 1) s'
             else cons_head c (split_go sep O s')
      end
  end.

Definition Split (s sep : string) : list string := split_go sep 0 s.

(** [strings.Join(l, sep)]. *)
Fixpoint Join (l : list string) (sep : string) : string :=
  match l with
  | [] => EmptyString
  | [x] => x
  | x :: l' => x +:+ sep +:+ Join l' sep
  end.

(** [strings.ReplaceAll(s, old, new)] for a non-empty [old]. *)
Fixpoint replace_go (old new : string) (skip : nat) (s : string) : string :=
  match s with
  | EmptyString => EmptyString
  | String c s' =>
      match skip with
      | S k => replace_go old new k s'
      | O => if HasPrefix s old
             then new +:+ replace_go old new (String.length old - 1) s'
             else String c (replace_go old new O s')
      end
  end.

Definition ReplaceAll (s old new : string) : string := replace_go old new 0 s.

(** ASCII white space: tab, newline, vertical tab, form feed, carriage
    return and space. *)
Definition is_space (c : ascii) : bool :=
  let n := Ascii.nat_of_ascii c in
  ((9 <=? n)%nat && (n <=? 13)%nat) || (n =? 32)%nat.

(** [strings.Fields(s)]; [inword] tells whether the first byte continues a
    field that has already begun. *)
Fixpoint fields_go (s : string) : list string * bool :=
  match s with
  | EmptyString => ([], false)
  | String c s' =>
      let (l, inword) := fields_go s' in
      if is_space c then (l, false)
      else if inword then (cons_head c l, true)
      else (String c EmptyString :: l, true)
  end.

(** The width of the white space ([unicode.IsSpace]) at the front of a
    string: 1 for ASCII, 2 or 3 for the UTF-8 of U+0085, U+00A0, U+1680, U+2000
    to U+200A, U+2028, U+2029, U+202F, U+205F and U+3000, 0 when there is none. *)
Definition byte_is (n : nat) (c : ascii) : bool := (Ascii.nat_of_ascii c =? n)%nat.
Definition byte_in (lo hi : nat) (c : ascii) : bool :=
  (lo <=? Ascii.nat_of_ascii c)%nat && (Ascii.nat_of_ascii c <=? hi)%nat.

Definition wide_space2 (c1 c2 : ascii) : bool := byte_is 194 c1 && (byte_is 133 c2 || byte_is 160 c2).
Definition wide_space3 (c1 c2 c3 : ascii) : bool :=
  byte_is 225 c1 && byte_is 154 c2 && byte_is 128 c3
  || byte_is 226 c1 && byte_is 128 c2 && (byte_in 128 138 c3 || byte_is 168 c3 || byte_is 169 c3 || byte_is 175 c3)
  || byte_is 226 c1 && byte_is 129 c2 && byte_is 159 c3
  || byte_is 227 c1 && byte_is 128 c2 && byte_is 128 c3.

Definition space_width (s : string) : nat :=
  match s with
  | EmptyString => 0
  | String c r =>
      if is_space c then 1
      else match r with
      | EmptyString => 0
      | String c1 r1 =>
          if wide_space2 c c1 then 2
          else match r1 with
               | EmptyString => 0
               | String c2 _ => if wide_space3 c c1 c2 then 3 else 0
               end
      end
  end%nat.

(** Every white space becomes a blank; [skip] bytes of one are still to be
    left out. *)
Fixpoint blank_spaces (skip : nat) (s : string) : string :=
  match s with
  | EmptyString => EmptyString
  | String c r =>
      match skip with
      | S skip' => blank_spaces skip' r
      | O => match space_width s with
             | O => String c (blank_spaces 0 r)
             | S k => String " " (blank_spaces k r)
             end
      end
  end.

Definition Fields (s : string) : list string := fst (fields_go (blank_spaces 0 s)).

(** No byte begins a white space. *)
Fixpoint spaceless (s : string) : bool :=
  match s with
  | EmptyString => true
  | String _ r => (space_width s =? 0)%nat && spaceless r
  end.

(** Nothing but white space. *)
Fixpoint all_space (skip : nat) (s : string) : bool :=
  match s with
  | EmptyString => (skip =? 0)%nat
  | String _ r =>
      match skip with
      | S skip' => all_space skip' r
      | O => match space_width s with O => false | S k => all_space k r end
      end
  end.

Fixpoint trim_left_space (skip : nat) (s : string) : string :=
  match s with
  | EmptyString => EmptyString
  | String _ r =>
      match skip with
      | S skip' => trim_left_space skip' r
      | O => match space_width s with O => s | S k => trim_left_space k r end
      end
  end.

Fixpoint trim_right_space (s : string) : string :=
  match s with
  | EmptyString => EmptyString
  | String c r => if all_space 0 s then EmptyString else String c (trim_right_space r)
  end.

Definition TrimSpace (s : string) : string := trim_right_space (trim_left_space 0 s).

(** [strings.TrimLeft] and [strings.TrimRight] for a byte predicate. *)
Fixpoint trim_left (f : ascii -> bool) (s : string) : string :=
  match s with
  | EmptyString => EmptyString
  | String c s' => if f c then trim_left f s' else s
  end.

Fixpoint trim_right (f : ascii -> bool) (s : string) : string :=
  match s with
  | EmptyString => EmptyString
  | String c s' =>
      match trim_right f s' with
      | EmptyString => if f c then EmptyString else String c EmptyString
      | t => String c t
      end
  end.

(** [strings.Trim(s, "/")]. *)
Definition is_slash (c : ascii) : bool := Ascii.eqb c "/"%char.
Definition TrimSlash (s : string) : string := trim_right is_slash (trim_left is_slash s).

(** The byte [c] does not occur in [s]. *)
Fixpoint free_of (c : ascii) (s : string) : bool :=
  match s with
  | EmptyString => true
  | String d s' => negb (Ascii.eqb d c) && free_of c s'
  end.

(** [Forall] on the bytes of a string, as a boolean. *)
Fixpoint sforallb (f : ascii -> bool) (s : string) : bool :=
  match s with
  | EmptyString => true
  | String d s' => f d && sforallb f s'
  end.

Example split_ex1 : Split "a,b,,c" "," = ["a"; "b"; EmptyString; "c"].
Proof. reflexivity. Qed.
Example split_ex2 : Split "x -o y" " -o " = ["x"; "y"].
Proof. reflexivity. Qed.
Example fields_ex : Fields "  a bc  d " = ["a"; "bc"; "d"].
Proof. reflexivity. Qed.
(** U+3000 in UTF-8. *)
Definition ideographic_space : string :=
  String (ascii_of_nat 227) (String (ascii_of_nat 128) (String (ascii_of_nat 128) EmptyString)).
Example fields_wide_ex : Fields ("a" +:+ ideographic_space +:+ "b c") = ["a"; "b"; "c"].
Proof. vm_compute. reflexivity. Qed.
Example trimspace_ex : TrimSpace (" " +:+ ideographic_space +:+ "日 x  ") = "日 x".
Proof. vm_compute. reflexivity. Qed.
Example lastindex_ex : LastIndex "/a/b/c" "/" = 4.
Proof. reflexivity. Qed.
Example trimsuffix_ex : TrimSuffix "/mnt//deleted" "//deleted" = "/mnt".
Proof. reflexivity. Qed.
Example trim_ex : TrimSlash "//a/b/" = "a/b".
Proof. reflexivity. Qed.

(** ** Append *)

Lemma sapp_cons c s t : String c s +:+ t = String c (s +:+ t).
Proof. reflexivity. Qed.

Lemma sapp_nil_l s : EmptyString +:+ s = s.
Proof. reflexivity. Qed.

Lemma sapp_nil_r s : s +:+ EmptyString = s.
Proof. induction s as [|c s IH]; [done|]. by rewrite sapp_cons, IH. Qed.

Lemma sapp_assoc s t u : (s +:+ t) +:+ u = s +:+ t +:+ u.
Proof. induction s as [|c s IH]; [done|]. by rewrite !sapp_cons, IH. Qed.

Lemma slength_app s t : String.length (s +:+ t) = (String.length s + String.length t)%nat.
Proof. induction s as [|c s IH]; [done|]. rewrite sapp_cons. simpl. by rewrite IH. Qed.

Create Rewrite HintDb gostr.
#[export] Hint Rewrite sapp_cons sapp_nil_l sapp_nil_r sapp_assoc slength_app : gostr.

(** Normalise appends to the right. *)
Ltac sapp := autorewrite with gostr.

(** ** Prefixes, suffixes, slices *)

Lemma HasPrefix_spec s p : HasPrefix s p = true <-> exists t, s = p +:+ t.
Proof.
  unfold HasPrefix. revert s. induction p as [|c p IH]; intros s.
  - split; [exists s|]; by destruct s.
  - destruct s as [|d s]; simpl; [naive_solver|].
    destruct (ascii_dec c d) as [->|Hne].
    + rewrite IH. setoid_rewrite sapp_cons. naive_solver.
    + setoid_rewrite sapp_cons. naive_solver.
Qed.

Lemma HasPrefix_app s p : HasPrefix (p +:+ s) p = true.
Proof. apply HasPrefix_spec. by eexists. Qed.

Lemma HasPrefix_nil s : HasPrefix s EmptyString = true.
Proof. by destruct s. Qed.

Lemma HasPrefix_cons c s d p :
  HasPrefix (String c s) (String d p) = Ascii.eqb d c && HasPrefix s p.
Proof.
  unfold HasPrefix. simpl. destruct (ascii_dec d c) as [->|Hne].
  - by rewrite Ascii.eqb_refl.
  - by apply Ascii.eqb_neq in Hne as ->.
Qed.

Lemma sdrop_app s t : sdrop (String.length s) (s +:+ t) = t.
Proof. induction s; [by destruct t|]. by rewrite sapp_cons. Qed.

Lemma stake_app s t : stake (String.length s) (s +:+ t) = s.
Proof. induction s as [|c s IH]; [by destruct t|]. rewrite sapp_cons. simpl. by rewrite IH. Qed.

Lemma TrimPrefix_app s p : TrimPrefix (p +:+ s) p = s.
Proof. unfold TrimPrefix. by rewrite HasPrefix_app, sdrop_app. Qed.

Lemma TrimSuffix_app s p : TrimSuffix (s +:+ p) p = s.
Proof.
  unfold TrimSuffix, HasSuffix. rewrite slength_app.
  replace (String.length s + String.length p - String.length p)%nat with (String.length s) by lia.
  rewrite sdrop_app, stake_app, String.eqb_refl.
  by rewrite (proj2 (Nat.leb_le _ _)) by lia.
Qed.

(** ** Bytes that do not occur *)

Lemma free_of_app c s t : free_of c (s +:+ t) = free_of c s && free_of c t.
Proof.
  induction s as [|d s IH]; [done|]. rewrite sapp_cons. simpl. rewrite IH.
  by rewrite andb_assoc.
Qed.

Lemma free_of_stake c n s : free_of c s = true -> free_of c (stake n s) = true.
Proof.
  revert s. induction n as [|n IH]; intros [|d s]; try done. simpl. intros [-> H]%andb_prop. by apply IH.
Qed.

(** The number of bytes before the first [c]. *)
Fixpoint first_at (c : ascii) (s : string) : nat :=
  match s with
  | EmptyString => 0
  | String d s' => if Ascii.eqb d c then 0 else S (first_at c s')
  end.

Lemma first_at_app c s t :
  free_of c s = true -> first_at c (s +:+ t) = (String.length s + first_at c t)%nat.
Proof.
  induction s as [|d s IH]; [done|]. rewrite sapp_cons. simpl.
  intros [Hd Hs]%andb_prop. apply negb_true_iff in Hd. rewrite Hd. by rewrite IH.
Qed.

Lemma first_at_app_found c s t :
  free_of c s = false -> first_at c (s +:+ t) = first_at c s.
Proof.
  induction s as [|d s IH]; [done|]. rewrite sapp_cons. simpl.
  destruct (Ascii.eqb d c); [done|]. simpl. intros. by rewrite IH.
Qed.

Lemma HasPrefix_first_at c s p :
  HasPrefix s p = true -> free_of c p = false -> first_at c s = first_at c p.
Proof. intros [t ->]%HasPrefix_spec Hp. by apply first_at_app_found. Qed.

(** ** [Split] *)

Lemma split_go_skip sep s t : split_go sep (String.length s) (s +:+ t) = split_go sep 0 t.
Proof. induction s as [|c s IH]; [done|]. by rewrite sapp_cons. Qed.

Lemma Split_here sep c s :
  Split (String c sep +:+ s) (String c sep) = EmptyString :: Split s (String c sep).
Proof.
  unfold Split. rewrite sapp_cons.
  change (split_go (String c sep) 0 (String c (sep +:+ s))) with
    (if HasPrefix (String c sep +:+ s) (String c sep)
     then EmptyString :: split_go (String c sep) (String.length (String c sep) - 1) (sep +:+ s)
     else cons_head c (split_go (String c sep) 0 (sep +:+ s))).
  rewrite HasPrefix_app. simpl. by rewrite Nat.sub_0_r, split_go_skip.
Qed.

Lemma Split_step sep c s :
  HasPrefix (String c s) sep = false -> Split (String c s) sep = cons_head c (Split s sep).
Proof. unfold Split. simpl. by intros ->. Qed.

(** A separator with a marker byte that is absent from [a] starts nowhere
    inside [a]. *)
Lemma marker_not_prefix c d a sep1 sep2 t :
  free_of d (String c a) = true -> free_of d sep1 = true ->
  HasPrefix (String c a +:+ (sep1 +:+ String d sep2) +:+ t) (sep1 +:+ String d sep2) = false.
Proof.
  intros Ha H1. apply not_true_is_false. intros Hp.
  apply (HasPrefix_first_at d) in Hp.
  - rewrite (first_at_app d (String c a)) in Hp by done.
    rewrite sapp_assoc, !(first_at_app d sep1) in Hp by done.
    rewrite sapp_cons in Hp. simpl in Hp. rewrite Ascii.eqb_refl in Hp. lia.
  - rewrite free_of_app, H1. simpl. by rewrite Ascii.eqb_refl.
Qed.

Lemma Split_free d s sep1 sep2 :
  free_of d s = true -> Split s (sep1 +:+ String d sep2) = [s].
Proof.
  induction s as [|c s IH]; [done|]. intros Hs.
  rewrite Split_step.
  - simpl in Hs. apply andb_prop in Hs as [_ Hs]. by rewrite IH.
  - apply not_true_is_false. intros [t Ht]%HasPrefix_spec.
    rewrite Ht, !free_of_app in Hs. simpl in Hs. rewrite Ascii.eqb_refl in Hs.
    simpl in Hs. by rewrite !andb_false_r in Hs.
Qed.

Lemma Split_marker d a b sep1 sep2 :
  free_of d a = true -> free_of d sep1 = true -> free_of d b = true ->
  Split (a +:+ (sep1 +:+ String d sep2) +:+ b) (sep1 +:+ String d sep2) = [a; b].
Proof.
  intros Ha H1 Hb. induction a as [|c a IH].
  - rewrite sapp_nil_l. destruct sep1 as [|e sep1].
    + rewrite sapp_nil_l. rewrite Split_here. f_equal.
      by apply (Split_free d b EmptyString sep2).
    + rewrite !sapp_cons. rewrite <-sapp_cons, Split_here. f_equal.
      rewrite <-sapp_cons. by apply Split_free.
  - rewrite sapp_cons, Split_step.
    + simpl in Ha. apply andb_prop in Ha as [_ Ha]. by rewrite IH.
    + rewrite <-sapp_cons. by apply marker_not_prefix.
Qed.

(** Splitting at a single byte. *)
Lemma Split_byte d a s :
  free_of d a = true ->
  Split (a +:+ String d s) (String d EmptyString) = a :: Split s (String d EmptyString).
Proof.
  intros Ha. induction a as [|c a IH].
  - apply (Split_here EmptyString d).
  - rewrite sapp_cons, Split_step.
    + simpl in Ha. apply andb_prop in Ha as [_ Ha]. by rewrite IH.
    + rewrite HasPrefix_cons. simpl in Ha. apply andb_prop in Ha as [Hc _].
      apply negb_true_iff in Hc. by rewrite Ascii.eqb_sym, Hc.
Qed.

Lemma Split_byte_free d s :
  free_of d s = true -> Split s (String d EmptyString) = [s].
Proof. apply (Split_free d s EmptyString). Qed.

Lemma split_go_nonempty sep n s : split_go sep n s <> [].
Proof.
  revert n. induction s as [|c s IH]; intros n; [done|].
  simpl. destruct n; [|apply IH]. case_match; [done|].
  by destruct (split_go sep 0 s).
Qed.

Lemma Join_cons x l sep : l <> [] -> Join (x :: l) sep = x +:+ sep +:+ Join l sep.
Proof. by destruct l. Qed.

Lemma Join_cons_head c l sep : l <> [] -> Join (cons_head c l) sep = String c (Join l sep).
Proof. destruct l as [|h [|? ?]]; done. Qed.

Lemma split_go_join sep c s n :
  (n <= String.length s)%nat ->
  Join (split_go (String c sep) n s) (String c sep) = sdrop n s.
Proof.
  revert n. induction s as [|d s IH]; intros n Hn; [by destruct n|].
  destruct n as [|n]; [|simpl in *; apply IH; lia].
  simpl split_go. destruct (HasPrefix (String d s) (String c sep)) eqn:Hp.
  - rewrite Join_cons by apply split_go_nonempty.
    apply HasPrefix_spec in Hp as [t Ht]. rewrite sapp_cons in Ht. inv Ht.
    simpl. rewrite Nat.sub_0_r, IH, sdrop_app by (rewrite slength_app; lia). done.
  - rewrite Join_cons_head by apply split_go_nonempty. rewrite IH by lia. by destruct s.
Qed.

(** [Join] undoes [Split]. *)
Lemma Join_Split s c sep : Join (Split s (String c sep)) (String c sep) = s.
Proof. unfold Split. rewrite split_go_join by lia. by destruct s. Qed.
