(* ===== verification/Sha256.v ===== *)
(** * SHA-256 and the [%x] verb

    Go's [crypto/sha256] on byte lists (FIPS 180-4), and the hexadecimal
    rendering [fmt.Sprintf] gives a byte slice.  [util.GetReferenceKey] names
    the annotation of a mount target with it, so the model computes the very
    keys the driver writes; the examples at the end are the standard test
    vectors. *)
From S2P Require Import Prelude GoStrings.
From stdpp Require Import options.

Definition mask32 (x : Z) : Z := Z.land x 0xffffffff.
Definition add32 (x y : Z) : Z := mask32 (x + y).
Definition rotr (n x : Z) : Z := Z.lor (Z.shiftr x n) (mask32 (Z.shiftl x (32 - n))).
Definition not32 (x : Z) : Z := Z.lxor x 0xffffffff.

Definition bsig0 (x : Z) : Z := Z.lxor (Z.lxor (rotr 2 x) (rotr 13 x)) (rotr 22 x).
Definition bsig1 (x : Z) : Z := Z.lxor (Z.lxor (rotr 6 x) (rotr 11 x)) (rotr 25 x).
Definition ssig0 (x : Z) : Z := Z.lxor (Z.lxor (rotr 7 x) (rotr 18 x)) (Z.shiftr x 3).
Definition ssig1 (x : Z) : Z := Z.lxor (Z.lxor (rotr 17 x) (rotr 19 x)) (Z.shiftr x 10).
Definition ch (x y z : Z) : Z := Z.lxor (Z.land x y) (Z.land (not32 x) z).
Definition maj (x y z : Z) : Z := Z.lxor (Z.lxor (Z.land x y) (Z.land x z)) (Z.land y z).

(** The constants of the standard are the first 32 bits of the fractional
    parts of the cube roots (round constants) and square roots (initial state)
    of the first primes. *)
Definition is_prime (n : Z) : bool :=
  forallb (fun d => negb (n mod Z.of_nat d =? 0)) (seq 2 (Z.to_nat (Z.sqrt n) - 1)).
Definition primes_below (n : nat) : list Z :=
  List.filter is_prime (map Z.of_nat (seq 2 (n - 2))).

(** The integer cube root of [n], found bit by bit from bit [b] - 1 on. *)
Fixpoint cbrt_from (b : nat) (n acc : Z) : Z :=
  match b with
  | O => acc
  | S b' =>
      let acc' := acc + Z.shiftl 1 (Z.of_nat b') in
      cbrt_from b' n (if acc' * acc' * acc' <=? n then acc' else acc)
  end.

Definition K256 : list Z := Eval vm_compute in
  map (fun p => mask32 (cbrt_from 36 (Z.shiftl p 96) 0)) (primes_below 312).

Record hstate := HState { h0 : Z; h1 : Z; h2 : Z; h3 : Z; h4 : Z; h5 : Z; h6 : Z; h7 : Z }.

Definition H256 : hstate := Eval vm_compute in
  match map (fun p => mask32 (Z.sqrt (Z.shiftl p 64))) (primes_below 20) with
  | [a; b; c; d; e; f; g; h] => HState a b c d e f g h
  | _ => HState 0 0 0 0 0 0 0 0
  end.

(** One round with round constant [k] and schedule word [w]. *)
Definition sha_round (s : hstate) (k w : Z) : hstate :=
  let t1 := add32 (add32 (add32 (h7 s) (bsig1 (h4 s))) (add32 (ch (h4 s) (h5 s) (h6 s)) k)) w in
  let t2 := add32 (bsig0 (h0 s)) (maj (h0 s) (h1 s) (h2 s)) in
  HState (add32 t1 t2) (h0 s) (h1 s) (h2 s) (add32 (h3 s) t1) (h4 s) (h5 s) (h6 s).

(** The rounds of one block; [win] holds the next sixteen schedule words. *)
Fixpoint rounds (ks : list Z) (win : list Z) (s : hstate) : hstate :=
  match ks, win with
  | k :: ks', w0 :: win' =>
      let w t := nth t win 0 in
      let new := add32 (add32 (ssig1 (w 14%nat)) (w 9%nat)) (add32 (ssig0 (w 1%nat)) w0) in
      rounds ks' (win' ++ [new]) (sha_round s k w0)
  | _, _ => s
  end.

Definition hadd (a b : hstate) : hstate :=
  HState (add32 (h0 a) (h0 b)) (add32 (h1 a) (h1 b)) (add32 (h2 a) (h2 b)) (add32 (h3 a) (h3 b))
         (add32 (h4 a) (h4 b)) (add32 (h5 a) (h5 b)) (add32 (h6 a) (h6 b)) (add32 (h7 a) (h7 b)).

(** Big-endian words of a byte list, four bytes each. *)
Fixpoint words (l : list Z) : list Z :=
  match l with
  | a :: b :: c :: d :: l' =>
      (Z.shiftl a 24 + Z.shiftl b 16 + Z.shiftl c 8 + d) :: words l'
  | _ => []
  end.

Fixpoint blocks (n : nat) (ws : list Z) (s : hstate) : hstate :=
  match n with
  | O => s
  | S n' => blocks n' (drop 16 ws) (hadd s (rounds K256 (take 16 ws) s))
  end.

Definition be_bytes (n : nat) (x : Z) : list Z :=
  map (fun i => Z.land (Z.shiftr x (8 * Z.of_nat i)) 0xff) (rev (seq 0 n)).

(** Padding: a one bit, zeroes, and the 64-bit length in bits. *)
Definition sha_pad (l : list Z) : list Z :=
  let n := Z.of_nat (length l) in
  let z := Z.to_nat ((55 - n) mod 64) in
  l ++ [0x80] ++ repeat 0 z ++ be_bytes 8 (8 * n).

Definition hstate_bytes (s : hstate) : list Z :=
  flat_map (be_bytes 4) [h0 s; h1 s; h2 s; h3 s; h4 s; h5 s; h6 s; h7 s].

Definition Sum256 (l : list Z) : list Z :=
  let p := sha_pad l in
  hstate_bytes (blocks (length p / 64) (words p) H256).

Arguments Sum256 : simpl never.

(** [[]byte(s)]. *)
Definition bytes_of (s : string) : list Z :=
  map (fun c => Z.of_N (Ascii.N_of_ascii c)) (String.list_ascii_of_string s).

Definition hexdigit (n : Z) : ascii :=
  Ascii.ascii_of_N (Z.to_N (if n <? 10 then 48 + n else 87 + n)).

(** [fmt.Sprintf("%x", l)]. *)
Fixpoint hex (l : list Z) : string :=
  match l with
  | [] => EmptyString
  | b :: l' => String (hexdigit (Z.shiftr b 4)) (String (hexdigit (Z.land b 0xf)) (hex l'))
  end.

Lemma length_hex l : String.length (hex l) = (2 * length l)%nat.
Proof. induction l as [|b l IH]; [done|]. simpl. lia. Qed.

Lemma length_be_bytes n x : length (be_bytes n x) = n.
Proof. unfold be_bytes. by rewrite length_map, length_rev, length_seq. Qed.

Lemma length_hstate_bytes s : length (hstate_bytes s) = 32%nat.
Proof. unfold hstate_bytes. simpl. reflexivity. Qed.

Lemma be_bytes_byte n x : Forall (fun b => 0 <= b < 256) (be_bytes n x).
Proof.
  unfold be_bytes. apply Forall_forall. intros b Hb. apply list_elem_of_fmap in Hb as (i & -> & _).
  change 255 with (Z.ones 8). rewrite Z.land_ones by lia. apply Z.mod_pos_bound. lia.
Qed.

Lemma Sum256_byte l : Forall (fun b => 0 <= b < 256) (Sum256 l).
Proof. unfold Sum256, hstate_bytes. cbn [flat_map]. repeat (apply Forall_app; split; [apply be_bytes_byte|]). done. Qed.

Lemma hexdigit_alnum n : 0 <= n < 16 -> exists i, hexdigit n = Ascii.ascii_of_nat i /\ (48 <= i <= 57 \/ 97 <= i <= 102)%nat.
Proof.
  intros Hn. unfold hexdigit. exists (Z.to_nat (if n <? 10 then 48 + n else 87 + n)).
  destruct (Z.ltb_spec n 10); (split; [|lia]); unfold Ascii.ascii_of_nat; f_equal; lia.
Qed.

(** Only digits and the letters from a to f. *)
Lemma free_of_hex c l :
  Forall (fun b => 0 <= b < 256) l -> (forall i, (48 <= i <= 57 \/ 97 <= i <= 102)%nat -> Ascii.ascii_of_nat i <> c) ->
  free_of c (hex l) = true.
Proof.
  intros Hl Hc. assert (forall n, 0 <= n < 16 -> Ascii.eqb (hexdigit n) c = false) as Hd.
  { intros n Hn. destruct (hexdigit_alnum n Hn) as (i & -> & Hi). apply Ascii.eqb_neq. by apply Hc. }
  induction Hl as [|b l Hb Hl IH]; [done|]. simpl. rewrite IH, !Hd; [done| |].
  - change 15 with (Z.ones 4). rewrite Z.land_ones by lia. apply Z.mod_pos_bound. lia.
  - rewrite Z.shiftr_div_pow2 by lia. split; [apply Z.div_pos|apply Z.div_lt_upper_bound]; lia.
Qed.

(** The digest has 32 bytes, whatever the message. *)
Lemma length_Sum256 l : length (Sum256 l) = 32%nat.
Proof. apply length_hstate_bytes. Qed.

Example sha_abc :
  hex (Sum256 (bytes_of "abc")) = "ba7816bf8f01cfea414140de5dae2223b00361a396177a9cb410ff61f20015ad".
Proof. vm_compute. reflexivity. Qed.

Example sha_two_blocks :
  hex (Sum256 (bytes_of "abcdbcdecdefdefgefghfghighijhijkijkljklmklmnlmnomnopnopq"))
  = "248d6a61d20638b8e5c026930c3e6039a33ce45964ff2167f6ecedd419db06c1".
Proof. vm_compute. reflexivity. Qed.
