(* ===== verification/GoPath.v ===== *)
(** * Go's [path/filepath] on Unix

    [Clean], [Join] and [Base] of Go's [path/filepath] (the Unix build, where
    [path] and [path/filepath] agree).  [Clean] is given by its documented
    effect on the list of path elements.  The lemmas say when the paths the
    driver builds with [Join] are what they look like: joining a clean
    absolute directory with a plain element appends the element, stays below
    the directory, and [Base] gets the element back. *)
From S2P Require Import Prelude GoStrings.
From stdpp Require Import options.

Definition slash : string := "/".

(** The element stack of [Clean], the last element first. *)
Definition clean_step (rooted : bool) (stack : list string) (e : string) : list string :=
  if String.eqb e EmptyString || String.eqb e "." then stack
  else if String.eqb e ".." then
    match stack with
    | top :: rest => if String.eqb top ".." then ".." :: stack else rest
    | [] => if rooted then [] else [".."]
    end
  else e :: stack.

Definition is_rooted (p : string) : bool := HasPrefix p "/".

Definition clean_elems (p : string) : list string :=
  rev (fold_left (clean_step (is_rooted p)) (Split p "/") []).

(** [filepath.Clean]. *)
Definition Clean (p : string) : string :=
  let body := Join (clean_elems p) "/" in
  if is_rooted p then "/" +:+ body
  else if String.eqb body EmptyString then "." else body.

(** [filepath.Join]: the empty elements at the front are ignored. *)
Fixpoint PathJoin (elems : list string) : string :=
  match elems with
  | [] => EmptyString
  | e :: rest => if String.eqb e EmptyString then PathJoin rest else Clean (Join elems "/")
  end.

(** [filepath.Base]. *)
Definition Base (p : string) : string :=
  if String.eqb p EmptyString then "."
  else
    let q := trim_right is_slash p in
    let i := LastIndex q "/" in
    let b := if 0 <=? i then sdrop (Z.to_nat i + 1) q else q in
    if String.eqb b EmptyString then "/" else b.

(** A plain path element: not empty, not [.] or [..], without a slash. *)
Definition plain (e : string) : bool :=
  negb (String.eqb e EmptyString) && negb (String.eqb e ".") && negb (String.eqb e "..")
  && free_of "/" e.

(** A clean absolute directory other than the root. *)
Definition clean_dir (p : string) : bool :=
  is_rooted p && String.eqb (Clean p) p && negb (String.eqb p "/").

Example clean_ex1 : Clean "/a/../b//./c/" = "/b/c".
Proof. reflexivity. Qed.
Example clean_ex2 : Clean "../a/../../b" = "../../b".
Proof. reflexivity. Qed.
Example clean_ex3 : Clean "/../a" = "/a".
Proof. reflexivity. Qed.
Example join_ex : PathJoin ["/mosfs"; "pvc-1"; EmptyString] = "/mosfs/pvc-1".
Proof. reflexivity. Qed.
Example base_ex : Base "/mosfs/vol_snap" = "vol_snap".
Proof. reflexivity. Qed.

(** ** Elements of a concatenation *)

Lemma Split_slash_head s : Split (String "/" s) "/" = EmptyString :: Split s "/".
Proof. apply (Split_here EmptyString "/"). Qed.

Lemma Split_app_slash a b :
  Split (a +:+ String "/" b) "/" = Split a "/" ++ Split b "/".
Proof.
  induction a as [|c a IH]; [apply Split_slash_head|].
  rewrite sapp_cons. destruct (Ascii.eqb "/" c) eqn:Hc.
  - apply Ascii.eqb_eq in Hc as <-.
    by rewrite !Split_slash_head, IH.
  - rewrite !Split_step by (rewrite HasPrefix_cons, Hc; done).
    rewrite IH. pose proof (split_go_nonempty "/" 0 a) as Hne. fold (Split a "/") in Hne.
    by destruct (Split a "/").
Qed.

Lemma is_rooted_app a b : a <> EmptyString -> is_rooted (a +:+ b) = is_rooted a.
Proof.
  destruct a as [|c a]; [done|]. intros _. unfold is_rooted.
  by rewrite sapp_cons, !HasPrefix_cons, !HasPrefix_nil.
Qed.

Lemma plain_step r st e : plain e = true -> clean_step r st e = e :: st.
Proof.
  unfold plain, clean_step. intros H. bool_prop.
  repeat match goal with H : String.eqb _ _ = false |- _ => rewrite H end. done.
Qed.

Lemma Join_snoc l x : l <> [] -> Join (l ++ [x]) "/" = Join l "/" +:+ "/" +:+ x.
Proof.
  induction l as [|y l IH]; [done|]. intros _. destruct l as [|z l]; [done|].
  rewrite <-app_comm_cons, !Join_cons, IH by (by destruct l). by rewrite !sapp_assoc.
Qed.

Lemma clean_elems_snoc p e :
  p <> EmptyString -> plain e = true ->
  clean_elems (p +:+ "/" +:+ e) = clean_elems p ++ [e].
Proof.
  intros Hp He. unfold clean_elems. rewrite is_rooted_app by done.
  change ("/" +:+ e) with (String "/" e). rewrite Split_app_slash, fold_left_app.
  rewrite (Split_byte_free "/" e).
  - simpl. rewrite plain_step by done. done.
  - unfold plain in He. by apply andb_prop in He as [_ He].
Qed.

Lemma clean_dir_spec p :
  clean_dir p = true ->
  is_rooted p = true /\ p <> EmptyString /\ clean_elems p <> [] /\ p = "/" +:+ Join (clean_elems p) "/".
Proof.
  unfold clean_dir. intros H. bool_prop.
  match goal with H : String.eqb (Clean p) p = true |- _ => apply String.eqb_eq in H; rename H into Hc end.
  match goal with H : String.eqb p "/" = false |- _ => apply String.eqb_neq in H; rename H into Hr end.
  unfold Clean in Hc. rewrite H in Hc. split_and!; [done|by intros ->| |done].
  intros Hn. rewrite Hn in Hc. by rewrite <-Hc in Hr.
Qed.

(** Joining a clean absolute directory with a plain element appends it. *)
Lemma PathJoin_plain p e :
  clean_dir p = true -> plain e = true -> PathJoin [p; e] = p +:+ "/" +:+ e.
Proof.
  intros Hp He. apply clean_dir_spec in Hp as (Hr & Hne & Hel & Heq).
  unfold PathJoin. apply String.eqb_neq in Hne as Hne'. rewrite Hne'.
  change (Join [p; e] "/") with (p +:+ "/" +:+ e). unfold Clean.
  rewrite clean_elems_snoc, is_rooted_app, Hr, Join_snoc by done.
  by rewrite Heq at 2.
Qed.

(** The result is again a clean directory, so that joins compose. *)
Lemma clean_dir_join p e :
  clean_dir p = true -> plain e = true -> clean_dir (p +:+ "/" +:+ e) = true.
Proof.
  intros Hp He. pose proof (PathJoin_plain p e Hp He) as HJ.
  apply clean_dir_spec in Hp as (Hr & Hne & Hel & Heq).
  unfold clean_dir. rewrite is_rooted_app, Hr by done.
  unfold PathJoin in HJ. apply String.eqb_neq in Hne as Hne'. rewrite Hne' in HJ.
  change (Join [p; e] "/") with (p +:+ "/" +:+ e) in HJ. rewrite HJ, String.eqb_refl. simpl.
  apply negb_true_iff, String.eqb_neq. destruct p as [|c p]; [done|].
  rewrite sapp_cons. by destruct p.
Qed.

Lemma trim_right_free f s :
  s <> EmptyString -> sforallb (fun c => negb (f c)) s = true -> trim_right f s = s.
Proof.
  induction s as [|c s IH]; [done|]. intros _ H. simpl in H. apply andb_prop in H as [Hc Hs].
  apply negb_true_iff in Hc. simpl. destruct s as [|d s]; [simpl; by rewrite Hc|].
  by rewrite IH.
Qed.

Lemma trim_right_app f a s :
  s <> EmptyString -> trim_right f s = s -> trim_right f (a +:+ s) = a +:+ s.
Proof.
  intros Hne Hs. induction a as [|c a IH]; [done|]. rewrite sapp_cons. simpl. rewrite IH.
  destruct a; [|done]. rewrite sapp_nil_l. by destruct s.
Qed.

Lemma free_of_sforallb c s : free_of c s = sforallb (fun d => negb (Ascii.eqb d c)) s.
Proof. induction s as [|d s IH]; [done|]. simpl. by rewrite IH. Qed.

Lemma LastIndex_free c s : free_of c s = true -> LastIndex s (String c EmptyString) = -1.
Proof.
  induction s as [|d s IH]; [done|]. simpl. intros [Hd Hs]%andb_prop. rewrite IH by done.
  apply negb_true_iff in Hd. rewrite HasPrefix_cons, Ascii.eqb_sym, Hd. done.
Qed.

(** The last occurrence of a byte absent from the tail. *)
Lemma LastIndex_app c a s :
  free_of c s = true ->
  LastIndex (a +:+ String c s) (String c EmptyString) = Z.of_nat (String.length a).
Proof.
  intros Hs. induction a as [|d a IH].
  - rewrite sapp_nil_l. simpl. rewrite LastIndex_free by done.
    simpl. by rewrite HasPrefix_cons, Ascii.eqb_refl, HasPrefix_nil.
  - rewrite sapp_cons. simpl. rewrite IH.
    rewrite (proj2 (Z.ltb_ge _ _)) by lia. lia.
Qed.

Lemma Base_app p e : plain e = true -> Base (p +:+ "/" +:+ e) = e.
Proof.
  unfold plain. intros H. bool_prop.
  match goal with H : String.eqb e EmptyString = false |- _ => rename H into He end.
  apply String.eqb_neq in He as Hne.
  assert (trim_right is_slash (p +:+ "/" +:+ e) = p +:+ "/" +:+ e) as Htr.
  { rewrite <-sapp_assoc. apply trim_right_app; [done|]. apply trim_right_free; [done|].
    change (sforallb (fun d => negb (Ascii.eqb d "/")) e = true). by rewrite <-free_of_sforallb. }
  unfold Base. rewrite Htr. change ("/" +:+ e) with (String "/" e).
  rewrite LastIndex_app by done.
  replace (String.eqb (p +:+ String "/" e) EmptyString) with false by (by destruct p).
  rewrite (proj2 (Z.leb_le _ _)) by lia.
  replace (Z.to_nat (Z.of_nat (String.length p)) + 1)%nat
    with (String.length (p +:+ "/")) by (rewrite slength_app; simpl; lia).
  change (String "/" e) with ("/" +:+ e). rewrite <-sapp_assoc, sdrop_app, He. done.
Qed.

#[export] Hint Rewrite PathJoin_plain using done : gostr.

(** *** Absolute paths *)

Lemma Split_slash_free s : Forall (fun e => free_of "/" e = true) (Split s "/").
Proof.
  induction s as [|c s IH]; [by repeat constructor|].
  destruct (Ascii.eqb_spec c "/") as [->|Hc]; [rewrite Split_slash_head; by constructor|].
  rewrite Split_step by (rewrite HasPrefix_cons, HasPrefix_nil, andb_true_r; apply Ascii.eqb_neq; congruence).
  assert (Hn : free_of "/" (String c EmptyString) = true) by (simpl; apply Ascii.eqb_neq in Hc; by rewrite Hc).
  simpl in Hn. rewrite andb_true_r in Hn. destruct (Split s "/") as [|h l]; inv IH; cbn [cons_head].
  - constructor; [|done]. simpl. by rewrite Hn.
  - constructor; [|done]. simpl. by rewrite Hn.
Qed.

Lemma clean_step_plain st e :
  free_of "/" e = true -> Forall (fun e => plain e = true) st -> Forall (fun e => plain e = true) (clean_step true st e).
Proof.
  intros He Hst. unfold clean_step. destruct (String.eqb e EmptyString) eqn:H1; [done|].
  destruct (String.eqb e ".") eqn:H2; [done|]. simpl. destruct (String.eqb e "..") eqn:H3.
  - destruct Hst as [|top st Ht Hst]; [done|]. unfold plain in Ht. destruct (String.eqb top ".."); [|done].
    by rewrite !andb_false_r in Ht.
  - constructor; [|done]. unfold plain. by rewrite H1, H2, H3, He.
Qed.

Lemma clean_elems_plain p : is_rooted p = true -> Forall (fun e => plain e = true) (clean_elems p).
Proof.
  intros Hp. unfold clean_elems. rewrite Hp. apply Forall_rev.
  assert (forall l st, Forall (fun e => free_of "/" e = true) l -> Forall (fun e => plain e = true) st ->
            Forall (fun e => plain e = true) (fold_left (clean_step true) l st)) as Hf.
  { induction l as [|e l IH]; intros st Hl Hst; [done|]. inv Hl. apply IH; [done|]. by apply clean_step_plain. }
  apply Hf; [apply Split_slash_free|done].
Qed.

(** A path joined to the root is absolute and has no relative parts. *)
Lemma PathJoin_root addr :
  exists l, Forall (fun e => plain e = true) l /\ PathJoin ["/"; addr] = "/" +:+ Join l "/".
Proof.
  exists (clean_elems (Join ["/"; addr] "/")). split; [by apply clean_elems_plain|].
  change (Clean (Join ["/"; addr] "/") = "/" +:+ Join (clean_elems (Join ["/"; addr] "/")) "/").
  unfold Clean. by replace (is_rooted (Join ["/"; addr] "/")) with true.
Qed.
