(* ===== verification/GoTime.v ===== *)
(** * Go's [time] and [strconv]

    What the driver uses of Go's [time] package: [ParseDuration],
    [Time.Format] and [time.Parse] for the layout [2006-01-02 15:04:05], and
    [strconv.Atoi].  An instant is the number of nanoseconds since the Unix
    epoch (a [Z]); a local time is the instant seen through a zone offset in
    seconds.  The Gregorian calendar is computed from the day number with the
    400-year cycle; the conversion is checked on every day of one cycle, which
    gives the round trip of [Format] and [Parse] for every date with a
    four-digit year. *)
From S2P Require Import Prelude GoStrings.
From stdpp Require Import pretty.
From stdpp Require Import options.
#[local] Open Scope Z_scope.

(** ** Decimal digits *)

Definition is_digit (c : ascii) : bool :=
  let n := Ascii.nat_of_ascii c in (48 <=? n)%nat && (n <=? 57)%nat.
Definition digit_val (c : ascii) : Z := Z.of_nat (Ascii.nat_of_ascii c) - 48.
Definition digit_of (n : Z) : ascii := Ascii.ascii_of_nat (Z.to_nat (48 + n)).

Definition maxInt64 : Z := 9223372036854775807.
Definition minInt64 : Z := -9223372036854775808.

(** What 64-bit arithmetic makes of an exact result. *)
Definition wrap64 (x : Z) : Z := (x + 2 ^ 63) mod 2 ^ 64 - 2 ^ 63.

(** The digits of [s], most significant first, as a number. *)
Fixpoint digits_val (acc : Z) (s : string) : Z :=
  match s with
  | EmptyString => acc
  | String c s' => digits_val (acc * 10 + digit_val c) s'
  end.

(** [strconv.Atoi] on a 64-bit platform. *)
Definition Atoi (s : string) : option Z :=
  let '(neg, body) :=
    match s with
    | String c s' => if Ascii.eqb c "-" then (true, s')
                     else if Ascii.eqb c "+" then (false, s') else (false, s)
    | EmptyString => (false, s)
    end in
  if String.eqb body EmptyString then None
  else if sforallb is_digit body then
    let n := (if neg then -1 else 1) * digits_val 0 body in
    if (minInt64 <=? n) && (n <=? maxInt64) then Some n else None
  else None.

(** [fmt.Sprintf("%d", n)]. *)
Definition itoa (n : Z) : string := pretty n.

(** ** Durations *)

Fixpoint span (f : ascii -> bool) (s : string) : string * string :=
  match s with
  | EmptyString => (EmptyString, EmptyString)
  | String c s' => if f c then let (a, b) := span f s' in (String c a, b) else (EmptyString, s)
  end.

Definition unitMap (u : string) : option Z :=
  if String.eqb u "ns" then Some 1
  else if String.eqb u "us" || String.eqb u "µs" || String.eqb u "μs" then Some 1000
  else if String.eqb u "ms" then Some 1000000
  else if String.eqb u "s" then Some 1000000000
  else if String.eqb u "m" then Some 60000000000
  else if String.eqb u "h" then Some 3600000000000
  else None.

(** [leadingInt]: [None] on overflow of an [int64]. *)
Fixpoint leadingInt (x : Z) (s : string) : option Z :=
  match s with
  | EmptyString => Some x
  | String c s' =>
      if maxInt64 / 10 <? x then None
      else let y := x * 10 + digit_val c in
           if maxInt64 <? y then None else leadingInt y s'
  end.

(** One [number unit] group.  The fraction is taken exactly, where Go rounds
    it through a [float64]. *)
Definition parse_group (s : string) : option (Z * string) :=
  let (ds, s1) := span is_digit s in
  v ← leadingInt 0 ds;
  let '(fs, s2) := match s1 with
                   | String c s1' => if Ascii.eqb c "." then span is_digit s1' else (EmptyString, s1)
                   | EmptyString => (EmptyString, s1)
                   end in
  if String.eqb ds EmptyString && String.eqb fs EmptyString then None
  else
    let (u, s3) := span (fun c => negb (Ascii.eqb c "." || is_digit c)) s2 in
    unit ← unitMap u;
    if maxInt64 / unit <? v then None
    else
      let frac := digits_val 0 fs * unit / 10 ^ Z.of_nat (String.length fs) in
      let r := v * unit + frac in
      if maxInt64 <? r then None else Some (r, s3).

(** Every group consumes a byte, so the length of the string is enough fuel. *)
Fixpoint parse_groups (fuel : nat) (d : Z) (s : string) : option Z :=
  match s, fuel with
  | EmptyString, _ => Some d
  | _, O => None
  | _, S fuel' =>
      '(v, s') ← parse_group s;
      let d' := d + v in
      if maxInt64 <? d' then None else parse_groups fuel' d' s'
  end.

(** [time.ParseDuration], in nanoseconds. *)
Definition ParseDuration (s : string) : option Z :=
  let '(neg, body) :=
    match s with
    | String c s' => if Ascii.eqb c "-" then (true, s')
                     else if Ascii.eqb c "+" then (false, s') else (false, s)
    | EmptyString => (false, s)
    end in
  if String.eqb body "0" then Some 0
  else if String.eqb body EmptyString then None
  else d ← parse_groups (String.length body) 0 body; Some (if neg : bool then - d else d).

Arguments ParseDuration : simpl never.

Example dur_ex1 : ParseDuration "1h30m" = Some 5400000000000.
Proof. reflexivity. Qed.
Example dur_ex2 : ParseDuration "-1.5s" = Some (-1500000000).
Proof. reflexivity. Qed.
Example dur_ex3 : ParseDuration "10" = None /\ ParseDuration EmptyString = None.
Proof. split; reflexivity. Qed.

(** ** The calendar

    [absDate] and [daysSinceEpoch] of Go's [time] package, counting from
    1 January of year 1 (Go counts from an earlier year of the same position
    in the 400-year cycle, so that the remainders agree). *)

Record civil := Civil { c_year : Z; c_month : Z; c_day : Z }.

Definition is_leap (y : Z) : bool :=
  (y mod 4 =? 0) && (negb (y mod 100 =? 0) || (y mod 400 =? 0)).

Definition daysIn (m y : Z) : Z :=
  if m =? 2 then (if is_leap y then 29 else 28)
  else if (m =? 4) || (m =? 6) || (m =? 9) || (m =? 11) then 30 else 31.

(** Days of a common year before the month with index [m] (0 is January). *)
Definition daysBefore (m : Z) : Z :=
  nth (Z.to_nat m) [0; 31; 59; 90; 120; 151; 181; 212; 243; 273; 304; 334; 365] 365.

(** Year and day of the year of a day number. *)
Definition year_yday (d : Z) : Z * Z :=
  let n400 := d / 146097 in
  let d1 := d - 146097 * n400 in
  let q100 := d1 / 36524 in
  let n100 := q100 - q100 / 4 in
  let d2 := d1 - 36524 * n100 in
  let n4 := d2 / 1461 in
  let d3 := d2 - 1461 * n4 in
  let q1 := d3 / 365 in
  let n1 := q1 - q1 / 4 in
  (400 * n400 + 100 * n100 + 4 * n4 + n1 + 1, d3 - 365 * n1).

(** Month and day of a day of the year. *)
Definition month_day (leap : bool) (yday : Z) : Z * Z :=
  if leap && (yday =? 59) then (2, 29)
  else
    let day := if leap && (59 <? yday) then yday - 1 else yday in
    let m := day / 31 in
    if daysBefore (m + 1) <=? day then (m + 2, day - daysBefore (m + 1) + 1)
    else (m + 1, day - daysBefore m + 1).

(** Day number (1970-01-01 is day 0) to date. *)
Definition civil_of_days (z : Z) : civil :=
  let '(y, yd) := year_yday (z + 719162) in
  let '(m, d) := month_day (is_leap y) yd in
  Civil y m d.

(** The days before 1 January of a year. *)
Definition daysSinceEpoch (year : Z) : Z :=
  let y := year - 1 in
  let n400 := y / 400 in
  let y1 := y - 400 * n400 in
  let n100 := y1 / 100 in
  let y2 := y1 - 100 * n100 in
  let n4 := y2 / 4 in
  146097 * n400 + 36524 * n100 + 1461 * n4 + 365 * (y2 - 4 * n4).

(** Date to day number. *)
Definition days_of_civil (c : civil) : Z :=
  daysSinceEpoch (c_year c) + daysBefore (c_month c - 1)
  + (if is_leap (c_year c) && (3 <=? c_month c) then 1 else 0)
  + (c_day c - 1) - 719162.

(** ** [Format] and [Parse] for the layout [2006-01-02 15:04:05] *)

Definition pad2 (n : Z) : string :=
  String (digit_of (n / 10)) (String (digit_of (n mod 10)) EmptyString).

Definition pad4 (n : Z) : string := pad2 (n / 100) +:+ pad2 (n mod 100).

(** [appendInt(year, 4)]. *)
Definition fmt_year (y : Z) : string :=
  if (0 <=? y) && (y <=? 9999) then pad4 y else itoa y.

Definition nanos : Z := 1000000000.

(** [t.Format("2006-01-02 15:04:05")] for the instant [t] (nanoseconds) in the
    zone at [off] seconds east of UTC. *)
Definition Format (off t : Z) : string :=
  let s := t / nanos + off in
  let c := civil_of_days (s / 86400) in
  let r := s mod 86400 in
  fmt_year (c_year c) +:+ "-" +:+ pad2 (c_month c) +:+ "-" +:+ pad2 (c_day c) +:+ " " +:+
  pad2 (r / 3600) +:+ ":" +:+ pad2 (r / 60 mod 60) +:+ ":" +:+ pad2 (r mod 60).

(** [getnum(value, fixed)]: one or two digits, exactly two when [fixed]. *)
Definition getnum (fixed : bool) (s : string) : option (Z * string) :=
  match s with
  | String a s' =>
      if is_digit a then
        match s' with
        | String b s'' => if is_digit b then Some (digit_val a * 10 + digit_val b, s'')
                          else if fixed then None else Some (digit_val a, s')
        | EmptyString => if fixed then None else Some (digit_val a, s')
        end
      else None
  | EmptyString => None
  end.

(** A literal byte of the layout. *)
Definition lit (c : ascii) (s : string) : option string :=
  match s with
  | String d s' => if Ascii.eqb d c then Some s' else None
  | EmptyString => None
  end.

(** A run of spaces where the layout has a space. *)
Definition skip_space (s : string) : option string :=
  match s with
  | EmptyString => Some EmptyString
  | String d _ => if Ascii.eqb d " " then Some (trim_left (Ascii.eqb " ") s) else None
  end.

(** The four digits of the year. *)
Definition getyear (s : string) : option (Z * string) :=
  match s with
  | String a (String b (String c (String d s'))) =>
      if is_digit a && is_digit b && is_digit c && is_digit d
      then Some (((digit_val a * 10 + digit_val b) * 10 + digit_val c) * 10 + digit_val d, s')
      else None
  | _ => None
  end.

(** Seconds may carry a fraction the layout does not mention. *)
Definition getfraction (s : string) : Z * string :=
  match s with
  | String c (String d s') =>
      if Ascii.eqb c "." && is_digit d then
        let (ds, rest) := span is_digit (String d s') in
        (digits_val 0 (stake 9 ds) * 10 ^ (9 - Z.of_nat (String.length (stake 9 ds))), rest)
      else (0, s)
  | _ => (0, s)
  end.

(** [time.Parse("2006-01-02 15:04:05", s)]: the instant, in UTC. *)
Definition ParseTime (s : string) : option Z :=
  '(y, s) ← getyear s;
  s ← lit "-" s;
  '(mo, s) ← getnum true s;
  if (mo <=? 0) || (12 <? mo) then None else
  s ← lit "-" s;
  '(d, s) ← getnum true s;
  s ← skip_space s;
  '(h, s) ← getnum false s;
  if 24 <=? h then None else
  s ← lit ":" s;
  '(mi, s) ← getnum true s;
  if 60 <=? mi then None else
  s ← lit ":" s;
  '(sec, s) ← getnum true s;
  if 60 <=? sec then None else
  let (ns, s) := getfraction s in
  if negb (String.eqb s EmptyString) then None else
  if (d <? 1) || (daysIn mo y <? d) then None else
  Some ((days_of_civil (Civil y mo d) * 86400 + h * 3600 + mi * 60 + sec) * nanos + ns).

Arguments Format : simpl never.
Arguments ParseTime : simpl never.

Example format_ex : Format 0 1700000000123456789 = "2023-11-14 22:13:20".
Proof. vm_compute. reflexivity. Qed.
Example parse_ex : ParseTime "2023-11-14 22:13:20" = Some 1700000000000000000.
Proof. vm_compute. reflexivity. Qed.
Example parse_leap : ParseTime "2023-02-29 00:00:00" = None /\ ParseTime "2024-02-29 00:00:00" <> None.
Proof. by vm_compute. Qed.

(** ** The calendar round trip *)

#[local] Ltac Zify.zify_post_hook ::= Z.div_mod_to_equations.

(** The position of a day in the cycles of 400, 100, 4 and 1 years. *)
Lemma year_yday_parts d :
  exists n400 n100 n4 n1 yd,
    year_yday d = (400 * n400 + 100 * n100 + 4 * n4 + n1 + 1, yd) /\
    0 <= n100 <= 3 /\ 0 <= n4 <= 24 /\ 0 <= n1 <= 3 /\ 0 <= yd <= 365 /\
    (yd = 365 -> n1 = 3 /\ (n4 = 24 -> n100 = 3)) /\
    d = 146097 * n400 + 36524 * n100 + 1461 * n4 + 365 * n1 + yd.
Proof.
  unfold year_yday. do 5 eexists. split; [reflexivity|].
  set (n400 := d / 146097). set (d1 := d - 146097 * n400).
  assert (0 <= d1 < 146097) by (unfold d1, n400; lia).
  set (q100 := d1 / 36524). set (n100 := q100 - q100 / 4).
  set (d2 := d1 - 36524 * n100).
  assert (0 <= n100 <= 3 /\ 0 <= d2 <= 36524 /\ (d2 = 36524 -> n100 = 3))
    by (unfold d2, n100, q100; lia).
  set (n4 := d2 / 1461). set (d3 := d2 - 1461 * n4).
  assert (0 <= n4 <= 24 /\ 0 <= d3 <= 1460 /\ (d3 = 1460 -> n4 = 24 -> n100 = 3))
    by (unfold d3, n4; lia).
  set (q1 := d3 / 365). set (n1 := q1 - q1 / 4).
  assert (0 <= n1 <= 3 /\ 0 <= d3 - 365 * n1 <= 365 /\
          (d3 - 365 * n1 = 365 -> n1 = 3 /\ d3 = 1460))
    by (unfold n1, q1; lia).
  assert (d = 146097 * n400 + 36524 * n100 + 1461 * n4 + d3) by (unfold d3, d2, d1; lia).
  split_and!; lia.
Qed.

Lemma daysSinceEpoch_parts n400 n100 n4 n1 :
  0 <= n100 <= 3 -> 0 <= n4 <= 24 -> 0 <= n1 <= 3 ->
  daysSinceEpoch (400 * n400 + 100 * n100 + 4 * n4 + n1 + 1)
  = 146097 * n400 + 36524 * n100 + 1461 * n4 + 365 * n1.
Proof.
  intros. unfold daysSinceEpoch.
  set (y := 400 * n400 + 100 * n100 + 4 * n4 + n1 + 1 - 1).
  replace (y / 400) with n400 by (unfold y; lia).
  replace ((y - 400 * n400) / 100) with n100 by (unfold y; lia).
  replace ((y - 400 * n400 - 100 * n100) / 4) with n4 by (unfold y; lia).
  unfold y. lia.
Qed.

Lemma is_leap_parts n400 n100 n4 :
  0 <= n100 <= 3 -> 0 <= n4 <= 24 -> (n4 = 24 -> n100 = 3) ->
  is_leap (400 * n400 + 100 * n100 + 4 * n4 + 3 + 1) = true.
Proof.
  intros ? ? H24. unfold is_leap. set (y := _ + 3 + 1).
  assert (y mod 4 = 0) as -> by (unfold y; lia).
  destruct (decide (n4 = 24)) as [->|].
  - specialize (H24 eq_refl) as ->. assert (y mod 400 = 0) as -> by (unfold y; lia). by rewrite orb_true_r.
  - assert (y mod 100 <> 0) as Hne
      by (intros [k Hk]%Z.mod_divide; [unfold y in Hk; lia|done]).
    apply Z.eqb_neq in Hne. by rewrite Hne.
Qed.

(** The year a day falls in starts [yday] days before it, and day 365 only
    occurs in leap years. *)
Lemma year_yday_inv d y yd :
  year_yday d = (y, yd) ->
  daysSinceEpoch y + yd = d /\ 0 <= yd <= 365 /\ (yd = 365 -> is_leap y = true).
Proof.
  destruct (year_yday_parts d) as (a & b & c & e & yd' & -> & ? & ? & ? & ? & Hl & Hd).
  intros [= <- <-]. rewrite daysSinceEpoch_parts by lia. split_and!; [lia..|].
  intros H365. destruct (Hl H365) as [-> ?]. by apply is_leap_parts.
Qed.

(** What [month_day] must satisfy on one day of the year. *)
Definition month_day_ok (leap : bool) (yd : Z) : bool :=
  let '(m, d) := month_day leap yd in
  (1 <=? m) && (m <=? 12) && (1 <=? d) && (d <=? 31) &&
  (d <=? (if m =? 2 then (if leap then 29 else 28)
          else if (m =? 4) || (m =? 6) || (m =? 9) || (m =? 11) then 30 else 31)) &&
  (daysBefore (m - 1) + (if leap && (3 <=? m) then 1 else 0) + (d - 1) =? yd).

Lemma month_day_all leap yd :
  0 <= yd <= 365 -> (yd = 365 -> leap = true) -> month_day_ok leap yd = true.
Proof.
  intros Hr Hl.
  assert (forallb (fun n => implb ((n <? 365)%nat || leap) (month_day_ok leap (Z.of_nat n)))
            (seq 0 366) = true) as Hall by (destruct leap; vm_compute; reflexivity).
  rewrite forallb_forall in Hall. specialize (Hall (Z.to_nat yd)).
  rewrite Z2Nat.id in Hall by lia. rewrite in_seq in Hall.
  destruct leap; simpl in *; [rewrite orb_true_r in Hall; apply Hall; lia|].
  rewrite orb_false_r, (proj2 (Nat.ltb_lt _ _)) in Hall by lia. apply Hall; lia.
Qed.

Lemma civil_of_days_spec z c :
  civil_of_days z = c ->
  days_of_civil c = z /\ 1 <= c_month c <= 12 /\ 1 <= c_day c <= daysIn (c_month c) (c_year c) /\
  c_day c <= 31.
Proof.
  intros <-. unfold civil_of_days. destruct (year_yday (z + 719162)) as [y yd] eqn:Hy.
  apply year_yday_inv in Hy as (Hd & Hr & Hl).
  pose proof (month_day_all (is_leap y) yd Hr Hl) as Hm. unfold month_day_ok in Hm.
  destruct (month_day (is_leap y) yd) as [m d]. bool_prop.
  unfold days_of_civil, daysIn. simpl. split_and!; try done; lia.
Qed.

(** A date of the years 1970 to 9999 has a four-digit year. *)
Lemma civil_year_bound z :
  0 <= z < 2932897 -> 1 <= c_year (civil_of_days z) <= 9999.
Proof.
  intros Hz. unfold civil_of_days.
  destruct (year_yday_parts (z + 719162)) as (a & b & c & e & yd & -> & ? & ? & ? & ? & Hl & Hd).
  destruct (month_day _ yd). simpl. lia.
Qed.

(** ** Reading back what was printed *)

Lemma digit_of_ok n : 0 <= n <= 9 -> is_digit (digit_of n) = true /\ digit_val (digit_of n) = n.
Proof.
  intros Hn.
  assert (Hc : n ∈ map Z.of_nat (seq 0 10)).
  { apply list_elem_of_fmap. exists (Z.to_nat n). rewrite elem_of_seq. lia. }
  cbn in Hc. by repeat (apply elem_of_cons in Hc as [->|Hc]; [done|]); apply elem_of_nil in Hc.
Qed.

Lemma getnum_pad2 fixed n s : 0 <= n <= 99 -> getnum fixed (pad2 n +:+ s) = Some (n, s).
Proof.
  intros Hn. unfold pad2. sapp. simpl.
  destruct (digit_of_ok (n / 10)) as [-> ->]; [lia|].
  destruct (digit_of_ok (n mod 10)) as [-> ->]; [lia|].
  do 2 f_equal. lia.
Qed.

Lemma getyear_pad4 n s : 0 <= n <= 9999 -> getyear (pad4 n +:+ s) = Some (n, s).
Proof.
  intros Hn. unfold pad4, pad2. sapp. simpl.
  destruct (digit_of_ok (n / 100 / 10)) as [-> ->]; [lia|].
  destruct (digit_of_ok (n / 100 mod 10)) as [-> ->]; [lia|].
  destruct (digit_of_ok (n mod 100 / 10)) as [-> ->]; [lia|].
  destruct (digit_of_ok (n mod 100 mod 10)) as [-> ->]; [lia|].
  simpl. do 2 f_equal. lia.
Qed.

Lemma lit_here c s : lit c (String c s) = Some s.
Proof. simpl. by rewrite Ascii.eqb_refl. Qed.

Lemma is_digit_not_space c : is_digit c = true -> Ascii.eqb " " c = false.
Proof. intros Hd. apply not_true_is_false. intros Hc%Ascii.eqb_eq. by subst c. Qed.

Lemma skip_space_pad2 n s :
  0 <= n <= 99 -> skip_space (String " " (pad2 n +:+ s)) = Some (pad2 n +:+ s).
Proof.
  intros Hn. unfold pad2, skip_space. sapp. rewrite Ascii.eqb_refl.
  cbn [trim_left]. rewrite Ascii.eqb_refl. cbn [trim_left].
  by rewrite is_digit_not_space by (apply digit_of_ok; lia).
Qed.

(** Formatting an instant in a zone and parsing the text as UTC gives the
    instant, truncated to the second and moved by the zone offset. *)
Lemma ParseTime_Format off t :
  0 <= t / nanos + off < 253402300800 ->
  ParseTime (Format off t) = Some ((t / nanos + off) * nanos).
Proof.
  intros Hs. unfold Format. set (s := t / nanos + off) in *.
  pose proof (civil_year_bound (s / 86400)) as Hy.
  destruct (civil_of_days_spec (s / 86400) _ eq_refl) as (Hdays & Hm & Hd & Hd31).
  set (c := civil_of_days (s / 86400)) in *. specialize (Hy ltac:(lia)).
  unfold ParseTime, fmt_year.
  rewrite (proj2 (Z.leb_le 0 (c_year c))), (proj2 (Z.leb_le (c_year c) 9999)) by lia.
  simpl andb. cbv iota. rewrite getyear_pad4 by lia. cbn [mbind option_bind].
  sapp. rewrite lit_here. cbn [mbind option_bind]. rewrite getnum_pad2 by lia. cbn [mbind option_bind].
  rewrite (proj2 (Z.leb_gt _ _)), (proj2 (Z.ltb_ge _ _)) by lia. simpl orb. cbv iota.
  rewrite lit_here. cbn [mbind option_bind]. rewrite getnum_pad2 by lia. cbn [mbind option_bind].
  rewrite skip_space_pad2 by lia. cbn [mbind option_bind]. rewrite getnum_pad2 by lia. cbn [mbind option_bind].
  rewrite (proj2 (Z.leb_gt _ _)) by lia. rewrite lit_here. cbn [mbind option_bind].
  rewrite getnum_pad2 by lia. cbn [mbind option_bind]. rewrite (proj2 (Z.leb_gt _ _)) by lia.
  rewrite lit_here. cbn [mbind option_bind]. rewrite <-(sapp_nil_r (pad2 (s mod 86400 mod 60))).
  rewrite getnum_pad2 by lia. cbn [mbind option_bind]. rewrite (proj2 (Z.leb_gt _ _)) by lia. simpl.
  rewrite (proj2 (Z.ltb_ge _ _)), (proj2 (Z.ltb_ge _ _)) by lia. simpl.
  replace (Civil (c_year c) (c_month c) (c_day c)) with c by (by destruct c).
  rewrite Hdays. f_equal. rewrite Z.add_0_r. f_equal. clear. lia.
Qed.
