(* ===== verification/Json.v ===== *)
(** * Go's [encoding/json]

    The text [json.Marshal] makes of the values the driver sends, and the
    reading of JSON text.  Strings are bytes: [Marshal] escapes the quote, the
    backslash, control characters, the characters of HTML and the two line
    separators of Unicode, copies other valid UTF-8 and puts the replacement
    character for every invalid byte; the reader joins surrogate pairs and
    puts the replacement character for what is no UTF-8 or half a pair, as Go
    does (Go also gives up at a nesting of more than 10000).  Every value
    whose strings are valid UTF-8 is read back. *)
From stdpp Require Import pretty.
From S2P Require Import Prelude GoStrings GoTime Sha256.
From stdpp Require Import options.
#[local] Open Scope Z_scope.

(** ** Values *)

Inductive json :=
| Jnull
| Jbool (b : bool)
| Jnum (n : Z)
| Jreal (literal : string)     (* with a fraction or an exponent *)
| Jstr (s : string)
| Jarr (l : list json)
| Jobj (l : list (string * json)).

(** ** UTF-8 *)

Definition code (c : ascii) : nat := Ascii.nat_of_ascii c.
Definition between (lo hi : nat) (c : ascii) : bool := (lo <=? code c)%nat && (code c <=? hi)%nat.
Definition continuation (c : ascii) : bool := between 128 191 c.

(** The width of the rune at the front, 0 for a byte that starts none
    ([utf8.DecodeRuneInString]). *)
Definition rune_width (s : string) : nat :=
  match s with
  | EmptyString => 0
  | String c r =>
      if between 0 127 c then 1
      else match r with
      | EmptyString => 0
      | String c1 r1 =>
          if between 194 223 c && continuation c1 then 2
          else match r1 with
          | EmptyString => 0
          | String c2 r2 =>
              if (between 224 224 c && between 160 191 c1 || between 225 236 c && continuation c1
                  || between 237 237 c && between 128 159 c1 || between 238 239 c && continuation c1)
                 && continuation c2 then 3
              else match r2 with
              | EmptyString => 0
              | String c3 _ =>
                  if (between 240 240 c && between 144 191 c1 || between 241 243 c && continuation c1
                      || between 244 244 c && between 128 143 c1) && continuation c2 && continuation c3
                  then 4 else 0
              end
          end
      end
  end%nat.

(** [utf8.ValidString], where [k] bytes of a rune are still to come. *)
Fixpoint valid_go (k : nat) (s : string) : bool :=
  match s with
  | EmptyString => (k =? 0)%nat
  | String c r =>
      match k with
      | S k' => continuation c && valid_go k' r
      | O => negb (rune_width s =? 0)%nat && valid_go (rune_width s - 1) r
      end
  end.
Definition ValidString (s : string) : bool := valid_go 0 s.

(** [string(rune(n))]; a surrogate is no rune. *)
Definition chr (n : Z) : ascii := Ascii.ascii_of_nat (Z.to_nat n).
Definition is_surrogate (n : Z) : bool := (55296 <=? n) && (n <? 57344).
Definition utf8_encode (n : Z) : string :=
  if n <? 128 then String (chr n) EmptyString
  else if n <? 2048 then String (chr (192 + n / 64)) (String (chr (128 + n mod 64)) EmptyString)
  else if n <? 65536 then
    String (chr (224 + n / 4096)) (String (chr (128 + (n / 64) mod 64)) (String (chr (128 + n mod 64)) EmptyString))
  else
    String (chr (240 + n / 262144)) (String (chr (128 + (n / 4096) mod 64))
      (String (chr (128 + (n / 64) mod 64)) (String (chr (128 + n mod 64)) EmptyString))).
Definition replacement : string := utf8_encode 65533.

(** [utf16.DecodeRune]: the rune of a surrogate pair. *)
Definition decode_pair (hi lo : Z) : option Z :=
  if (55296 <=? hi) && (hi <? 56320) && (56320 <=? lo) && (lo <? 57344)
  then Some ((hi - 55296) * 1024 + (lo - 56320) + 65536) else None.

(** ** Writing strings *)

Definition dquote : ascii := Ascii.ascii_of_nat 34.
Definition bslash : ascii := Ascii.ascii_of_nat 92.

(** An ASCII character; [u00] and two hexadecimal digits where there is no
    shorter form. *)
Definition escape (c : ascii) : string :=
  let n := code c in
  if (n =? 34)%nat || (n =? 92)%nat then String bslash (String c EmptyString)
  else if (n =? 10)%nat then String bslash "n"
  else if (n =? 13)%nat then String bslash "r"
  else if (n =? 9)%nat then String bslash "t"
  else if (n <? 32)%nat || (n =? 60)%nat || (n =? 62)%nat || (n =? 38)%nat then
    String bslash ("u00" +:+ String (hexdigit (Z.of_nat n / 16)) (String (hexdigit (Z.of_nat n mod 16)) EmptyString))
  else String c EmptyString.

(** The line separators U+2028 and U+2029, in UTF-8. *)
Definition line_separator (s : string) : option ascii :=
  match s with
  | String c (String c1 (String c2 _)) =>
      if (code c =? 226)%nat && (code c1 =? 128)%nat then
        if (code c2 =? 168)%nat then Some "8"%char else if (code c2 =? 169)%nat then Some "9"%char else None
      else None
  | _ => None
  end.

(** The body of a string literal; [copy] bytes of a rune are still to be
    copied, or [skip] bytes of a rune that was written as an escape are to be
    left out. *)
Fixpoint quote_go (copy skip : nat) (s : string) : string :=
  match s with
  | EmptyString => EmptyString
  | String c r =>
      match skip, copy with
      | S skip', _ => quote_go 0 skip' r
      | O, S copy' => String c (quote_go copy' 0 r)
      | O, O =>
          match rune_width s with
          | O => String bslash "ufffd" +:+ quote_go 0 0 r
          | 1%nat => escape c +:+ quote_go 0 0 r
          | S k =>
              match line_separator s with
              | Some d => String bslash ("u202" +:+ String d EmptyString) +:+ quote_go 0 k r
              | None => String c (quote_go k 0 r)
              end
          end
      end
  end.
Definition quote (s : string) : string := String dquote (quote_go 0 0 s +:+ String dquote EmptyString).

(** ** Writing values *)

(** Elements are put on lines of their own: [nl] is the line break with the
    indentation of the enclosing value, [step] what is added to it, and
    [colon] what stands between a name and its value. *)
Section print.
Context (step colon : string).

Definition bracket (left right nl : string) (l : list string) : string :=
  match l with
  | [] => left +:+ right
  | _ => left +:+ nl +:+ step +:+ Join l ("," +:+ nl +:+ step) +:+ nl +:+ right
  end.

Fixpoint print (nl : string) (j : json) : string :=
  match j with
  | Jnull => "null"
  | Jbool b => if b then "true" else "false"
  | Jnum n => itoa n
  | Jreal literal => literal
  | Jstr s => quote s
  | Jarr l => bracket "[" "]" nl (map (print (nl +:+ step)) l)
  | Jobj l => bracket "{" "}" nl (map (fun kv => quote (fst kv) +:+ colon +:+ print (nl +:+ step) (snd kv)) l)
  end.
End print.

(** [json.Marshal], and [json.MarshalIndent] with an empty prefix. *)
Definition marshal (j : json) : string := print EmptyString ":" EmptyString j.
Arguments marshal : simpl never.
Definition newline : string := String (Ascii.ascii_of_nat 10) EmptyString.
Definition marshal_indent (indent : string) (j : json) : string := print indent ": " newline j.

(** A Go map is written in the order of its keys. *)
Definition key_le (a b : string * string) : Prop := String.leb (fst a) (fst b) = true.
#[global] Instance key_le_dec : RelDecision key_le.
Proof. intros a b. unfold key_le. apply _. Defined.

Definition sorted_entries (m : gmap string string) : list (string * string) := merge_sort key_le (map_to_list m).
Definition map_json (m : gmap string string) : json := Jobj (map (fun kv => (fst kv, Jstr (snd kv))) (sorted_entries m)).

(** ** Reading *)

Definition hex_val (c : ascii) : option Z :=
  if between 48 57 c then Some (Z.of_nat (code c) - 48)
  else if between 97 102 c then Some (Z.of_nat (code c) - 87)
  else if between 65 70 c then Some (Z.of_nat (code c) - 55)
  else None.

Definition hex4 (a b c d : ascii) : option Z :=
  match hex_val a, hex_val b, hex_val c, hex_val d with
  | Some a, Some b, Some c, Some d => Some (((a * 16 + b) * 16 + c) * 16 + d)
  | _, _, _, _ => None
  end.

Definition short_escape (e : ascii) : option ascii :=
  match code e with
  | 34%nat => Some dquote
  | 92%nat => Some bslash
  | 47%nat => Some "/"%char
  | 98%nat => Some (Ascii.ascii_of_nat 8)
  | 102%nat => Some (Ascii.ascii_of_nat 12)
  | 110%nat => Some (Ascii.ascii_of_nat 10)
  | 114%nat => Some (Ascii.ascii_of_nat 13)
  | 116%nat => Some (Ascii.ascii_of_nat 9)
  | _ => None
  end.

Definition prepend (p : string) (r : option (string * string)) : option (string * string) :=
  match r with Some (s, t) => Some (p +:+ s, t) | None => None end.

(** The string up to the closing quote, and what follows it; [copy] bytes of
    a rune are still to be copied. *)
Fixpoint unquote (copy : nat) (s : string) : option (string * string) :=
  match s with
  | EmptyString => None
  | String c r =>
      match copy with
      | S copy' => prepend (String c EmptyString) (unquote copy' r)
      | O =>
          if Ascii.eqb c dquote then Some (EmptyString, r)
          else if Ascii.eqb c bslash then
            match r with
            | EmptyString => None
            | String e r1 =>
                if Ascii.eqb e "u" then
                  match r1 with
                  | String a (String b (String c (String d r2))) =>
                      match hex4 a b c d with
                      | None => None
                      | Some n =>
                          if negb (is_surrogate n) then prepend (utf8_encode n) (unquote 0 r2)
                          else match r2 with
                               | String b' (String u' (String a1 (String b1 (String c1 (String d1 r3))))) =>
                                   if Ascii.eqb b' bslash && Ascii.eqb u' "u" then
                                     match hex4 a1 b1 c1 d1 ≫= decode_pair n with
                                     | Some p => prepend (utf8_encode p) (unquote 0 r3)
                                     | None => prepend replacement (unquote 0 r2)
                                     end
                                   else prepend replacement (unquote 0 r2)
                               | _ => prepend replacement (unquote 0 r2)
                               end
                      end
                  | _ => None
                  end
                else match short_escape e with
                     | Some x => prepend (String x EmptyString) (unquote 0 r1)
                     | None => None
                     end
            end
          else if (code c <? 32)%nat then None
          else match rune_width s with
               | O => prepend replacement (unquote 0 r)
               | S k => prepend (String c EmptyString) (unquote k r)
               end
      end
  end.

Definition is_ws (c : ascii) : bool := existsb (Nat.eqb (code c)) [32; 9; 10; 13]%nat.
Definition skip_ws (s : string) : string := trim_left is_ws s.

(** A number: an optional sign, digits without a leading zero, a fraction
    and an exponent. *)
Definition digits (s : string) : option (string * string) :=
  let (ds, rest) := span is_digit s in if String.eqb ds EmptyString then None else Some (ds, rest).

Definition int_part (s : string) : option (string * string) :=
  '(ds, rest) ← digits s;
  if HasPrefix ds "0" && negb (String.eqb ds "0") then None else Some (ds, rest).

Definition fraction (s : string) : option (string * string) :=
  match s with
  | String "." r => '(ds, rest) ← digits r; Some (String "." ds, rest)
  | _ => Some (EmptyString, s)
  end.

Definition exponent (s : string) : option (string * string) :=
  match s with
  | String c r =>
      if Ascii.eqb c "e" || Ascii.eqb c "E" then
        match r with
        | String d r' =>
            if Ascii.eqb d "+" || Ascii.eqb d "-"
            then '(ds, rest) ← digits r'; Some (String c (String d ds), rest)
            else '(ds, rest) ← digits r; Some (String c ds, rest)
        | EmptyString => None
        end
      else Some (EmptyString, s)
  | EmptyString => Some (EmptyString, s)
  end.

Definition parse_num (s : string) : option (json * string) :=
  let '(neg, body) := match s with
                      | String c r => if Ascii.eqb c "-" then (true, r) else (false, s)
                      | EmptyString => (false, s)
                      end in
  '(ds, r1) ← int_part body;
  '(f, r2) ← fraction r1;
  '(e, r3) ← exponent r2;
  Some (if String.eqb (f +:+ e) EmptyString
        then Jnum ((if neg : bool then -1 else 1) * digits_val 0 ds)
        else Jreal ((if neg : bool then "-" else EmptyString) +:+ ds +:+ f +:+ e), r3).

Definition expect (c : ascii) (s : string) : option string :=
  match skip_ws s with String d r => if Ascii.eqb c d then Some r else None | EmptyString => None end.

(** The elements after an opening bracket, the first one already due. *)
Fixpoint parse_elems {A} (elem : string -> option (A * string)) (close : ascii) (n : nat) (s : string)
    : option (list A * string) :=
  match n with
  | O => None
  | S n' =>
      match elem s with
      | None => None
      | Some (x, r) =>
          match expect close r with
          | Some r' => Some ([x], r')
          | None =>
              match expect "," r with
              | Some r' => match parse_elems elem close n' r' with
                           | Some (l, r'') => Some (x :: l, r'')
                           | None => None
                           end
              | None => None
              end
          end
      end
  end.

Definition parse_list {A} (elem : string -> option (A * string)) (close : ascii) (n : nat) (s : string)
    : option (list A * string) :=
  match expect close s with
  | Some r => Some ([], r)
  | None => parse_elems elem close n s
  end.

Definition parse_member (value : string -> option (json * string)) (s : string) : option ((string * json) * string) :=
  match expect dquote s with
  | None => None
  | Some r =>
      match unquote 0 r with
      | None => None
      | Some (k, r1) =>
          match expect ":" r1 with
          | None => None
          | Some r2 => match value r2 with Some (v, r3) => Some ((k, v), r3) | None => None end
          end
      end
  end.

(** One value; nesting and lengths are bounded by the fuel. *)
Fixpoint parse_value (fuel : nat) (s : string) : option (json * string) :=
  match fuel with
  | O => None
  | S fuel' =>
      let s := skip_ws s in
      match s with
      | EmptyString => None
      | String c r =>
          if Ascii.eqb c dquote then
            match unquote 0 r with Some (x, t) => Some (Jstr x, t) | None => None end
          else if Ascii.eqb c "[" then
            match parse_list (parse_value fuel') "]" fuel' r with Some (l, t) => Some (Jarr l, t) | None => None end
          else if Ascii.eqb c "{" then
            match parse_list (parse_member (parse_value fuel')) "}" fuel' r with
            | Some (l, t) => Some (Jobj l, t)
            | None => None
            end
          else if HasPrefix s "null" then Some (Jnull, sdrop 4 s)
          else if HasPrefix s "true" then Some (Jbool true, sdrop 4 s)
          else if HasPrefix s "false" then Some (Jbool false, sdrop 5 s)
          else parse_num s
      end
  end.

(** The whole text is one value. *)
Definition parse (s : string) : option json :=
  match parse_value (String.length s) s with
  | Some (j, t) => if String.eqb (skip_ws t) EmptyString then Some j else None
  | None => None
  end.

Example marshal_ex : marshal (Jobj [("a<b", Jarr [Jnum (-5); Jbool true; Jnull]); ("x", Jstr "1&2")]) =
  "{" +:+ quote "a<b" +:+ ":[-5,true,null]," +:+ quote "x" +:+ ":" +:+ quote "1&2" +:+ "}".
Proof. vm_compute. reflexivity. Qed.
Example quote_ex : quote_go 0 0 "1&2" = "1" +:+ String bslash "u00262".
Proof. vm_compute. reflexivity. Qed.
Example parse_json_ex : parse (" { " +:+ quote "k" +:+ " : [ ] , " +:+ quote "é" +:+ ": -12}") =
  Some (Jobj [("k", Jarr []); ("é", Jnum (-12))]).
Proof. vm_compute. reflexivity. Qed.

(** ** Strings are read back *)

Lemma unquote_escape c t :
  between 0 127 c = true -> unquote 0 (escape c +:+ t) = prepend (String c EmptyString) (unquote 0 t).
Proof.
  intros Hc. destruct c as [[] [] [] [] [] [] [] []]; try discriminate Hc; reflexivity.
Qed.

Lemma unquote_high c t k :
  rune_width (String c t) = S k -> (128 <= code c)%nat ->
  unquote 0 (String c t) = prepend (String c EmptyString) (unquote k t).
Proof.
  intros Hw Hc. cbn [unquote].
  assert (forall d, (code d < 128)%nat -> Ascii.eqb c d = false) as Hne.
  { intros d Hd. apply Ascii.eqb_neq. intros ->. lia. }
  rewrite !Hne by (vm_compute; lia). replace (code c <? 32)%nat with false by (symmetry; apply Nat.ltb_ge; lia).
  by rewrite Hw.
Qed.

Lemma prepend_Some p s t r : r = Some (s, t) -> prepend p r = Some (p +:+ s, t).
Proof. by intros ->. Qed.

Lemma continuation_high c : continuation c = true -> (128 <= code c)%nat.
Proof. unfold continuation, between. rewrite andb_true_iff, !Nat.leb_le. lia. Qed.

Lemma line_separator_inv s d :
  line_separator s = Some d ->
  exists c c1 c2 r, s = String c (String c1 (String c2 r)) /\ (code c = 226 /\ code c1 = 128)%nat /\
    (code c2 = 168 /\ d = "8"%char \/ code c2 = 169 /\ d = "9"%char)%nat.
Proof.
  destruct s as [|c [|c1 [|c2 r]]]; try done. simpl. intros H.
  destruct (code c =? 226)%nat eqn:E1; [|done]. destruct (code c1 =? 128)%nat eqn:E2; [|done].
  apply Nat.eqb_eq in E1, E2. exists c, c1, c2, r. split_and!; [done..|].
  destruct (code c2 =? 168)%nat eqn:E3; [apply Nat.eqb_eq in E3; injection H as <-; left; split; [exact E3|done]|].
  destruct (code c2 =? 169)%nat eqn:E4; [apply Nat.eqb_eq in E4; injection H as <-; right; split; [exact E4|done]|done].
Qed.

Lemma code_inj c n : (n < 256)%nat -> code c = n -> c = Ascii.ascii_of_nat n.
Proof. intros _ <-. symmetry. apply Ascii.ascii_nat_embedding. Qed.

Lemma rune_width_low c r : between 0 127 c = true -> rune_width (String c r) = 1%nat.
Proof. intros Hc. unfold rune_width. by rewrite Hc. Qed.

Lemma rune_width_high c r :
  between 0 127 c = false -> rune_width (String c r) <> 1%nat /\ (128 <= code c)%nat.
Proof.
  intros Hc. split.
  - unfold rune_width. rewrite Hc. repeat case_match; lia.
  - unfold between in Hc. simpl in Hc. apply Nat.leb_gt in Hc. lia.
Qed.

(** The width of a rune is that of its own bytes. *)
Lemma rune_width_prefix s s' w :
  rune_width s = w -> (2 <= w)%nat -> stake w s = stake w s' -> rune_width s' = w.
Proof.
  intros Hs Hw Heq.
  destruct s as [|c [|c1 [|c2 [|c3 r]]]]; cbn [rune_width] in Hs;
    repeat case_match; subst w; try lia; cbn [stake] in Heq;
    destruct s' as [|d [|d1 [|d2 [|d3 r']]]]; try discriminate Heq; injection Heq; intros; subst;
    cbn [rune_width]; repeat case_match; congruence.
Qed.

Lemma quote_go_copy k s t : valid_go k s = true -> stake k (quote_go k 0 s +:+ t) = stake k s.
Proof.
  revert s. induction k as [|k IH]; intros s Hv; [done|]. destruct s as [|c r]; [done|].
  simpl in Hv. apply andb_prop in Hv as [_ Hv]. cbn [quote_go]. rewrite sapp_cons. cbn [stake]. by rewrite IH.
Qed.

Lemma unquote_quote_go k s rest :
  valid_go k s = true -> unquote k (quote_go k 0 s +:+ String dquote rest) = Some (s, rest).
Proof.
  remember (String.length s) as n eqn:Hn. revert k s Hn.
  induction n as [n IH] using lt_wf_ind. intros k s -> Hv.
  destruct s as [|c r]; [by destruct k|]. destruct k as [|k].
  2:{ simpl in Hv. apply andb_prop in Hv as [Hc Hv]. cbn [quote_go]. rewrite sapp_cons. cbn [unquote].
      apply (prepend_Some (String c EmptyString)). apply (IH (String.length r)); [simpl; lia|done..]. }
  cbn [valid_go] in Hv. apply andb_prop in Hv as [Hw Hv]. apply negb_true_iff, Nat.eqb_neq in Hw.
  cbn [quote_go]. destruct (between 0 127 c) eqn:Hc.
  { rewrite rune_width_low in Hv |- * by done. rewrite sapp_assoc, unquote_escape by done.
    apply (prepend_Some (String c EmptyString)). apply (IH (String.length r)); [simpl; lia|done..]. }
  destruct (rune_width_high c r Hc) as [Hw1 Hhigh].
  destruct (rune_width (String c r)) as [|[|k]] eqn:Hk; [done..|].
  change (S (S k) - 1)%nat with (S k) in Hv.
  destruct (line_separator (String c r)) as [d|] eqn:Hl.
  2:{ rewrite sapp_cons, (unquote_high _ _ (S k)); [| |done].
      - apply (prepend_Some (String c EmptyString)). apply (IH (String.length r)); [simpl; lia|done..].
      - apply (rune_width_prefix (String c r)); [done|lia|].
        change (String c (stake (S k) r) = String c (stake (S k) (quote_go (S k) 0 r +:+ String dquote rest))).
        by rewrite quote_go_copy. }
  apply line_separator_inv in Hl as (c' & c1 & c2 & r2 & [= <- ->] & [H0 H1] & H2).
  apply (code_inj _ 226) in H0 as ->; [|lia]. apply (code_inj _ 128) in H1 as ->; [|lia].
  assert (k = 1%nat) as ->.
  { revert Hk. destruct H2 as [[H2 _]|[H2 _]]; apply code_inj in H2 as ->; try lia; by intros [=]. }
  assert (valid_go 0 r2 = true) as Hv2.
  { simpl in Hv. by apply andb_prop in Hv as [_ ?]. }
  assert (unquote 0 (quote_go 0 0 r2 +:+ String dquote rest) = Some (r2, rest)) as Hr
    by (apply (IH (String.length r2)); [simpl; lia|done..]).
  cbn [quote_go]. rewrite sapp_assoc.
  destruct H2 as [[H2 ->]|[H2 ->]]; apply code_inj in H2 as ->; try lia;
    exact (prepend_Some _ _ _ _ Hr).
Qed.

Lemma unquote_quote s rest :
  ValidString s = true -> unquote 0 (quote_go 0 0 s +:+ String dquote rest) = Some (s, rest).
Proof. apply unquote_quote_go. Qed.

(** ** Numbers are read back *)

(** What may follow a value: nothing that goes on with a number. *)
Definition delim (s : string) : bool :=
  match s with
  | String c _ => negb (is_digit c || Ascii.eqb c "." || Ascii.eqb c "e" || Ascii.eqb c "E")
  | EmptyString => true
  end.

Lemma delim_digit c s : delim (String c s) = true -> is_digit c = false.
Proof. simpl. by destruct (is_digit c). Qed.

Lemma delim_fraction s : delim s = true -> fraction s = Some (EmptyString, s).
Proof. destruct s as [|c s]; [done|]. intros H. by destruct c as [[] [] [] [] [] [] [] []]. Qed.

Lemma delim_exponent s : delim s = true -> exponent s = Some (EmptyString, s).
Proof.
  destruct s as [|c s]; [done|]. simpl. destruct (Ascii.eqb c "e"), (Ascii.eqb c "E"), (is_digit c), (Ascii.eqb c "."); done.
Qed.

(** No leading zero. *)
Definition canonical (ds : string) : bool := negb (HasPrefix ds "0" && negb (String.eqb ds "0")).

Lemma span_digits ds rest :
  sforallb is_digit ds = true -> delim rest = true -> span is_digit (ds +:+ rest) = (ds, rest).
Proof.
  intros Hd Hr. induction ds as [|c ds IH]; simpl.
  - destruct rest as [|c r]; [done|]. apply delim_digit in Hr. simpl. by rewrite Hr.
  - simpl in Hd. apply andb_prop in Hd as [Hc Hd]. by rewrite Hc, IH.
Qed.

Lemma digits_val_app a s t : digits_val a (s +:+ t) = digits_val (digits_val a s) t.
Proof. revert a. induction s as [|c s IH]; intros a; [done|]. simpl. apply IH. Qed.

Lemma pretty_N_char_digit x :
  (x < 10)%N -> is_digit (pretty_N_char x) = true /\ digit_val (pretty_N_char x) = Z.of_N x.
Proof.
  intros Hx. assert (Hin : x ∈ map N.of_nat (seq 0 10)).
  { apply list_elem_of_fmap. exists (N.to_nat x). rewrite elem_of_seq. lia. }
  cbn in Hin. by repeat (apply elem_of_cons in Hin as [->|Hin]; [done|]); apply elem_of_nil in Hin.
Qed.

(** The digits of a number, put in front of [s]. *)
Lemma pretty_N_go_digits x s :
  exists ds, pretty_N_go x s = ds +:+ s /\ sforallb is_digit ds = true /\ digits_val 0 ds = Z.of_N x /\
    (if decide (x = 0)%N then ds = EmptyString else ds <> EmptyString /\ HasPrefix ds "0" = false).
Proof.
  revert s. induction (N.lt_wf_0 x) as [x _ IH]; intros s.
  destruct (decide (x = 0)%N) as [->|Hx].
  { exists EmptyString. by rewrite pretty_N_go_0. }
  rewrite pretty_N_go_step by lia.
  destruct (IH (x `div` 10)%N) with (s := String (pretty_N_char (x `mod` 10)) s) as (ds & -> & Hd & Hv & Hz);
    [apply N.div_lt; lia|].
  destruct (pretty_N_char_digit (x `mod` 10)) as [Hc Hcv]; [apply N.mod_lt; lia|].
  pose proof (N.div_mod x 10) as Hdm.
  exists (ds +:+ String (pretty_N_char (x `mod` 10)) EmptyString). split_and!.
  - by rewrite sapp_assoc.
  - clear -Hd Hc. induction ds as [|c ds IH]; simpl in *; [by rewrite Hc|]. apply andb_prop in Hd as [-> Hd]. by apply IH.
  - rewrite digits_val_app, Hv. simpl. rewrite Hcv. lia.
  - by destruct ds.
  - destruct (decide (x `div` 10 = 0)%N) as [H0|H0].
    + subst ds. rewrite sapp_nil_l, HasPrefix_cons, HasPrefix_nil, andb_true_r. apply Ascii.eqb_neq. intros Heq.
      rewrite <-Heq in Hcv. change (digit_val "0") with 0 in Hcv. lia.
    + destruct Hz as [Hne Hz]. destruct ds as [|c ds]; [done|].
      rewrite sapp_cons. by rewrite !HasPrefix_cons, !HasPrefix_nil in *.
Qed.

Lemma itoa_digits n :
  exists neg ds, itoa n = (if neg : bool then "-" else EmptyString) +:+ ds /\ sforallb is_digit ds = true /\
    ds <> EmptyString /\ canonical ds = true /\ (if neg then -1 else 1) * digits_val 0 ds = n.
Proof.
  assert (forall p, exists ds, pretty (N.pos p) = ds /\ sforallb is_digit ds = true /\ ds <> EmptyString /\
                      canonical ds = true /\ digits_val 0 ds = Z.pos p) as Hp.
  { intros p. destruct (pretty_N_go_digits (N.pos p) EmptyString) as (ds & Heq & Hd & Hv & Hne & Hz).
    exists ds. rewrite sapp_nil_r in Heq. split_and!; [exact Heq|done|done| |done]. unfold canonical. by rewrite Hz. }
  destruct n as [|p|p].
  - exists false, "0". done.
  - destruct (Hp p) as (ds & Heq & Hd & Hne & Hz & Hv). exists false, ds. split_and!; [exact Heq|done|done|done|lia].
  - destruct (Hp p) as (ds & Heq & Hd & Hne & Hz & Hv). exists true, ds. split_and!; [|done|done|done|lia].
    change (itoa (Z.neg p)) with ("-" +:+ pretty (N.pos p)). by rewrite Heq.
Qed.

Lemma parse_num_itoa n rest : delim rest = true -> parse_num (itoa n +:+ rest) = Some (Jnum n, rest).
Proof.
  intros Hr. destruct (itoa_digits n) as (neg & ds & -> & Hd & Hne & Hz & Hv). unfold parse_num.
  assert ((match (if neg : bool then "-" else EmptyString) +:+ ds +:+ rest with
           | String c r => if Ascii.eqb c "-" then (true, r) else (false, (if neg then "-" else EmptyString) +:+ ds +:+ rest)
           | EmptyString => (false, (if neg then "-" else EmptyString) +:+ ds +:+ rest)
           end) = (neg, ds +:+ rest)) as Hm.
  { destruct neg; [done|]. destruct ds as [|c ds]; [done|]. simpl. destruct (Ascii.eqb_spec c "-") as [->|_]; [|done].
    by simpl in Hd. }
  rewrite sapp_assoc, Hm. unfold int_part, digits. rewrite span_digits by done.
  apply String.eqb_neq in Hne. rewrite Hne. cbn [mbind option_bind]. unfold canonical in Hz. apply negb_true_iff in Hz.
  rewrite Hz. cbn [mbind option_bind]. rewrite delim_fraction by done. cbn [mbind option_bind].
  rewrite delim_exponent by done. cbn. by rewrite Hv.
Qed.

(** ** Values are read back *)

Section json_ind.
Context (P : json -> Prop) (Hnull : P Jnull) (Hbool : forall b, P (Jbool b)) (Hnum : forall n, P (Jnum n)) (Hreal : forall s, P (Jreal s))
  (Hstr : forall s, P (Jstr s)) (Harr : forall l, Forall P l -> P (Jarr l))
  (Hobj : forall l, Forall (fun kv => P (snd kv)) l -> P (Jobj l)).

Fixpoint json_nested_ind (j : json) : P j :=
  match j with
  | Jnull => Hnull
  | Jbool b => Hbool b
  | Jnum n => Hnum n
  | Jreal s => Hreal s
  | Jstr s => Hstr s
  | Jarr l => Harr l ((fix go l := match l return Forall P l with
                                   | [] => List.Forall_nil P
                                   | x :: l => @List.Forall_cons _ P x l (json_nested_ind x) (go l)
                                   end) l)
  | Jobj l => Hobj l ((fix go l := match l return Forall (fun kv => P (snd kv)) l with
                                   | [] => List.Forall_nil (fun kv => P (snd kv))
                                   | kv :: l => @List.Forall_cons _ (fun kv => P (snd kv)) kv l
                                                  (json_nested_ind (snd kv)) (go l)
                                   end) l)
  end.
End json_ind.

Fixpoint valid_json (j : json) : bool :=
  match j with
  | Jstr s => ValidString s
  | Jarr l => forallb valid_json l
  | Jobj l => forallb (fun kv => ValidString (fst kv) && valid_json (snd kv)) l
  | Jreal _ => false
  | _ => true
  end.

Fixpoint jsize (j : json) : nat :=
  match j with
  | Jarr l => S (list_sum (map jsize l))
  | Jobj l => S (list_sum (map (fun kv => jsize (snd kv)) l))
  | _ => 1
  end.

Lemma jsize_pos j : (1 <= jsize j)%nat.
Proof. destruct j; simpl; lia. Qed.

Lemma list_sum_map_le {A} (f g : A -> nat) l :
  Forall (fun x => f x <= g x)%nat l -> (list_sum (map f l) <= list_sum (map g l))%nat.
Proof. induction 1; simpl; lia. Qed.

Lemma list_sum_map_elem {A} (f : A -> nat) l x : x ∈ l -> (f x <= list_sum (map f l))%nat.
Proof. induction 1; simpl; lia. Qed.

Lemma length_Join l sep : (list_sum (map String.length l) <= String.length (Join l sep))%nat.
Proof.
  induction l as [|x l IH]; [simpl; lia|]. destruct l as [|y l]; [simpl; lia|].
  change (Join (x :: y :: l) sep) with (x +:+ sep +:+ Join (y :: l) sep).
  rewrite !slength_app. simpl in *. lia.
Qed.

(** *** Blanks *)

Definition blank (s : string) : bool := sforallb is_ws s.

Lemma skip_ws_blank w s : blank w = true -> skip_ws (w +:+ s) = skip_ws s.
Proof.
  induction w as [|c w IH]; [done|]. intros [Hc Hw]%andb_prop. unfold skip_ws in *. cbn [trim_left].
  rewrite sapp_cons. cbn [trim_left]. rewrite Hc. by apply IH.
Qed.

Lemma blank_app a b : blank a = true -> blank b = true -> blank (a +:+ b) = true.
Proof. unfold blank. induction a as [|c a IH]; [done|]. simpl. intros [-> Ha]%andb_prop Hb. by apply IH. Qed.

Lemma delim_blank w s : blank w = true -> delim s = true -> delim (w +:+ s) = true.
Proof.
  destruct w as [|c w]; [done|]. intros [Hc _]%andb_prop _. rewrite sapp_cons. simpl.
  destruct c as [[] [] [] [] [] [] [] []]; try discriminate Hc; reflexivity.
Qed.

Lemma expect_blank c w s : blank w = true -> expect c (w +:+ s) = expect c s.
Proof. intros Hw. unfold expect. by rewrite skip_ws_blank. Qed.

Lemma parse_value_blank fuel w s : blank w = true -> parse_value fuel (w +:+ s) = parse_value fuel s.
Proof. intros Hw. destruct fuel as [|fuel]; [done|]. cbn [parse_value]. by rewrite skip_ws_blank. Qed.

Lemma parse_member_blank value w s : blank w = true -> parse_member value (w +:+ s) = parse_member value s.
Proof. intros Hw. unfold parse_member. by rewrite expect_blank. Qed.

(** A value starts a text that is neither a blank nor a closing bracket. *)
Definition starts (close : ascii) (s : string) : Prop :=
  exists c t, s = String c t /\ is_ws c = false /\ Ascii.eqb close c = false.

Lemma skip_ws_starts close s rest : starts close s -> skip_ws (s +:+ rest) = s +:+ rest.
Proof. intros (c & t & -> & Hc & _). rewrite sapp_cons. unfold skip_ws. cbn [trim_left]. by rewrite Hc. Qed.

Lemma expect_starts close s rest : starts close s -> expect close (s +:+ rest) = None.
Proof.
  intros Hs. unfold expect. rewrite (skip_ws_starts close) by done.
  destruct Hs as (c & t & -> & _ & Hc). by rewrite sapp_cons, Hc.
Qed.

Lemma expect_here c rest : is_ws c = false -> expect c (String c rest) = Some rest.
Proof. intros Hc. unfold expect, skip_ws. cbn [trim_left]. by rewrite Hc, Ascii.eqb_refl. Qed.

Section lists.
Context {A : Type} (elem : string -> option (A * string)) (pr : A -> string) (close : ascii) (gap nl : string).
Context (Hws : is_ws close = false) (Hdelim : forall rest, delim (String close rest) = true) (Hcomma : Ascii.eqb close "," = false).
Context (Hgap : blank gap = true) (Hnl : blank nl = true).
Context (Helem : forall s, elem (gap +:+ s) = elem s).

Lemma parse_elems_gap n s : parse_elems elem close n (gap +:+ s) = parse_elems elem close n s.
Proof using Helem. destruct n; [done|]. cbn [parse_elems]. by rewrite Helem. Qed.

Definition reads (x : A) : Prop :=
  starts close (pr x) /\ forall rest, delim rest = true -> elem (pr x +:+ rest) = Some (x, rest).

Lemma parse_elems_Join l n rest :
  l <> [] -> Forall reads l -> (length l <= n)%nat ->
  parse_elems elem close n (Join (map pr l) ("," +:+ gap) +:+ nl +:+ String close rest) = Some (l, rest).
Proof using Hws Hdelim Hcomma Hnl Helem.
  revert n. induction l as [|x l IH]; intros n Hne Hl Hn; [done|].
  apply Forall_cons in Hl as [[_ Hx] Hl]. destruct n as [|n]; [simpl in Hn; lia|].
  destruct l as [|y l].
  - cbn [map Join parse_elems]. rewrite Hx by (apply delim_blank; [done|apply Hdelim]).
    by rewrite expect_blank, expect_here.
  - rewrite (Join_cons (pr x) (map pr (y :: l))) by done. rewrite !sapp_assoc.
    change ("," +:+ ?s) with (String "," s). cbn [parse_elems]. rewrite Hx by done.
    rewrite (expect_here ",") by done.
    replace (expect close (String "," _)) with (@None string)
      by (unfold expect; cbn [skip_ws trim_left is_ws code]; simpl; by rewrite Hcomma).
    rewrite parse_elems_gap. by rewrite IH by (done || simpl in *; lia).
Qed.

Lemma parse_list_bracket l n step rest :
  gap = nl +:+ step -> Forall reads l -> (length l <= n)%nat ->
  parse_list elem close n (bracket step EmptyString (String close EmptyString) nl (map pr l) +:+ rest) = Some (l, rest).
Proof using Hws Hdelim Hcomma Hgap Hnl Helem.
  intros Hg Hl Hn. unfold parse_list. destruct l as [|x l].
  { cbn [map bracket]. rewrite sapp_nil_l. change (String close EmptyString +:+ rest) with (String close rest).
    by rewrite expect_here. }
  assert (bracket step EmptyString (String close EmptyString) nl (map pr (x :: l)) +:+ rest =
          gap +:+ Join (map pr (x :: l)) ("," +:+ gap) +:+ nl +:+ String close rest) as ->.
  { unfold bracket. cbn [map]. rewrite Hg, !sapp_assoc, sapp_nil_l. done. }
  rewrite expect_blank, parse_elems_gap, parse_elems_Join by done.
  assert (exists t, Join (map pr (x :: l)) ("," +:+ gap) +:+ nl +:+ String close rest = pr x +:+ t) as [t ->].
  { destruct l as [|y l]; [by eexists|]. rewrite (Join_cons (pr x) (map pr (y :: l))) by done. rewrite sapp_assoc. by eexists. }
  by rewrite expect_starts by (by apply Forall_cons in Hl as [[? _] _]).
Qed.
End lists.

Lemma digit_starts close c t :
  is_digit c = true -> is_digit close = false -> starts close (String c t).
Proof.
  intros Hc Hclose. exists c, t. split_and!; [done| |].
  - destruct c as [[] [] [] [] [] [] [] []]; try discriminate Hc; reflexivity.
  - destruct (Ascii.eqb_spec close c) as [->|]; [by rewrite Hc in Hclose|done].
Qed.

Lemma itoa_starts n : exists c t, itoa n = String c t /\ (c = "-"%char \/ is_digit c = true).
Proof.
  destruct (itoa_digits n) as (neg & ds & -> & Hd & Hne & _ & _). destruct neg.
  - by exists "-"%char, ds; split; [|left].
  - destruct ds as [|c ds]; [done|]. exists c, ds. simpl in Hd. apply andb_prop in Hd as [Hc _]. by split; [|right].
Qed.

Lemma parse_number fuel n rest :
  delim rest = true -> parse_value (S fuel) (itoa n +:+ rest) = Some (Jnum n, rest).
Proof.
  intros Hr. pose proof (parse_num_itoa n rest Hr) as Hp. cbn [parse_value].
  destruct (itoa_starts n) as (c & t & Heq & Hc). rewrite Heq, sapp_cons in *.
  assert (is_ws c = false) as Hws.
  { destruct Hc as [->|Hc]; [done|]. destruct c as [[] [] [] [] [] [] [] []]; try discriminate Hc; reflexivity. }
  replace (skip_ws (String c (t +:+ rest))) with (String c (t +:+ rest)) by (unfold skip_ws; cbn [trim_left]; by rewrite Hws).
  assert (forall d, is_digit d = false -> Ascii.eqb d "-" = false -> Ascii.eqb d c = false) as Hne.
  { intros d Hd1 Hd2. destruct (Ascii.eqb_spec d c) as [->|]; [|done].
    destruct Hc as [->|Hc]; [done|by rewrite Hc in Hd1]. }
  rewrite !(Ascii.eqb_sym c), !Hne, !HasPrefix_cons, !Hne by done. cbn [andb]. by rewrite Hp.
Qed.

Lemma length_le_list_sum l : Forall (fun n => 1 <= n)%nat l -> (length l <= list_sum l)%nat.
Proof. induction 1; simpl; lia. Qed.

Lemma length_le_sum_map {A} (f : A -> nat) l : (forall x, 1 <= f x)%nat -> (length l <= list_sum (map f l))%nat.
Proof.
  intros Hf. rewrite <-(length_map f l). apply length_le_list_sum, Forall_forall.
  intros n Hn. by apply list_elem_of_fmap in Hn as (x & -> & _).
Qed.

Lemma valid_elem l j : valid_json (Jarr l) = true -> j ∈ l -> valid_json j = true.
Proof. simpl. rewrite forallb_forall. intros Hl Hj. apply Hl. by apply list_elem_of_In. Qed.

Lemma valid_entry l kv :
  valid_json (Jobj l) = true -> kv ∈ l -> ValidString (fst kv) = true /\ valid_json (snd kv) = true.
Proof. simpl. rewrite forallb_forall. intros Hl Hj. apply andb_prop, Hl. by apply list_elem_of_In. Qed.

(** *** Printed values *)

Section round_trip.
Context (step colon gap : string) (Hstep : blank step = true) (Hcolon : colon = ":" +:+ gap) (Hgap : blank gap = true).

Definition member (nl : string) (kv : string * json) : string :=
  quote (fst kv) +:+ colon +:+ print step colon (nl +:+ step) (snd kv).

Lemma print_starts nl j : valid_json j = true -> starts "]" (print step colon nl j).
Proof.
  destruct j as [|[]|n|s|s|[]|[]]; try discriminate; intros _; simpl; try by do 2 eexists.
  destruct (itoa_starts n) as (c & t & -> & [->|Hc]); [by do 2 eexists|by apply digit_starts].
Qed.

Lemma length_bracket left right nl l :
  left <> EmptyString -> (S (list_sum (map String.length l)) <= String.length (bracket step left right nl l))%nat.
Proof.
  intros Hleft. unfold bracket. destruct left as [|c left]; [done|]. destruct l as [|x l].
  - rewrite !slength_app. simpl. lia.
  - rewrite !slength_app. pose proof (length_Join (x :: l) ("," +:+ nl +:+ step)). cbn [String.length]. lia.
Qed.

Lemma jsize_print j nl : valid_json j = true -> (jsize j <= String.length (print step colon nl j))%nat.
Proof.
  revert nl. induction j as [|b|n|s|s|l IH|l IH] using json_nested_ind; intros nl Hj; cbn [jsize print]; try discriminate;
    try (simpl; lia).
  - destruct b; simpl; lia.
  - destruct (itoa_starts n) as (c & t & -> & _). simpl. lia.
  - etransitivity; [|by apply length_bracket]. apply le_n_S. rewrite map_map. apply list_sum_map_le.
    rewrite Forall_forall in IH |- *. intros x Hx. apply IH; [done|]. by eapply valid_elem.
  - etransitivity; [|by apply length_bracket]. apply le_n_S. rewrite map_map. apply list_sum_map_le.
    rewrite Forall_forall in IH |- *. intros kv Hkv. destruct (valid_entry _ _ Hj Hkv) as [_ Hv].
    rewrite !slength_app. specialize (IH kv Hkv (nl +:+ step) Hv). lia.
Qed.

Lemma parse_member_quote fuel nl kv rest :
  ValidString (fst kv) = true -> delim rest = true ->
  (forall rest, delim rest = true ->
     parse_value fuel (print step colon (nl +:+ step) (snd kv) +:+ rest) = Some (snd kv, rest)) ->
  parse_member (parse_value fuel) (member nl kv +:+ rest) = Some (kv, rest).
Proof using Hcolon Hgap.
  intros Hk Hr Hv. unfold member, quote, parse_member. rewrite !sapp_assoc, sapp_cons.
  rewrite expect_here by done. rewrite !sapp_assoc, sapp_cons, unquote_quote by done.
  rewrite sapp_nil_l. rewrite Hcolon, sapp_assoc at 1. change (":" +:+ ?s) with (String ":" s).
  rewrite expect_here by done. rewrite parse_value_blank, Hv by done. by destruct kv.
Qed.

Lemma parse_value_print j fuel nl rest :
  valid_json j = true -> (jsize j <= fuel)%nat -> blank nl = true -> delim rest = true ->
  parse_value fuel (print step colon nl j +:+ rest) = Some (j, rest).
Proof using Hstep Hcolon Hgap.
  revert fuel nl rest. induction j as [|b|n|s|s|l IH|l IH] using json_nested_ind; intros [|fuel] nl rest Hj Hf Hnl Hr;
    try discriminate; try (simpl in Hf; lia).
  - by destruct rest.
  - by destruct b, rest.
  - by apply parse_number.
  - cbn [print]. unfold quote. rewrite sapp_cons, sapp_assoc.
    change (match unquote 0 (quote_go 0 0 s +:+ String dquote (EmptyString +:+ rest)) with
            | Some (x, t) => Some (Jstr x, t) | None => None end = Some (Jstr s, rest)).
    by rewrite unquote_quote.
  - cbn [print]. set (pr := print step colon (nl +:+ step)).
    replace (bracket step "[" "]" nl (map pr l)) with (String "[" (bracket step EmptyString "]" nl (map pr l)))
      by (by destruct l).
    change (match parse_list (parse_value fuel) "]" fuel (bracket step EmptyString "]" nl (map pr l) +:+ rest) with
            | Some (l, t) => Some (Jarr l, t) | None => None end = Some (Jarr l, rest)). simpl in Hf.
    rewrite (parse_list_bracket _ _ _ (nl +:+ step)); try done.
    + by apply blank_app.
    + intros t. apply parse_value_blank. by apply blank_app.
    + apply Forall_forall. intros x Hx. pose proof (valid_elem _ _ Hj Hx) as Hv. split; [by apply print_starts|].
      intros r Hr'. rewrite Forall_forall in IH. apply IH; [done|done| |by apply blank_app|done].
      pose proof (list_sum_map_elem jsize l x Hx). lia.
    + etransitivity; [apply (length_le_sum_map jsize), jsize_pos|lia].
  - cbn [print]. change (fun kv => quote kv.1 +:+ colon +:+ print step colon (nl +:+ step) kv.2) with (member nl).
    replace (bracket step "{" "}" nl (map (member nl) l)) with (String "{" (bracket step EmptyString "}" nl (map (member nl) l)))
      by (by destruct l).
    change (match parse_list (parse_member (parse_value fuel)) "}" fuel (bracket step EmptyString "}" nl (map (member nl) l) +:+ rest) with
            | Some (l, t) => Some (Jobj l, t) | None => None end = Some (Jobj l, rest)). simpl in Hf.
    rewrite (parse_list_bracket _ _ _ (nl +:+ step)); try done.
    + by apply blank_app.
    + intros t. apply parse_member_blank. by apply blank_app.
    + apply Forall_forall. intros kv Hx. split; [by do 2 eexists|]. intros r Hr'.
      destruct (valid_entry _ _ Hj Hx) as [Hk Hv].
      rewrite Forall_forall in IH. apply parse_member_quote; [done..|]. intros r2 Hr2.
      apply IH; [done..| |by apply blank_app|done].
      pose proof (list_sum_map_elem (fun kv => jsize kv.2) l kv Hx) as H. simpl in H. lia.
    + etransitivity; [apply (length_le_sum_map (fun kv => jsize kv.2)); intros; apply jsize_pos|lia].
Qed.

Lemma parse_print nl j : blank nl = true -> valid_json j = true -> parse (print step colon nl j) = Some j.
Proof using Hstep Hcolon Hgap.
  intros Hnl Hj. unfold parse. rewrite <-(sapp_nil_r (print step colon nl j)) at 2.
  by rewrite parse_value_print by (done || by apply jsize_print).
Qed.
End round_trip.

(** Every value with valid strings is read back from its text, in either
    layout. *)
Lemma parse_marshal j : valid_json j = true -> parse (marshal j) = Some j.
Proof. by apply parse_print with EmptyString. Qed.

Lemma parse_marshal_indent indent j :
  blank indent = true -> valid_json j = true -> parse (marshal_indent indent j) = Some j.
Proof. intros Hi. by apply parse_print with " ". Qed.
