(* ===== verification/K8sTypes.v ===== *)
(** * Kubernetes objects and errors

    The fields of the Kubernetes objects ([corev1]) that the driver reads or
    writes, the patches it sends, and the errors its calls return.  A Go
    slice or map that the code compares with [nil] is an [option]; the other
    slices are lists. *)
From S2P Require Import Prelude GoStrings.
From stdpp Require Import options.

(** ** Errors *)

(** The reasons of an API [StatusError] the code asks for. *)
Inductive StatusReason :=
| ReasonNotFound | ReasonAlreadyExists | ReasonConflict | ReasonOther (what : string).

(** System call errors. *)
Inductive errno := ENOENT | ENOTCONN | ESTALE | EIO | EACCES | EOther (n : Z).

Inductive ctxerr := Canceled | DeadlineExceeded.

(** gRPC status codes the driver returns. *)
Inductive code := InvalidArgument | Internal | Aborted | AlreadyExists | NotFound | Unimplemented.

(** An error value: an API status error, a path error of the operating
    system, a context error, the failure of a command, or an error made with
    [status.Errorf] or [fmt.Errorf] (the format, its string arguments and the
    error it was given). *)
Inductive error :=
| ErrApi (r : StatusReason)
| ErrOs (e : errno)
| ErrCtx (e : ctxerr)
| ErrExec (msg : string)
| ErrStatus (c : code) (fmt : string) (args : list string) (cause : option error)
| ErrFmt (fmt : string) (args : list string) (cause : option error).

#[global] Instance StatusReason_eq_dec : EqDecision StatusReason.
Proof. solve_decision. Defined.
#[global] Instance errno_eq_dec : EqDecision errno.
Proof. solve_decision. Defined.
#[global] Instance ctxerr_eq_dec : EqDecision ctxerr.
Proof. solve_decision. Defined.
#[global] Instance code_eq_dec : EqDecision code.
Proof. solve_decision. Defined.
#[global] Instance error_eq_dec : EqDecision error.
Proof.
  refine (fix go (a b : error) {struct a} : {a = b} + {a <> b} := _).
  decide equality; first [apply StatusReason_eq_dec | apply errno_eq_dec | apply ctxerr_eq_dec | apply code_eq_dec
    | apply String.string_dec | apply (list_eq_dec (A := string)) | decide equality; apply go].
Defined.

(** [k8serrors.IsNotFound] and its siblings look at the error itself: a
    cause rendered into a message is no longer seen. *)
Definition IsNotFound (e : error) : bool :=
  match e with ErrApi ReasonNotFound => true | _ => false end.
Definition IsAlreadyExists (e : error) : bool :=
  match e with ErrApi ReasonAlreadyExists => true | _ => false end.
Definition IsConflict (e : error) : bool :=
  match e with ErrApi ReasonConflict => true | _ => false end.

(** [os.IsNotExist]. *)
Definition IsNotExist (e : error) : bool :=
  match e with ErrOs ENOENT => true | _ => false end.

(** [mount.IsCorruptedMnt] of the vendored mount library. *)
Definition IsCorruptedMnt (e : error) : bool :=
  match e with
  | ErrOs ENOTCONN | ErrOs ESTALE | ErrOs EIO | ErrOs EACCES => true
  | _ => false
  end.

(** ** Pods *)

Record ObjectMeta := mkMeta {
  Name : string;
  Namespace : string;
  UID : string;
  Labels : gomap;
  Annotations : gomap;
  Finalizers : option (list string);
  DeletionTimestamp : option Z;
}.

Record ContainerState := mkState {
  Waiting : option string;      (* the reason *)
  Terminated : option Z;        (* the exit code *)
}.

Record ContainerStatus := mkCStatus {
  cs_Name : string;
  cs_State : ContainerState;
  cs_Ready : bool;
}.

Record PodCondition := mkCond {
  cond_Type : string;
  cond_Status : string;
  cond_Reason : string;
  cond_Message : string;
}.

Record PodStatus := mkStatus {
  Phase : string;
  Reason : string;
  Message : string;
  Conditions : list PodCondition;
  InitContainerStatuses : list ContainerStatus;
  ContainerStatuses : list ContainerStatus;
}.

(** A resource list maps a resource name to a quantity, kept as the text it
    was parsed from. *)
Record ResourceRequirements := mkRes { Limits : gomap; Requests : gomap }.

Record VolumeMount := mkVMount {
  vm_Name : string;
  vm_MountPath : string;
  vm_Bidirectional : bool;
}.

Inductive VolumeSource :=
| HostPathDirectoryOrCreate (path : string)
| SecretSource (name : string)
| PersistentVolumeClaim (claim : string)
| OtherSource.

Record Volume := mkVolume { vol_Name : string; vol_Source : VolumeSource }.

Record Container := mkContainer {
  cn_Name : string;
  cn_Image : string;
  cn_Command : list string;
  cn_Privileged : bool;
  cn_Resources : ResourceRequirements;
  cn_Env : list (string * string);
  cn_Ports : list (string * Z);
  cn_VolumeMounts : list VolumeMount;
  cn_PreStop : list string;
}.

Record PodSpec := mkSpec {
  Containers : list Container;
  Volumes : list Volume;
  NodeName : string;
  NodeSelector : gomap;
  RestartPolicy : string;
}.

Record Pod := mkPod { Meta : ObjectMeta; Spec : PodSpec; Status : PodStatus }.

(** The zero value of [PodStatus]. *)
Definition zeroStatus : PodStatus := mkStatus EmptyString EmptyString EmptyString [] [] [].

Definition pod_Name (p : Pod) : string := Name (Meta p).
Definition pod_Namespace (p : Pod) : string := Namespace (Meta p).
Definition pod_Annotations (p : Pod) : gomap := Annotations (Meta p).
Definition pod_Finalizers (p : Pod) : option (list string) := Finalizers (Meta p).

(** Field updates. *)
Definition with_annotations (a : gomap) (p : Pod) : Pod :=
  let m := Meta p in
  mkPod (mkMeta (Name m) (Namespace m) (UID m) (Labels m) a (Finalizers m) (DeletionTimestamp m))
        (Spec p) (Status p).

Definition with_finalizers (f : option (list string)) (p : Pod) : Pod :=
  let m := Meta p in
  mkPod (mkMeta (Name m) (Namespace m) (UID m) (Labels m) (Annotations m) f (DeletionTimestamp m))
        (Spec p) (Status p).

Definition with_containers (cs : list Container) (p : Pod) : Pod :=
  let s := Spec p in
  mkPod (Meta p) (mkSpec cs (Volumes s) (NodeName s) (NodeSelector s) (RestartPolicy s)) (Status p).

Definition with_resources (r : ResourceRequirements) (c : Container) : Container :=
  mkContainer (cn_Name c) (cn_Image c) (cn_Command c) (cn_Privileged c) r (cn_Env c) (cn_Ports c)
              (cn_VolumeMounts c) (cn_PreStop c).

(** ** Volumes and claims *)

Record PersistentVolume := mkPV {
  pv_Name : string;
  pv_StorageClassName : string;
  pv_CSIDriver : option string;        (* Spec.CSI and its driver name *)
  pv_ClaimNamespace : option string;   (* Spec.ClaimRef and its namespace *)
}.

Record Claim := mkClaim {
  pvc_StorageClassName : option string;
  pvc_VolumeName : string;
}.

(** The custom resource of the warm-up controller: warm up the path [Path] of
    the volume bound to the claim [PvcName]. *)
Record Cache := mkCache {
  cache_Name : string;
  cache_Namespace : string;
  cache_DeletionTimestamp : option Z;
  PvcName : string;
  cache_Path : string;
  Cached : bool;
  cache_Message : string;
}.

(** The TLS part of the configuration of an HTTP transport: the file names
    and data of the certificates. *)
Record TLSConfig := mkTLS {
  tls_CAFile : string;
  tls_CAData : string;
  tls_CertFile : string;
  tls_CertData : string;
  tls_KeyFile : string;
  tls_KeyData : string;
  tls_Insecure : bool;
}.

(** The client of the API server and the client of the kubelet. *)
Record k8sClient := mkClient { enableAPIServerListCache : bool }.

Record KubeletClient := mkKubelet {
  kc_host : string;
  kc_port : Z;
  kc_bearer : string;
  kc_tls : option TLSConfig;
  kc_timeout : Z;
}.

(** The options of a controller manager: its ports, its leader election and
    the labels its cache of pods selects by. *)
Record ManagerOptions := mkManagerOptions {
  mo_Port : Z;
  mo_MetricsBindAddress : string;
  mo_HealthProbeBindAddress : string;
  mo_LeaderElection : bool;
  mo_LeaderElectionID : string;
  mo_PodLabels : option (list (string * string));
}.

(** ** Patches

    [PatchPod] is given JSON text; the model keeps the value the text is
    marshalled from. *)
Inductive JsonPatchOp :=
| ReplaceMap (path : string) (value : gmap string string)      (* PatchMapValue, op replace *)
| ReplaceList (path : string) (value : option (list string))   (* PatchListValue, op replace *)
| RemovePath (path : string).                                  (* PatchDelValue, op remove *)

Inductive Patch :=
| JSONPatch (ops : list JsonPatchOp)
| StrategicMergeLabels (m : gmap string string)
| StrategicMergeAnnotations (m : gmap string string).

(** A line of [/proc/self/mountinfo], as the vendored mount library returns it. *)
Record MountInfo := mkMI { mi_Minor : Z; mi_Root : string; mi_MountPoint : string }.

(** What the code reads of an [os.FileInfo]: inode and permission bits. *)
Record FileInfo := mkFI { fi_Ino : Z; fi_Perm : Z }.

(** ** Decidable equality *)

#[global] Instance ObjectMeta_eq_dec : EqDecision ObjectMeta.
Proof. solve_decision. Defined.
#[global] Instance ContainerState_eq_dec : EqDecision ContainerState.
Proof. solve_decision. Defined.
#[global] Instance ContainerStatus_eq_dec : EqDecision ContainerStatus.
Proof. solve_decision. Defined.
#[global] Instance PodCondition_eq_dec : EqDecision PodCondition.
Proof. solve_decision. Defined.
#[global] Instance PodStatus_eq_dec : EqDecision PodStatus.
Proof. solve_decision. Defined.
#[global] Instance ResourceRequirements_eq_dec : EqDecision ResourceRequirements.
Proof. solve_decision. Defined.
#[global] Instance VolumeMount_eq_dec : EqDecision VolumeMount.
Proof. solve_decision. Defined.
#[global] Instance VolumeSource_eq_dec : EqDecision VolumeSource.
Proof. solve_decision. Defined.
#[global] Instance Volume_eq_dec : EqDecision Volume.
Proof. solve_decision. Defined.
#[global] Instance Container_eq_dec : EqDecision Container.
Proof. solve_decision. Defined.
#[global] Instance PodSpec_eq_dec : EqDecision PodSpec.
Proof. solve_decision. Defined.
#[global] Instance Pod_eq_dec : EqDecision Pod.
Proof. solve_decision. Defined.
#[global] Instance TLSConfig_eq_dec : EqDecision TLSConfig.
Proof. solve_decision. Defined.
#[global] Instance k8sClient_eq_dec : EqDecision k8sClient.
Proof. solve_decision. Defined.
#[global] Instance KubeletClient_eq_dec : EqDecision KubeletClient.
Proof. solve_decision. Defined.
#[global] Instance ManagerOptions_eq_dec : EqDecision ManagerOptions.
Proof. solve_decision. Defined.
#[global] Instance JsonPatchOp_eq_dec : EqDecision JsonPatchOp.
Proof. solve_decision. Defined.
#[global] Instance Patch_eq_dec : EqDecision Patch.
Proof. solve_decision. Defined.
#[global] Instance Cache_eq_dec : EqDecision Cache.
Proof. solve_decision. Defined.
