(* ===== verification/JsonDecode.v ===== *)
(** * [json.Unmarshal]

    JSON text decoded into Go's strings, booleans, integers, structs, slices
    and string maps.  A value of the wrong type is passed over, the rest is
    still decoded and the first such error is returned; [null] leaves a
    variable as it is, except that it empties a slice or map; a member of an
    object goes to the field of exactly its name, or else to the first field
    whose name differs in case only; other members are ignored.  The text of
    an error names the kind of the value and the type, not the path to it. *)
From S2P Require Import Prelude GoStrings GoTime Json K8sTypes.
From stdpp Require Import options.
#[local] Open Scope Z_scope.

(** What decoding does to a variable of type [A]. *)
Definition decodes (A : Type) : Type := json -> A -> A * option error.

Definition syntax_error : error := ErrFmt "json: syntax error" [] None.
Definition type_error (value type : string) : error :=
  ErrFmt "json: cannot unmarshal %s into Go value of type %s" [value; type] None.

Definition kind (j : json) : string :=
  match j with
  | Jnull => "null"
  | Jbool _ => "bool"
  | Jnum _ | Jreal _ => "number"
  | Jstr _ => "string"
  | Jarr _ => "array"
  | Jobj _ => "object"
  end.

(** The first error is kept ([decodeState.saveError]). *)
Definition saveError (e e' : option error) : option error := match e with Some _ => e | None => e' end.

(** ** Literals *)

Definition mismatch {A} (type : string) : decodes A := fun j old =>
  match j with
  | Jnull => (old, None)
  | _ => (old, Some (type_error (kind j) type))
  end.

Definition string_value : decodes string := fun j old =>
  match j with Jstr s => (s, None) | _ => mismatch "string" j old end.

Definition bool_value : decodes bool := fun j old =>
  match j with Jbool b => (b, None) | _ => mismatch "bool" j old end.

Definition in_int64 (n : Z) : bool := (- 2 ^ 63 <=? n) && (n <? 2 ^ 63).

(** [strconv.ParseInt] refuses a fraction, an exponent and what is out of
    range. *)
Definition int_value (type : string) : decodes Z := fun j old =>
  match j with
  | Jnum n => if in_int64 n then (n, None) else (old, Some (type_error ("number " +:+ itoa n) type))
  | Jreal literal => (old, Some (type_error ("number " +:+ literal) type))
  | _ => mismatch type j old
  end.

(** ** Structs *)

(** The letters of a name without their case; U+017F and U+212A fold to the
    ASCII letters [s] and [k]. *)
Definition lower (c : ascii) : ascii :=
  if between 65 90 c then Ascii.ascii_of_nat (Json.code c + 32) else c.
Fixpoint fold_name (s : string) : string :=
  match s with
  | EmptyString => EmptyString
  | String a r =>
      let plain := String (lower a) (fold_name r) in
      match r with
      | EmptyString => plain
      | String b r1 =>
          if (Json.code a =? 197)%nat && (Json.code b =? 191)%nat then String "s" (fold_name r1)
          else match r1 with
               | EmptyString => plain
               | String c r2 =>
                   if (Json.code a =? 226)%nat && (Json.code b =? 132)%nat && (Json.code c =? 170)%nat
                   then String "k" (fold_name r2) else plain
               end
      end
  end.

Section struct.
Context {A : Type}.

(** A field: its name and how a value is decoded into it. *)
Definition field : Type := string * decodes A.

Definition find_field (fields : list field) (key : string) : option field :=
  match List.find (fun f => String.eqb (fst f) key) fields with
  | Some f => Some f
  | None => List.find (fun f => String.eqb (fold_name (fst f)) (fold_name key)) fields
  end.

Definition member_step (fields : list field) (acc : A * option error) (kv : string * json) : A * option error :=
  match find_field fields (fst kv) with
  | None => acc
  | Some f => let (a, e) := snd f (snd kv) (fst acc) in (a, saveError (snd acc) e)
  end.

Definition struct_value (type : string) (fields : list field) : decodes A := fun j old =>
  match j with
  | Jobj l => fold_left (member_step fields) l (old, None)
  | _ => mismatch type j old
  end.
End struct.

(** A field of a record, read with [get] and written with [set]. *)
Definition in_field {A B} (get : A -> B) (set : B -> A -> A) (d : decodes B) : decodes A := fun j a =>
  let (b, e) := d j (get a) in (set b a, e).

(** ** Slices and maps *)

Definition slice_value {A} (type : string) (zero : A) (elem : decodes A) : decodes (list A) := fun j old =>
  match j with
  | Jarr l =>
      let rs := map (fun j => elem j zero) l in
      (map fst rs, fold_left saveError (map snd rs) None)
  | Jnull => ([], None)
  | _ => mismatch type j old
  end.

Definition entry_step (acc : gomap * option error) (kv : string * json) : gomap * option error :=
  let (s, e) := string_value (snd kv) EmptyString in
  (Some (<[fst kv := s]> (gm (fst acc))), saveError (snd acc) e).

Definition string_map_value : decodes gomap := fun j old =>
  match j with
  | Jobj l => fold_left entry_step l (Some (gm old), None)
  | Jnull => (None, None)
  | _ => mismatch "map[string]string" j old
  end.

(** ** Texts *)

(** The whole text is checked first: one that is no JSON changes nothing. *)
Definition Unmarshal {A} (d : decodes A) (text : string) (old : A) : A * option error :=
  match parse text with
  | None => (old, Some syntax_error)
  | Some j => d j old
  end.

(** [Unmarshal] into a fresh variable that is not used after an error. *)
Definition Unmarshal_new {A} (d : decodes A) (zero : A) (text : string) : A + error :=
  match Unmarshal d text zero with
  | (a, None) => inl a
  | (_, Some e) => inr e
  end.

Example fold_ex : fold_name "iNodeſ" = "inodes" /\ fold_name "é" = "é".
Proof. vm_compute. split; reflexivity. Qed.
Example struct_ex :
  struct_value "T" [("Id", in_field fst (fun n a => (n, snd a)) (int_value "int"));
                    ("name", in_field snd (fun s a => (fst a, s)) string_value)]
    (Jobj [("ID", Jnum 3); ("x", Jnull); ("name", Jbool true); ("Name", Jstr "n"); ("id", Jreal "1.5")]) (0, EmptyString) =
  ((3, "n"), Some (type_error "bool" "string")).
Proof. vm_compute. reflexivity. Qed.

(** ** Properties *)

Lemma in_int64_range n : in_int64 n = true <-> - 2 ^ 63 <= n < 2 ^ 63.
Proof. unfold in_int64. rewrite andb_true_iff, Z.leb_le, Z.ltb_lt. done. Qed.

(** An integer variable keeps to its 64 bits. *)
Lemma int_value_bounds type j old n e :
  int_value type j old = (n, e) -> - 2 ^ 63 <= old < 2 ^ 63 -> - 2 ^ 63 <= n < 2 ^ 63.
Proof.
  intros H Hold. destruct j; simpl in H; simplify_eq; try done. destruct (in_int64 _) eqn:Hn; simplify_eq; [|done].
  by apply in_int64_range.
Qed.

Lemma saveError_None es : fold_left saveError es None = None <-> Forall (fun e => e = None) es.
Proof.
  induction es as [|[e|] es IH]; simpl; [done| |].
  - split; [|by inversion 1]. intros H. exfalso. clear IH. revert e H.
    induction es as [|e' es IH]; intros e H; [done|]. by apply (IH e).
  - rewrite IH. split; [by constructor|by inversion 1].
Qed.

(** A slice is decoded without error exactly if each of its elements is. *)
Lemma slice_value_elems {A} type (zero : A) elem l old xs :
  slice_value type zero elem (Jarr l) old = (xs, None) <->
  Forall2 (fun j x => elem j zero = (x, None)) l xs.
Proof.
  unfold slice_value. split.
  - intros [= <- He]. apply saveError_None in He. induction l as [|j l IH]; [constructor|].
    inversion He as [|? ? Hj Hl]; subst. constructor; [|by apply IH]. simpl in *.
    by destruct (elem j zero) as [x e]; simplify_eq/=.
  - intros H. assert (map (fun j => elem j zero) l = map (fun x => (x, None)) xs) as ->.
    { induction H as [|j x l xs Hj _ IH]; [done|]. simpl. by rewrite Hj, IH. }
    f_equal; [by rewrite map_map, map_id|]. apply saveError_None. apply Forall_forall.
    intros e [p [-> Hp]]%list_elem_of_fmap. apply list_elem_of_fmap in Hp as [x [-> _]]. done.
Qed.

Lemma Unmarshal_new_inl {A} (d : decodes A) zero text a :
  Unmarshal_new d zero text = inl a <-> Unmarshal d text zero = (a, None).
Proof. unfold Unmarshal_new. destruct (Unmarshal d text zero) as [a' [e|]]; naive_solver. Qed.

(** What was marshalled is decoded as the value it was marshalled from. *)
Lemma Unmarshal_marshal {A} (d : decodes A) j old :
  valid_json j = true -> Unmarshal d (marshal j) old = d j old.
Proof. intros Hj. unfold Unmarshal. by rewrite parse_marshal. Qed.

(** Decoding a map adds to what the variable held. *)
Lemma string_map_entries l m e :
  exists m' e', fold_left entry_step l (Some m, e) = (Some m', e') /\ dom m ∪ list_to_set (map fst l) = dom m' /\
    (e' = None -> e = None /\ Forall (fun kv => kv.2 = Jnull \/ exists s, kv.2 = Jstr s) l).
Proof.
  induction l as [|[k j] l IH] in m, e |- *; simpl.
  { exists m, e. split_and!; [done|set_solver|done]. }
  unfold entry_step at 2. simpl. destruct (string_value j EmptyString) as [s e1] eqn:Hj. simpl.
  destruct (IH (<[k := s]> m) (saveError e e1)) as (m' & e' & -> & Hdom & He).
  exists m', e'. split_and!; [done|rewrite <-Hdom, dom_insert_L; set_solver|].
  intros ->. destruct (He eq_refl) as [Hs Hl]. destruct e; [done|]. simpl in Hs. subst e1.
  split; [done|]. constructor; [|done]. destruct j; simpl in *; simplify_eq; eauto.
Qed.

Lemma string_map_value_dom l old m :
  string_map_value (Jobj l) old = (m, None) -> dom (gm m) = dom (gm old) ∪ list_to_set (map fst l).
Proof.
  simpl. destruct (string_map_entries l (gm old) None) as (m' & e' & -> & Hdom & _). by intros [= <- _].
Qed.
