(* ===== verification/PatchText.v ===== *)
(** * The text of patches

    [PatchPod] ([pkg/juicefs/k8sclient/client.go]) is given the JSON text that
    [pkg/util/pod.go] marshals.  The other files keep the value the text is
    made from ([Patch]); this file gives the text and a reader of it, and
    shows that nothing is lost: what the server reads is the patch. *)
From stdpp Require Import pretty.
From S2P Require Import Prelude GoStrings K8sTypes Json.
From stdpp Require Import options.

(** ** Paths

    The path of a patch is a JSON pointer (RFC 6901): reference tokens
    separated by slashes, in which [~1] stands for a slash and [~0] for a
    tilde. *)
Fixpoint unescape_token (s : string) : option string :=
  match s with
  | EmptyString => Some EmptyString
  | String "~" (String "0" s) => t ← unescape_token s; Some (String "~" t)
  | String "~" (String "1" s) => t ← unescape_token s; Some (String "/" t)
  | String "~" _ => None
  | String c s => t ← unescape_token s; Some (String c t)
  end.

Definition pointer (path : string) : option (list string) :=
  match path with
  | EmptyString => Some []
  | String "/" s => mapM unescape_token (Split s "/")
  | _ => None
  end.

(** A string that is its own reference token. *)
Definition plain_token (s : string) : bool := free_of "/" s && free_of "~" s.

(** ** Writing *)

(** The members of the four patch types, in the order of their fields; a nil
    slice is [null]. *)
Definition op_json (o : JsonPatchOp) : json :=
  match o with
  | ReplaceMap path value => Jobj [("op", Jstr "replace"); ("path", Jstr path); ("value", map_json value)]
  | ReplaceList path value =>
      Jobj [("op", Jstr "replace"); ("path", Jstr path);
            ("value", match value with Some l => Jarr (map Jstr l) | None => Jnull end)]
  | RemovePath path => Jobj [("op", Jstr "remove"); ("path", Jstr path)]
  end.

(** The payload of [AddPodLabel] and [AddPodAnnotation]. *)
Definition merge_json (field : string) (m : gmap string string) : json :=
  Jobj [("metadata", Jobj [(field, map_json m)])].

Definition patch_json (p : Patch) : json :=
  match p with
  | JSONPatch ops => Jarr (map op_json ops)
  | StrategicMergeLabels m => merge_json "labels" m
  | StrategicMergeAnnotations m => merge_json "annotations" m
  end.

Definition patch_text (p : Patch) : string := marshal (patch_json p).

(** ** Reading *)

Definition read_string (j : json) : option string := match j with Jstr s => Some s | _ => None end.

Definition read_entry (kv : string * json) : option (string * string) :=
  s ← read_string (snd kv); Some (fst kv, s).

Definition read_map (j : json) : option (gmap string string) :=
  match j with Jobj l => entries ← mapM read_entry l; Some (list_to_map entries) | _ => None end.

Definition read_op (j : json) : option JsonPatchOp :=
  match j with
  | Jobj (("op", Jstr o) :: ("path", Jstr path) :: rest) =>
      match rest with
      | [] => if String.eqb o "remove" then Some (RemovePath path) else None
      | [("value", v)] =>
          if negb (String.eqb o "replace") then None
          else match v with
               | Jnull => Some (ReplaceList path None)
               | Jarr l => l ← mapM read_string l; Some (ReplaceList path (Some l))
               | v => m ← read_map v; Some (ReplaceMap path m)
               end
      | _ => None
      end
  | _ => None
  end.

Definition read_patch (j : json) : option Patch :=
  match j with
  | Jarr l => ops ← mapM read_op l; Some (JSONPatch ops)
  | Jobj [("metadata", Jobj [(field, v)])] =>
      m ← read_map v;
      if String.eqb field "labels" then Some (StrategicMergeLabels m)
      else if String.eqb field "annotations" then Some (StrategicMergeAnnotations m)
      else None
  | _ => None
  end.

Definition read_patch_text (s : string) : option Patch := j ← parse s; read_patch j.

(** ** Properties *)

Definition valid_map (m : gmap string string) : Prop :=
  map_Forall (fun k v => ValidString k = true /\ ValidString v = true) m.

Definition valid_op (o : JsonPatchOp) : Prop :=
  match o with
  | ReplaceMap path value => ValidString path = true /\ valid_map value
  | ReplaceList path value => ValidString path = true /\ Forall (fun s => ValidString s = true) (default [] value)
  | RemovePath path => ValidString path = true
  end.

(** All strings of a patch are valid UTF-8. *)
Definition valid_patch (p : Patch) : Prop :=
  match p with
  | JSONPatch ops => Forall valid_op ops
  | StrategicMergeLabels m | StrategicMergeAnnotations m => valid_map m
  end.

#[global] Instance valid_map_dec m : Decision (valid_map m).
Proof. unfold valid_map. apply _. Defined.
#[global] Instance valid_op_dec o : Decision (valid_op o).
Proof. destruct o; simpl; apply _. Defined.
#[global] Instance valid_patch_dec p : Decision (valid_patch p).
Proof. destruct p; simpl; apply _. Defined.

Lemma sorted_entries_Permutation m : sorted_entries m ≡ₚ map_to_list m.
Proof. apply merge_sort_Permutation. Qed.

Lemma list_to_map_sorted_entries m : list_to_map (sorted_entries m) = m.
Proof.
  rewrite <-(list_to_map_to_list m) at 2. apply list_to_map_proper; [|apply sorted_entries_Permutation].
  rewrite (fmap_Permutation fst _ _ (sorted_entries_Permutation m)). apply NoDup_fst_map_to_list.
Qed.

Lemma mapM_map {A B} (f : B -> option A) (g : A -> B) l :
  (forall x, f (g x) = Some x) -> mapM f (map g l) = Some l.
Proof. intros H. induction l as [|x l IH]; [done|]. cbn [map mapM]. rewrite H. simpl. by rewrite IH. Qed.

Lemma read_map_json m : read_map (map_json m) = Some m.
Proof.
  unfold map_json, read_map. rewrite mapM_map by (by intros []). simpl. by rewrite list_to_map_sorted_entries.
Qed.

Lemma read_op_json o : read_op (op_json o) = Some o.
Proof.
  destruct o as [path value|path [l|]|path]; [|simpl; by rewrite mapM_map|done..].
  pose proof (read_map_json value) as Hm. unfold map_json in *. cbn. cbn in Hm. by rewrite Hm.
Qed.

Lemma read_patch_json p : read_patch (patch_json p) = Some p.
Proof.
  destruct p as [ops|m|m]; simpl; [by rewrite (mapM_map read_op op_json _ read_op_json)|..];
    pose proof (read_map_json m) as Hm; cbn in Hm; by rewrite Hm.
Qed.

Lemma valid_map_json m : valid_map m -> valid_json (map_json m) = true.
Proof.
  intros Hm. unfold map_json. cbn [valid_json]. apply forallb_forall. intros x Hx.
  apply list_elem_of_In, list_elem_of_fmap in Hx as ([k v] & -> & Hx).
  rewrite sorted_entries_Permutation, elem_of_map_to_list in Hx. simpl. apply Hm in Hx as [-> Hv]. exact Hv.
Qed.

Lemma valid_op_json o : valid_op o -> valid_json (op_json o) = true.
Proof.
  destruct o as [path value|path [l|]|path]; simpl.
  - intros [-> Hm%valid_map_json]. simpl. simpl in Hm. by rewrite Hm.
  - intros [-> Hl]. simpl. rewrite andb_true_r. apply forallb_forall. intros x Hx.
    apply list_elem_of_In, list_elem_of_fmap in Hx as (s & -> & Hs). by eapply Forall_forall in Hl.
  - by intros [-> _].
  - by intros ->.
Qed.

Lemma valid_patch_json p : valid_patch p -> valid_json (patch_json p) = true.
Proof.
  destruct p as [ops|m|m]; cbn [valid_patch patch_json]; unfold merge_json; cbn [valid_json forallb fst snd];
    [|by intros ->%valid_map_json..].
  intros Hops. apply forallb_forall. intros x Hx.
  apply list_elem_of_In, list_elem_of_fmap in Hx as (o & -> & Ho). apply valid_op_json. by eapply Forall_forall in Hops.
Qed.

Lemma unescape_plain s : free_of "~" s = true -> unescape_token s = Some s.
Proof.
  induction s as [|c s IH]; [done|]. simpl. intros [Hc Hs]%andb_prop. apply negb_true_iff, Ascii.eqb_neq in Hc.
  rewrite (IH Hs). destruct c as [[] [] [] [] [] [] [] []]; try reflexivity. by destruct Hc.
Qed.

(** The path of a [DelPodAnnotation] leads to the annotation. *)
Lemma pointer_annotation k :
  plain_token k = true -> pointer ("/metadata/annotations/" +:+ k) = Some ["metadata"; "annotations"; k].
Proof.
  intros [H1 H2]%andb_prop. change (mapM unescape_token (Split ("metadata" +:+ String "/" ("annotations" +:+ String "/" k)) "/") =
    Some ["metadata"; "annotations"; k]).
  rewrite !Split_byte, Split_byte_free by done. cbn [mapM]. by rewrite (unescape_plain k) by done.
Qed.

(** C26 The bytes of every patch the driver sends are read back as this patch,
    whatever the annotations, labels, finalizers and paths in it contain, as
    long as they are valid UTF-8. *)
Theorem patch_text_roundtrip p : valid_patch p -> read_patch_text (patch_text p) = Some p.
Proof.
  intros Hp. unfold read_patch_text, patch_text. rewrite parse_marshal by (by apply valid_patch_json).
  apply read_patch_json.
Qed.

Example patch_text_ex :
  patch_text (JSONPatch [RemovePath "/metadata/annotations/k"]) =
  "[{" +:+ quote "op" +:+ ":" +:+ quote "remove" +:+ "," +:+ quote "path" +:+ ":" +:+
  quote "/metadata/annotations/k" +:+ "}]".
Proof. vm_compute. reflexivity. Qed.

Lemma patch_text_roundtrip_witness :
  let p := JSONPatch [ReplaceMap "/metadata/annotations" {["mosfs-1" := "/a&b <é>"; "note" := String bslash "x"]}] in
  valid_patch p /\ read_patch_text (patch_text p) = Some p.
Proof. split; [|apply patch_text_roundtrip]; by apply (bool_decide_unpack _); vm_compute. Defined.
