(* ===== verification/Prog.v ===== *)
(** * Programs with effects and their traces

    The driver is glue between the Kubernetes API server, the kubelet's
    file system, the mount table and command line tools.  A function with
    effects is a [prog]: a tree of calls to its environment ([op]), each with
    the continuation that receives the answer ([resp]).  [exec p tr r] says
    that running [p] can exchange the calls and answers [tr] with its
    environment and end with [r].  Nothing is assumed of the answers beyond
    [resp_ok], so that a theorem about all executions holds whatever the API
    server, other processes and the file system do in between; a theorem
    about a well-behaved environment says so with a hypothesis on the trace
    or with a handler.

    Go's conventions map to four ways to end: a value, a returned error, a
    panic, and (for the loops the source bounds only by the environment) the
    exhaustion of the model's fuel.  [try] is [x, err := f()], [defer] runs a
    deferred call on every way out but the last. *)
From S2P Require Import Prelude GoStrings K8sTypes.
From stdpp Require Import options.

(** ** The environment *)

(** The mutexes of package config. *)
Inductive mutex := JLock | PodLock (i : Z).

Inductive op :=
(* API server *)
| PodsGet (name ns : string)
| PodsCreate (p : Pod)
| PodsUpdate (p : Pod)
| PodsPatch (ns name : string) (pt : Patch)
| PodsDelete (ns name : string)
| PodsList (ns resourceVersion : string)
| PodsLogs (ns name container : string)
| PVGet (name : string)
| PVList
(* operating system *)
| OsStat (path : string)
| OsMkdirAll (path : string) (perm : Z)
| OsChmod (path : string) (perm : Z)
| OsRemove (path : string)
| OsWriteFile (path content : string) (perm : Z)
| LookupEnv (k : string)
| Setenv (k v : string)
| Environ
| Command (cmd : string) (args : list string) (env : list string)
| CommandContext (timeout : Z) (cmd : string) (args : list string)
| ReadMountInfo
| DoMount (source target fstype : string) (options : list string)
| DoUnmount (target : string)
| LikelyNotMountPoint (path : string)
(* Go runtime *)
| TimeNow
| LocalOffset (t : Z)
| Sleep (ns : Z)
| CtxDone (timeout : Z)
| MutexLock (m : mutex)
| MutexUnlock (m : mutex)
| RangeMap (m : gmap string string)
(* the state controllerService shares between its handlers *)
| LocksTryAcquire (id : string)
| LocksRelease (id : string)
| VolsGet (name : string)
| VolsSet (name : string) (size : Z)
| VolsDelete (name : string)
(* the management console *)
| HttpDo (method url body : string)
(* a command started in a goroutine of its own *)
| Spawn (cmd : string) (args : list string) (env : list string)
(* the kubelet's API, and the back-off table of the reconciler *)
| HttpsGet (url bearer : string) (tls : option TLSConfig) (timeout : Z)
| BackOffActive (id : string)
| BackOffNext (id : string)
| BackOffReset (id : string)
(* the variable [err] of [doReconcile], which the goroutines of a turn share *)
| ErrStore (e : option error)
| ErrLoad
(* the end of a goroutine of an [errgroup] with an error *)
| GroupCancel (e : error)
(* the warm-up controller's client, and a command in a pod of the cluster *)
| ClaimGet (ns name : string)
| CacheGet (ns name : string)
| CacheDelete (c : Cache)
| CacheStatusUpdate (c : Cache)
| PodExec (ns name : string) (cmd : list string)
(* start-up: the client libraries and the servers *)
| InClusterConfig
| GetConfig
| UserHomeDir
| BuildConfigFromFlags (path : string)
| NewForConfig
| ReadFile (path : string)
| TLSConfigFor (tls : TLSConfig)
| HTTPWrappersForConfig (bearer : string)
| NewManager (opts : ManagerOptions)
| NewController (name : string)
| Watch (kind : string)
| AddHealthzCheck (name : string)
| AddReadyzCheck (name : string)
| StartManager
| NetListen (scheme addr : string)
| Serve
| StopServer
(* a line of the log: the format and the texts of each argument *)
| Infof (format : string) (args : list (list string))
| Println (s : string)
(* the two goroutines of [main] *)
| GoReconcile (ks : k8sClient) (kc : KubeletClient)
| GoManager.

#[global] Instance mutex_eq_dec : EqDecision mutex.
Proof. solve_decision. Defined.
#[global] Instance op_eq_dec : EqDecision op.
Proof. solve_decision. Defined.

Definition resp (o : op) : Type :=
  match o with
  | PodsGet _ _ => Pod + error
  | PodsCreate _ => Pod + error
  | PodsUpdate _ => option error
  | PodsPatch _ _ _ => option error
  | PodsDelete _ _ => option error
  | PodsList _ _ => list Pod + error
  | PodsLogs _ _ _ => string + error
  | PVGet _ => PersistentVolume + error
  | PVList => list PersistentVolume + error
  | OsStat _ => FileInfo + error
  | OsMkdirAll _ _ | OsChmod _ _ | OsRemove _ | OsWriteFile _ _ _ => option error
  | LookupEnv _ => option string
  | Setenv _ _ => unit
  | Environ => list string
  | Command _ _ _ => string * option error
  | CommandContext _ _ _ => option error
  | ReadMountInfo => list MountInfo + error
  | DoMount _ _ _ _ | DoUnmount _ => option error
  | LikelyNotMountPoint _ => bool + error
  | TimeNow => Z
  | LocalOffset _ => Z
  | Sleep _ => unit
  | CtxDone _ => option ctxerr
  | MutexLock _ | MutexUnlock _ => unit
  | RangeMap _ => list (string * string)
  | LocksTryAcquire _ => bool
  | LocksRelease _ => unit
  | VolsGet _ => option Z
  | VolsSet _ _ | VolsDelete _ => unit
  | HttpDo _ _ _ => (Z * string * option error) + error
  | Spawn _ _ _ => unit
  | HttpsGet _ _ _ _ => (string * option error) + error
  | BackOffActive _ => bool
  | BackOffNext _ | BackOffReset _ => unit
  | ErrStore _ | GroupCancel _ => unit
  | ErrLoad => option error
  | ClaimGet _ _ => Claim + error
  | CacheGet _ _ => Cache + error
  | CacheDelete _ | CacheStatusUpdate _ => option error
  | PodExec _ _ _ => (string * string * option error) + error
  | InClusterConfig | GetConfig | BuildConfigFromFlags _ | NewForConfig => option error
  | UserHomeDir => string + error
  | ReadFile _ => string + error
  | TLSConfigFor _ => bool + error
  | HTTPWrappersForConfig _ => option error
  | NewManager _ | NewController _ | Watch _ | AddHealthzCheck _ | AddReadyzCheck _ | StartManager => option error
  | NetListen _ _ | Serve => option error
  | StopServer | Infof _ _ => unit
  | Println _ | GoReconcile _ _ | GoManager => unit
  end%type.

(** What the language promises of an answer: ranging over a map visits every
    entry once, in some order. *)
Definition resp_ok (o : op) : resp o -> Prop :=
  match o with
  | RangeMap m => fun l => l ≡ₚ map_to_list m
  | _ => fun _ => True
  end.

(** A call and its answer. *)
Definition event := {o : op & resp o}.
Notation "o ▷ x" := (existT o x : event) (at level 70).

(** A call has one answer. *)
Lemma event_inj o (x y : resp o) : (o ▷ x) = (o ▷ y) -> x = y.
Proof. apply Eqdep_dec.inj_pair2_eq_dec. apply op_eq_dec. Qed.

Inductive result (A : Type) :=
| Ok (a : A)
| Err (e : error)
| Panicked (why : string)
| NoFuel.
Arguments Ok {A} a.
Arguments Err {A} e.
Arguments Panicked {A} why.
Arguments NoFuel {A}.

Inductive prog (A : Type) : Type :=
| Ret (a : A)
| Throw (e : error)
| Panic (why : string)
| OutOfFuel
| Do (o : op) (k : resp o -> prog A).
Arguments Ret {A} a.
Arguments Throw {A} e.
Arguments Panic {A} why.
Arguments OutOfFuel {A}.
Arguments Do {A} o k.

(** ** Combinators *)

#[global] Instance prog_ret : MRet prog := fun A a => Ret a.

Fixpoint prog_bind_go {A B} (f : A -> prog B) (p : prog A) : prog B :=
  match p with
  | Ret a => f a
  | Throw e => Throw e
  | Panic w => Panic w
  | OutOfFuel => OutOfFuel
  | Do o k => Do o (fun x => prog_bind_go f (k x))
  end.

#[global] Instance prog_bind : MBind prog := @prog_bind_go.

(** One call. *)
Definition call (o : op) : prog (resp o) := Do o Ret.

(** A call that answers with a value or an error. *)
Definition lift_sum {A} (r : A + error) : prog A :=
  match r with inl a => Ret a | inr e => Throw e end.

(** A call that answers with [nil] or an error. *)
Definition lift_err (r : option error) : prog unit :=
  match r with None => Ret tt | Some e => Throw e end.

(** [x, err := p()]: the error as a value. *)
Fixpoint try {A} (p : prog A) : prog (A + error) :=
  match p with
  | Ret a => Ret (inl a)
  | Throw e => Ret (inr e)
  | Panic w => Panic w
  | OutOfFuel => OutOfFuel
  | Do o k => Do o (fun x => try (k x))
  end.

(** [if err := p(); err != nil { return f(err) }]. *)
Fixpoint wrap_err {A} (f : error -> error) (p : prog A) : prog A :=
  match p with
  | Throw e => Throw (f e)
  | Do o k => Do o (fun x => wrap_err f (k x))
  | _ => p
  end.

(** [defer d()]: [d] runs when the function returns or panics. *)
Fixpoint defer {A} (d : prog unit) (p : prog A) : prog A :=
  match p with
  | Ret a => d ≫= fun _ => Ret a
  | Throw e => d ≫= fun _ => Throw e
  | Panic w => d ≫= fun _ => Panic w
  | OutOfFuel => OutOfFuel
  | Do o k => Do o (fun x => defer d (k x))
  end.

(** [m.Lock(); defer m.Unlock(); p]. *)
Definition with_mutex {A} (m : mutex) (p : prog A) : prog A :=
  call (MutexLock m) ≫= fun _ => defer (call (MutexUnlock m)) p.

(** [os.Getenv]. *)
Definition Getenv (k : string) : prog string :=
  v ← call (LookupEnv k); mret (default EmptyString v).

(** [for _, x := range l { f(x) }] for a body that returns no value early. *)
Fixpoint for_each {A} (f : A -> prog unit) (l : list A) : prog unit :=
  match l with
  | [] => Ret tt
  | x :: l' => f x ≫= fun _ => for_each f l'
  end.

(** ** Executions *)

Fixpoint exec {A} (p : prog A) (tr : list event) (r : result A) : Prop :=
  match p with
  | Ret a => tr = [] /\ r = Ok a
  | Throw e => tr = [] /\ r = Err e
  | Panic w => tr = [] /\ r = Panicked w
  | OutOfFuel => tr = [] /\ r = NoFuel
  | Do o k => exists x tr', tr = (o ▷ x) :: tr' /\ resp_ok o x /\ exec (k x) tr' r
  end.

(** Running against a handler that keeps the environment's state. *)
Fixpoint run {W A} (h : forall o, W -> resp o * W) (p : prog A) (w : W) : list event * result A * W :=
  match p with
  | Ret a => ([], Ok a, w)
  | Throw e => ([], Err e, w)
  | Panic s => ([], Panicked s, w)
  | OutOfFuel => ([], NoFuel, w)
  | Do o k => let (x, w') := h o w in
              let '(tr, r, w'') := run h (k x) w' in
              ((o ▷ x) :: tr, r, w'')
  end.

(** Rewrite a result's error. *)
Definition map_err {A} (f : error -> error) (r : result A) : result A :=
  match r with Err e => Err (f e) | _ => r end.

(** Inject a failed result into another type. *)
Definition fail_as {A B} (r : result A) : result B :=
  match r with
  | Ok _ => NoFuel
  | Err e => Err e
  | Panicked w => Panicked w
  | NoFuel => NoFuel
  end.

Definition is_ok {A} (r : result A) : bool := match r with Ok _ => true | _ => false end.

(** ** A rule for every combinator *)

Section rules.
Context {A B : Type}.
Implicit Types (p : prog A) (tr : list event).

Lemma exec_bind p (f : A -> prog B) tr r :
  exec (p ≫= f) tr r <->
  (exists a tr1 tr2, tr = tr1 ++ tr2 /\ exec p tr1 (Ok a) /\ exec (f a) tr2 r) \/
  (exists r0, exec p tr r0 /\ is_ok r0 = false /\ r = fail_as r0).
Proof.
  revert tr r. induction p as [a|e|w| |o k IH]; intros tr r.
  - simpl. split.
    + intros H. left. by exists a, [], tr.
    + intros [(a' & tr1 & tr2 & -> & [-> Ha] & Hf)|(r0 & [-> ->] & [=] & _)]. by simplify_eq.
  - simpl. split; [intros [-> ->]; right; by exists (Err e)|]. naive_solver.
  - simpl. split; [intros [-> ->]; right; by exists (Panicked w)|]. naive_solver.
  - simpl. split; [intros [-> ->]; right; by exists NoFuel|]. naive_solver.
  - change (exec (Do o k ≫= f) tr r) with
      (exists x tr', tr = (o ▷ x) :: tr' /\ resp_ok o x /\ exec (k x ≫= f) tr' r).
    simpl. setoid_rewrite IH. split.
    + intros (x & tr' & -> & Hx & [(a & tr1 & tr2 & -> & H1 & H2)|(r0 & H1 & H2 & H3)]).
      * left. exists a, ((o ▷ x) :: tr1), tr2. naive_solver.
      * right. naive_solver.
    + intros [(a & tr1 & tr2 & -> & (x & tr' & -> & Hx & H1) & H2)|(r0 & (x & tr' & -> & Hx & H1) & H2 & H3)].
      * exists x, (tr' ++ tr2). naive_solver.
      * naive_solver.
Qed.

End rules.

Lemma exec_bind_unit {B} (d : prog unit) (p : prog B) tr r :
  exec (d ≫= fun _ => p) tr r <->
  (exists tr1 tr2, tr = tr1 ++ tr2 /\ exec d tr1 (Ok tt) /\ exec p tr2 r) \/
  (exists rd, exec d tr rd /\ is_ok rd = false /\ r = fail_as rd).
Proof.
  rewrite exec_bind. split.
  - intros [([] & tr1 & tr2 & H)|H]; [left|right]; eauto.
  - intros [(tr1 & tr2 & H)|H]; [left; exists tt|right]; eauto.
Qed.

Section more_rules.
Context {A B : Type}.
Implicit Types (p : prog A) (tr : list event).

Lemma exec_call_bind o (f : resp o -> prog B) tr r :
  exec (call o ≫= f) tr r <->
  exists x tr', tr = (o ▷ x) :: tr' /\ resp_ok o x /\ exec (f x) tr' r.
Proof. reflexivity. Qed.

Lemma exec_call_inv o (f : resp o -> prog B) tr r :
  exec (call o ≫= f) tr r ->
  exists x tr', tr = (o ▷ x) :: tr' /\ resp_ok o x /\ exec (f x) tr' r.
Proof. done. Qed.

(** Reading a given trace forward: the answer of the first call is known. *)
Lemma exec_call_step o (f : resp o -> prog B) (x : resp o) tr r :
  exec (call o ≫= f) ((o ▷ x) :: tr) r -> exec (f x) tr r.
Proof.
  intros (y & tr' & Heq & _ & H). pose proof (f_equal tail Heq) as Ht. cbn in Ht. subst tr'.
  apply (f_equal head) in Heq. injection Heq as Heq.
  assert (x = y) as ->; [|exact H]. by apply (Eqdep_dec.inj_pair2_eq_dec op op_eq_dec).
Qed.

Lemma exec_call o tr (r : result (resp o)) :
  exec (call o) tr r <-> exists x, tr = [o ▷ x] /\ resp_ok o x /\ r = Ok x.
Proof. simpl. naive_solver. Qed.

Lemma exec_lift_sum (s : A + error) tr r :
  exec (lift_sum s) tr r <-> tr = [] /\ r = match s with inl a => Ok a | inr e => Err e end.
Proof. destruct s; reflexivity. Qed.

Lemma exec_lift_err s tr r :
  exec (lift_err s) tr r <-> tr = [] /\ r = match s with None => Ok tt | Some e => Err e end.
Proof. destruct s; reflexivity. Qed.

Lemma exec_try p tr r :
  exec (try p) tr r <->
  exists r0, exec p tr r0 /\
    r = match r0 with Ok a => Ok (inl a) | Err e => Ok (inr e) | Panicked w => Panicked w | NoFuel => NoFuel end.
Proof.
  revert tr r. induction p as [a|e|w| |o k IH]; intros tr r; [naive_solver..|].
  simpl. setoid_rewrite IH. naive_solver.
Qed.

Lemma exec_wrap_err g p tr r :
  exec (wrap_err g p) tr r <-> exists r0, exec p tr r0 /\ r = map_err g r0.
Proof.
  revert tr r. induction p as [a|e|w| |o k IH]; intros tr r; [naive_solver..|].
  simpl. setoid_rewrite IH. naive_solver.
Qed.

Lemma exec_wrap_err_ok g p tr a : exec (wrap_err g p) tr (Ok a) -> exec p tr (Ok a).
Proof. rewrite exec_wrap_err. intros (r0 & H & Hr). destruct r0; by simplify_eq/=. Qed.

Lemma exec_then d p rp tr r :
  rp <> NoFuel -> (forall tr r, exec p tr r <-> tr = [] /\ r = rp) ->
  exec (d ≫= fun _ : unit => p) tr r <->
  (exists r0 tr1 tr2, tr = tr1 ++ tr2 /\ exec p tr1 r0 /\ r0 <> NoFuel /\
     ((exec d tr2 (Ok tt) /\ r = r0) \/
      (exists rd, exec d tr2 rd /\ is_ok rd = false /\ r = fail_as rd))) \/
  (exec p tr NoFuel /\ r = NoFuel).
Proof.
  intros Hne Hp. rewrite exec_bind_unit. setoid_rewrite Hp. split.
  - intros [(tr1 & tr2 & -> & H1 & -> & ->)|(rd & H1 & H2 & ->)]; left.
    + exists rp, [], tr1. rewrite app_nil_r. naive_solver.
    + exists rp, [], tr. naive_solver.
  - intros [(r0 & tr1 & tr2 & -> & [-> ->] & _ & [[H1 ->]|(rd & H1 & H2 & ->)])|[[_ H] _]].
    + left. exists tr2, []. by rewrite app_nil_r.
    + right. by exists rd.
    + by destruct Hne.
Qed.

(** A deferred call runs after the body, and its own failure replaces the
    result. *)
Lemma exec_defer d p tr r :
  exec (defer d p) tr r <->
  (exists r0 tr1 tr2, tr = tr1 ++ tr2 /\ exec p tr1 r0 /\ r0 <> NoFuel /\
     ((exec d tr2 (Ok tt) /\ r = r0) \/
      (exists rd, exec d tr2 rd /\ is_ok rd = false /\ r = fail_as rd))) \/
  (exec p tr NoFuel /\ r = NoFuel).
Proof.
  revert tr r. induction p as [a|e|w| |o k IH]; intros tr r.
  - change (defer d (Ret a)) with (d ≫= fun _ => Ret a). by apply exec_then with (Ok a).
  - change (defer d (Throw e)) with (d ≫= fun _ => @Throw A e). by apply exec_then with (Err e).
  - change (defer d (Panic w)) with (d ≫= fun _ => @Panic A w). by apply exec_then with (Panicked w).
  - simpl. split; [intros [-> ->]; by right|].
    intros [(r0 & tr1 & tr2 & -> & [-> ->] & [] & _)|[[-> _] ->]]; done.
  - simpl. setoid_rewrite IH. split.
    + intros (x & tr' & -> & Hx & [(r0 & tr1 & tr2 & -> & H)|H]); [left|right; naive_solver].
      exists r0, ((o ▷ x) :: tr1), tr2. naive_solver.
    + intros [(r0 & tr1 & tr2 & -> & (x & tr' & -> & Hx & H1) & H)|[(x & tr' & -> & Hx & H1) ->]].
      * exists x, (tr' ++ tr2). naive_solver.
      * naive_solver.
Qed.
End more_rules.

(** A critical section is bracketed by its lock: every event of the body lies
    between the two calls, on every way out. *)
Lemma exec_with_mutex {A} m (p : prog A) tr r :
  exec (with_mutex m p) tr r <->
  (exists body, exec p body r /\ r <> NoFuel /\
     tr = (MutexLock m ▷ tt) :: body ++ [MutexUnlock m ▷ tt]) \/
  (exists body, exec p body NoFuel /\ r = NoFuel /\ tr = (MutexLock m ▷ tt) :: body).
Proof.
  unfold with_mutex. rewrite exec_call_bind. setoid_rewrite exec_defer.
  setoid_rewrite exec_call. split.
  - intros ([] & tr' & -> & _ & [(r0 & tr1 & tr2 & -> & H1 & H2 & [[([] & -> & _ & _) ->]|(rd & ([] & _ & _ & ->) & [=] & _)])|[H ->]]);
      [left|right]; eauto.
  - intros [(body & H1 & H2 & ->)|(body & H1 & -> & ->)]; exists tt; eexists; split_and!; eauto.
    + done.
    + left. exists r, body, [MutexUnlock m ▷ tt]. naive_solver.
    + done.
Qed.

(** A handler whose answers keep the language's promises produces an
    execution. *)
Lemma run_exec {W A} (h : forall o, W -> resp o * W) (p : prog A) w tr r w' :
  (forall o w, resp_ok o (fst (h o w))) -> run h p w = (tr, r, w') -> exec p tr r.
Proof.
  intros Hh. revert w tr r w'. induction p as [a|e|s| |o k IH]; simpl; intros w tr r w' H;
    simplify_eq/=; [done..|].
  destruct (h o w) as [x w1] eqn:Ho. destruct (run h (k x) w1) as [[tr' r'] w2] eqn:Hr.
  simplify_eq/=. exists x, tr'. split_and!; eauto.
  specialize (Hh o w). by rewrite Ho in Hh.
Qed.

(** Every call can be answered, so that every program can be run to an end. *)
Lemma can_answer o : exists x, resp_ok o x.
Proof.
  destruct o; simpl; first
    [ by exists tt | by exists None | by exists (inr (ErrExec EmptyString)) | by exists [] | by exists 0%Z
    | by exists false | by exists (EmptyString, None) | by eexists ].
Qed.

Lemma exec_total {A} (p : prog A) : exists tr r, exec p tr r.
Proof.
  induction p as [a|e|w| |o k IH]; try by do 2 eexists.
  destruct (can_answer o) as [x Hx]. destruct (IH x) as (tr & r & H). by exists ((o ▷ x) :: tr), r, x, tr.
Qed.

(** Fuel only matters for a program whose model has some: the others always
    end. *)
Fixpoint fuel_free {A} (p : prog A) : Prop :=
  match p with
  | OutOfFuel => False
  | Do o k => forall x, resp_ok o x -> fuel_free (k x)
  | _ => True
  end.

Lemma fuel_free_exec {A} (p : prog A) tr r : fuel_free p -> exec p tr r -> r <> NoFuel.
Proof.
  revert tr. induction p as [a|e|s| |o k IH]; simpl; intros tr Hp He; [naive_solver..|].
  destruct He as (x & tr' & -> & Hx & He). eauto.
Qed.

Lemma exec_for_each_cons {A} (f : A -> prog unit) x l tr r :
  exec (for_each f (x :: l)) tr r <->
  (exists tr1 tr2, tr = tr1 ++ tr2 /\ exec (f x) tr1 (Ok tt) /\ exec (for_each f l) tr2 r) \/
  (exists r0, exec (f x) tr r0 /\ is_ok r0 = false /\ r = fail_as r0).
Proof.
  apply exec_bind_unit.
Qed.

(** ** Working with executions *)

(** [go H] runs the program of the execution [H] forward: it opens calls,
    returns and the branches of the code. *)
Ltac go_step H :=
  lazymatch type of H with
  | exec (Ret _) _ _ => destruct H as [? ?]; simplify_eq
  | exec (mret _) _ _ => destruct H as [? ?]; simplify_eq
  | exec (Throw _) _ _ => destruct H as [? ?]; simplify_eq
  | exec (Panic _) _ _ => destruct H as [? ?]; simplify_eq
  | exec OutOfFuel _ _ => destruct H as [? ?]; simplify_eq
  | exec (call _ ≫= _) _ _ =>
      let x := fresh "x" in let t := fresh "t" in let Hx := fresh "Hx" in
      apply exec_call_inv in H as (x & t & -> & Hx & H)
  | exec (lift_sum ?s) _ _ => rewrite exec_lift_sum in H; destruct s; destruct H as [? ?]; simplify_eq
  | exec (lift_err ?s) _ _ => rewrite exec_lift_err in H; destruct s; destruct H as [? ?]; simplify_eq
  | exec (if ?b then _ else _) _ _ => let Hb := fresh "Hb" in destruct b eqn:Hb
  | exec (match ?s with _ => _ end) _ _ => let Hs := fresh "Hs" in destruct s eqn:Hs
  end.
Ltac go H := repeat (go_step H; cbv beta iota in H).

(** [gosub H]: split an execution of a sequence at its first statement. *)
Ltac gosub H :=
  let a := fresh "a" in let t1 := fresh "t" in let t2 := fresh "t" in
  let H1 := fresh "H1" in let r0 := fresh "r" in
  apply exec_bind in H as [(a & t1 & t2 & -> & H1 & H)|(r0 & H1 & ? & ->)].

(** Prove that a concrete trace is an execution. *)
Ltac exec_run :=
  repeat match goal with
  | |- exec _ _ _ => progress cbn
  | |- exists _, _ => eexists
  | |- _ /\ _ => split
  | |- _ = _ => reflexivity
  | |- True => exact I
  end.

(** ** Calls a program never makes *)

(** [avoids f p]: whatever the answers, [p] makes no call with [f o = true]. *)
Fixpoint avoids {A} (f : op -> bool) (p : prog A) : Prop :=
  match p with
  | Do o k => f o = false /\ forall x, resp_ok o x -> avoids f (k x)
  | _ => True
  end.

(** The events of a trace whose call satisfies [f]. *)
Definition calls (f : op -> bool) (tr : list event) : list event :=
  filter (fun e => f (projT1 e) = true) tr.

Section avoids.
Context {A B : Type} (f : op -> bool).

Lemma avoids_bind (p : prog A) (g : A -> prog B) :
  avoids f p -> (forall a, avoids f (g a)) -> avoids f (p ≫= g).
Proof. induction p as [a|e|w| |o k IH]; intros Hp Hg; [apply Hg|done..|]. destruct Hp. split; eauto. Qed.

Lemma avoids_try (p : prog A) : avoids f p -> avoids f (try p).
Proof. induction p as [a|e|w| |o k IH]; intros Hp; [done..|]. destruct Hp. split; eauto. Qed.

Lemma avoids_wrap_err g (p : prog A) : avoids f p -> avoids f (wrap_err g p).
Proof. induction p as [a|e|w| |o k IH]; intros Hp; [done..|]. destruct Hp. split; eauto. Qed.

Lemma avoids_call o : f o = false -> avoids f (call o).
Proof. by split. Qed.

Lemma avoids_lift_sum (s : A + error) : avoids f (lift_sum s).
Proof. by destruct s. Qed.

Lemma avoids_lift_err s : avoids f (lift_err s).
Proof. by destruct s. Qed.

Lemma avoids_exec (p : prog A) tr r :
  avoids f p -> exec p tr r -> Forall (fun e => f (projT1 e) = false) tr.
Proof.
  revert tr. induction p as [a|e|w| |o k IH]; simpl; intros tr Hp He;
    [destruct He as [-> _]; constructor..|].
  destruct Hp as [Ho Hk], He as (x & tr' & -> & Hx & He). constructor; eauto.
Qed.
End avoids.

Lemma avoids_defer {A} f (d : prog unit) (p : prog A) :
  avoids f d -> avoids f p -> avoids f (defer d p).
Proof.
  intros Hd. induction p as [a|e|w| |o k IH]; intros Hp; simpl;
    [by apply avoids_bind..|done|]. destruct Hp. split; eauto.
Qed.

Lemma avoids_with_mutex {A} f m (p : prog A) :
  f (MutexLock m) = false -> f (MutexUnlock m) = false -> avoids f p -> avoids f (with_mutex m p).
Proof. intros. apply avoids_bind; [by apply avoids_call|]. intros. apply avoids_defer; [by apply avoids_call|done]. Qed.

Lemma avoids_for_each {A} f (g : A -> prog unit) l :
  (forall x, x ∈ l -> avoids f (g x)) -> avoids f (for_each g l).
Proof.
  induction l as [|x l IH]; intros Hg; [done|]. apply avoids_bind; [apply Hg; set_solver|].
  intros _. apply IH. set_solver.
Qed.

(** Lemmas of the components on calls their operations never make. *)
Create HintDb avoids discriminated.

(** [avoid]: follow the structure of the program. *)
Ltac avoid_step :=
  lazymatch goal with
  | |- forall _, _ => intros ?
  | |- avoids _ (Ret _) => exact I
  | |- avoids _ (mret _) => exact I
  | |- avoids _ (Throw _) => exact I
  | |- avoids _ (Panic _) => exact I
  | |- avoids _ OutOfFuel => exact I
  | |- avoids _ (_ ≫= _) => apply avoids_bind
  | |- avoids _ (try _) => apply avoids_try
  | |- avoids _ (wrap_err _ _) => apply avoids_wrap_err
  | |- avoids _ (call _) => apply avoids_call
  | |- avoids _ (lift_sum _) => apply avoids_lift_sum
  | |- avoids _ (lift_err _) => apply avoids_lift_err
  | |- avoids _ (with_mutex _ _) => apply avoids_with_mutex
  | |- avoids _ (defer _ _) => apply avoids_defer
  | |- avoids _ (for_each _ _) => apply avoids_for_each
  | |- avoids _ (match ?x with _ => _ end) => destruct x
  | |- avoids _ _ => solve [auto with avoids nocore]
  | |- _ = false => first [reflexivity | solve [auto]]
  end.
Ltac avoid := repeat (first [assumption | avoid_step]; cbv beta).

Lemma calls_nil_iff f tr : calls f tr = [] <-> Forall (fun e => f (projT1 e) = false) tr.
Proof.
  unfold calls. induction tr as [|e tr IH]; [by split|].
  rewrite filter_cons, Forall_cons. case_decide as Hd.
  - rewrite Hd. naive_solver.
  - apply not_true_iff_false in Hd. naive_solver.
Qed.

Lemma calls_app f tr1 tr2 : calls f (tr1 ++ tr2) = calls f tr1 ++ calls f tr2.
Proof. apply filter_app. Qed.

(** A program that avoids a call leaves none in its traces. *)
Lemma avoids_calls {A} f (p : prog A) tr r : avoids f p -> exec p tr r -> calls f tr = [].
Proof. intros Hp He. apply calls_nil_iff. by eapply avoids_exec. Qed.

Lemma elem_of_calls f tr o x : f o = true -> (o ▷ x) ∈ tr -> calls f tr <> [].
Proof.
  intros Ho Hin Hc. apply calls_nil_iff in Hc. rewrite Forall_forall in Hc.
  apply Hc in Hin. simpl in Hin. congruence.
Qed.

(** The calls of a critical section other than those on its mutex are made by
    its body. *)
Lemma exec_with_mutex_in {A} m (p : prog A) tr r o x :
  exec (with_mutex m p) tr r -> (o ▷ x) ∈ tr -> o <> MutexLock m -> o <> MutexUnlock m ->
  exists body rr, exec p body rr /\ (o ▷ x) ∈ body.
Proof.
  intros H Hin Hl Hu.
  apply exec_with_mutex in H as [(body & H & _ & ->)|(body & H & _ & ->)]; eexists _, _; (split; [exact H|]);
    apply elem_of_cons in Hin as [Hin|Hin]; try (by apply (f_equal projT1) in Hin); [|done].
  apply elem_of_app in Hin as [Hin|Hin]; [done|].
  by apply list_elem_of_singleton, (f_equal projT1) in Hin.
Qed.
