(* ===== verification/Protocol.v ===== *)
(** * Protocols and interleavings

    The driver serves requests concurrently.  A configuration is a shared
    world and a pool of programs; a step lets one program make its next call
    and the world answer it.  A protocol follows the calls of one program with
    a state of its own: [pre] says which calls it may make, [post] how an
    answer changes the state.  [wp p s Q] says that [p], started in the
    protocol state [s], keeps to the protocol whatever it is answered, and
    ends in a state and with a result that satisfy [Q]. *)
From S2P Require Import Prelude GoStrings K8sTypes PatchText Prog.
From stdpp Require Import options.

Record protocol := mkProtocol {
  pstate : Type;
  pre : pstate -> op -> Prop;
  post : pstate -> forall o, resp o -> pstate;
}.

Section wp.
Context (P : protocol).
Implicit Types (s : pstate P).

Fixpoint wp {A} (p : prog A) s (Q : pstate P -> result A -> Prop) : Prop :=
  match p with
  | Ret a => Q s (Ok a)
  | Throw e => Q s (Err e)
  | Panic w => Q s (Panicked w)
  | OutOfFuel => Q s NoFuel
  | Do o k => pre P s o /\ forall x, resp_ok o x -> wp (k x) (post P s o x) Q
  end.

Lemma wp_mono {A} (p : prog A) s (Q Q' : pstate P -> result A -> Prop) :
  (forall s r, Q s r -> Q' s r) -> wp p s Q -> wp p s Q'.
Proof. intros HQ. revert s. induction p as [a|e|w| |o k IH]; simpl; naive_solver. Qed.

Lemma wp_bind {A B} (p : prog A) (f : A -> prog B) s Q :
  wp p s (fun s' r => match r with Ok a => wp (f a) s' Q | _ => Q s' (fail_as r) end) ->
  wp (p ≫= f) s Q.
Proof.
  revert s. induction p as [a|e|w| |o k IH]; intros s H; [exact H..|].
  destruct H as [H1 H2]. split; [done|]. intros x Hx. by apply IH, H2.
Qed.

Lemma wp_call o s Q :
  pre P s o -> (forall x, resp_ok o x -> Q (post P s o x) (Ok x)) -> wp (call o) s Q.
Proof. done. Qed.

Lemma wp_try {A} (p : prog A) s Q :
  wp p s (fun s' r => match r with
    | Ok a => Q s' (Ok (inl a)) | Err e => Q s' (Ok (inr e))
    | Panicked w => Q s' (Panicked w) | NoFuel => Q s' NoFuel end) ->
  wp (try p) s Q.
Proof.
  revert s. induction p as [a|e|w| |o k IH]; intros s H; [exact H..|].
  destruct H as [H1 H2]. split; [done|]. intros x Hx. by apply IH, H2.
Qed.

Lemma wp_wrap_err {A} g (p : prog A) s Q :
  wp p s (fun s' r => Q s' (map_err g r)) -> wp (wrap_err g p) s Q.
Proof.
  revert s. induction p as [a|e|w| |o k IH]; intros s H; [exact H..|].
  destruct H as [H1 H2]. split; [done|]. intros x Hx. by apply IH, H2.
Qed.

Lemma wp_defer {A} d (p : prog A) s Q :
  wp p s (fun s' r => match r with
    | NoFuel => Q s' NoFuel
    | _ => wp d s' (fun s'' rd => match rd with Ok _ => Q s'' r | _ => Q s'' (fail_as rd) end) end) ->
  wp (defer d p) s Q.
Proof.
  revert s. induction p as [a|e|w| |o k IH]; intros s H; [by apply wp_bind..|exact H|].
  destruct H as [H1 H2]. split; [done|]. intros x Hx. by apply IH, H2.
Qed.

(** What holds of every execution can be added to the postcondition. *)
Lemma wp_exec {A} (p : prog A) s (Q : pstate P -> result A -> Prop) (R : result A -> Prop) :
  wp p s Q -> (forall tr r, exec p tr r -> R r) -> wp p s (fun s' r => Q s' r /\ R r).
Proof.
  revert s. induction p as [a|e|w| |o k IH]; intros s HQ HR; simpl in *; try (split; [done|by eapply HR]).
  destruct HQ as [Hpre Hk]. split; [done|]. intros x Hx. apply IH; [by apply Hk|].
  intros tr r Hr. apply (HR ((o ▷ x) :: tr)). exists x, tr. done.
Qed.

(** A program that makes none of the calls the protocol is about does not
    move it. *)
Lemma wp_frame {A} (f : op -> bool) (p : prog A) s :
  (forall o, f o = false -> pre P s o /\ forall x, post P s o x = s) ->
  avoids f p -> wp p s (fun s' _ => s' = s).
Proof.
  intros Hf. induction p as [a|e|w| |o k IH]; intros Hp; [done..|].
  destruct Hp as [Ho Hk]. destruct (Hf o Ho) as [Hpre Hpost]. split; [done|].
  intros x Hx. rewrite Hpost. apply IH, Hk, Hx.
Qed.
End wp.

(** ** Interleavings *)

Section interleaving.
Context {W : Type} (answer : forall o, W -> resp o -> W -> Prop).

Record conf := mkConf { world : W; pool : list (prog unit) }.

(** Thread [i] makes its next call. *)
Inductive step : conf -> nat * event -> conf -> Prop :=
| step_call w w' ts i o k x :
    ts !! i = Some (Do o k) -> answer o w x w' -> resp_ok o x ->
    step (mkConf w ts) (i, o ▷ x) (mkConf w' (<[i := k x]> ts)).

Inductive steps : conf -> list (nat * event) -> conf -> Prop :=
| steps_nil c : steps c [] c
| steps_cons c1 l c2 tr c3 : step c1 l c2 -> steps c2 tr c3 -> steps c1 (l :: tr) c3.

Lemma steps_app c tr1 tr2 c' :
  steps c (tr1 ++ tr2) c' <-> exists c1, steps c tr1 c1 /\ steps c1 tr2 c'.
Proof.
  split.
  - revert c. induction tr1 as [|l tr1 IH]; intros c H; [exists c; split; [constructor|done]|].
    inversion H; subst. destruct (IH _ ltac:(eassumption)) as (c1 & H1 & H2).
    exists c1. split; [by econstructor|done].
  - intros (c1 & H1 & H2). induction H1; [done|]. simpl. econstructor; eauto.
Qed.

(** ** One thread of an interleaving *)

(** The calls of thread [i]. *)
Definition thread (i : nat) (tr : list (nat * event)) : list event :=
  map snd (List.filter (fun e => (fst e =? i)%nat) tr).

Lemma thread_app i tr1 tr2 : thread i (tr1 ++ tr2) = thread i tr1 ++ thread i tr2.
Proof. unfold thread. by rewrite List.filter_app, map_app. Qed.

Lemma elem_of_thread i e tr : e ∈ thread i tr <-> (i, e) ∈ tr.
Proof.
  unfold thread. rewrite list_elem_of_fmap. setoid_rewrite list_elem_of_In. setoid_rewrite filter_In. split.
  - intros ([j e'] & -> & Hin & Hj). apply Nat.eqb_eq in Hj. simpl in *. by subst.
  - intros Hin. exists (i, e). by rewrite Nat.eqb_refl.
Qed.

Lemma steps_thread_in c tr c' i e : steps c tr c' -> (i, e) ∈ tr -> is_Some (pool c !! i).
Proof.
  induction 1 as [c|c1 l c2 tr c3 Hs _ IH]; [set_solver|]. inversion Hs as [w w' ts j o k x Hj Ha Hx]; subst. simpl in *.
  intros [Heq|Hin]%elem_of_cons; [simplify_eq; by eexists|].
  apply IH in Hin. apply lookup_lt_is_Some in Hin. rewrite length_insert in Hin. by apply lookup_lt_is_Some.
Qed.

(** They are the beginning of an execution of its program. *)
Lemma steps_thread c tr c' i p :
  steps c tr c' -> pool c !! i = Some p -> exists tr' r, exec p (thread i tr ++ tr') r.
Proof.
  intros H. induction H as [c|c1 [j e] c2 tr c3 Hs _ IH] in p |- *; intros Hi; [apply exec_total|].
  inversion Hs as [w w' ts j' o k x Hj Ha Hx]; subst. simpl in *. unfold thread. simpl.
  destruct (Nat.eqb_spec j i) as [->|Hne].
  - rewrite Hi in Hj. simplify_eq. destruct (IH (k x)) as (tr' & r & He).
    { apply list_lookup_insert_eq. by eapply lookup_lt_Some. }
    exists tr', r, x, (thread i tr ++ tr'). done.
  - apply IH. by rewrite list_lookup_insert_ne.
Qed.

(** Those of a thread that has returned are all of it. *)
Lemma steps_done c tr c' i p a :
  steps c tr c' -> pool c !! i = Some p -> pool c' !! i = Some (Ret a) -> exec p (thread i tr) (Ok a).
Proof.
  intros H. induction H as [c|c1 [j e] c2 tr c3 Hs _ IH] in p |- *; intros Hi Ha; [by simplify_eq|].
  inversion Hs as [w w' ts j' o k x Hj Hans Hx]; subst. simpl in *. unfold thread. simpl.
  destruct (Nat.eqb_spec j i) as [->|Hne].
  - rewrite Hi in Hj. simplify_eq. exists x, (thread i tr). split_and!; [done..|].
    apply IH; [|done]. apply list_lookup_insert_eq. by eapply lookup_lt_Some.
  - apply IH; [|done]. by rewrite list_lookup_insert_ne.
Qed.

(** ** Programs that keep to a protocol *)

Context (P : protocol) (Q : pstate P -> result unit -> Prop).

(** Every program of the pool follows the protocol from the state listed for
    it. *)
Definition follow (ss : list (pstate P)) (ts : list (prog unit)) : Prop :=
  Forall2 (fun s p => wp P p s Q) ss ts.

Lemma follow_step ss c l c' :
  follow ss (pool c) -> step c l c' ->
  exists s, ss !! l.1 = Some s /\ pre P s (projT1 l.2) /\
    answer (projT1 l.2) (world c) (projT2 l.2) (world c') /\
    follow (<[l.1 := post P s (projT1 l.2) (projT2 l.2)]> ss) (pool c').
Proof.
  intros Hf Hs. destruct Hs as [w w' ts i o k x Hi Ha Hx]. simpl in *.
  destruct (Forall2_lookup_r _ _ _ _ _ Hf Hi) as (s & Hsi & [Hpre Hk]).
  exists s. split_and!; [done..|]. apply Forall2_insert; [done|]. by apply Hk.
Qed.
End interleaving.
Arguments mkConf {W} world pool.
Arguments world {W} c.
Arguments pool {W} c.

(** ** Schedules

    An executable interleaving: the threads of a schedule take turns, a
    handler answers, and [ok] says whether a call can be answered at all. *)
Section sched.
Context {W : Type} (ok : op -> W -> bool) (h : forall o, W -> resp o * W).
Context (answer : forall o, W -> resp o -> W -> Prop).
Hypothesis h_answer : forall o w, ok o w = true -> answer o w (fst (h o w)) (snd (h o w)) /\ resp_ok o (fst (h o w)).

Definition turn (c : @conf W) (i : nat) : option (nat * event * @conf W) :=
  match pool c !! i with
  | Some (Do o k) =>
      if ok o (world c) then
        Some ((i, o ▷ fst (h o (world c))), mkConf (snd (h o (world c))) (<[i := k (fst (h o (world c)))]> (pool c)))
      else None
  | _ => None
  end.

Fixpoint sched (l : list nat) (c : @conf W) : option (list (nat * event) * @conf W) :=
  match l with
  | [] => Some ([], c)
  | i :: l' =>
      match turn c i with
      | Some (e, c1) => match sched l' c1 with Some (tr, c2) => Some (e :: tr, c2) | None => None end
      | None => None
      end
  end.

Lemma turn_step c i e c' : turn c i = Some (e, c') -> step answer c e c' /\ e.1 = i.
Proof using h_answer.
  unfold turn. destruct c as [w ts]. simpl. destruct (ts !! i) as [[| | | |o k]|] eqn:Hi; try done.
  destruct (ok o w) eqn:Hok; [|done]. intros [= <- <-]. split; [|done].
  destruct (h_answer o w Hok). by constructor.
Qed.

Lemma sched_steps l c tr c' : sched l c = Some (tr, c') -> steps answer c tr c'.
Proof using h_answer.
  revert c tr. induction l as [|i l IH]; intros c tr H; simpl in H; simplify_eq; [constructor|].
  destruct (turn c i) as [[e c1]|] eqn:Ht; [|done]. destruct (sched l c1) as [[tr' c2]|] eqn:Hs; [|done].
  simplify_eq. econstructor; [by apply turn_step in Ht as [Ht _]|]. by apply IH.
Qed.

Lemma sched_order l c tr c' : sched l c = Some (tr, c') -> map fst tr = l.
Proof using h_answer.
  revert c tr. induction l as [|i l IH]; intros c tr H; simpl in H; simplify_eq; [done|].
  destruct (turn c i) as [[e c1]|] eqn:Ht; [|done]. destruct (sched l c1) as [[tr' c2]|] eqn:Hs; [|done].
  simplify_eq. apply turn_step in Ht as [_ <-]. simpl. by erewrite IH.
Qed.

(** A schedule that can be followed to its end. *)
Lemma sched_runs l c :
  bool_decide (is_Some (sched l c)) = true -> exists tr c', steps answer c tr c' /\ map fst tr = l.
Proof using h_answer.
  intros [[tr c'] H]%bool_decide_eq_true. exists tr, c'. split; [by eapply sched_steps|by eapply sched_order].
Qed.

(** The last turn of a schedule is a step from where the others lead. *)
Lemma sched_last l c e :
  (sched l c ≫= fun r => last r.1) = Some e ->
  exists tr1 c1 c', steps answer c tr1 c1 /\ step answer c1 e c'.
Proof using h_answer.
  destruct (sched l c) as [[tr c']|] eqn:H; [|done]. cbn. intros Hl.
  apply sched_steps in H. apply last_Some in Hl as (tr1 & ->).
  apply steps_app in H as (c1 & H1 & H2). exists tr1, c1, c'. split; [done|].
  inversion H2 as [|? ? ? ? ? Hs H3]; subst. by inversion H3; subst.
Qed.

(** One more turn from a world that satisfies [f]. *)
Lemma sched_turn (f : W -> bool) l i c e :
  (sched l c ≫= fun r => if f (world r.2) then fst <$> turn r.2 i else None) = Some e ->
  exists tr c1 c', steps answer c tr c1 /\ f (world c1) = true /\ step answer c1 e c'.
Proof using h_answer.
  destruct (sched l c) as [[tr c1]|] eqn:H; [|done]. cbn. destruct (f (world c1)) eqn:Hf; [|done].
  destruct (turn c1 i) as [[e' c']|] eqn:Ht; [|done]. intros [= <-]. exists tr, c1, c'.
  split_and!; [by eapply sched_steps|done|]. by apply turn_step in Ht as [? _].
Qed.

(** What can be computed of the trace and the end of a schedule. *)
Lemma sched_end (f : list (nat * event) -> @conf W -> bool) l c :
  (fun r => f r.1 r.2) <$> sched l c = Some true -> exists tr c', steps answer c tr c' /\ f tr c' = true.
Proof using h_answer.
  destruct (sched l c) as [[tr' c']|] eqn:H; [|done]. intros [= Hf]. exists tr', c'. split; [by apply sched_steps in H|done].
Qed.

(** The trace of a schedule, and something of the world at its end. *)
Lemma sched_view {B} (f : W -> B) l c tr b :
  (fun r => (r.1, f (world r.2))) <$> sched l c = Some (tr, b) ->
  exists c', steps answer c tr c' /\ f (world c') = b.
Proof using h_answer.
  destruct (sched l c) as [[tr' c']|] eqn:H; [|done]. intros [= <- <-]. exists c'. split; [by apply sched_steps in H|done].
Qed.

Lemma sched_trace l c tr : fst <$> sched l c = Some tr -> exists c', steps answer c tr c'.
Proof using h_answer.
  destruct (sched l c) as [[tr' c']|] eqn:H; [|done]. intros [= <-]. exists c'. by apply sched_steps in H.
Qed.
End sched.
