(* ===== verification/Config.v ===== *)
(** * Package config

    [pkg/juicefs/config]: the process-wide settings ([config.go]), the lock
    table of the mount pods, and the settings of one volume parsed from its
    secrets and volume context ([setting.go]). *)
From S2P Require Import Prelude GoStrings GoTime Json K8sTypes JsonDecode PatchText Prog.
From stdpp Require Import options.
#[local] Open Scope Z_scope.

(** ** Process-wide settings *)

(** The variables [main] fills from the environment. *)
Record Config := mkConfig {
  cfg_NodeName : string;
  cfg_Namespace : string;
  cfg_MountImage : string;
  cfg_MountPointPath : string;
  cfg_JFSConfigPath : string;
}.

(** The variables nothing assigns after their declaration. *)
Definition PodMountBase : string := "/mosfs".
Definition MountBase : string := "/var/lib/mosfs".
Definition FsType : string := "juicefs".
Definition CliPath : string := "/usr/bin/dfscli".
Definition CeCliPath : string := CliPath.
Definition JfsMountPath : string := "/sbin/mount.juicefs".
Definition CeMountPath : string := JfsMountPath.
Definition DeleteDelayTimeKey : string := "mosfs-delete-delay".
Definition DeleteDelayAtKey : string := "mosfs-delete-at".
Definition PodTypeKey : string := "app.kubernetes.io/name".
Definition PodTypeValue : string := "mosfs-mount".
Definition Finalizer : string := "szsandstone.com/mosfsfinalizer".

(** ** The lock table *)

(** [hash/fnv.New32a] over a byte string, a 32-bit word. *)
Fixpoint fnv32a (h : Z) (s : string) : Z :=
  match s with
  | EmptyString => h
  | String c s' => fnv32a ((Z.lxor h (Z.of_N (Ascii.N_of_ascii c)) * 16777619) mod 2 ^ 32) s'
  end.

(** The index [GetPodLock] takes in the array of 1024 mutexes ([int] is 64
    bits wide, so that the conversion of the sum keeps its value). *)
Definition GetPodLock (podName : string) : mutex :=
  PodLock (Z.rem (fnv32a 2166136261 podName) 1024).

(** ** Settings of a volume *)

Record JfsSetting := mkSetting {
  IsCe : bool;
  UsePod : bool;
  js_Name : string;
  MetaUrl : string;
  Source : string;
  Storage : string;
  Configs : gomap;
  Envs : gomap;
  MountPodCpuLimit : string;
  MountPodMemLimit : string;
  MountPodCpuRequest : string;
  MountPodMemRequest : string;
  DeletedDelay : string;
}.

Definition zeroSetting : JfsSetting :=
  mkSetting false false EmptyString EmptyString EmptyString EmptyString None None
            EmptyString EmptyString EmptyString EmptyString EmptyString.

(** [jfsSecret.Source = s]. *)
Definition with_source (s : string) (j : JfsSetting) : JfsSetting :=
  mkSetting (IsCe j) (UsePod j) (js_Name j) (MetaUrl j) s (Storage j) (Configs j) (Envs j)
            (MountPodCpuLimit j) (MountPodMemLimit j) (MountPodCpuRequest j) (MountPodMemRequest j)
            (DeletedDelay j).

(** A decoder fills a map from text: it returns the map (which a failed
    decoding may have changed in part) and the error. *)
Definition decoder := string -> gomap -> gomap * option error.

Section ParseSetting.
(** [yaml.Unmarshal] of the vendored library. *)
Context (yaml : decoder).

Definition json_map : decoder := Unmarshal string_map_value.

(** The map in the secret entry [k], if the entry is not empty: YAML first,
    then JSON into the same map. *)
Definition decode_entry (secrets : gomap) (k fmt : string) : gomap + error :=
  let s := mget secrets k in
  if String.eqb s EmptyString then inl None
  else
    let (m1, e1) := yaml s (Some ∅) in
    match e1 with
    | None => inl m1
    | Some _ =>
        let (m2, e2) := json_map s m1 in
        match e2 with
        | None => inl m2
        | Some e => inr (ErrStatus InvalidArgument fmt [] (Some e))
        end
    end.

Definition ParseSetting (secrets volCtx : gomap) (usePod : bool) : JfsSetting + error :=
  match secrets with
  | None => inl zeroSetting
  | Some _ =>
      if String.eqb (mget secrets "name") EmptyString
      then inr (ErrStatus InvalidArgument "Empty name" [] None)
      else
        match decode_entry secrets "configs" "Parse configs in secret error: %v" with
        | inr e => inr e
        | inl configs =>
            match decode_entry secrets "envs" "Parse envs in secret error: %v" with
            | inr e => inr e
            | inl envs =>
                let j := mkSetting (bool_decide (is_Some (mlookup secrets "metaurl"))) usePod
                           (mget secrets "name") (mget secrets "metaurl") EmptyString
                           (mget secrets "storage") configs envs in
                match volCtx with
                | None => inl (j EmptyString EmptyString EmptyString EmptyString EmptyString)
                | Some _ =>
                    let j := j (mget volCtx "mountpod/cpu-limit") (mget volCtx "mountpod/memory-limit")
                               (mget volCtx "mountpod/cpu-request") (mget volCtx "mountpod/memory-request") in
                    let delay := mget volCtx "mountpod/mount-delete-delay" in
                    if String.eqb delay EmptyString then inl (j EmptyString)
                    else match ParseDuration delay with
                         | None => inr (ErrFmt "can't parse delay time %s" [delay] None)
                         | Some _ => inl (j delay)
                         end
                end
            end
        end
  end.
End ParseSetting.

(** ** Theorems *)

Lemma fnv32a_range h s : 0 <= h < 2 ^ 32 -> 0 <= fnv32a h s < 2 ^ 32.
Proof.
  revert h. induction s as [|c s IH]; intros h Hh; [done|].
  simpl. apply IH. apply Z.mod_pos_bound. lia.
Qed.

(** The lock of a pod is always one of the 1024 mutexes of the array. *)
Theorem GetPodLock_in_table podName :
  exists i, GetPodLock podName = PodLock i /\ 0 <= i < 1024.
Proof.
  eexists. split; [reflexivity|].
  pose proof (fnv32a_range 2166136261 podName ltac:(lia)).
  rewrite Z.rem_mod_nonneg by lia. apply Z.mod_pos_bound. lia.
Qed.

(** Every setting that parses either asks for no deletion delay or for one
    [time.ParseDuration] accepts, is for a pod mount only if asked to, and
    has a non-empty name unless the secrets were nil. *)
Theorem ParseSetting_ok yaml secrets volCtx usePod s :
  ParseSetting yaml secrets volCtx usePod = inl s ->
  (DeletedDelay s = EmptyString \/ is_Some (ParseDuration (DeletedDelay s))) /\
  (UsePod s = true -> usePod = true) /\
  (secrets = None \/ js_Name s <> EmptyString) /\
  (IsCe s = true <-> is_Some (mlookup secrets "metaurl")).
Proof.
  unfold ParseSetting. destruct secrets as [m|].
  2:{ intros [= <-]. simpl. split_and!; auto; try done. unfold mlookup; simpl.
      rewrite lookup_empty. split; [done|by intros []]. }
  case_match eqn:Hn; [done|]. apply String.eqb_neq in Hn.
  repeat case_match; intros; simplify_eq/=; split_and!; auto;
    rewrite bool_decide_eq_true; done || (try by right; eauto).
Qed.
