(* ===== verification/K8sClient.v ===== *)
(** * Package k8sclient

    [pkg/juicefs/k8sclient/client.go]: the calls to the API server the rest
    of the driver makes, on top of the client library's own requests. *)
From S2P Require Import Prelude GoStrings K8sTypes PatchText Prog.
From stdpp Require Import options.

(** The object the client library returns with an error. *)
Definition zeroPod : Pod :=
  mkPod (mkMeta EmptyString EmptyString EmptyString None None None None)
        (mkSpec [] [] EmptyString None EmptyString) zeroStatus.

(** An object that exists already is not an error. *)
Definition CreatePod (pod : Pod) : prog Pod :=
  r ← call (PodsCreate pod);
  match r with
  | inl p => mret p
  | inr e => if negb (IsAlreadyExists e) then Throw e else mret zeroPod
  end.

Definition GetPod (podName namespace : string) : prog Pod :=
  r ← call (PodsGet podName namespace); lift_sum r.

(** All pods of the cluster. *)
Definition GetAllPod : prog (list Pod) :=
  r ← call (PodsList EmptyString EmptyString); lift_sum r.

Definition UpdatePod (pod : Pod) : prog unit :=
  r ← call (PodsUpdate pod); lift_err r.

(** A nil pod is not patched. *)
Definition PatchPod (pod : option Pod) (data : Patch) : prog unit :=
  match pod with
  | None => mret tt
  | Some p => r ← call (PodsPatch (pod_Namespace p) (pod_Name p) data); lift_err r
  end.

Definition DeletePod (pod : Pod) : prog unit :=
  r ← call (PodsDelete (pod_Namespace pod) (pod_Name pod)); lift_err r.

Definition GetPersistentVolume (pvName : string) : prog PersistentVolume :=
  r ← call (PVGet pvName); lift_sum r.

Definition GetPodLog (podName namespace containerName : string) : prog string :=
  r ← call (PodsLogs namespace podName containerName); lift_sum r.

(** Without selectors, as every caller in the driver lists. *)
Definition ListPersistentVolumes : prog (list PersistentVolume) :=
  r ← call PVList; lift_sum r.

Definition ListPod (enableAPIServerListCache : bool) (namespace : string) : prog (list Pod) :=
  r ← call (PodsList namespace (if enableAPIServerListCache then "0" else EmptyString)); lift_sum r.

(** [mount.PathExists] of the vendored mount library: whether the path
    exists, and the error when the answer is not certain. *)
Definition PathExists (path : string) : prog (bool * option error) :=
  r ← call (OsStat path);
  match r with
  | inl _ => mret (true, None)
  | inr e => if IsNotExist e then mret (false, None)
             else if IsCorruptedMnt e then mret (true, Some e)
             else mret (false, Some e)
  end.

(** ** Rules for the calls *)

Section rules.
Context {B : Type}.

Lemma exec_GetPod_bind n ns (f : Pod -> prog B) tr r :
  exec (GetPod n ns ≫= f) tr r <->
  (exists p tr', tr = (PodsGet n ns ▷ inl p) :: tr' /\ exec (f p) tr' r) \/
  (exists e, tr = [PodsGet n ns ▷ inr e] /\ r = Err e).
Proof.
  unfold GetPod. split.
  - intros (x & tr' & -> & _ & H). destruct x as [p|e].
    + left. eauto.
    + destruct H as [-> ->]. right. eauto.
  - intros [(p & tr' & -> & H)|(e & -> & ->)].
    + by exists (inl p), tr'.
    + by exists (inr e), [].
Qed.

Lemma exec_try_GetPod_bind n ns (f : Pod + error -> prog B) tr r :
  exec (try (GetPod n ns) ≫= f) tr r <->
  exists x tr', tr = (PodsGet n ns ▷ x) :: tr' /\ exec (f x) tr' r.
Proof.
  unfold GetPod. split.
  - intros (x & tr' & -> & _ & H). exists x, tr'. by destruct x.
  - intros (x & tr' & -> & H). exists x, tr'. by destruct x.
Qed.

Lemma exec_PatchPod p d tr r :
  exec (PatchPod (Some p) d) tr r <->
  exists x, tr = [PodsPatch (pod_Namespace p) (pod_Name p) d ▷ x] /\
            r = match x with None => Ok tt | Some e => Err e end.
Proof.
  unfold PatchPod. split.
  - intros (x & tr' & -> & _ & H). exists x. by destruct x; destruct H as [-> ->].
  - intros (x & -> & ->). exists x, []. by destruct x.
Qed.

Lemma exec_DeletePod p tr r :
  exec (DeletePod p) tr r <->
  exists x, tr = [PodsDelete (pod_Namespace p) (pod_Name p) ▷ x] /\
            r = match x with None => Ok tt | Some e => Err e end.
Proof.
  unfold DeletePod. split.
  - intros (x & tr' & -> & _ & H). exists x. by destruct x; destruct H as [-> ->].
  - intros (x & -> & ->). exists x, []. by destruct x.
Qed.

Lemma exec_CreatePod p tr r :
  exec (CreatePod p) tr r <->
  exists x, tr = [PodsCreate p ▷ x] /\
            r = match x with
                | inl q => Ok q
                | inr e => if IsAlreadyExists e then Ok zeroPod else Err e
                end.
Proof.
  unfold CreatePod. split.
  - intros H. apply exec_call_inv in H as (x & tr' & -> & _ & H). cbv beta in H. exists x.
    destruct x as [q|e]; [by destruct H as [-> ->]|].
    revert H. destruct (IsAlreadyExists e); by intros [-> ->].
  - intros (x & -> & ->). exists x, []. destruct x as [q|e]; [done|].
    simpl. by destruct (IsAlreadyExists e).
Qed.

Lemma exec_PathExists_bind path (f : bool * option error -> prog B) tr r :
  exec (PathExists path ≫= f) tr r <->
  exists x tr', tr = (OsStat path ▷ x) :: tr' /\
    exec (f (match x with
             | inl _ => (true, None)
             | inr e => if IsNotExist e then (false, None)
                        else if IsCorruptedMnt e then (true, Some e) else (false, Some e)
             end)) tr' r.
Proof.
  unfold PathExists. split.
  - intros (x & tr' & -> & _ & H). exists x, tr'. split; [done|].
    revert H. destruct x as [q|e]; [done|]. cbn. by destruct (IsNotExist e), (IsCorruptedMnt e).
  - intros (x & tr' & -> & H). exists x, tr'. split_and!; [done..|].
    revert H. destruct x as [q|e]; [done|]. cbn. by destruct (IsNotExist e), (IsCorruptedMnt e).
Qed.
End rules.

(** ** Kinds of calls *)

(** Deletions, creations, and the calls of the delayed deletion. *)
Definition is_delete (o : op) : bool := match o with PodsDelete _ _ => true | _ => false end.
Definition is_delay (o : op) : bool :=
  match o with TimeNow | PodsPatch _ _ (StrategicMergeAnnotations _) => true | _ => false end.
Definition is_create (o : op) : bool := match o with PodsCreate _ => true | _ => false end.
Definition delete_answer (e : event) : option (option error) :=
  match e with existT (PodsDelete _ _) x => Some x | _ => None end.
Definition get_answer (e : event) : option (Pod + error) :=
  match e with existT (PodsGet _ _) x => Some x | _ => None end.
Definition patch_answer (e : event) : option (option error) :=
  match e with existT (PodsPatch _ _ _) x => Some x | _ => None end.
