(* ===== verification/Util.v ===== *)
(** * Package util

    [pkg/util/util.go] and [pkg/util/pod.go]: reference keys, the mount path
    in a mount pod's command, the delayed deletion, the classification of
    pods and the patches sent to them. *)
From S2P Require Import Prelude GoStrings GoPath GoTime Sha256 K8sTypes PatchText Prog Config K8sClient.
From stdpp Require Import options.
#[local] Open Scope Z_scope.

(** ** [util.go] *)

Definition ParseQosParams (params : gomap) : string :=
  let uploadLimit := mget params "upload-limit" in
  let downloadLimit := mget params "download-limit" in
  if String.eqb uploadLimit EmptyString && String.eqb downloadLimit EmptyString then "0:0"
  else uploadLimit +:+ ":" +:+ downloadLimit.

Fixpoint ContainsString (slice : list string) (s : string) : bool :=
  match slice with
  | [] => false
  | item :: rest => if String.eqb item s then true else ContainsString rest s
  end.

(** The annotation key that stands for a mount target. *)
Definition GetReferenceKey (target : string) : string :=
  stake 63 ("mosfs-" +:+ hex (Sum256 (bytes_of target))).

Arguments GetReferenceKey : simpl never.

Definition defaultLoopTimeout : Z := 60.

Definition GetLoopTimeout : prog Z :=
  timeout ← Getenv "LOOP_TIMEOUT";
  if String.eqb timeout EmptyString then mret defaultLoopTimeout
  else match Atoi timeout with
       | None => mret defaultLoopTimeout
       | Some r => mret r
       end.

(** The mount path and the volume id in a mount command. *)
Definition ParseMntPath (cmd : string) : string * string + error :=
  match Fields cmd with
  | _ :: _ :: a :: _ =>
      if negb (HasPrefix a PodMountBase) then inr (ErrFmt "err cmd:%s" [cmd] None)
      else match Split a "/" with
           | _ :: _ :: v :: _ => inl (a, v)
           | _ => inr (ErrFmt "err mntPath:%s" [a] None)
           end
  | _ => inr (ErrFmt "err cmd:%s" [cmd] None)
  end.

(** The ids with an operation under way; every method holds the mutex, so
    that each is one atomic step. *)
Record ObjLocks := mkLocks { locks : gset string }.

Definition NewObjLocks : ObjLocks := mkLocks ∅.

Definition TryAcquire (ols : ObjLocks) (id : string) : bool * ObjLocks :=
  if decide (id ∈ locks ols) then (false, ols)
  else (true, mkLocks ({[id]} ∪ locks ols)).

Definition Release (ols : ObjLocks) (id : string) : ObjLocks :=
  mkLocks (locks ols ∖ {[id]}).

Definition VolumeOperationAlreadyExistsFmt : string := "an operation with the given Volume %s already exists".
Definition SnapshotOperationAlreadyExistsFmt : string := "an operation with the given Snapshot %s already exists".

(** The call returns the context's error when the context ends first, and
    what [f] returns otherwise. *)
Definition DoWithContext {A} (timeout : Z) (f : prog A) : prog A :=
  d ← call (CtxDone timeout);
  match d with
  | Some e => Throw (ErrCtx e)
  | None => f
  end.

Definition DoWithTimeout {A} (timeout : Z) (f : prog A) : prog A := DoWithContext timeout f.

(** The messages by which [umount] says that nothing was mounted. *)
Definition not_mounted_msg (out : string) : bool :=
  Contains out "not mounted" || Contains out "mountpoint not found"
  || Contains out "no mount point specified".

(** Unmount, lazily when that fails; no error is returned. *)
Definition UmountPath (sourcePath : string) : prog unit :=
  '(out, err) ← call (Command "umount" [sourcePath] []);
  match err with
  | None => mret tt
  | Some _ =>
      if negb (not_mounted_msg out) then
        call (Command "umount" ["-l"; sourcePath] []) ≫= fun _ => mret tt
      else mret tt
  end.

Definition GetTimeAfterDelay (delayStr : string) : prog (string + error) :=
  match ParseDuration delayStr with
  | None => mret (inr (ErrFmt "time: invalid duration %s" [delayStr] None))
  | Some delay =>
      now ← call TimeNow;
      off ← call (LocalOffset (now + delay));
      mret (inl (Format off (now + delay)))
  end.

Definition GetTime (str : string) : Z + error :=
  match ParseTime str with
  | Some t => inl t
  | None => inr (ErrFmt "parsing time %s" [str] None)
  end.

(** ** [pod.go] *)

Definition IsPodReady (pod : Pod) : bool :=
  let conditionsTrue :=
    length (filter (fun cond =>
      (String.eqb (cond_Status cond) "True" &&
       (String.eqb (cond_Type cond) "ContainersReady" || String.eqb (cond_Type cond) "Ready"))
      = true) (Conditions (Status pod))) in
  (conditionsTrue =? 2)%nat.

Fixpoint containError (statuses : list ContainerStatus) : bool :=
  match statuses with
  | [] => false
  | status :: rest =>
      if (match Waiting (cs_State status) with
          | Some reason => negb (String.eqb reason "ContainerCreating")
          | None => false
          end
          || match Terminated (cs_State status) with
             | Some exitCode => negb (exitCode =? 0)
             | None => false
             end)
      then true else containError rest
  end.

Definition IsPodError (pod : Pod) : bool :=
  if String.eqb (Phase (Status pod)) "Failed" || String.eqb (Phase (Status pod)) "Unknown" then true
  else containError (ContainerStatuses (Status pod)).

Definition unschedulable_for_resources (cond : PodCondition) : bool :=
  String.eqb (cond_Status cond) "False" && String.eqb (cond_Type cond) "PodScheduled"
  && String.eqb (cond_Reason cond) "Unschedulable"
  && (Contains (cond_Message cond) "Insufficient cpu" || Contains (cond_Message cond) "Insufficient memory").

Definition IsPodResourceError (pod : Pod) : bool :=
  let st := Status pod in
  if String.eqb (Phase st) "Failed" &&
     (Contains (Reason st) "OutOf" ||
      (String.eqb (Reason st) "UnexpectedAdmissionError" && Contains (Message st) "to reclaim resources"))
  then true
  else existsb unschedulable_for_resources (Conditions st).

Definition DeleteResourceOfPod (pod : Pod) : Pod :=
  with_containers (map (with_resources (mkRes None None)) (Containers (Spec pod))) pod.

Definition IsPodHasResource (pod : Pod) : bool :=
  existsb (fun cn => negb (bool_decide (gm (Requests (cn_Resources cn)) = ∅))) (Containers (Spec pod)).

Definition GetMountPathOfPod (pod : Pod) : string * string + error :=
  match Containers (Spec pod) with
  | [] => inr (ErrFmt "pod %v has no container" [pod_Name pod] None)
  | c :: _ =>
      match cn_Command c with
      | _ :: _ :: cmd :: _ => ParseMntPath cmd
      | cmd => inr (ErrFmt "get error pod command:%v" cmd None)
      end
  end.

(** The loop of [RemoveFinalizer] over the backing array [arr] of the pod's
    finalizer slice: [f] is [arr[:l]], and [append(f[:i], f[i+1:]...)] moves
    the tail of [f] one place down inside the same array. *)
Fixpoint remove_loop (fuel : nat) (finalizer : string) (arr : list string) (l i : nat) : list string * nat :=
  match fuel with
  | O => (arr, l)
  | S fuel' =>
      if (i <? l)%nat then
        if String.eqb (nth i arr EmptyString) finalizer then
          remove_loop fuel' finalizer
            (take i arr ++ take (l - S i) (drop (S i) arr) ++ drop (l - 1) arr) (l - 1) i
        else remove_loop fuel' finalizer arr l (S i)
      else (arr, l)
  end.

(** The slice after the loop, and the array it shares with the pod. *)
Definition remove_finalizer (finalizer : string) (fs : list string) : list string * list string :=
  let '(arr, l) := remove_loop (length fs) finalizer fs (length fs) 0 in (take l arr, arr).

(** Returns the pod as the call leaves it: its finalizer slice keeps its
    length over the changed array. *)
Definition RemoveFinalizer (pod : Pod) (finalizer : string) : prog Pod :=
  let '(value, shared) :=
    match pod_Finalizers pod with
    | None => (None, None)
    | Some fs => let '(f, arr) := remove_finalizer finalizer fs in (Some f, Some arr)
    end in
  PatchPod (Some pod) (JSONPatch [ReplaceList "/metadata/finalizers" value]) ≫= fun _ =>
  mret (with_finalizers shared pod).

Definition AddPodLabel (pod : Pod) (addLabels : gmap string string) : prog unit :=
  PatchPod (Some pod) (StrategicMergeLabels addLabels).

Definition AddPodAnnotation (pod : Pod) (addAnnotations : gmap string string) : prog unit :=
  PatchPod (Some pod) (StrategicMergeAnnotations addAnnotations).

Definition DelPodAnnotation (pod : Pod) (delAnnotations : list string) : prog unit :=
  PatchPod (Some pod) (JSONPatch (map (fun k => RemovePath ("/metadata/annotations/" +:+ k)) delAnnotations)).

Definition ReplacePodAnnotation (pod : Pod) (annotation : gmap string string) : prog unit :=
  PatchPod (Some pod) (JSONPatch [ReplaceMap "/metadata/annotations" annotation]).

(** An annotation that is the reference of its own value. *)
Definition is_ref (kv : string * string) : bool := String.eqb (fst kv) (GetReferenceKey (snd kv)).

Definition GetAllRefKeys (pod : Pod) : gmap string string :=
  filter (fun kv => is_ref kv = true) (gm (pod_Annotations pod)).

(** Whether the deletion of a pod without references is put off; writes the
    time of the deletion on the pod when it is not there yet. *)
Definition ShouldDelay (pod : Pod) : prog bool :=
  match mlookup (pod_Annotations pod) DeleteDelayTimeKey with
  | None => mret false
  | Some delayStr =>
      match mlookup (pod_Annotations pod) DeleteDelayAtKey with
      | None =>
          d ← GetTimeAfterDelay delayStr;
          match d with
          | inr _ => mret false
          | inl d => AddPodAnnotation pod {[DeleteDelayAtKey := d]} ≫= fun _ => mret true
          end
      | Some delayAtStr =>
          match GetTime delayAtStr with
          | inr _ => mret false
          | inl delayAt => now ← call TimeNow; mret (now <? delayAt)
          end
      end
  end.

(** [controllerutil.AddFinalizer] of the vendored controller library. *)
Definition AddFinalizer (pod : Pod) (finalizer : string) : Pod :=
  let f := default [] (pod_Finalizers pod) in
  if ContainsString f finalizer then pod else with_finalizers (Some (f ++ [finalizer])) pod.

Example refkey_ex :
  GetReferenceKey "/mnt/abc" = "mosfs-2cbb90dc97f8c8e27b281885e56209e4a279ecfef2799bd2e16da9b9b".
Proof. vm_compute. reflexivity. Qed.

(** ** Reference keys *)

Lemma length_stake n s : (n <= String.length s)%nat -> String.length (stake n s) = n.
Proof.
  revert s. induction n as [|n IH]; intros s Hn; [done|].
  destruct s as [|c s]; simpl in *; [lia|]. rewrite IH; lia.
Qed.

Lemma length_GetReferenceKey target : String.length (GetReferenceKey target) = 63%nat.
Proof.
  unfold GetReferenceKey. apply length_stake.
  rewrite slength_app, length_hex, length_Sum256. simpl. lia.
Qed.

Lemma GetReferenceKey_prefix target : HasPrefix (GetReferenceKey target) "mosfs-" = true.
Proof.
  unfold GetReferenceKey. set (h := hex _). sapp. simpl stake.
  by rewrite !HasPrefix_cons, !Ascii.eqb_refl, HasPrefix_nil.
Qed.

Lemma GetReferenceKey_plain target : plain_token (GetReferenceKey target) = true.
Proof.
  unfold plain_token, GetReferenceKey. apply andb_true_intro.
  split; apply free_of_stake; rewrite free_of_app, free_of_hex; try done; try apply Sum256_byte.
  all: intros i Hi Heq; apply (f_equal Ascii.nat_of_ascii) in Heq; rewrite Ascii.nat_ascii_embedding in Heq by lia;
    vm_compute in Heq; lia.
Qed.

(** A reference key is never one of the keys of the delayed deletion. *)
Lemma GetReferenceKey_not_delay target :
  GetReferenceKey target <> DeleteDelayAtKey /\ GetReferenceKey target <> DeleteDelayTimeKey.
Proof.
  pose proof (length_GetReferenceKey target) as Hl.
  split; intros Heq; rewrite Heq in Hl; done.
Qed.

(** Every key is a valid annotation name: 63 bytes, the longest Kubernetes
    admits, under the prefix the driver reserves, and distinct from the keys
    the driver uses for the delayed deletion. *)
Theorem GetReferenceKey_shape target :
  String.length (GetReferenceKey target) = 63%nat /\
  HasPrefix (GetReferenceKey target) "mosfs-" = true /\
  GetReferenceKey target <> DeleteDelayAtKey /\ GetReferenceKey target <> DeleteDelayTimeKey.
Proof.
  split_and!; [apply length_GetReferenceKey|apply GetReferenceKey_prefix|apply GetReferenceKey_not_delay..].
Qed.

(** The bandwidth string is never empty, so that a test for emptiness always
    passes it on; without limits it is the one that lifts them. *)
Theorem ParseQosParams_nonempty params :
  ParseQosParams params <> EmptyString /\
  (ParseQosParams params = "0:0" \/
   ParseQosParams params = mget params "upload-limit" +:+ ":" +:+ mget params "download-limit").
Proof.
  unfold ParseQosParams. case_match; [split; [done|by left]|].
  split; [|by right]. destruct (mget params "upload-limit"); by rewrite ?sapp_nil_l, ?sapp_cons.
Qed.

(** ** Finalizers *)

Lemma nth_take_drop (l i : nat) (arr : list string) :
  (i < l)%nat -> (l <= length arr)%nat ->
  take (l - i) (drop i arr) = nth i arr EmptyString :: take (l - S i) (drop (S i) arr).
Proof.
  intros Hi Hl. destruct (lookup_lt_is_Some_2 arr i) as [x Hx]; [lia|].
  rewrite (drop_S arr x i) by done. replace (l - i)%nat with (S (l - S i)) by lia.
  simpl. f_equal. symmetry. by apply nth_lookup_Some.
Qed.

(** The loop keeps the entries before [i], filters the others and does not
    change the size of the array. *)
Lemma remove_loop_spec finalizer fuel arr l i :
  (i <= l)%nat -> (l <= length arr)%nat -> (l - i <= fuel)%nat ->
  let '(arr', l') := remove_loop fuel finalizer arr l i in
  take l' arr' = take i arr ++ filter (fun s => s <> finalizer) (take (l - i) (drop i arr)) /\
  length arr' = length arr /\ (l' <= l)%nat.
Proof.
  revert arr l i. induction fuel as [|fuel IH]; intros arr l i Hi Hl Hf; simpl.
  { replace (l - i)%nat with 0%nat by lia. rewrite take_0, filter_nil, app_nil_r.
    assert (l = i) as -> by lia. done. }
  destruct (Nat.ltb_spec i l) as [Hlt|Hge].
  2:{ assert (l = i) as -> by lia. rewrite Nat.sub_diag, take_0, filter_nil, app_nil_r. done. }
  rewrite (nth_take_drop l i arr) by lia. rewrite filter_cons.
  destruct (String.eqb_spec (nth i arr EmptyString) finalizer) as [Heq|Hne].
  - set (arr1 := take i arr ++ _).
    assert (length arr1 = length arr) as Hlen
      by (unfold arr1; rewrite !length_app, !length_take, !length_drop; lia).
    specialize (IH arr1 (l - 1)%nat i ltac:(lia) ltac:(lia) ltac:(lia)).
    destruct (remove_loop _ _ arr1 _ _) as [arr' l']. destruct IH as (IH1 & IH2 & IH3).
    rewrite decide_False by (by intros ?). rewrite IH1. split_and!; [|lia..].
    assert (length (take i arr) = i) as Hti by (rewrite length_take; lia).
    unfold arr1. rewrite take_app_length' by done. f_equal. f_equal.
    rewrite drop_app_length' by done. rewrite take_app_le by (rewrite length_take, length_drop; lia).
    rewrite take_take. f_equal. lia.
  - specialize (IH arr l (S i) ltac:(lia) ltac:(lia) ltac:(lia)).
    destruct (remove_loop _ _ arr _ _) as [arr' l']. destruct IH as (IH1 & IH2 & IH3).
    rewrite decide_True by done. rewrite IH1. split_and!; [|lia..].
    destruct (lookup_lt_is_Some_2 arr i) as [x Hx]; [lia|].
    rewrite (take_S_r arr i x) by done. apply (nth_lookup_Some arr i EmptyString) in Hx.
    by rewrite Hx, <-app_assoc.
Qed.

Lemma remove_finalizer_spec finalizer fs :
  fst (remove_finalizer finalizer fs) = filter (fun s => s <> finalizer) fs /\
  length (snd (remove_finalizer finalizer fs)) = length fs.
Proof.
  unfold remove_finalizer.
  pose proof (remove_loop_spec finalizer (length fs) fs (length fs) 0) as H.
  destruct (remove_loop _ _ _ _ _) as [arr l]. simpl.
  destruct H as (H1 & H2 & H3); [lia..|]. split; [|done].
  rewrite H1, Nat.sub_0_r, drop_0, firstn_all. done.
Qed.

(** The in-place loop computes the finalizers other than the given one, in
    order, and leaves the pod's own slice at its old length. *)
Theorem remove_finalizer_filter finalizer fs :
  fst (remove_finalizer finalizer fs) = filter (fun s => s <> finalizer) fs /\
  length (snd (remove_finalizer finalizer fs)) = length fs.
Proof. apply remove_finalizer_spec. Qed.

Example remove_alias : remove_finalizer "f" ["f"; "x"] = (["x"], ["x"; "x"]).
Proof. reflexivity. Qed.

(** ** Delayed deletion *)

Lemma exec_ShouldDelay_undated pod delayStr delay tr r :
  mlookup (pod_Annotations pod) DeleteDelayTimeKey = Some delayStr ->
  mlookup (pod_Annotations pod) DeleteDelayAtKey = None ->
  ParseDuration delayStr = Some delay ->
  exec (ShouldDelay pod) tr r ->
  exists now off e,
    tr = [TimeNow ▷ now; LocalOffset (now + delay) ▷ off;
          PodsPatch (pod_Namespace pod) (pod_Name pod)
            (StrategicMergeAnnotations {[DeleteDelayAtKey := Format off (now + delay)]}) ▷ e] /\
    r = match e with None => Ok true | Some e => Err e end.
Proof.
  intros H1 H2 H3 H. unfold ShouldDelay, GetTimeAfterDelay in H. rewrite H1, H2, H3 in H.
  cbn in H. split_ex. subst. destruct x1; cbn in *; split_ex; subst; eauto 10.
Qed.

Lemma exec_ShouldDelay_dated pod delayStr at_ t tr r :
  mlookup (pod_Annotations pod) DeleteDelayTimeKey = Some delayStr ->
  mlookup (pod_Annotations pod) DeleteDelayAtKey = Some at_ ->
  ParseTime at_ = Some t ->
  exec (ShouldDelay pod) tr r ->
  exists now, tr = [TimeNow ▷ now] /\ r = Ok (now <? t).
Proof.
  intros H1 H2 H3 H. unfold ShouldDelay, GetTime in H. rewrite H1, H2, H3 in H.
  cbn in H. split_ex. subst. eauto.
Qed.

(** The pod as the API server stores it after the annotation was merged. *)
Definition annotated (pod : Pod) (k v : string) : Pod :=
  with_annotations (Some (<[k := v]> (gm (pod_Annotations pod)))) pod.

(** C35 Two passes of the delayed deletion.  The first, at [t1], writes the time
    of the deletion and puts the deletion off; a later one, at [t2], puts it
    off exactly while [t2] is before the second of [t1 + delay] moved by the
    offset of the local zone: the time is written in local time and read as
    UTC. *)
Theorem ShouldDelay_two_passes pod delayStr delay tr1 tr2 r2 :
  mlookup (pod_Annotations pod) DeleteDelayTimeKey = Some delayStr ->
  mlookup (pod_Annotations pod) DeleteDelayAtKey = None ->
  ParseDuration delayStr = Some delay ->
  exec (ShouldDelay pod) tr1 (Ok true) ->
  exists t1 off s,
    tr1 = [TimeNow ▷ t1; LocalOffset (t1 + delay) ▷ off;
           PodsPatch (pod_Namespace pod) (pod_Name pod)
             (StrategicMergeAnnotations {[DeleteDelayAtKey := s]}) ▷ None] /\
    (0 <= (t1 + delay) / nanos + off < 253402300800 ->
     exec (ShouldDelay (annotated pod DeleteDelayAtKey s)) tr2 r2 ->
     exists t2, tr2 = [TimeNow ▷ t2] /\
                r2 = Ok (t2 <? ((t1 + delay) / nanos + off) * nanos)).
Proof.
  intros H1 H2 H3 Hx. destruct (exec_ShouldDelay_undated _ _ _ _ _ H1 H2 H3 Hx)
    as (t1 & off & e & -> & Hr).
  exists t1, off, (Format off (t1 + delay)). destruct e; [done|]. split; [done|].
  intros Hrange. apply exec_ShouldDelay_dated with delayStr (Format off (t1 + delay)).
  - unfold annotated, mlookup. simpl. by rewrite lookup_insert_ne.
  - unfold annotated, mlookup. simpl. by rewrite lookup_insert_eq.
  - by apply ParseTime_Format.
Qed.
