(* ===== verification/Kubelet.v ===== *)
(** * The clients of the driver

    [NewClient] of [pkg/juicefs/k8sclient/client.go] and
    [pkg/juicefs/k8sclient/kubelet_client.go]: the client of the API server,
    and the client that asks the kubelet of the node for its pods. *)
From S2P Require Import Prelude GoStrings GoTime K8sTypes PatchText Prog.
From stdpp Require Import options.
#[local] Open Scope Z_scope.

#[local] Arguments exec : simpl never.

(** ** The client of the API server *)

Definition NewClient : prog k8sClient :=
  c ← call InClusterConfig;
  lift_err c ≫= fun _ =>
  n ← call NewForConfig;
  lift_err n ≫= fun _ =>
  v ← Getenv "ENABLE_APISERVER_LIST_CACHE";
  mret (mkClient (String.eqb v "true")).

(** ** The transport to the kubelet *)

Record KubeletClientConfig := mkKubeletConfig {
  kcc_Address : string;
  kcc_Port : Z;
  kcc_TLS : TLSConfig;
  kcc_BearerToken : string;
  kcc_HTTPTimeout : Z;
}.

(** [transport.Config.HasCA]. *)
Definition HasCA (t : TLSConfig) : bool :=
  (0 <? String.length (tls_CAData t))%nat || (0 <? String.length (tls_CAFile t))%nat.

Definition set_Insecure (t : TLSConfig) : TLSConfig :=
  mkTLS (tls_CAFile t) (tls_CAData t) (tls_CertFile t) (tls_CertData t) (tls_KeyFile t) (tls_KeyData t) true.

(** The TLS configuration is copied but for the flag [Insecure] and the server
    name; without a certificate authority nothing is verified. *)
Definition transportConfig (c : KubeletClientConfig) : TLSConfig * string :=
  let t := kcc_TLS c in
  let cfg := mkTLS (tls_CAFile t) (tls_CAData t) (tls_CertFile t) (tls_CertData t) (tls_KeyFile t) (tls_KeyData t) false in
  (if negb (HasCA cfg) then set_Insecure cfg else cfg, kcc_BearerToken c).

Definition preTLSConfig (config : KubeletClientConfig) (insecureSkipTLSVerify : bool) : TLSConfig :=
  let pre := fst (transportConfig config) in
  if insecureSkipTLSVerify
  then mkTLS EmptyString EmptyString (tls_CertFile pre) (tls_CertData pre) (tls_KeyFile pre) (tls_KeyData pre) true
  else pre.

(** Answers with the TLS configuration the round tripper uses, if any. *)
Definition makeTransport (config : KubeletClientConfig) (insecureSkipTLSVerify : bool) : prog (option TLSConfig) :=
  let pre := preTLSConfig config insecureSkipTLSVerify in
  t ← call (TLSConfigFor pre);
  made ← lift_sum t;
  w ← call (HTTPWrappersForConfig (snd (transportConfig config)));
  lift_err w ≫= fun _ => mret (if made : bool then Some pre else None).

(** ** The client *)

Definition defaultKubeletTimeout : Z := 10.
Definition serviceAccountTokenFile : string := "/var/run/secrets/kubernetes.io/serviceaccount/token".

Definition NewKubeletClient (host : string) (port : Z) : prog KubeletClient :=
  kubeletClientCert ← Getenv "KUBELET_CLIENT_CERT";
  kubeletClientKey ← Getenv "KUBELET_CLIENT_KEY";
  token ←
    (if String.eqb kubeletClientCert EmptyString && String.eqb kubeletClientKey EmptyString then
       r ← call (ReadFile serviceAccountTokenFile);
       match r with
       | inr e => Throw (ErrFmt "in cluster mode, find token failed: %v" [] (Some e))
       | inl t => mret t
       end
     else mret EmptyString);
  t ← Getenv "KUBELET_TIMEOUT";
  kubeletTimeout ←
    (if negb (String.eqb t EmptyString) then
       t ← Getenv "KUBELET_TIMEOUT";
       match Atoi t with
       | None => Throw (ErrFmt "got error when parsing kubelet timeout: %v" [t] None)
       | Some n => mret n
       end
     else mret defaultKubeletTimeout);
  let config := mkKubeletConfig host port
                  (mkTLS EmptyString EmptyString kubeletClientCert EmptyString kubeletClientKey EmptyString true)
                  token (wrap64 (kubeletTimeout * 1000000000)) in
  trans ← makeTransport config (tls_Insecure (kcc_TLS config));
  mret (mkKubelet (kcc_Address config) (kcc_Port config) (kcc_BearerToken config) trans (kcc_HTTPTimeout config)).

Section Kubelet.
(** [json.Unmarshal] of a pod list; the text [null] gives a nil pointer. *)
Context (unmarshal_pods : string -> option (list Pod) + error).

Definition GetNodeRunningPods (kc : KubeletClient) : prog (option (list Pod)) :=
  r ← call (HttpsGet ("https://" +:+ kc_host kc +:+ ":" +:+ itoa (kc_port kc) +:+ "/pods/")
              (kc_bearer kc) (kc_tls kc) (kc_timeout kc));
  match r with
  | inr e => Throw e
  | inl (body, Some e) => Throw e
  | inl (body, None) =>
      if String.eqb body "Unauthorized" then Throw (ErrFmt "unauthorized" [] None)
      else lift_sum (unmarshal_pods body)
  end.
End Kubelet.

(** ** Properties *)

Lemma exec_Getenv_bind {B} k (f : string -> prog B) tr r :
  exec (Getenv k ≫= f) tr r ->
  exists v t, tr = (LookupEnv k ▷ v) :: t /\ exec (f (default EmptyString v)) t r.
Proof. intros (v & t & -> & _ & H). by exists v, t. Qed.

Lemma exec_makeTransport config insecure tr t :
  exec (makeTransport config insecure) tr (Ok (Some t)) ->
  tls_CertFile t = tls_CertFile (kcc_TLS config) /\ tls_KeyFile t = tls_KeyFile (kcc_TLS config) /\
  (insecure = true -> tls_Insecure t = true /\ HasCA t = false).
Proof.
  unfold makeTransport. intros H. apply exec_call_inv in H as (x & t1 & -> & _ & H).
  apply exec_bind in H as [(made & t2 & t3 & -> & H1 & H)|(r0 & H1 & Hn & Hr)]; [|by destruct r0].
  apply exec_call_inv in H as (w & t4 & -> & _ & H).
  apply exec_bind_unit in H as [(t5 & t6 & -> & H2 & H)|(rd & H2 & Hn & Hr)]; [|by destruct rd].
  destruct made; destruct H as [_ [= ->]]. unfold preTLSConfig, transportConfig. cbn [fst].
  by destruct (HasCA _), insecure.
Qed.

(** A client of the kubelet either presents the certificate pair it was
    configured with or, without one, the token of the service account, never
    both; it never verifies the certificate of the kubelet; and its timeout is
    the configured number of seconds. *)
Theorem NewKubeletClient_ok host port tr kc :
  exec (NewKubeletClient host port) tr (Ok kc) ->
  kc_host kc = host /\ kc_port kc = port /\
  (forall t, kc_tls kc = Some t -> tls_Insecure t = true /\ HasCA t = false) /\
  (exists cert key, (LookupEnv "KUBELET_CLIENT_CERT" ▷ cert) ∈ tr /\ (LookupEnv "KUBELET_CLIENT_KEY" ▷ key) ∈ tr /\
     (forall t, kc_tls kc = Some t ->
        tls_CertFile t = default EmptyString cert /\ tls_KeyFile t = default EmptyString key) /\
     if String.eqb (default EmptyString cert) EmptyString && String.eqb (default EmptyString key) EmptyString
     then (ReadFile serviceAccountTokenFile ▷ inl (kc_bearer kc)) ∈ tr else kc_bearer kc = EmptyString) /\
  (exists v, (LookupEnv "KUBELET_TIMEOUT" ▷ v) ∈ tr /\
     exists n, (if String.eqb (default EmptyString v) EmptyString then Some defaultKubeletTimeout
                else Atoi (default EmptyString v)) = Some n /\ kc_timeout kc = wrap64 (n * 1000000000)).
Proof.
  unfold NewKubeletClient. intros H.
  apply exec_Getenv_bind in H as (cert & t1 & -> & H). apply exec_Getenv_bind in H as (key & t2 & -> & H).
  apply exec_bind in H as [(token & t3 & t4 & -> & Htok & H)|(r0 & H1 & Hn & Hr)]; [|by destruct r0].
  apply exec_Getenv_bind in H as (v & t5 & -> & H).
  apply exec_bind in H as [(n & t6 & t7 & -> & Hn & H)|(r0 & H1 & Hn & Hr)]; [|by destruct r0].
  apply exec_bind in H as [(tls & t8 & t9 & -> & Htls & H)|(r0 & H1 & Hn' & Hr)]; [|by destruct r0].
  destruct H as [_ [= ->]]. cbn [kc_host kc_port kc_tls kc_bearer kc_timeout kcc_Address kcc_Port kcc_BearerToken kcc_HTTPTimeout].
  split_and!; [done|done| | |].
  - intros t ->. by apply exec_makeTransport in Htls as (_ & _ & Ht); apply Ht.
  - exists cert, key. split_and!; [set_solver|set_solver| |].
    + intros t ->. by apply exec_makeTransport in Htls as (? & ? & _).
    + destruct (_ && _).
      * apply exec_call_inv in Htok as ([tok|e] & t & -> & _ & Htok); destruct Htok as [-> Htok]; simplify_eq. set_solver.
      * by destruct Htok as [_ [= ->]].
  - destruct (String.eqb (default EmptyString v) EmptyString) eqn:Hv.
    + destruct Hn as [-> [= ->]]. exists v. split; [set_solver|]. rewrite Hv. by eexists.
    + cbn [negb] in Hn. apply exec_Getenv_bind in Hn as (v2 & t & -> & Hn).
      destruct (Atoi (default EmptyString v2)) as [m|] eqn:Hm; [|by destruct Hn]. destruct Hn as [-> [= ->]].
      exists v2. split; [set_solver|]. destruct (String.eqb_spec (default EmptyString v2) EmptyString) as [He|_].
      * by rewrite He in Hm.
      * by eexists.
Qed.
