(* ===== verification/Console.v ===== *)
(** * The management console

    [pkg/juicefs/console.go]: the REST calls that look up a volume, keep the
    quota of a path and set the bandwidth of a volume's default access rule. *)
From S2P Require Import Prelude GoStrings GoTime Json K8sTypes JsonDecode PatchText Prog Config.
From stdpp Require Import options.
#[local] Open Scope Z_scope.

#[local] Arguments exec : simpl never.

(** ** Data *)

Record VolumeInfo := mkVol { vi_Id : Z; vi_Name : string; vi_Size : Z }.

Record QuotaInfo := mkQuota {
  q_Id : Z;
  q_Volid : Z;
  q_Path : string;
  q_Size : Z;
  q_Inode : Z;
}.

Record Console := mkConsole { Addr : string; Token : string }.

Record Acl := mkAcl {
  acl_ID : Z;
  Desc : string;
  Iprange : string;
  Apionly : bool;
  Readonly : bool;
  Appendonly : bool;
  acl_Token : string;
  Qos : string;
  Extend : string;
}.

(** The fields as [encoding/json] sees them: the tags of the two ids are
    misspelt, so that these go by the names of the fields, and [Volid] is left
    out. *)
Definition VolumeInfo_value : decodes VolumeInfo :=
  struct_value "juicefs.VolumeInfo"
    [("Id", in_field vi_Id (fun x v => mkVol x (vi_Name v) (vi_Size v)) (int_value "int"));
     ("name", in_field vi_Name (fun x v => mkVol (vi_Id v) x (vi_Size v)) string_value);
     ("size", in_field vi_Size (fun x v => mkVol (vi_Id v) (vi_Name v) x) (int_value "int64"))].

Definition QuotaInfo_value : decodes QuotaInfo :=
  struct_value "juicefs.QuotaInfo"
    [("Id", in_field q_Id (fun x q => mkQuota x (q_Volid q) (q_Path q) (q_Size q) (q_Inode q)) (int_value "int"));
     ("path", in_field q_Path (fun x q => mkQuota (q_Id q) (q_Volid q) x (q_Size q) (q_Inode q)) string_value);
     ("size", in_field q_Size (fun x q => mkQuota (q_Id q) (q_Volid q) (q_Path q) x (q_Inode q)) (int_value "int64"));
     ("inodes", in_field q_Inode (fun x q => mkQuota (q_Id q) (q_Volid q) (q_Path q) (q_Size q) x) (int_value "int64"))].

Definition Acl_value : decodes Acl :=
  struct_value "juicefs.Acl"
    [("id", in_field acl_ID (fun x '(mkAcl _ d i ap ro ao t q e) => mkAcl x d i ap ro ao t q e) (int_value "int"));
     ("desc", in_field Desc (fun x '(mkAcl n _ i ap ro ao t q e) => mkAcl n x i ap ro ao t q e) string_value);
     ("iprange", in_field Iprange (fun x '(mkAcl n d _ ap ro ao t q e) => mkAcl n d x ap ro ao t q e) string_value);
     ("apionly", in_field Apionly (fun x '(mkAcl n d i _ ro ao t q e) => mkAcl n d i x ro ao t q e) bool_value);
     ("readonly", in_field Readonly (fun x '(mkAcl n d i ap _ ao t q e) => mkAcl n d i ap x ao t q e) bool_value);
     ("appendonly", in_field Appendonly (fun x '(mkAcl n d i ap ro _ t q e) => mkAcl n d i ap ro x t q e) bool_value);
     ("token", in_field acl_Token (fun x '(mkAcl n d i ap ro ao _ q e) => mkAcl n d i ap ro ao x q e) string_value);
     ("qos", in_field Qos (fun x '(mkAcl n d i ap ro ao t _ e) => mkAcl n d i ap ro ao t x e) string_value);
     ("extend", in_field Extend (fun x '(mkAcl n d i ap ro ao t q _) => mkAcl n d i ap ro ao t q x) string_value)].

Definition zeroVol : VolumeInfo := mkVol 0 EmptyString 0.
Definition zeroQuota : QuotaInfo := mkQuota 0 0 EmptyString 0 0.
Definition zeroAcl : Acl :=
  mkAcl 0 EmptyString EmptyString false false false EmptyString EmptyString EmptyString.

Definition unmarshal_volumes : string -> list VolumeInfo + error :=
  Unmarshal_new (slice_value "[]juicefs.VolumeInfo" zeroVol VolumeInfo_value) [].
Definition unmarshal_quotas : string -> list QuotaInfo + error :=
  Unmarshal_new (slice_value "[]juicefs.QuotaInfo" zeroQuota QuotaInfo_value) [].
Definition unmarshal_acls : string -> list Acl + error :=
  Unmarshal_new (slice_value "[]juicefs.Acl" zeroAcl Acl_value) [].

(** The pure functions of libraries the driver calls: the YAML decoder of a
    string map, [net/url.Parse] (the host of the URL) and
    [resource.ParseQuantity]. *)
Record Libs := mkLibs {
  yaml_map : decoder;
  url_parse : string -> string + error;
  quantity_parses : string -> bool;
}.

Section Console.
Context (lib : Libs).

(** ** Requests *)

(** [http.NewRequest] followed by [client.Do] and the reading of the body; a
    status of 400 or more is an error. *)
Definition runHttpRequestRaw (method url body : string) : prog string :=
  r ← call (HttpDo method url body);
  match r with
  | inr e => Throw (ErrStatus Internal "Reqest console %v failed: %v" [url] (Some e))
  | inl (st, bodyc, readErr) =>
      if st >=? 400 then Throw (ErrStatus Internal "Request console %v failed: status %d" [url; itoa st] None)
      else match readErr with
           | Some e => Throw e
           | None => mret bodyc
           end
  end.

(** [req, err := http.NewRequest(...)] with the error returned. *)
Definition request (method url body : string) : prog string :=
  match url_parse lib url with
  | inr e => Throw e
  | inl _ => runHttpRequestRaw method url body
  end.

(** [req, _ := http.NewRequest(...)]: a nil request is dereferenced. *)
Definition request_unchecked (method url body : string) : prog string :=
  match url_parse lib url with
  | inr _ => Panic "nil http.Request"
  | inl _ => runHttpRequestRaw method url body
  end.

(** The common part of the URLs. *)
Definition api (cs : Console) (path : string) : string :=
  "http://" +:+ Addr cs +:+ "/api/v1/volumes" +:+ path +:+ "?token=" +:+ Token cs.

(** ** Volumes *)

Definition GetVolumes (cs : Console) : prog (list VolumeInfo) :=
  resp ← request_unchecked "GET" (api cs EmptyString) EmptyString;
  lift_sum (unmarshal_volumes resp).

Definition volume (cs : Console) (name : string) : prog VolumeInfo :=
  vols ← GetVolumes cs;
  match List.find (fun v => String.eqb (vi_Name v) name) vols with
  | Some v => mret v
  | None => Throw (ErrStatus Internal "Volume not found %s" [name] None)
  end.

(** ** Quotas *)

Definition GetQuotas (cs : Console) (volid : Z) : prog (list QuotaInfo) :=
  resp ← request "GET" (api cs ("/" +:+ itoa volid +:+ "/quotas")) EmptyString;
  lift_sum (unmarshal_quotas resp).

Definition CreateQuota (cs : Console) (volume_name path : string) (inodes size : Z) : prog unit :=
  vol ← volume cs volume_name;
  request_unchecked "POST" (api cs ("/" +:+ itoa (vi_Id vol) +:+ "/quotas"))
    (marshal (Jobj [("inodes", Jnum inodes); ("path", Jstr path); ("size", Jnum size)])) ≫= fun _ => mret tt.

(** The last quota of the path, with the volume's id filled in. *)
Definition GetQuota (cs : Console) (volume_name path : string) : prog (option QuotaInfo) :=
  vol ← volume cs volume_name;
  quotas ← GetQuotas cs (vi_Id vol);
  mret (fold_left (fun quota q =>
          if String.eqb (q_Path q) path
          then Some (mkQuota (q_Id q) (vi_Id vol) (q_Path q) (q_Size q) (q_Inode q)) else quota) quotas None).

Definition quota_url (cs : Console) (quota : QuotaInfo) : string :=
  api cs ("/" +:+ itoa (q_Volid quota) +:+ "/quotas/" +:+ itoa (q_Id quota)).

Definition DeleteQuota (cs : Console) (volume_name path : string) : prog unit :=
  quota ← GetQuota cs volume_name path;
  match quota with
  | Some q => request_unchecked "DELETE" (quota_url cs q) EmptyString ≫= fun _ => mret tt
  | None => mret tt
  end.

(** The id is marshalled under the field's own name: its tag is misspelt. *)
Definition QuotaInfo_json (quota : QuotaInfo) : json :=
  Jobj [("Id", Jnum (q_Id quota)); ("path", Jstr (q_Path quota));
        ("size", Jnum (q_Size quota)); ("inodes", Jnum (q_Inode quota))].

Definition UpdateQuota (cs : Console) (quota : QuotaInfo) : prog unit :=
  request_unchecked "PUT" (quota_url cs quota) (marshal (QuotaInfo_json quota)) ≫= fun _ => mret tt.

(** ** Bandwidth *)

Definition GetACLList (cs : Console) (volumeName : string) : prog (list Acl) :=
  vol ← volume cs volumeName;
  resp ← request "GET" (api cs ("/" +:+ itoa (vi_Id vol) +:+ "/exports")) EmptyString;
  lift_sum (unmarshal_acls resp).

Definition UpdateQos (cs : Console) (qos volumeName : string) (acl : Acl) : prog unit :=
  vol ← volume cs volumeName;
  request "PUT" (api cs ("/" +:+ itoa (vi_Id vol) +:+ "/exports/" +:+ itoa (acl_ID acl)))
    (marshal (Jobj [("desc", Jstr (Desc acl)); ("iprange", Jstr (Iprange acl)); ("readonly", Jbool (Readonly acl));
                    ("appendonly", Jbool (Appendonly acl)); ("qos", Jstr qos); ("extend", Jstr (Extend acl))]))
  ≫= fun _ => mret tt.

Definition SetQos (cs : Console) (volumeName qos : string) : prog unit :=
  acls ← wrap_err (fun e => ErrFmt "get volume:%s acl list error:%s" [volumeName] (Some e))
           (GetACLList cs volumeName);
  match List.find (fun acl => String.eqb (Desc acl) "default") acls with
  | None => Throw (ErrFmt "volume:%s not contains default acl" [volumeName] None)
  | Some acl =>
      wrap_err (fun e => ErrFmt "update volume:%s qos, error:%s" [volumeName] (Some e))
        (UpdateQos cs qos volumeName acl)
  end.
End Console.

(** ** Properties *)

Section properties.
Context (lib : Libs).

Lemma exec_runHttpRequestRaw_ok method url body tr b :
  exec (runHttpRequestRaw method url body) tr (Ok b) ->
  exists st, tr = [HttpDo method url body ▷ inl (st, b, None)] /\ st < 400.
Proof.
  unfold runHttpRequestRaw. intros H. apply exec_call_inv in H as ([[[st bodyc] readErr]|e] & t & -> & _ & H);
    [|by destruct H]. cbv beta iota in H. destruct (st >=? 400) eqn:Hst; [by destruct H|].
  destruct readErr; [by destruct H|]. destruct H as [-> [= ->]]. exists st. split; [done|].
  rewrite Z.geb_leb in Hst. apply Z.leb_gt in Hst. done.
Qed.

Lemma exec_request_unchecked_ok method url body tr b :
  exec (request_unchecked lib method url body) tr (Ok b) ->
  exists st, tr = [HttpDo method url body ▷ inl (st, b, None)] /\ st < 400.
Proof. unfold request_unchecked. case_match; [apply exec_runHttpRequestRaw_ok|by intros []]. Qed.

Lemma exec_request_ok method url body tr b :
  exec (request lib method url body) tr (Ok b) ->
  exists st, tr = [HttpDo method url body ▷ inl (st, b, None)] /\ st < 400.
Proof. unfold request. case_match; [apply exec_runHttpRequestRaw_ok|by intros []]. Qed.

Lemma exec_volume_ok cs name tr v :
  exec (volume lib cs name) tr (Ok v) ->
  exists st b vols, tr = [HttpDo "GET" (api cs EmptyString) EmptyString ▷ inl (st, b, None)] /\ st < 400 /\
    unmarshal_volumes b = inl vols /\ v ∈ vols /\ vi_Name v = name.
Proof.
  unfold volume, GetVolumes. intros H.
  apply exec_bind in H as [(vols & t1 & t2 & -> & H1 & H)|(r0 & H1 & Hn & Hr)]; [|by destruct r0].
  apply exec_bind in H1 as [(b & t3 & t4 & -> & H2 & H1)|(r0 & H2 & Hn & Hr)]; [|by destruct r0].
  apply exec_request_unchecked_ok in H2 as (st & -> & Hst). apply exec_lift_sum in H1 as [-> H1].
  destruct (unmarshal_volumes b) eqn:Hb; simplify_eq.
  destruct (List.find _ _) as [v'|] eqn:Hf; [|by destruct H]. destruct H as [-> [= ->]].
  apply find_some in Hf as [Hin Hnm]. apply String.eqb_eq in Hnm. rewrite <-list_elem_of_In in Hin.
  by exists st, b, l.
Qed.

Lemma exec_CreateQuota_ok cs name path inodes size tr :
  exec (CreateQuota lib cs name path inodes size) tr (Ok tt) ->
  exists st b vols v st' b',
    tr = [HttpDo "GET" (api cs EmptyString) EmptyString ▷ inl (st, b, None);
          HttpDo "POST" (api cs ("/" +:+ itoa (vi_Id v) +:+ "/quotas"))
            (marshal (Jobj [("inodes", Jnum inodes); ("path", Jstr path); ("size", Jnum size)])) ▷ inl (st', b', None)] /\
    unmarshal_volumes b = inl vols /\ v ∈ vols /\ vi_Name v = name /\ st' < 400.
Proof.
  unfold CreateQuota. intros H.
  apply exec_bind in H as [(v & t1 & t2 & -> & H1 & H)|(r0 & H1 & Hn & Hr)]; [|by destruct r0].
  apply exec_volume_ok in H1 as (st & b & vols & -> & _ & Hb & Hv & Hnm).
  apply exec_bind in H as [(b' & t3 & t4 & -> & H2 & H)|(r0 & H2 & Hn & Hr)]; [|by destruct r0].
  apply exec_request_unchecked_ok in H2 as (st' & -> & Hst'). destruct H as [-> _].
  by exists st, b, vols, v, st', b'.
Qed.

(** A quota is reported created only if the console accepted, for the
    volume with the given name, a request that carries the path and the size. *)
Theorem CreateQuota_ok cs name path inodes size tr :
  exec (CreateQuota lib cs name path inodes size) tr (Ok tt) ->
  exists st b vols v st' b',
    tr = [HttpDo "GET" (api cs EmptyString) EmptyString ▷ inl (st, b, None);
          HttpDo "POST" (api cs ("/" +:+ itoa (vi_Id v) +:+ "/quotas"))
            (marshal (Jobj [("inodes", Jnum inodes); ("path", Jstr path); ("size", Jnum size)])) ▷ inl (st', b', None)] /\
    unmarshal_volumes b = inl vols /\ v ∈ vols /\ vi_Name v = name /\ st' < 400.
Proof. apply exec_CreateQuota_ok. Qed.

(** A quota as the console's JSON carries it. *)
Definition sendable (q : QuotaInfo) : Prop :=
  ValidString (q_Path q) = true /\ in_int64 (q_Id q) = true /\ in_int64 (q_Size q) = true /\ in_int64 (q_Inode q) = true.

Lemma QuotaInfo_read_back q :
  sendable q ->
  QuotaInfo_value (QuotaInfo_json q) zeroQuota = (mkQuota (q_Id q) 0 (q_Path q) (q_Size q) (q_Inode q), None).
Proof.
  destruct q as [id volid path size inode]. intros (_ & H1 & H2 & H3). cbn in H1, H2, H3.
  cbv -[in_int64 itoa String.append]. by rewrite H1, H2, H3.
Qed.

(** Quotas in the form [UpdateQuota] sends them are read back by
    [GetQuotas], without the volume's id. *)
Lemma quotas_read_back quotas :
  Forall sendable quotas ->
  unmarshal_quotas (marshal (Jarr (map QuotaInfo_json quotas))) =
  inl (map (fun q => mkQuota (q_Id q) 0 (q_Path q) (q_Size q) (q_Inode q)) quotas).
Proof.
  intros Hq. apply Unmarshal_new_inl. rewrite Unmarshal_marshal.
  - apply slice_value_elems. induction Hq as [|q l Hq _ IH]; constructor; [by apply QuotaInfo_read_back|done].
  - simpl. apply forallb_forall. intros j [q [<- Hin]]%in_map_iff.
    rewrite Forall_forall in Hq. destruct (Hq q) as [Hp _]; [by apply list_elem_of_In|]. simpl. by rewrite Hp.
Qed.

(** The last entry with a property, as the loops of the code find it. *)
Lemma fold_left_last {A B} (P : A -> bool) (f : A -> B) l acc :
  fold_left (fun r q => if P q then Some (f q) else r) l acc =
  match last (List.filter P l) with Some q => Some (f q) | None => acc end.
Proof.
  induction l as [|q l IH] in acc |- *; [done|]. simpl. rewrite IH.
  destruct (P q) eqn:HP; [|done]. destruct (List.filter P l) as [|q' l']; [done|].
  change (last (q :: q' :: l')) with (last (q' :: l')).
  destruct (last (q' :: l')) eqn:Hl; [done|]. by apply last_None in Hl.
Qed.

Lemma exec_GetQuota_ok cs name path tr q :
  exec (GetQuota lib cs name path) tr (Ok q) ->
  exists st b vols v st' b' quotas,
    tr = [HttpDo "GET" (api cs EmptyString) EmptyString ▷ inl (st, b, None);
          HttpDo "GET" (api cs ("/" +:+ itoa (vi_Id v) +:+ "/quotas")) EmptyString ▷ inl (st', b', None)] /\
    unmarshal_volumes b = inl vols /\ v ∈ vols /\ vi_Name v = name /\
    unmarshal_quotas b' = inl quotas /\
    match q with
    | None => Forall (fun q' => q_Path q' <> path) quotas
    | Some q => q_Path q = path /\ q_Volid q = vi_Id v /\
        exists q', q' ∈ quotas /\ q_Id q' = q_Id q /\ q_Path q' = path /\ q_Size q' = q_Size q /\ q_Inode q' = q_Inode q
    end.
Proof.
  unfold GetQuota, GetQuotas. intros H.
  apply exec_bind in H as [(v & t1 & t2 & -> & H1 & H)|(r0 & H1 & Hn & Hr)]; [|by destruct r0].
  apply exec_volume_ok in H1 as (st & b & vols & -> & _ & Hb & Hv & Hnm).
  apply exec_bind in H as [(quotas & t3 & t4 & -> & H2 & H)|(r0 & H2 & Hn & Hr)]; [|by destruct r0].
  apply exec_bind in H2 as [(b' & t5 & t6 & -> & H3 & H2)|(r0 & H3 & Hn & Hr)]; [|by destruct r0].
  apply exec_request_ok in H3 as (st' & -> & Hst'). apply exec_lift_sum in H2 as [-> H2].
  destruct (unmarshal_quotas b') as [l|] eqn:Hb'; simplify_eq. destruct H as [-> [= ->]].
  exists st, b, vols, v, st', b', l. split_and!; try done.
  rewrite (fold_left_last (fun q => String.eqb (q_Path q) path)).
  destruct (last _) as [q|] eqn:Hl.
  - apply last_Some_elem_of in Hl. apply list_elem_of_In, filter_In in Hl as [Hin Hp].
    apply String.eqb_eq in Hp. rewrite <-list_elem_of_In in Hin. simpl. split_and!; [done|done|].
    exists q. done.
  - apply last_None in Hl. apply Forall_forall. intros q Hq Hp.
    assert (q ∈ List.filter (fun q => String.eqb (q_Path q) path) l) as Hin.
    { apply list_elem_of_In, filter_In. by rewrite <-list_elem_of_In, String.eqb_eq. }
    rewrite Hl in Hin. set_solver.
Qed.

(** [GetQuota] finds the last quota of exactly the given path among those
    of the volume with the given name, and marks it with the volume's id; it
    answers nil exactly when the console lists none for the path. *)
Theorem GetQuota_ok cs name path tr q :
  exec (GetQuota lib cs name path) tr (Ok q) ->
  exists st b vols v st' b' quotas,
    tr = [HttpDo "GET" (api cs EmptyString) EmptyString ▷ inl (st, b, None);
          HttpDo "GET" (api cs ("/" +:+ itoa (vi_Id v) +:+ "/quotas")) EmptyString ▷ inl (st', b', None)] /\
    unmarshal_volumes b = inl vols /\ v ∈ vols /\ vi_Name v = name /\
    unmarshal_quotas b' = inl quotas /\
    match q with
    | None => Forall (fun q' => q_Path q' <> path) quotas
    | Some q => q_Path q = path /\ q_Volid q = vi_Id v /\
        exists q', q' ∈ quotas /\ q_Id q' = q_Id q /\ q_Path q' = path /\ q_Size q' = q_Size q /\ q_Inode q' = q_Inode q
    end.
Proof. apply exec_GetQuota_ok. Qed.
End properties.
