(* ===== verification/MountInfoTable.v ===== *)
(** * The mount information table

    [pkg/controller/mountinfo.go]: the mount table of the node and the pods
    known to be running, the pod UID and volume name in a kubelet target
    path, and the state of a target and of its subpath mounts. *)
From S2P Require Import Prelude GoStrings GoPath K8sTypes PatchText Prog Config K8sClient Util.
From stdpp Require Import options.
#[local] Open Scope Z_scope.

(** ** Data *)

Record mountInfoTable := mkMit {
  mis : list MountInfo;
  deletedPods : gmap string bool;      (* key is pod UID *)
}.

Definition newMountInfoTable : mountInfoTable := mkMit [] ∅.

Inductive targetStatus :=
| targetStatusNotExist | targetStatusMounted | targetStatusNotMount
| targetStatusCorrupt | targetStatusUnexpect.

Record targetItem := mkTarget {
  target : string;
  subpath : string;
  count : Z;
  inconsistent : bool;
  status : targetStatus;
  ti_err : option error;
}.

Record mountItem := mkItem {
  podExist : bool;
  podDeleted : bool;
  baseTarget : targetItem;
  subPathTarget : list targetItem;
}.

Definition containerSubPathDirectory : string := "volume-subpaths".
Definition containerCsiDirectory : string := "volumes/kubernetes.io~csi".

(** ** Operations *)

Definition parse (mit : mountInfoTable) : prog mountInfoTable :=
  r ← call ReadMountInfo;
  l ← lift_sum r;
  mret (mkMit l (deletedPods mit)).

Definition is_deleting (pod : Pod) : bool := bool_decide (is_Some (DeletionTimestamp (Meta pod))).

Definition setPodStatus (mit : mountInfoTable) (pod : Pod) : mountInfoTable :=
  mkMit (mis mit) (<[UID (Meta pod) := is_deleting pod]> (deletedPods mit)).

(** A nil list leaves an empty table. *)
Definition setPodsStatus (mit : mountInfoTable) (podList : option (list Pod)) : mountInfoTable :=
  mkMit (mis mit)
    (fold_left (fun m pod => <[UID (Meta pod) := is_deleting pod]> m) (default [] podList) ∅).

Definition getPodUid (target : string) : string :=
  match Split target containerCsiDirectory with
  | [dir; _] =>
      let podDir := TrimSuffix dir "/" in
      let index := LastIndex podDir "/" in
      if index <=? 0 then EmptyString else sdrop (Z.to_nat index + 1) podDir
  | _ => EmptyString
  end.

Definition getPVName (target : string) : string :=
  match Split target containerCsiDirectory with
  | [_; rest] =>
      let pvName := TrimPrefix rest "/" in
      let index := Index pvName "/" in
      if index <=? 0 then EmptyString else stake (Z.to_nat index) pvName
  | _ => EmptyString
  end.

(** [os.Stat] of the target decides its status.  For a target that is not
    mounted the error is kept even when the mount is corrupted. *)
Definition check (ti : targetItem) (mounted : bool) : prog targetItem :=
  r ← call (OsStat (target ti));
  let set st e := mkTarget (target ti) (subpath ti) (count ti) (inconsistent ti) st e in
  match r with
  | inl _ => mret (set (if mounted then targetStatusMounted else targetStatusNotMount) (ti_err ti))
  | inr e =>
      if IsNotExist e then mret (set targetStatusNotExist (ti_err ti))
      else
        let err := if mounted then ti_err ti else Some e in
        if IsCorruptedMnt e then mret (set targetStatusCorrupt err)
        else mret (set targetStatusUnexpect (Some e))
  end.

Definition mi_matches (path : string) (isPrefix : bool) (mi : MountInfo) : bool :=
  if isPrefix then HasPrefix (mi_MountPoint mi) path else String.eqb path (mi_MountPoint mi).

Definition mi_subpath (mi : MountInfo) : string :=
  TrimSlash (TrimSuffix (mi_Root mi) "//deleted").

(** One turn of the loop over the mount table. *)
Definition record_step (path : string) (isPrefix : bool) (records : gmap string targetItem)
    (mi : MountInfo) : gmap string targetItem :=
  if negb (mi_matches path isPrefix mi) then records
  else
    match records !! mi_MountPoint mi with
    | None =>
        <[mi_MountPoint mi :=
            mkTarget (mi_MountPoint mi) (mi_subpath mi) 1 false targetStatusNotExist None]> records
    | Some record =>
        <[mi_MountPoint mi :=
            mkTarget (target record) (subpath record) (count record + 1)
              (if String.eqb (subpath record) (mi_subpath mi) then inconsistent record else true)
              (status record) (ti_err record)]> records
    end.

Definition collect_records (mit : mountInfoTable) (path : string) (isPrefix : bool) : gmap string targetItem :=
  fold_left (record_step path isPrefix) (mis mit) ∅.

(** Check every record, in the order the map is ranged over. *)
Fixpoint check_records (records : gmap string targetItem) (order : list (string * string)) : prog (list targetItem) :=
  match order with
  | [] => mret []
  | (k, _) :: rest =>
      match records !! k with
      | None => check_records records rest
      | Some record =>
          item ← check record true;
          items ← check_records records rest;
          mret (item :: items)
      end
  end.

Definition resolveTargetItem (mit : mountInfoTable) (path : string) (isPrefix : bool) : prog (list targetItem) :=
  let records := collect_records mit path isPrefix in
  order ← call (RangeMap ((fun _ => EmptyString) <$> records));
  check_records records order.

(** [None] if not a valid csi target path. *)
Definition resolveTarget (mit : mountInfoTable) (tgt : string) : prog (option mountItem) :=
  match Split tgt containerCsiDirectory with
  | [dir; _] =>
      let podDir := TrimSuffix dir "/" in
      let podUID := getPodUid tgt in
      if String.eqb podUID EmptyString then mret None
      else
        let pvName := getPVName tgt in
        if String.eqb pvName EmptyString then mret None
        else
          items ← resolveTargetItem mit tgt false;
          base ← match items with
                 | [item] => mret item
                 | _ => check (mkTarget tgt EmptyString 0 false targetStatusNotExist None) false
                 end;
          subs ← resolveTargetItem mit (Join [podDir; containerSubPathDirectory; pvName] "/") true;
          mret (Some (mkItem (bool_decide (is_Some (deletedPods mit !! podUID)))
                             (default false (deletedPods mit !! podUID)) base subs))
  | _ => mret None
  end.

(** ** Target paths

    The kubelet publishes a CSI volume at
    [<root>/pods/<uid>/volumes/kubernetes.io~csi/<pv>/mount]. *)
Definition kubelet_target (podsDir uid pv : string) : string :=
  podsDir +:+ "/" +:+ uid +:+ "/" +:+ containerCsiDirectory +:+ "/" +:+ pv +:+ "/mount".

Lemma Index_byte c a s :
  free_of c a = true ->
  Index (a +:+ String c s) (String c EmptyString) = Z.of_nat (String.length a).
Proof.
  induction a as [|d a IH]; intros Ha.
  - rewrite sapp_nil_l. simpl. by rewrite HasPrefix_cons, Ascii.eqb_refl, HasPrefix_nil.
  - simpl in Ha. apply andb_prop in Ha as [Hd Ha]. apply negb_true_iff in Hd.
    rewrite sapp_cons. simpl. rewrite HasPrefix_cons, Ascii.eqb_sym, Hd. simpl.
    rewrite IH by done. rewrite (proj2 (Z.ltb_ge _ _)) by lia. lia.
Qed.

Lemma kubelet_target_split podsDir uid pv :
  free_of "~" podsDir = true -> free_of "~" uid = true -> free_of "~" pv = true ->
  Split (kubelet_target podsDir uid pv) containerCsiDirectory
  = [podsDir +:+ "/" +:+ uid +:+ "/"; "/" +:+ pv +:+ "/mount"].
Proof.
  intros H1 H2 H3. unfold kubelet_target.
  change containerCsiDirectory with ("volumes/kubernetes.io" +:+ String "~" "csi").
  replace (podsDir +:+ _) with
    ((podsDir +:+ "/" +:+ uid +:+ "/") +:+ ("volumes/kubernetes.io" +:+ String "~" "csi") +:+
     ("/" +:+ pv +:+ "/mount")) by (by rewrite !sapp_assoc).
  apply Split_marker; [|done|]; rewrite !free_of_app; by rewrite ?H1, ?H2, ?H3.
Qed.

(** C34 The pod UID and the volume name in a target the kubelet made are found
    again, whatever the kubelet's root directory. *)
Theorem kubelet_target_roundtrip podsDir uid pv :
  free_of "~" podsDir = true -> podsDir <> EmptyString ->
  free_of "~" uid = true -> free_of "/" uid = true ->
  free_of "~" pv = true -> free_of "/" pv = true -> pv <> EmptyString ->
  getPodUid (kubelet_target podsDir uid pv) = uid /\
  getPVName (kubelet_target podsDir uid pv) = pv.
Proof.
  intros Hp Hne Hu Hus Hv Hvs Hvne. unfold getPodUid, getPVName.
  rewrite kubelet_target_split by done. split.
  - replace (podsDir +:+ "/" +:+ uid +:+ "/") with ((podsDir +:+ "/" +:+ uid) +:+ "/")
      by (by rewrite !sapp_assoc).
    rewrite TrimSuffix_app. change ("/" +:+ uid) with (String "/" uid).
    rewrite LastIndex_app by done.
    rewrite (proj2 (Z.leb_gt _ _)) by (destruct podsDir; simpl; [done|lia]).
    replace (Z.to_nat (Z.of_nat (String.length podsDir)) + 1)%nat
      with (String.length (podsDir +:+ "/")) by (rewrite slength_app; simpl; lia).
    change (String "/" uid) with ("/" +:+ uid). by rewrite <-sapp_assoc, sdrop_app.
  - rewrite TrimPrefix_app. change (pv +:+ "/mount") with (pv +:+ String "/" "mount").
    rewrite Index_byte by done.
    rewrite (proj2 (Z.leb_gt _ _)) by (destruct pv; simpl; [done|lia]).
    by rewrite Nat2Z.id, stake_app.
Qed.

Lemma kubelet_target_roundtrip_witness :
  getPodUid (kubelet_target "/var/lib/kubelet/pods" "4f0e" "pvc-1") = "4f0e" /\
  getPVName (kubelet_target "/var/lib/kubelet/pods" "4f0e" "pvc-1") = "pvc-1".
Proof. apply kubelet_target_roundtrip; done. Defined.

(** ** The records of the mount table *)

(** The entries of the table that fall on mount point [mp]. *)
Definition entries (path : string) (isPrefix : bool) (mp : string) (l : list MountInfo) : list MountInfo :=
  filter (fun mi => mi_matches path isPrefix mi = true /\ mi_MountPoint mi = mp) l.

(** What the entries of one mount point amount to. *)
Definition record_of (mp : string) (es : list MountInfo) : option targetItem :=
  match es with
  | [] => None
  | e :: rest =>
      Some (mkTarget mp (mi_subpath e) (Z.of_nat (length es))
              (existsb (fun e' => negb (String.eqb (mi_subpath e) (mi_subpath e'))) rest)
              targetStatusNotExist None)
  end.

Lemma record_of_snoc mp e rest x :
  record_of mp ((e :: rest) ++ [x]) =
  Some (mkTarget mp (mi_subpath e) (Z.of_nat (length (e :: rest)) + 1)
          (if String.eqb (mi_subpath e) (mi_subpath x)
           then existsb (fun e' => negb (String.eqb (mi_subpath e) (mi_subpath e'))) rest else true)
          targetStatusNotExist None).
Proof.
  simpl. f_equal. f_equal.
  - rewrite length_app. simpl. lia.
  - rewrite existsb_app. simpl. destruct (String.eqb _ (mi_subpath x)); simpl;
      [by rewrite orb_false_r|by rewrite orb_true_r].
Qed.

(** C33 One record per mount point that matches: it counts the mounts stacked on
    the point, has the subpath of the lowest, and is inconsistent exactly
    when a mount above it has another subpath. *)
Theorem collect_records_spec mit path isPrefix mp :
  collect_records mit path isPrefix !! mp = record_of mp (entries path isPrefix mp (mis mit)).
Proof.
  unfold collect_records. generalize (mis mit) as l. clear mit.
  induction l as [|x l IH] using rev_ind; [apply lookup_empty|].
  rewrite fold_left_app. cbn [fold_left]. unfold entries in *. rewrite filter_app, filter_cons, filter_nil.
  unfold record_step at 1. destruct (mi_matches path isPrefix x) eqn:Hm; cbn [negb].
  2:{ rewrite decide_False by naive_solver. by rewrite app_nil_r. }
  destruct (decide (mi_MountPoint x = mp)) as [<-|Hne].
  - rewrite decide_True by done. rewrite IH.
    destruct (filter _ l) as [|e rest] eqn:He.
    + cbn [record_of]. by rewrite lookup_insert_eq.
    + rewrite record_of_snoc. cbn [record_of]. by rewrite lookup_insert_eq.
  - rewrite decide_False by naive_solver. rewrite app_nil_r, <-IH.
    by case_match; rewrite lookup_insert_ne.
Qed.
