(* ===== verification/MountPod.v ===== *)
(** * The mount pod

    [pkg/juicefs/mount/pod.go]: the pod that mounts a volume on a node. *)
From S2P Require Import Prelude GoStrings GoPath GoTime Sha256 K8sTypes PatchText Prog Config K8sClient Util.
From stdpp Require Import options.
#[local] Open Scope Z_scope.

Section MountPod.
Context (cfg : Config).

(** [resource.ParseQuantity] of the vendored library accepts the text;
    [resource.MustParse] panics on the others. *)
Context (quantity_ok : string -> bool).

Definition GeneratePodNameByVolumeId (volumeId : string) : string :=
  "mosfs-" +:+ cfg_NodeName cfg +:+ "-" +:+ volumeId.

(** Any annotation under the driver's prefix counts as a reference here. *)
Definition hasRef (pod : Pod) : bool :=
  existsb (fun kv => HasPrefix (fst kv) "mosfs-") (map_to_list (gm (pod_Annotations pod))).

Definition quoteForShell (cmd : string) : string :=
  let cmd := if Contains cmd "(" then ReplaceAll cmd "(" "\(" else cmd in
  if Contains cmd ")" then ReplaceAll cmd ")" "\)" else cmd.

(** One quantity of a resource list, when it is set. *)
Definition add_quantity (name q : string) (m : gmap string string) : prog (gmap string string) :=
  if String.eqb q EmptyString then mret m
  else if quantity_ok q then mret (<[name := q]> m)
  else Panic "resource.MustParse".

Definition parsePodResources (cpuLimit memLimit cpuRequest memRequest : string) : prog ResourceRequirements :=
  l ← add_quantity "cpu" cpuLimit ∅;
  l ← add_quantity "memory" memLimit l;
  r ← add_quantity "cpu" cpuRequest ∅;
  r ← add_quantity "memory" memRequest r;
  mret (mkRes (Some l) (Some r)).

(** The volumes of one [cache-dir=a:b:c] option. *)
Definition cache_dir_volumes (optSubStr : string) : list (Volume * VolumeMount) :=
  let optValStr := TrimSpace optSubStr in
  if negb (HasPrefix optValStr "cache-dir") then []
  else match Split optValStr "=" with
       | [_; val] =>
           map (fun cacheDir =>
                  let name := ReplaceAll (TrimPrefix cacheDir "/") "/" "-" in
                  (mkVolume name (HostPathDirectoryOrCreate cacheDir), mkVMount name cacheDir true))
               (Split (TrimSpace val) ":")
       | _ => []
       end.

Definition getCacheDirVolumes (cmd : string) : list Volume * list VolumeMount :=
  match Split cmd " -o " with
  | [_; opts] =>
      let l := flat_map cache_dir_volumes (Split opts ",") in (map fst l, map snd l)
  | _ => ([], [])
  end.

(** The secrets mounted as configuration, numbered from [i]. *)
Fixpoint config_volumes (i : Z) (configs : list (string * string)) : list (Volume * VolumeMount) :=
  match configs with
  | [] => []
  | (k, v) :: rest =>
      let name := "config-" +:+ itoa i in
      (mkVolume name (SecretSource k), mkVMount name v false) :: config_volumes (i + 1) rest
  end.

Definition NewMountPod (podName cmd mountPath : string) (resourceRequirements : ResourceRequirements)
    (configs env : gomap) : prog Pod :=
  let cmd := quoteForShell cmd in
  let volumeMounts := [mkVMount "jfs-dir" PodMountBase true; mkVMount "jfs-root-dir" "/root/.juicefs" true] in
  let volumes := [mkVolume "jfs-dir" (HostPathDirectoryOrCreate (cfg_MountPointPath cfg));
                  mkVolume "jfs-root-dir" (HostPathDirectoryOrCreate (cfg_JFSConfigPath cfg))] in
  let '(cacheVolumes, cacheVolumeMounts) :=
    if Contains cmd "cache-dir" then getCacheDirVolumes cmd
    else ([mkVolume "jfs-default-cache" (HostPathDirectoryOrCreate "/var/jfsCache")],
          [mkVMount "jfs-default-cache" "/var/jfsCache" true]) in
  configOrder ← call (RangeMap (gm configs));
  envOrder ← call (RangeMap (gm env));
  let cv := config_volumes 1 configOrder in
  let container :=
    mkContainer "jfs-mount" (cfg_MountImage cfg) ["sh"; "-c"; cmd] true resourceRequirements
      (("JFS_FOREGROUND", "1") :: envOrder) [("metrics", 9567)]
      (volumeMounts ++ cacheVolumeMounts ++ map snd cv)
      ["sh"; "-c"; "umount " +:+ mountPath] in
  let pod :=
    mkPod (mkMeta podName (cfg_Namespace cfg) EmptyString (Some {[PodTypeKey := PodTypeValue]})
             (Some ∅) None None)
          (mkSpec [container] (volumes ++ cacheVolumes ++ map fst cv) (cfg_NodeName cfg) None "Never")
          zeroStatus in
  mret (AddFinalizer pod Finalizer).
End MountPod.

(** ** Theorems *)

Lemma hasRef_spec pod :
  hasRef pod = true <->
  exists k v, mlookup (pod_Annotations pod) k = Some v /\ HasPrefix k "mosfs-" = true.
Proof.
  unfold hasRef, mlookup. rewrite existsb_exists. split.
  - intros ([k v] & Hin & Hp). exists k, v. split; [|done].
    by apply elem_of_map_to_list, list_elem_of_In.
  - intros (k & v & Hk & Hp). exists (k, v). split; [|done].
    by apply list_elem_of_In, elem_of_map_to_list.
Qed.

(** The two annotations of the delayed deletion are under the prefix too. *)
Lemma hasRef_delay pod :
  is_Some (mlookup (pod_Annotations pod) DeleteDelayTimeKey) -> hasRef pod = true.
Proof. intros [v Hv]. apply hasRef_spec. by exists DeleteDelayTimeKey, v. Qed.

(** ** The command line *)

Lemma replace_go_free c new s :
  free_of c s = true -> replace_go (String c EmptyString) new 0 s = s.
Proof.
  induction s as [|e s IH]; [done|]. intros Hs. simpl in Hs. apply andb_prop in Hs as [He Hs].
  apply negb_true_iff in He. simpl. rewrite HasPrefix_cons, Ascii.eqb_sym, He. simpl. by rewrite IH.
Qed.

Lemma quoteForShell_plain cmd :
  free_of "(" cmd = true -> free_of ")" cmd = true -> quoteForShell cmd = cmd.
Proof.
  intros H1 H2. unfold quoteForShell, ReplaceAll. rewrite (replace_go_free "(") by done.
  destruct (Contains cmd "("); rewrite (replace_go_free ")") by done;
    by destruct (Contains cmd ")").
Qed.

(** The bytes of a word of a command line. *)
Definition word (s : string) : bool := negb (String.eqb s EmptyString) && spaceless s.

Lemma space_width_ascii c s : byte_in 0 127 c = true -> is_space c = false -> space_width (String c s) = 0%nat.
Proof.
  intros Hc Hs. cbn [space_width]. rewrite Hs.
  destruct s as [|c1 [|c2 s]]; [done|..]; by destruct c as [[] [] [] [] [] [] [] []].
Qed.

(** A blank ends what could have become a white space. *)
Lemma space_width_blank c s t :
  space_width (String c s) = 0%nat -> space_width (String c s +:+ String " " t) = 0%nat.
Proof.
  destruct s as [|c1 [|c2 s]]; rewrite ?sapp_cons; cbn [space_width]; [| |done].
  - destruct (is_space c); [done|]. rewrite sapp_nil_l. intros _. unfold wide_space2. cbn [byte_is].
    change (byte_is 133 " ") with false. change (byte_is 160 " ") with false. rewrite andb_false_r.
    destruct t as [|c2 t]; [done|]. unfold wide_space3.
    change (byte_is 154 " ") with false. change (byte_is 128 " ") with false. change (byte_is 129 " ") with false.
    by rewrite !andb_false_r.
  - destruct (is_space c), (wide_space2 c c1); try done. rewrite sapp_nil_l. intros _. unfold wide_space3.
    change (byte_is 128 " ") with false. change (byte_in 128 138 " ") with false. change (byte_is 168 " ") with false.
    change (byte_is 169 " ") with false. change (byte_is 175 " ") with false. change (byte_is 159 " ") with false.
    by rewrite !andb_false_r.
Qed.

Lemma blank_spaces_word s t :
  spaceless s = true -> blank_spaces 0 (s +:+ String " " t) = s +:+ String " " (blank_spaces 0 t).
Proof.
  induction s as [|c s IH]; intros Hs; [done|]. cbn [spaceless] in Hs. apply andb_prop in Hs as [Hc Hs].
  apply Nat.eqb_eq in Hc. pose proof (space_width_blank c s t Hc) as Hw. rewrite !sapp_cons in *. cbn [blank_spaces].
  by rewrite Hw, IH.
Qed.

Lemma spaceless_bytes s : spaceless s = true -> sforallb (fun c => negb (is_space c)) s = true.
Proof.
  induction s as [|c s IH]; [done|]. cbn [spaceless sforallb]. intros [Hc Hs]%andb_prop.
  rewrite IH by done. apply Nat.eqb_eq in Hc. cbn [space_width] in Hc. by destruct (is_space c).
Qed.

Lemma fields_go_word s t :
  sforallb (fun c => negb (is_space c)) s = true -> s <> EmptyString ->
  fields_go (s +:+ String " " t) = (s :: fst (fields_go t), true).
Proof.
  induction s as [|c s IH]; [done|]. intros Hs _. simpl in Hs. apply andb_prop in Hs as [Hc Hs].
  apply negb_true_iff in Hc. rewrite sapp_cons. simpl fields_go. destruct s as [|d s].
  - rewrite sapp_nil_l. simpl. destruct (fields_go t). simpl. by rewrite Hc.
  - rewrite IH by done. by rewrite Hc.
Qed.

Lemma Fields_word s t : word s = true -> Fields (s +:+ " " +:+ t) = s :: Fields t.
Proof.
  unfold word. intros [Hn Hs]%andb_prop. apply negb_true_iff, String.eqb_neq in Hn. unfold Fields.
  change (" " +:+ t) with (String " " t). rewrite blank_spaces_word by done.
  rewrite fields_go_word; [done|by apply spaceless_bytes|done].
Qed.

(** The command the driver composes, read back by [ParseMntPath]: the mount
    path and the volume id that were put in. *)
Lemma ParseMntPath_command prog_ source volumeId rest :
  word prog_ = true -> word source = true -> word volumeId = true -> free_of "/" volumeId = true ->
  ParseMntPath (prog_ +:+ " " +:+ source +:+ " " +:+ (PodMountBase +:+ "/" +:+ volumeId) +:+ " " +:+ rest)
  = inl (PodMountBase +:+ "/" +:+ volumeId, volumeId).
Proof.
  intros Hp Hs Hv Hf. unfold ParseMntPath.
  assert (word (PodMountBase +:+ "/" +:+ volumeId) = true) as Hm.
  { unfold word in *. apply andb_prop in Hv as [_ Hv]. unfold PodMountBase.
    rewrite !sapp_cons, !sapp_nil_l. cbn [spaceless String.eqb negb]. by rewrite !space_width_ascii. }
  rewrite !Fields_word by done.
  unfold PodMountBase. rewrite HasPrefix_app. simpl negb. cbv iota.
  change ("/mosfs" +:+ "/" +:+ volumeId) with (EmptyString +:+ String "/" ("mosfs" +:+ String "/" volumeId)).
  rewrite !Split_byte, Split_byte_free by done. done.
Qed.
