(* ===== verification/PodMount.v ===== *)
(** * Mounting through a pod

    [pkg/juicefs/mount/pod_mount.go]: a volume is mounted by a pod the driver
    creates on the node; every target the volume is bound to is a reference,
    an annotation of that pod.  [JMount] creates the pod or adds a reference
    and waits for the mount, [JUmount] takes a reference away and deletes the
    pod when none is left. *)
From S2P Require Import Prelude GoStrings GoPath GoTime Sha256 K8sTypes PatchText Prog Config K8sClient Util MountPod.
From stdpp Require Import options.
#[local] Open Scope Z_scope.

#[local] Arguments exec : simpl never.

Definition millisecond : Z := 1000000.

Section PodMount.
Context (cfg : Config) (quantity_ok : string -> bool).

(** The settings of the [PodMount] receiver; nil when it only unmounts. *)
Context (jfsSetting : option JfsSetting).

(** ** References *)

(** The critical section of [AddRefOfMount]. *)
Definition add_ref (target podName : string) : prog unit :=
  let key := GetReferenceKey target in
  with_mutex JLock (
    exist ← GetPod podName (cfg_Namespace cfg);
    let annotation := pod_Annotations exist in
    match mlookup annotation key with
    | Some _ => mret tt
    | None =>
        let annotation := delete DeleteDelayAtKey (<[key := target]> (gm annotation)) in
        r ← try (ReplacePodAnnotation exist annotation);
        match r with
        | inr e => if IsConflict e then Throw e else mret tt
        | inl _ => mret tt
        end
    end).

(** Retried as long as the server answers with a conflict; [fuel] bounds the
    attempts. *)
Fixpoint AddRefOfMount (fuel : nat) (target podName : string) : prog unit :=
  match fuel with
  | O => OutOfFuel
  | S fuel' =>
      r ← try (add_ref target podName);
      match r with
      | inl _ => mret tt
      | inr e =>
          if IsConflict e then
            call (Sleep (10 * millisecond)) ≫= fun _ => AddRefOfMount fuel' target podName
          else Throw e
      end
  end.

(** The critical section that takes a reference away. *)
Definition del_ref (key podName namespace : string) : prog unit :=
  with_mutex JLock (
    po ← GetPod podName namespace;
    match mlookup (pod_Annotations po) key with
    | None => mret tt
    | Some _ => DelPodAnnotation po [key]
    end).

Fixpoint del_ref_loop (fuel : nat) (key podName namespace : string) : prog unit :=
  match fuel with
  | O => OutOfFuel
  | S fuel' =>
      r ← try (del_ref key podName namespace);
      match r with
      | inl _ => mret tt
      | inr e => if IsConflict e then del_ref_loop fuel' key podName namespace else Throw e
      end
  end.

(** The closure that deletes a mount pod without references. *)
Definition deleteMountPod (podName namespace : string) : prog unit :=
  with_mutex JLock (
    po ← GetPod podName namespace;
    if hasRef po then mret tt
    else
      shouldDelay ← ShouldDelay po;
      if negb shouldDelay then DeletePod po else mret tt).

Definition JUmount (fuel : nat) (volumeId target : string) : prog unit :=
  r ← try (GetPod (GeneratePodNameByVolumeId cfg volumeId) (cfg_Namespace cfg));
  match r with
  | inr e => if negb (IsNotFound e) then Throw e else mret tt
  | inl pod =>
      let key := GetReferenceKey target in
      del_ref_loop fuel key (pod_Name pod) (pod_Namespace pod) ≫= fun _ =>
      newPod ← GetPod (pod_Name pod) (pod_Namespace pod);
      if hasRef newPod then mret tt
      else deleteMountPod (pod_Name pod) (pod_Namespace pod)
  end.

(** ** Waiting for the mount *)

Fixpoint first_unready (l : list ContainerStatus) : option string :=
  match l with
  | [] => None
  | cn :: rest => if cs_Ready cn then first_unready rest else Some (cs_Name cn)
  end.

Definition getErrContainerLog (podName : string) : prog string :=
  pod ← GetPod podName (cfg_Namespace cfg);
  match first_unready (InitContainerStatuses (Status pod)) with
  | Some n => GetPodLog (pod_Name pod) (pod_Namespace pod) n
  | None =>
      match first_unready (ContainerStatuses (Status pod)) with
      | Some n => GetPodLog (pod_Name pod) (pod_Namespace pod) n
      | None => mret EmptyString
      end
  end.

Definition defaultCheckTimeout : Z := 2000 * millisecond.

(** The loop of [waitUtilMountReady]: [true] when the root of a mounted
    volume (inode 1) is seen, [false] when the context ended. *)
Fixpoint wait_ready_loop (fuel : nat) (mountPath : string) : prog bool :=
  match fuel with
  | O => OutOfFuel
  | S fuel' =>
      r ← try (DoWithTimeout defaultCheckTimeout (s ← call (OsStat mountPath); lift_sum s));
      match r with
      | inr (ErrCtx _) => mret false
      | inr _ => call (Sleep (500 * millisecond)) ≫= fun _ => wait_ready_loop fuel' mountPath
      | inl finfo =>
          if fi_Ino finfo =? 1 then mret true
          else call (Sleep (500 * millisecond)) ≫= fun _ => wait_ready_loop fuel' mountPath
      end
  end.

Definition waitUtilMountReady (fuel : nat) (podName mountPath : string) : prog unit :=
  ready ← wait_ready_loop fuel mountPath;
  if ready : bool then mret tt
  else
    r ← try (getErrContainerLog podName);
    match r with
    | inr _ => Throw (ErrFmt "mount %v failed: mount isn't ready in 30 seconds" [mountPath] None)
    | inl log => Throw (ErrFmt "mount %v failed: %v" [mountPath; log] None)
    end.

(** The pod created for the first reference. *)
Definition first_mount_pod (podName cmd mountPath key target : string) (res : ResourceRequirements)
    (configs env : gomap) (deletedDelay : string) : prog Pod :=
  newPod ← NewMountPod cfg podName cmd mountPath res configs env;
  let a := <[key := target]> (gm (pod_Annotations newPod)) in
  let a := if (String.length deletedDelay =? 0)%nat then a else <[DeleteDelayTimeKey := deletedDelay]> a in
  mret (with_annotations (Some a) newPod).

(** At most [n] looks at the pod: create it, wait for an old one to go, or
    add the reference and wait for the mount. *)
Fixpoint wait_until_mount (fuel n : nat) (podName volumeId target mountPath : string)
    (newPod : prog Pod) : prog unit :=
  match n with
  | O => Throw (ErrFmt "wait mountPod:[%s] ready failed" [podName] None)
  | S n' =>
      r ← try (GetPod podName (cfg_Namespace cfg));
      match r with
      | inr e =>
          if IsNotFound e then
            p ← newPod;
            CreatePod p ≫= fun _ =>
            wait_until_mount fuel n' podName volumeId target mountPath newPod
          else Throw e
      | inl po =>
          match DeletionTimestamp (Meta po) with
          | Some _ =>
              call (Sleep (500 * millisecond)) ≫= fun _ =>
              wait_until_mount fuel n' podName volumeId target mountPath newPod
          | None =>
              wrap_err (fun e => ErrFmt "add target:[%s] ref in mountPod:%s, error:%s" [target; podName] (Some e))
                (AddRefOfMount fuel target podName) ≫= fun _ =>
              waitUtilMountReady fuel podName mountPath
          end
      end
  end.

Definition waitUntilMount (fuel : nat) (volumeId target mountPath cmd : string) : prog unit :=
  match jfsSetting with
  | None => Panic "nil jfsSetting"
  | Some s =>
      let podName := GeneratePodNameByVolumeId cfg volumeId in
      podResource ← parsePodResources quantity_ok (MountPodCpuLimit s) (MountPodMemLimit s)
                      (MountPodCpuRequest s) (MountPodMemRequest s);
      with_mutex (GetPodLock podName) (
        let key := GetReferenceKey target in
        loopTimeout ← GetLoopTimeout;
        wait_until_mount fuel (Z.to_nat loopTimeout) podName volumeId target mountPath
          (first_mount_pod podName cmd mountPath key target podResource (Configs s) (Envs s) (DeletedDelay s)))
  end.

(** The command of the mount pod. *)
Definition mount_command (s : JfsSetting) (mountPath : string) (options : list string) : string :=
  if IsCe s then
    Join [CeMountPath; Source s; mountPath; "-o"; Join (options ++ ["metrics=0.0.0.0:9567"]) ","] " "
  else
    Join [JfsMountPath; Source s; mountPath; "-o"; Join (options ++ ["foreground"]) ","] " ".

Definition JMount (fuel : nat) (storage volumeId mountPath target : string) (options : list string) : prog unit :=
  match jfsSetting with
  | None => Panic "nil jfsSetting"
  | Some s => waitUntilMount fuel volumeId target mountPath (mount_command s mountPath options)
  end.
End PodMount.

(** ** The critical sections *)

Abbreviation locked l := ((MutexLock JLock ▷ tt) :: l ++ [MutexUnlock JLock ▷ tt]).

(** The annotations [AddRefOfMount] sends for a pod it read. *)
Definition referenced (p : Pod) (target : string) : gmap string string :=
  delete DeleteDelayAtKey (<[GetReferenceKey target := target]> (gm (pod_Annotations p))).

(** A program without fuel inside its critical section. *)
Lemma exec_JLock_inv {A} (p : prog A) tr r :
  fuel_free p -> exec (with_mutex JLock p) tr r -> exists body, exec p body r /\ tr = locked body.
Proof.
  intros Hf. rewrite exec_with_mutex. intros [(body & H1 & H2 & ->)|(body & H1 & -> & ->)]; [eauto|].
  by apply fuel_free_exec in H1.
Qed.

Lemma exec_add_ref cfg target podName tr r :
  exec (add_ref cfg target podName) tr r ->
  exists g body, tr = locked ((PodsGet podName (cfg_Namespace cfg) ▷ g) :: body) /\
    match g with
    | inr e => body = [] /\ r = Err e
    | inl p =>
        if mlookup (pod_Annotations p) (GetReferenceKey target) then body = [] /\ r = Ok tt
        else exists x,
          body = [PodsPatch (pod_Namespace p) (pod_Name p)
                    (JSONPatch [ReplaceMap "/metadata/annotations" (referenced p target)]) ▷ x] /\
          r = match x with Some e => if IsConflict e then Err e else Ok tt | None => Ok tt end
    end.
Proof.
  unfold add_ref. intros H. apply exec_JLock_inv in H as (body & H & ->).
  2:{ intros [p|e] _; cbn; [|done]. case_match; [done|]. intros [e|] _; cbn; repeat case_match; done. }
  apply exec_GetPod_bind in H as [(p & tr' & -> & H)|(e & -> & ->)]; [|by exists (inr e), []].
  exists (inl p), tr'. split; [done|]. destruct (mlookup _ _) eqn:Hk; [done|].
  apply exec_bind in H as [(a & t1 & t2 & -> & H1 & H)|(r0 & H1 & Hn & ->)];
    apply exec_try in H1 as (r1 & H1 & Hr1); apply exec_PatchPod in H1 as (x & -> & ->);
    exists x; destruct x as [e|]; simplify_eq/=.
  - revert H. case_match; intros [-> ->]; done.
  - by destruct H as [-> ->].
Qed.

Lemma exec_deleteMountPod n ns tr r :
  exec (deleteMountPod n ns) tr r ->
  exists g body, tr = locked ((PodsGet n ns ▷ g) :: body) /\
    match g with
    | inr e => body = [] /\ r = Err e
    | inl po =>
        if hasRef po then body = [] /\ r = Ok tt
        else exists x, body = [PodsDelete (pod_Namespace po) (pod_Name po) ▷ x] /\
                       r = match x with None => Ok tt | Some e => Err e end
    end.
Proof.
  assert (forall po, hasRef po = false -> mlookup (pod_Annotations po) DeleteDelayTimeKey = None) as Hnd.
  { intros po Hr. apply eq_None_not_Some. intros Hs%hasRef_delay. congruence. }
  unfold deleteMountPod. intros H. apply exec_JLock_inv in H as (body & H & ->).
  2:{ intros [p|e] _; cbn; [|done]. destruct (hasRef p) eqn:Hr; [done|].
      unfold ShouldDelay. rewrite Hnd by done. cbn. intros [e|] _; done. }
  apply exec_GetPod_bind in H as [(po & tr' & -> & H)|(e & -> & ->)]; [|by exists (inr e), []].
  exists (inl po), tr'. split; [done|]. destruct (hasRef po) eqn:Hr; [done|].
  unfold ShouldDelay in H. rewrite Hnd in H by done. cbn [mbind prog_bind prog_bind_go negb] in H.
  by apply exec_DeletePod in H.
Qed.

Lemma exec_del_ref key n ns tr r :
  exec (del_ref key n ns) tr r ->
  exists g body, tr = locked ((PodsGet n ns ▷ g) :: body) /\
    match g with
    | inr e => body = [] /\ r = Err e
    | inl po =>
        if mlookup (pod_Annotations po) key then
          exists x, body = [PodsPatch (pod_Namespace po) (pod_Name po)
                              (JSONPatch [RemovePath ("/metadata/annotations/" +:+ key)]) ▷ x] /\
                    r = match x with None => Ok tt | Some e => Err e end
        else body = [] /\ r = Ok tt
    end.
Proof.
  unfold del_ref. intros H. apply exec_JLock_inv in H as (body & H & ->).
  2:{ intros [p|e] _; cbn; [|done]. case_match; [|done]. intros [e|] _; done. }
  apply exec_GetPod_bind in H as [(po & tr' & -> & H)|(e & -> & ->)]; [|by exists (inr e), []].
  exists (inl po), tr'. split; [done|]. case_match; [|done]. by apply exec_PatchPod in H.
Qed.

(** ** Attempts *)

(** The events of attempts that ended in a conflict. *)
Inductive conflicts {A} (attempt : prog A) (pause : list event) : list event -> Prop :=
| conflicts_nil : conflicts attempt pause []
| conflicts_cons tr rest e :
    exec attempt tr (Err e) -> IsConflict e = true ->
    conflicts attempt pause rest -> conflicts attempt pause (tr ++ pause ++ rest).

Lemma exec_AddRefOfMount cfg fuel target podName tr r :
  exec (AddRefOfMount cfg fuel target podName) tr r -> r <> NoFuel ->
  exists pre last, tr = pre ++ last /\
    conflicts (add_ref cfg target podName) [Sleep (10 * millisecond) ▷ tt] pre /\
    exec (add_ref cfg target podName) last r /\
    (forall e, r = Err e -> IsConflict e = false).
Proof.
  revert tr r. induction fuel as [|fuel IH]; intros tr r H Hr; [by destruct H as [_ ->]|].
  cbn [AddRefOfMount] in H.
  apply exec_bind in H as [(a & t1 & t2 & -> & H1 & H)|(r0 & H1 & Hn & ->)];
    apply exec_try in H1 as (r1 & H1 & Hr1); destruct r1 as [[]|e| |]; simplify_eq/=.
  - destruct H as [-> ->]. exists [], t1. rewrite app_nil_r. split_and!; [done|constructor|done..].
  - destruct (IsConflict e) eqn:Hc.
    + apply exec_call_inv in H as ([] & t & -> & _ & H).
      destruct (IH _ _ H Hr) as (pre & last & -> & Hp & Hl & He).
      exists (t1 ++ [Sleep (10 * millisecond) ▷ tt] ++ pre), last. split_and!; [|exact (conflicts_cons _ _ _ _ e H1 Hc Hp)|done..].
      by rewrite <-!app_assoc.
    + destruct H as [-> ->]. exists [], t1. rewrite app_nil_r.
      split_and!; [done|constructor|done|]. by intros ? [= <-].
  - exists [], tr. split_and!; [done|constructor|done..].
Qed.

Lemma exec_del_ref_loop fuel key n ns tr r :
  exec (del_ref_loop fuel key n ns) tr r -> r <> NoFuel ->
  exists pre last, tr = pre ++ last /\
    conflicts (del_ref key n ns) [] pre /\
    exec (del_ref key n ns) last r /\
    (forall e, r = Err e -> IsConflict e = false).
Proof.
  revert tr r. induction fuel as [|fuel IH]; intros tr r H Hr; [by destruct H as [_ ->]|].
  cbn [del_ref_loop] in H.
  apply exec_bind in H as [(a & t1 & t2 & -> & H1 & H)|(r0 & H1 & Hn & ->)];
    apply exec_try in H1 as (r1 & H1 & Hr1); destruct r1 as [[]|e| |]; simplify_eq/=.
  - destruct H as [-> ->]. exists [], t1. rewrite app_nil_r. split_and!; [done|constructor|done..].
  - destruct (IsConflict e) eqn:Hc.
    + destruct (IH _ _ H Hr) as (pre & last & -> & Hp & Hl & He).
      exists (t1 ++ [] ++ pre), last. split_and!; [by rewrite <-!app_assoc|exact (conflicts_cons _ _ _ _ e H1 Hc Hp)|done..].
    + destruct H as [-> ->]. exists [], t1. rewrite app_nil_r.
      split_and!; [done|constructor|done|]. by intros ? [= <-].
  - exists [], tr. split_and!; [done|constructor|done..].
Qed.

(** One attempt per unit of fuel: when the server answers with a conflict at
    most [n] times, [n + 1] attempts are enough. *)
Lemma AddRefOfMount_no_fuel_conflicts cfg fuel target podName tr :
  exec (AddRefOfMount cfg fuel target podName) tr NoFuel ->
  exists attempts, length attempts = fuel /\
    tr = concat (map (fun a => a ++ [Sleep (10 * millisecond) ▷ tt]) attempts) /\
    Forall (fun a => exists e, exec (add_ref cfg target podName) a (Err e) /\ IsConflict e = true) attempts.
Proof.
  revert tr. induction fuel as [|fuel IH]; intros tr H.
  { destruct H as [-> _]. by exists []. }
  cbn [AddRefOfMount] in H.
  apply exec_bind in H as [(a & t1 & t2 & -> & H1 & H)|(r0 & H1 & Hn & Hr)];
    apply exec_try in H1 as (r1 & H1 & Hr1).
  - destruct r1 as [[]|e| |]; simplify_eq/=; [by destruct H|].
    destruct (IsConflict e) eqn:Hc; [|by destruct H].
    apply exec_call_inv in H as ([] & t & -> & _ & H).
    destruct (IH _ H) as (l & <- & -> & Hl). exists (t1 :: l). split_and!; [done| |].
    + simpl. by rewrite <-app_assoc.
    + constructor; eauto.
  - destruct r1 as [?|?| |]; simplify_eq/=. exfalso.
    apply exec_add_ref in H1 as (g & body & _ & Hg). destruct g; [|by destruct Hg].
    case_match; [by destruct Hg|]. destruct Hg as (x & _ & Hx). by destruct x; repeat case_match.
Qed.

Lemma del_ref_loop_avoids f fuel key n ns :
  (forall o, f o = true -> is_delete o || is_delay o || is_create o = true) ->
  avoids f (del_ref_loop fuel key n ns).
Proof.
  intros Hf.
  assert (forall o, is_delete o || is_delay o || is_create o = false -> f o = false) as Hf'.
  { intros o Ho. apply not_true_is_false. intros ?%Hf. congruence. }
  induction fuel as [|fuel IH]; [done|]. cbn [del_ref_loop].
  unfold del_ref, GetPod, DelPodAnnotation, PatchPod. avoid; by apply Hf'.
Qed.

(** A run of [JUmount] makes none of those calls, or ends in the deletion
    closure. *)
Lemma exec_JUmount_shape cfg fuel volumeId target f tr r :
  (forall o, f o = true -> is_delete o || is_delay o || is_create o = true) ->
  exec (JUmount cfg fuel volumeId target) tr r ->
  calls f tr = [] \/
  exists pre last n ns, tr = pre ++ last /\ calls f pre = [] /\ exec (deleteMountPod n ns) last r.
Proof.
  intros Hf H. unfold JUmount in H.
  assert (forall n ns x tr, calls f tr = [] -> calls f ((PodsGet n ns ▷ x) :: tr) = []) as Hget.
  { intros n ns x t Ht. apply calls_nil_iff. constructor; [|by apply calls_nil_iff].
    apply not_true_is_false. by intros ?%Hf. }
  apply exec_try_GetPod_bind in H as (x & tr' & -> & H).
  destruct x as [pod|e]; [|left; apply Hget; destruct (negb (IsNotFound e)); by destruct H as [-> _]].
  apply exec_bind_unit in H as [(t1 & t2 & -> & H1 & H)|(rd & H1 & Hn & ->)];
    (eapply avoids_calls in H1; [|by apply (del_ref_loop_avoids f)]); [|left; by apply Hget].
  apply exec_GetPod_bind in H as [(p & tr' & -> & H)|(e & -> & ->)].
  2:{ left. apply Hget. rewrite calls_app, H1. by apply Hget. }
  destruct (hasRef p).
  - left. destruct H as [-> _]. apply Hget. rewrite calls_app, H1. by apply Hget.
  - right. exists ((PodsGet (GeneratePodNameByVolumeId cfg volumeId) (cfg_Namespace cfg) ▷ inl pod) ::
             t1 ++ [PodsGet (pod_Name pod) (pod_Namespace pod) ▷ inl p]), tr', (pod_Name pod), (pod_Namespace pod).
    split_and!; [simpl; by rewrite <-app_assoc| |done].
    apply Hget. rewrite calls_app, H1. by apply Hget.
Qed.

(** ** Properties *)

(** C4 A mount pod is deleted by [JUmount] only inside the critical section
    of the reference lock, right after a read of that pod which showed no
    annotation of the driver: no reference, and no deletion delay. *)
Theorem JUmount_delete_guard cfg fuel volumeId target tr r ns n x :
  exec (JUmount cfg fuel volumeId target) tr r ->
  (PodsDelete ns n ▷ x) ∈ tr ->
  exists pre gn gns po,
    tr = pre ++ locked [PodsGet gn gns ▷ inl po; PodsDelete ns n ▷ x] /\
    hasRef po = false /\ n = pod_Name po /\ ns = pod_Namespace po /\
    r = match x with None => Ok tt | Some e => Err e end.
Proof.
  intros H Hin. apply (exec_JUmount_shape _ _ _ _ is_delete) in H;
    [|by intros o ->]. destruct H as [Hq|(pre & last & gn & gns & -> & Hq & H)];
    [by apply (elem_of_calls is_delete) in Hin|].
  apply elem_of_app in Hin as [Hin|Hin]; [by apply (elem_of_calls is_delete) in Hin|].
  apply exec_deleteMountPod in H as (g & body & -> & H).
  destruct g as [po|e]; [destruct (hasRef po) eqn:Hr|];
    [destruct H as [-> _]|destruct H as (y & -> & Hy)|destruct H as [-> _]].
  1,3: by apply (elem_of_calls is_delete) in Hin.
  assert ((PodsDelete ns n ▷ x) = (PodsDelete (pod_Namespace po) (pod_Name po) ▷ y)) as Heq.
  { simpl in Hin. rewrite !elem_of_cons, elem_of_nil in Hin.
    destruct Hin as [Hin|[Hin|[Hin|[Hin|[]]]]]; try done; by apply (f_equal projT1) in Hin. }
  pose proof (f_equal delete_answer Heq) as Hy'. apply (f_equal projT1) in Heq. simplify_eq/=.
  by exists pre, gn, gns, po.
Qed.

(** [JUmount] never starts nor checks a delayed deletion: it reads no
    clock and writes no deletion time, because the delay annotation itself
    counts as a reference of the pod. *)
Theorem JUmount_never_delays cfg fuel volumeId target tr r :
  exec (JUmount cfg fuel volumeId target) tr r -> calls is_delay tr = [].
Proof.
  intros H. apply (exec_JUmount_shape _ _ _ _ is_delay) in H;
    [|by intros o ->; rewrite orb_true_r].
  destruct H as [Hq|(pre & last & gn & gns & -> & Hq & H)]; [done|].
  rewrite calls_app, Hq. apply exec_deleteMountPod in H as (g & body & -> & H).
  destruct g as [po|e]; [destruct (hasRef po) eqn:Hr|];
    [destruct H as [-> _]|destruct H as (y & -> & Hy)|destruct H as [-> _]]; done.
Qed.

Lemma referenced_spec p target :
  referenced p target !! GetReferenceKey target = Some target /\
  referenced p target !! DeleteDelayAtKey = None /\
  (forall k, k <> GetReferenceKey target -> k <> DeleteDelayAtKey ->
             referenced p target !! k = gm (pod_Annotations p) !! k).
Proof.
  pose proof (GetReferenceKey_not_delay target) as [Hne _]. unfold referenced. split_and!.
  - by rewrite lookup_delete_ne, lookup_insert_eq.
  - apply lookup_delete_eq.
  - intros k H1 H2. by rewrite lookup_delete_ne, lookup_insert_ne.
Qed.

(** [AddRefOfMount] returns nil only after an attempt, under the reference
    lock, that found the reference on the pod, or that replaced the
    annotations by ones with the reference, without a pending deletion time
    and with every other annotation as it was read; attempts that met a
    conflict came before. *)
Theorem AddRefOfMount_ok cfg fuel target podName tr :
  exec (AddRefOfMount cfg fuel target podName) tr (Ok tt) ->
  exists pre p,
    conflicts (add_ref cfg target podName) [Sleep (10 * millisecond) ▷ tt] pre /\
    ((tr = pre ++ locked [PodsGet podName (cfg_Namespace cfg) ▷ inl p] /\
      is_Some (mlookup (pod_Annotations p) (GetReferenceKey target))) \/
     exists a x,
       tr = pre ++ locked [PodsGet podName (cfg_Namespace cfg) ▷ inl p;
                           PodsPatch (pod_Namespace p) (pod_Name p)
                             (JSONPatch [ReplaceMap "/metadata/annotations" a]) ▷ x] /\
       a !! GetReferenceKey target = Some target /\ a !! DeleteDelayAtKey = None /\
       (forall k, k <> GetReferenceKey target -> k <> DeleteDelayAtKey ->
                  a !! k = gm (pod_Annotations p) !! k)).
Proof.
  intros H. apply exec_AddRefOfMount in H as (pre & last & -> & Hp & H & _); [|done].
  apply exec_add_ref in H as (g & body & -> & H). destruct g as [p|e]; [|by destruct H].
  exists pre, p. split; [done|]. case_match eqn:Hk.
  - left. destruct H as [-> _]. eauto.
  - right. destruct H as (x & -> & _). exists (referenced p target), x.
    split; [done|]. apply referenced_spec.
Qed.

(** A patch the server refuses for another reason than a conflict is
    taken for a success: the call returns nil although the reference was not
    written. *)
Theorem AddRefOfMount_swallows cfg fuel target podName p e :
  mlookup (pod_Annotations p) (GetReferenceKey target) = None ->
  IsConflict e = false ->
  exec (AddRefOfMount cfg (S fuel) target podName)
    (locked [PodsGet podName (cfg_Namespace cfg) ▷ inl p;
             PodsPatch (pod_Namespace p) (pod_Name p)
               (JSONPatch [ReplaceMap "/metadata/annotations" (referenced p target)]) ▷ Some e])
    (Ok tt).
Proof.
  intros Hk He. cbn [AddRefOfMount]. apply exec_bind. left. exists (inl tt). eexists _, [].
  rewrite app_nil_r. split_and!; [done| |done].
  apply exec_try. exists (Ok tt). split; [|done]. unfold add_ref.
  apply exec_with_mutex. left. eexists. split_and!; [|done|done].
  apply exec_GetPod_bind. left. do 2 eexists. split; [done|]. rewrite Hk.
  apply exec_bind. left. exists (inr e). eexists [_], []. split_and!; [done| |by rewrite He].
  apply exec_try. exists (Err e). split; [|done]. apply exec_PatchPod. by exists (Some e).
Qed.

(** C18 An unmount returns nil only when there is no mount pod, or after an
    attempt under the reference lock that found no reference of the target or
    removed it, and after a later read that showed another annotation of the
    driver, unless the pod, read once more under the lock, had gained one or
    was deleted. *)
Theorem JUmount_ok cfg fuel volumeId target tr :
  exec (JUmount cfg fuel volumeId target) tr (Ok tt) ->
  let key := GetReferenceKey target in
  (exists e, tr = [PodsGet (GeneratePodNameByVolumeId cfg volumeId) (cfg_Namespace cfg) ▷ inr e] /\
     IsNotFound e = true) \/
  exists pod pre po drop newPod post,
    let look := PodsGet (pod_Name pod) (pod_Namespace pod) in
    tr = (PodsGet (GeneratePodNameByVolumeId cfg volumeId) (cfg_Namespace cfg) ▷ inl pod) ::
           pre ++ locked ((look ▷ inl po) :: drop) ++ (look ▷ inl newPod) :: post /\
    conflicts (del_ref key (pod_Name pod) (pod_Namespace pod)) [] pre /\
    drop = (if bool_decide (is_Some (mlookup (pod_Annotations po) key))
            then [PodsPatch (pod_Namespace po) (pod_Name po)
                    (JSONPatch [RemovePath ("/metadata/annotations/" +:+ key)]) ▷ None]
            else []) /\
    (if hasRef newPod then post = []
     else exists po', post = locked ((look ▷ inl po') ::
            if hasRef po' then [] else [PodsDelete (pod_Namespace po') (pod_Name po') ▷ None])).
Proof.
  intros H key. unfold JUmount in H. apply exec_try_GetPod_bind in H as (x & t & -> & H).
  destruct x as [pod|e].
  2:{ left. exists e. destruct (IsNotFound e); by destruct H as [-> H]. }
  right. apply exec_bind_unit in H as [(t1 & t2 & -> & H1 & H)|(rd & H1 & Hn & Hr)]; [|by destruct rd].
  apply exec_del_ref_loop in H1 as (pre & last & -> & Hp & H1 & _); [|done].
  apply exec_del_ref in H1 as (g & drop & -> & H1). destruct g as [po|e]; [|by destruct H1].
  apply exec_GetPod_bind in H as [(newPod & post & -> & H)|(e & _ & [=])].
  exists pod, pre, po, drop, newPod, post. cbv zeta. split_and!; [by rewrite <-!app_assoc|done| |].
  - case_bool_decide as Hk; destruct (mlookup _ _) as [v|]; [|by destruct Hk|destruct Hk; by exists v|by destruct H1].
    destruct H1 as (y & -> & Hy). by destruct y.
  - destruct (hasRef newPod); [by destruct H|].
    apply exec_deleteMountPod in H as (g & body & -> & H). destruct g as [po'|e]; [|by destruct H].
    exists po'. destruct (hasRef po'); [by destruct H as [-> _]|]. destruct H as (y & -> & Hy). by destruct y.
Qed.

(** ** Waiting *)

Lemma exec_wait_ready_loop fuel mountPath tr :
  exec (wait_ready_loop fuel mountPath) tr (Ok true) ->
  exists pre fi, tr = pre ++ [OsStat mountPath ▷ inl fi] /\ fi_Ino fi = 1.
Proof.
  revert tr. induction fuel as [|fuel IH]; intros tr H; [by destruct H|].
  cbn [wait_ready_loop] in H.
  apply exec_bind in H as [(a & t1 & t2 & -> & H1 & H)|(r0 & H1 & Hn & Hr)].
  2:{ apply exec_try in H1 as (r1 & H1 & ->). by destruct r1. }
  assert (forall t2, exec (call (Sleep (500 * millisecond)) ≫= fun _ => wait_ready_loop fuel mountPath) t2 (Ok true) ->
    exists pre fi, t1 ++ t2 = pre ++ [OsStat mountPath ▷ inl fi] /\ fi_Ino fi = 1) as Hrec.
  { intros t H'. apply exec_call_inv in H' as ([] & t' & -> & _ & H').
    destruct (IH _ H') as (pre & fi & -> & Hf).
    eexists (t1 ++ (Sleep (500 * millisecond) ▷ tt) :: pre), fi. by rewrite <-app_assoc. }
  destruct a as [fi|e].
  - destruct (Z.eqb_spec (fi_Ino fi) 1) as [Hi|_]; [|by apply Hrec].
    destruct H as [-> _]. apply exec_try in H1 as (r1 & H1 & Hr1). destruct r1; simplify_eq/=.
    unfold DoWithTimeout, DoWithContext in H1.
    apply exec_call_inv in H1 as ([c|] & t & -> & _ & H1); [by destruct H1|].
    apply exec_call_inv in H1 as (s & t' & -> & _ & H1). apply exec_lift_sum in H1 as [-> Hs].
    destruct s; simplify_eq. eexists [_], _. by rewrite app_nil_r.
  - destruct e; try (by apply Hrec). by destruct H.
Qed.

Lemma exec_waitUtilMountReady cfg fuel podName mountPath tr :
  exec (waitUtilMountReady cfg fuel podName mountPath) tr (Ok tt) ->
  exists pre fi, tr = pre ++ [OsStat mountPath ▷ inl fi] /\ fi_Ino fi = 1.
Proof.
  unfold waitUtilMountReady. intros H.
  apply exec_bind in H as [(ready & t1 & t2 & -> & H1 & H)|(r0 & H1 & Hn & Hr)]; [|by destruct r0].
  destruct ready.
  - destruct H as [-> _]. rewrite app_nil_r. by apply exec_wait_ready_loop in H1.
  - apply exec_bind in H as [(a & t3 & t4 & -> & H2 & H)|(r0 & H2 & Hn & Hr)]; [|by destruct r0].
    by destruct a, H.
Qed.

(** The pod is created at most when a look at it found none, and the last
    look leads to the reference and the mount. *)
Lemma exec_wait_until_mount_ok cfg fuel n podName volumeId target mountPath newPod tr :
  exec (wait_until_mount cfg fuel n podName volumeId target mountPath newPod) tr (Ok tt) ->
  exists pre po ref pre' fi,
    tr = pre ++ [PodsGet podName (cfg_Namespace cfg) ▷ inl po] ++ ref ++ pre' ++ [OsStat mountPath ▷ inl fi] /\
    DeletionTimestamp (Meta po) = None /\
    exec (AddRefOfMount cfg fuel target podName) ref (Ok tt) /\ fi_Ino fi = 1.
Proof.
  revert tr. induction n as [|n IH]; intros tr H; [by destruct H|].
  cbn [wait_until_mount] in H. apply exec_try_GetPod_bind in H as (x & tr' & -> & H).
  assert (forall t t', exec (wait_until_mount cfg fuel n podName volumeId target mountPath newPod) t' (Ok tt) ->
    exists pre po ref pre' fi,
      t ++ t' = pre ++ [PodsGet podName (cfg_Namespace cfg) ▷ inl po] ++ ref ++ pre' ++ [OsStat mountPath ▷ inl fi] /\
      DeletionTimestamp (Meta po) = None /\
      exec (AddRefOfMount cfg fuel target podName) ref (Ok tt) /\ fi_Ino fi = 1) as Hrec.
  { intros t t' (pre & po & ref & pre' & fi & -> & H')%IH. exists (t ++ pre), po, ref, pre', fi.
    by rewrite app_assoc. }
  destruct x as [po|e].
  - destruct (DeletionTimestamp (Meta po)) eqn:Hd.
    + apply exec_call_inv in H as ([] & t & -> & _ & H). by apply (Hrec [_; _]).
    + apply exec_bind_unit in H as [(t1 & t2 & -> & H1 & H)|(rd & H1 & Hn & Hr)]; [|by destruct rd].
      apply exec_wrap_err in H1 as (r1 & H1 & Hr1). destruct r1 as [[]| | |]; simplify_eq/=.
      apply exec_waitUtilMountReady in H as (pre' & fi & -> & Hf). by exists [], po, t1, pre', fi.
  - destruct (IsNotFound e); [|by destruct H].
    apply exec_bind in H as [(p & t1 & t2 & -> & H1 & H)|(r0 & H1 & Hn & Hr)]; [|by destruct r0].
    apply exec_bind in H as [(q & t3 & t4 & -> & H2 & H)|(r0 & H2 & Hn & Hr)]; [|by destruct r0].
    rewrite app_comm_cons, app_assoc. by apply Hrec.
Qed.

Lemma exec_JMount_ok cfg quantity_ok s fuel storage volumeId mountPath target options tr :
  exec (JMount cfg quantity_ok (Some s) fuel storage volumeId mountPath target options) tr (Ok tt) ->
  let podName := GeneratePodNameByVolumeId cfg volumeId in
  exists pre po ref pre' fi,
    tr = (MutexLock (GetPodLock podName) ▷ tt) :: pre ++
         [PodsGet podName (cfg_Namespace cfg) ▷ inl po] ++ ref ++ pre' ++
         [OsStat mountPath ▷ inl fi; MutexUnlock (GetPodLock podName) ▷ tt] /\
    DeletionTimestamp (Meta po) = None /\
    exec (AddRefOfMount cfg fuel target podName) ref (Ok tt) /\ fi_Ino fi = 1.
Proof.
  intros H podName. unfold JMount, waitUntilMount in H.
  apply exec_bind in H as [(res & t1 & t2 & -> & H1 & H)|(r0 & H1 & Hn & Hr)]; [|by destruct r0].
  assert (t1 = []) as ->.
  { unfold parsePodResources, add_quantity in H1.
    repeat (case_match; try (by destruct H1 as [-> _]); cbn in H1). }
  apply exec_with_mutex in H as [(body & H & _ & ->)|(body & _ & [=] & _)].
  apply exec_bind in H as [(lt & t1 & t2 & -> & H2 & H)|(r0 & H2 & Hn & Hr)]; [|by destruct r0].
  apply exec_wait_until_mount_ok in H as (pre & po & ref & pre' & fi & -> & H).
  exists (t1 ++ pre), po, ref, pre', fi. split; [|done].
  rewrite app_nil_l. f_equal. by rewrite <-!app_assoc.
Qed.

(** What the last attempt of [AddRefOfMount] was answered: it found the
    reference on the pod it read, or it sent annotations with the reference,
    without a pending deletion time and otherwise as they were read; the
    server took them, or refused them for another reason than a conflict. *)
Definition reference_sent (target : string) (p : Pod) (body : list event) : Prop :=
  (body = [] /\ is_Some (mlookup (pod_Annotations p) (GetReferenceKey target))) \/
  exists a x,
    body = [PodsPatch (pod_Namespace p) (pod_Name p) (JSONPatch [ReplaceMap "/metadata/annotations" a]) ▷ x] /\
    a !! GetReferenceKey target = Some target /\ a !! DeleteDelayAtKey = None /\
    (forall k, k <> GetReferenceKey target -> k <> DeleteDelayAtKey -> a !! k = gm (pod_Annotations p) !! k) /\
    (x = None \/ exists e, x = Some e /\ IsConflict e = false).

Lemma exec_AddRefOfMount_ok cfg fuel target podName tr :
  exec (AddRefOfMount cfg fuel target podName) tr (Ok tt) ->
  exists pre p body,
    tr = pre ++ locked ((PodsGet podName (cfg_Namespace cfg) ▷ inl p) :: body) /\
    conflicts (add_ref cfg target podName) [Sleep (10 * millisecond) ▷ tt] pre /\
    reference_sent target p body.
Proof.
  intros H. apply exec_AddRefOfMount in H as (pre & last & -> & Hp & H & _); [|done].
  apply exec_add_ref in H as (g & body & -> & H). destruct g as [p|e]; [|by destruct H].
  exists pre, p, body. split_and!; [done..|]. case_match eqn:Hk.
  - left. destruct H as [-> _]. rewrite Hk. eauto.
  - right. destruct H as (x & -> & Hx). destruct (referenced_spec p target) as (H1 & H2 & H3).
    exists (referenced p target), x. split_and!; [done..|].
    destruct x as [e|]; [|by left]. right. exists e. split; [done|]. by destruct (IsConflict e).
Qed.

(** C5 A mount returns nil only after, under the lock of the pod: a read that
    showed the mount pod without a deletion time; then, under the reference
    lock and after attempts that met a conflict, a fresh read of the pod that
    showed the reference of the target, or a patch that adds it to the
    annotations just read and was accepted, or refused for another reason
    than a conflict (which the code drops); and last a look at the mount path
    that found the root of a mounted volume. *)
Theorem JMount_ok cfg quantity_ok s fuel storage volumeId mountPath target options tr :
  exec (JMount cfg quantity_ok (Some s) fuel storage volumeId mountPath target options) tr (Ok tt) ->
  let podName := GeneratePodNameByVolumeId cfg volumeId in
  exists pre po retries p body pre' fi,
    tr = (MutexLock (GetPodLock podName) ▷ tt) :: pre ++
         [PodsGet podName (cfg_Namespace cfg) ▷ inl po] ++
         retries ++ locked ((PodsGet podName (cfg_Namespace cfg) ▷ inl p) :: body) ++ pre' ++
         [OsStat mountPath ▷ inl fi; MutexUnlock (GetPodLock podName) ▷ tt] /\
    DeletionTimestamp (Meta po) = None /\
    conflicts (add_ref cfg target podName) [Sleep (10 * millisecond) ▷ tt] retries /\
    reference_sent target p body /\ fi_Ino fi = 1.
Proof.
  intros H podName. apply exec_JMount_ok in H as (pre & po & ref & pre' & fi & -> & Hd & H & Hi).
  apply exec_AddRefOfMount_ok in H as (retries & p & body & -> & Hc & Hs).
  exists pre, po, retries, p, body, pre', fi. split; [list_app|done].
Qed.

(** ** The pods that are created *)

Lemma NewMountPod_avoids_create cfg podName cmd mountPath res configs env :
  avoids is_create (NewMountPod cfg podName cmd mountPath res configs env).
Proof. unfold NewMountPod. case_match. avoid. Qed.

Lemma AddRefOfMount_avoids_create cfg fuel target podName :
  avoids is_create (AddRefOfMount cfg fuel target podName).
Proof.
  induction fuel as [|fuel IH]; [done|]. cbn [AddRefOfMount].
  unfold add_ref, GetPod, ReplacePodAnnotation, PatchPod. avoid.
Qed.

Lemma waitUtilMountReady_avoids_create cfg fuel podName mountPath :
  avoids is_create (waitUtilMountReady cfg fuel podName mountPath).
Proof.
  unfold waitUtilMountReady. apply avoids_bind.
  - induction fuel as [|fuel IH]; [done|]. cbn [wait_ready_loop].
    unfold DoWithTimeout, DoWithContext. avoid.
  - unfold getErrContainerLog, GetPod, GetPodLog. intros []; avoid.
Qed.

(** Every pod that is created was made by [newPod]. *)
Lemma exec_wait_until_mount_create cfg fuel n podName volumeId target mountPath newPod tr r p x :
  avoids is_create newPod ->
  exec (wait_until_mount cfg fuel n podName volumeId target mountPath newPod) tr r ->
  (PodsCreate p ▷ x) ∈ tr -> exists t, exec newPod t (Ok p).
Proof.
  intros Hnew. revert tr. induction n as [|n IH]; intros tr H Hin.
  { destruct H as [-> _]. set_solver. }
  cbn [wait_until_mount] in H. apply exec_try_GetPod_bind in H as (y & tr' & -> & H).
  apply elem_of_cons in Hin as [Hin|Hin]; [by apply (f_equal projT1) in Hin|].
  destruct y as [po|e].
  - destruct (DeletionTimestamp (Meta po)) eqn:Hd.
    + apply exec_call_inv in H as ([] & t & -> & _ & H).
      apply elem_of_cons in Hin as [Hin|Hin]; [by apply (f_equal projT1) in Hin|]. eauto.
    + exfalso. revert Hin. intros Hin%(elem_of_calls is_create); [|done]. apply Hin.
      refine (avoids_calls is_create _ _ _ _ H). apply avoids_bind.
      * apply avoids_wrap_err, AddRefOfMount_avoids_create.
      * intros _. apply waitUtilMountReady_avoids_create.
  - destruct (IsNotFound e); [|destruct H as [-> _]; set_solver].
    apply exec_bind in H as [(q & t1 & t2 & -> & H1 & H)|(r0 & H1 & Hn & Hr)].
    2:{ exfalso. apply (elem_of_calls is_create) in Hin; [|done]. by eapply Hin, avoids_calls. }
    apply elem_of_app in Hin as [Hin|Hin].
    { exfalso. apply (elem_of_calls is_create) in Hin; [|done]. by eapply Hin, avoids_calls. }
    apply exec_bind in H as H'. clear H.
    assert (forall t, (PodsCreate p ▷ x) ∈ t -> forall rr, exec (CreatePod q) t rr -> p = q) as Hcr.
    { intros t Ht rr (z & -> & _)%exec_CreatePod. apply list_elem_of_singleton, (f_equal projT1) in Ht.
      by simplify_eq/=. }
    destruct H' as [(q' & t3 & t4 & -> & H2 & H)|(r0 & H2 & Hn & Hr)].
    + apply elem_of_app in Hin as [Hin|Hin]; [|by eapply IH].
      rewrite (Hcr _ Hin _ H2). eauto.
    + rewrite (Hcr _ Hin _ H2). eauto.
Qed.

(** The annotations of the first reference. *)
Definition first_annotations (target delay : string) : gmap string string :=
  let a := <[GetReferenceKey target := target]> ∅ in
  if (String.length delay =? 0)%nat then a else <[DeleteDelayTimeKey := delay]> a.

Lemma lookup_first_annotations target delay :
  first_annotations target delay !! GetReferenceKey target = Some target /\
  first_annotations target delay !! DeleteDelayTimeKey =
    (if (String.length delay =? 0)%nat then None else Some delay).
Proof.
  pose proof (GetReferenceKey_not_delay target) as [_ Hne]. unfold first_annotations. cbv zeta.
  destruct (_ =? _)%nat; split.
  - by rewrite lookup_insert_eq.
  - by rewrite lookup_insert_ne.
  - by rewrite lookup_insert_ne, lookup_insert_eq.
  - by rewrite lookup_insert_eq.
Qed.

Lemma exec_first_mount_pod cfg podName cmd mountPath target res configs env delay tr p :
  exec (first_mount_pod cfg podName cmd mountPath (GetReferenceKey target) target res configs env delay) tr (Ok p) ->
  pod_Name p = podName /\ pod_Namespace p = cfg_Namespace cfg /\
  gm (pod_Annotations p) = first_annotations target delay /\
  pod_Finalizers p = Some [Finalizer] /\ DeletionTimestamp (Meta p) = None /\
  exists c, Containers (Spec p) = [c] /\ cn_Command c = ["sh"; "-c"; quoteForShell cmd].
Proof.
  unfold first_mount_pod. intros H.
  apply exec_bind in H as [(q & t1 & t2 & -> & H1 & H)|(r0 & H1 & Hn & Hr)]; [|by destruct r0].
  destruct H as [-> Hp]. simplify_eq. unfold NewMountPod in H1.
  destruct (if Contains _ _ then _ else _) as [cvs cms].
  apply exec_call_inv in H1 as (co & t & -> & _ & H1).
  apply exec_call_inv in H1 as (eo & t' & -> & _ & H1). destruct H1 as [-> Hq]. simplify_eq.
  split_and!; try done. by eexists.
Qed.

Lemma mount_command_shape s mountPath options :
  exists prog_ opts, mount_command s mountPath options = prog_ +:+ " " +:+ Source s +:+ " " +:+ mountPath +:+ " " +:+ opts /\
    word prog_ = true /\ free_of "(" prog_ = true /\ free_of ")" prog_ = true /\
    (forall c, free_of c (Join options ",") = true -> (c = "(" \/ c = ")")%char -> free_of c opts = true).
Proof.
  assert (forall c l x, free_of c (Join l ",") = true -> free_of c x = true -> free_of c "," = true ->
    free_of c (Join (l ++ [x]) ",") = true) as Hsnoc.
  { intros c l x Hl Hx Hc. destruct l as [|y l]; [done|].
    induction l as [|z l IH] in y, Hl |- *; [cbn [app Join] in *; by rewrite !free_of_app, Hl, Hc, Hx|].
    rewrite <-app_comm_cons, Join_cons, !free_of_app in * by (by destruct l).
    apply andb_prop in Hl as [H1 H2]. apply andb_prop in H2 as [_ H2]. by rewrite H1, Hc, IH. }
  unfold mount_command. destruct (IsCe s).
  - exists CeMountPath, ("-o" +:+ " " +:+ Join (options ++ ["metrics=0.0.0.0:9567"]) ",").
    split_and!; try done. intros c Hc [-> | ->]; rewrite !free_of_app; simpl; by apply Hsnoc.
  - exists JfsMountPath, ("-o" +:+ " " +:+ Join (options ++ ["foreground"]) ",").
    split_and!; try done. intros c Hc [-> | ->]; rewrite !free_of_app; simpl; by apply Hsnoc.
Qed.

(** The pods a mount creates are the ones [first_mount_pod] makes. *)
Lemma exec_JMount_create cfg quantity_ok s fuel storage volumeId mountPath target options tr r p x :
  exec (JMount cfg quantity_ok (Some s) fuel storage volumeId mountPath target options) tr r ->
  (PodsCreate p ▷ x) ∈ tr ->
  exists res t, exec (first_mount_pod cfg (GeneratePodNameByVolumeId cfg volumeId) (mount_command s mountPath options)
                        mountPath (GetReferenceKey target) target res (Configs s) (Envs s) (DeletedDelay s)) t (Ok p).
Proof.
  intros H Hin. unfold JMount, waitUntilMount in H.
  assert (forall A (q : prog A) t rr, avoids is_create q -> exec q t rr -> (PodsCreate p ▷ x) ∉ t) as Hno.
  { intros A q t rr Hq He Ht. apply (elem_of_calls is_create) in Ht; [|done]. by eapply Ht, avoids_calls. }
  apply exec_bind in H as [(res & t1 & t2 & -> & H1 & H)|(r0 & H1 & Hn & Hr)];
    apply Hno in H1; try (unfold parsePodResources, add_quantity; avoid); [|done].
  apply elem_of_app in Hin as [Hin|Hin]; [done|].
  eapply exec_with_mutex_in in Hin as (body & rr & Hb & Hinb); [|exact H|done..].
  clear H H1. apply exec_bind in Hb as [(lt & t3 & t4 & -> & H2 & H)|(r0 & H2 & Hn & Hr)];
    apply Hno in H2; try (unfold GetLoopTimeout, Getenv; avoid); [|done].
  apply elem_of_app in Hinb as [Hin|Hin]; [done|].
  eapply exec_wait_until_mount_create in H as [t H]; [| |done].
  2:{ unfold first_mount_pod. apply avoids_bind; [apply NewMountPod_avoids_create|done]. }
  by exists res, t.
Qed.

(** C6 Every mount pod that [JMount] creates carries the reference of the
    target, the requested deletion delay and the finalizer, and its command
    is read back by the reconciler as the mount path and the volume id it was
    made for (for names and options without blanks and parentheses). *)
Theorem JMount_created_pod cfg quantity_ok s fuel storage volumeId target options tr r p x :
  word (Source s) = true -> free_of "(" (Source s) = true -> free_of ")" (Source s) = true ->
  word volumeId = true -> free_of "/" volumeId = true ->
  free_of "(" volumeId = true -> free_of ")" volumeId = true ->
  free_of "(" (Join options ",") = true -> free_of ")" (Join options ",") = true ->
  exec (JMount cfg quantity_ok (Some s) fuel storage volumeId (PodMountBase +:+ "/" +:+ volumeId) target options) tr r ->
  (PodsCreate p ▷ x) ∈ tr ->
  GetMountPathOfPod p = inl (PodMountBase +:+ "/" +:+ volumeId, volumeId) /\
  pod_Name p = GeneratePodNameByVolumeId cfg volumeId /\
  mlookup (pod_Annotations p) (GetReferenceKey target) = Some target /\
  mlookup (pod_Annotations p) DeleteDelayTimeKey =
    (if (String.length (DeletedDelay s) =? 0)%nat then None else Some (DeletedDelay s)) /\
  pod_Finalizers p = Some [Finalizer].
Proof.
  intros Hs Hs1 Hs2 Hv Hvs Hv1 Hv2 Ho1 Ho2 H Hin.
  eapply exec_JMount_create in H as (res & t & H); [|done].
  apply exec_first_mount_pod in H as (Hn & _ & Ha & Hf & _ & c & Hc & Hcmd).
  unfold mlookup. rewrite Ha.
  split_and!; try done; try apply lookup_first_annotations. unfold GetMountPathOfPod. rewrite Hc, Hcmd.
  destruct (mount_command_shape s (PodMountBase +:+ "/" +:+ volumeId) options)
    as (prog_ & opts & -> & Hw & Hp1 & Hp2 & Hopt).
  rewrite quoteForShell_plain.
  - by apply ParseMntPath_command.
  - rewrite !free_of_app, Hp1, Hs1, Hv1, Hopt by auto. done.
  - rewrite !free_of_app, Hp2, Hs2, Hv2, Hopt by auto. done.
Qed.
