(* ===== verification/Progress.v ===== *)
(** * Mounts and unmounts make progress

    [PodMount.v] says what a mount or unmount that returns nil has done.  Here
    is the converse: when the API server and the file system serve the calls,
    the operations do return nil, and the fuel of their loops need only exceed
    the number of times they were told to try again. *)
From S2P Require Import Prelude GoStrings GoPath GoTime Sha256 K8sTypes PatchText Prog Config K8sClient Util MountPod PodMount.
From stdpp Require Import options.
#[local] Open Scope Z_scope.

#[local] Arguments exec : simpl never.

(** ** Answers *)

(** A read of a pod that found none. *)
Definition pod_missing (e : event) : bool :=
  match get_answer e with Some (inr _) => true | _ => false end.

(** A patch that met a conflict, and one that failed for another reason. *)
Definition patch_conflict (e : event) : bool :=
  match patch_answer e with Some (Some err) => IsConflict err | _ => false end.
Definition patch_failed (e : event) : bool :=
  match patch_answer e with Some (Some err) => negb (IsConflict err) | _ => false end.
Definition delete_failed (e : event) : bool :=
  match delete_answer e with Some (Some _) => true | _ => false end.

Definition count (f : event -> bool) (tr : list event) : nat := length (List.filter f tr).

Lemma count_app f t1 t2 : count f (t1 ++ t2) = (count f t1 + count f t2)%nat.
Proof. unfold count. by rewrite List.filter_app, length_app. Qed.

Lemma count_cons f e t : count f (e :: t) = ((if f e then 1 else 0) + count f t)%nat.
Proof. unfold count. simpl. by destruct (f e). Qed.

(** ** The loops over conflicts *)

Lemma AddRefOfMount_enough cfg fuel target podName tr r :
  exec (AddRefOfMount cfg fuel target podName) tr r ->
  Forall (fun e => pod_missing e = false) tr -> (count patch_conflict tr < fuel)%nat -> r = Ok tt.
Proof.
  revert tr. induction fuel as [|fuel IH]; intros tr H Hg Hc; [lia|]. cbn [AddRefOfMount] in H.
  apply exec_bind in H as [(a & t1 & t2 & -> & H1 & H)|(r0 & H1 & Hn & ->)];
    apply exec_try in H1 as (r1 & H1 & Hr1); apply exec_add_ref in H1 as (g & body & -> & H1).
  - destruct a as [[]|e]; [by destruct H|].
    destruct r1 as [|e'| |]; simplify_eq/=. apply Forall_cons in Hg as [_ Hg].
    destruct g as [p|eg]; [|by apply Forall_cons in Hg as [? _]].
    destruct (mlookup _ _); [by destruct H1|]. destruct H1 as (x & -> & Hx).
    destruct x as [ex|]; [|done]. destruct (IsConflict ex) eqn:Hcx; simplify_eq. rewrite Hcx in H.
    apply exec_call_inv in H as ([] & t & -> & _ & H). apply (IH _ H).
    + cbn [app] in Hg. rewrite !Forall_cons in Hg. by destruct Hg as (_ & _ & _ & _ & Hg).
    + unfold count, patch_conflict in *. simpl in Hc. rewrite Hcx in Hc. simpl in Hc. lia.
  - exfalso. destruct g as [p|eg]; [destruct (mlookup _ _)|].
    + destruct H1 as [_ ->]; by simplify_eq/=.
    + destruct H1 as (x & _ & ->). destruct x as [ex|]; [destruct (IsConflict ex)|]; by simplify_eq/=.
    + destruct H1 as [_ ->]; by simplify_eq/=.
Qed.

Lemma del_ref_loop_enough fuel key n ns tr r :
  exec (del_ref_loop fuel key n ns) tr r ->
  Forall (fun e => pod_missing e = false /\ patch_failed e = false) tr ->
  (count patch_conflict tr < fuel)%nat -> r = Ok tt.
Proof.
  revert tr. induction fuel as [|fuel IH]; intros tr H Hg Hc; [lia|]. cbn [del_ref_loop] in H.
  apply exec_bind in H as [(a & t1 & t2 & -> & H1 & H)|(r0 & H1 & Hn & ->)];
    apply exec_try in H1 as (r1 & H1 & Hr1); apply exec_del_ref in H1 as (g & body & -> & H1).
  - destruct a as [[]|e]; [by destruct H|].
    destruct r1 as [|e'| |]; simplify_eq/=. apply Forall_cons in Hg as [_ Hg].
    destruct g as [p|eg]; [|by apply Forall_cons in Hg as [[? _] _]].
    destruct (mlookup _ _); [|by destruct H1]. destruct H1 as (x & -> & Hx).
    destruct x as [ex|]; simplify_eq/=. cbn [app] in Hg. rewrite !Forall_cons in Hg.
    destruct Hg as (_ & [_ Hp] & _ & Hg).
    unfold patch_failed in Hp. simpl in Hp. apply negb_false_iff in Hp. rewrite Hp in H. apply (IH _ H); [done|].
    unfold count, patch_conflict in *. simpl in Hc. rewrite Hp in Hc. simpl in Hc. lia.
  - exfalso. destruct g as [p|eg]; [destruct (mlookup _ _)|].
    + destruct H1 as (x & _ & ->). destruct x as [ex|]; by simplify_eq/=.
    + destruct H1 as [_ ->]; by simplify_eq/=.
    + destruct H1 as [_ ->]; by simplify_eq/=.
Qed.

Lemma Forall_locked (P : event -> Prop) l t :
  Forall P (locked l ++ t) -> Forall P l /\ Forall P t.
Proof. intros [[_ [H1 _]%Forall_app]%Forall_cons H2]%Forall_app. done. Qed.

(** ** Looks at a pod *)

Definition is_get (o : op) : bool := match o with PodsGet _ _ => true | _ => false end.

(** Only the first look at a pod may find none. *)
Fixpoint missing_only_first (seen : bool) (tr : list event) : bool :=
  match tr with
  | [] => true
  | e :: t => negb (pod_missing e && seen) && missing_only_first (seen || is_get (projT1 e)) t
  end.

Lemma missing_only_first_spec pre seen e post :
  missing_only_first seen (pre ++ e :: post) = true -> pod_missing e = true ->
  seen = false /\ calls is_get pre = [].
Proof.
  revert seen. induction pre as [|e' pre IH]; intros seen; simpl; rewrite andb_true_iff, negb_true_iff.
  - intros [Hs _] He. by rewrite He in Hs.
  - intros [_ Hp] He. destruct (IH _ Hp He) as [[-> Hg]%orb_false_iff Hc]. split; [done|].
    apply calls_nil_iff. constructor; [done|by apply calls_nil_iff].
Qed.

(** A read that fails says that there is no pod. *)
Definition missing_not_found (e : event) : bool :=
  match get_answer e with Some (inr err) => IsNotFound err | _ => true end.

Lemma missing_only_first_rest n ns x tr :
  missing_only_first false ((PodsGet n ns ▷ x) :: tr) = true -> Forall (fun e => pod_missing e = false) tr.
Proof.
  intros H. apply Forall_forall. intros e (l1 & l2 & ->)%list_elem_of_split. apply not_true_is_false. intros He.
  by apply (missing_only_first_spec ((PodsGet n ns ▷ x) :: l1) false e l2) in H as [_ ?].
Qed.

(** ** Unmounting *)

(** An unmount succeeds when the API server serves it: if only the first
    look may find no pod, the deletion is accepted and no patch fails for
    another reason than a conflict, then more fuel than there are conflicts
    makes [JUmount] return nil. *)
Theorem JUmount_completes cfg fuel volumeId target tr r :
  exec (JUmount cfg fuel volumeId target) tr r ->
  forallb (fun e => missing_not_found e && negb (patch_failed e || delete_failed e)) tr = true ->
  missing_only_first false tr = true ->
  (count patch_conflict tr < fuel)%nat ->
  r = Ok tt.
Proof.
  intros H Hb Hm Hc. unfold JUmount in H. apply exec_try_GetPod_bind in H as (x & t & -> & H).
  apply missing_only_first_rest in Hm. rewrite count_cons in Hc. simpl in Hc, Hb.
  apply andb_prop in Hb as [Hx Hb].
  assert (Forall (fun e => pod_missing e = false /\ patch_failed e = false /\ delete_failed e = false) t) as Hg.
  { apply Forall_and. split; [done|]. apply Forall_forallb in Hb. eapply Forall_impl; [exact Hb|]. simpl. intros e He.
    apply andb_prop in He as [_ He]. apply negb_true_iff, orb_false_iff in He. done. }
  clear Hb.
  destruct x as [pod|e]; [|rewrite andb_true_r in Hx; unfold missing_not_found in Hx; simpl in Hx; rewrite Hx in H; by destruct H].
  assert (forall t, Forall (fun e => pod_missing e = false /\ patch_failed e = false /\ delete_failed e = false) t ->
            Forall (fun e => pod_missing e = false /\ patch_failed e = false) t) as Hw.
  { intros l Hl. eapply Forall_impl; [exact Hl|]. naive_solver. }
  apply exec_bind_unit in H as [(t1 & t2 & -> & H1 & H)|(rd & H1 & Hn & ->)].
  2:{ apply del_ref_loop_enough in H1; [by rewrite H1 in Hn|by apply Hw|done]. }
  apply Forall_app in Hg as [_ Hg]. apply exec_GetPod_bind in H as [(p & t3 & -> & H)|(e & -> & ->)].
  2:{ by apply Forall_cons in Hg as [[? _] _]. }
  apply Forall_cons in Hg as [_ Hg]. destruct (hasRef p); [by destruct H|].
  apply exec_deleteMountPod in H as (g & body & -> & H).
  rewrite <-(app_nil_r (locked _)) in Hg. apply Forall_locked in Hg as [[[Hpm _] Hb]%Forall_cons _].
  destruct g as [po|e]; [|done]. destruct (hasRef po); [by destruct H|].
  destruct H as (y & -> & ->). apply Forall_cons in Hb as [(_ & _ & Hd) _]. by destruct y.
Qed.

(** ** Mounting *)

(** A look at the mount path that did not show the root of a mounted volume. *)
Definition not_ready (e : event) : bool :=
  match e with
  | existT (OsStat _) x => match x with inl fi => negb (fi_Ino fi =? 1) | inr _ => true end
  | _ => false
  end.

(** The deadline of a look has not passed, and the look itself does not
    report a deadline. *)
Definition in_time (e : event) : bool :=
  match e with
  | existT (CtxDone _) x => match x with None => true | Some _ => false end
  | existT (OsStat _) x => match x with inr (ErrCtx _) => false | _ => true end
  | _ => true
  end.

Lemma wait_ready_loop_enough fuel mountPath tr r :
  exec (wait_ready_loop fuel mountPath) tr r ->
  Forall (fun e => in_time e = true) tr -> (count not_ready tr < fuel)%nat -> r = Ok true.
Proof.
  revert tr. induction fuel as [|fuel IH]; intros tr H Ht Hc; [lia|]. cbn [wait_ready_loop] in H.
  unfold DoWithTimeout, DoWithContext in H.
  apply exec_call_inv in H as (c & t & -> & _ & H). apply Forall_cons in Ht as [Hctx Ht].
  destruct c as [c|]; [done|].
  apply exec_call_inv in H as (x & t' & -> & _ & H). apply Forall_cons in Ht as [Hs Ht].
  destruct x as [fi|e]; cbn [lift_sum try prog_bind_go mbind prog_bind] in H.
  - destruct (fi_Ino fi =? 1) eqn:Hi; [by destruct H|].
    apply exec_call_inv in H as ([] & t'' & -> & _ & H). apply Forall_cons in Ht as [_ Ht].
    apply (IH _ H Ht). rewrite !count_cons in Hc. simpl in Hc. rewrite Hi in Hc. simpl in Hc. lia.
  - assert (exec (call (Sleep (500 * millisecond)) ≫= fun _ => wait_ready_loop fuel mountPath) t' r) as H'
      by (by destruct e).
    apply exec_call_inv in H' as ([] & t'' & -> & _ & H'). apply Forall_cons in Ht as [_ Ht].
    apply (IH _ H' Ht). rewrite !count_cons in Hc. simpl in Hc. lia.
Qed.

(** A read finds a pod that is not being deleted or reports that there is
    none; a creation is accepted or finds the pod there. *)
Definition pod_usable (e : event) : bool :=
  match e with
  | existT (PodsGet _ _) x =>
      match x with inl po => bool_decide (DeletionTimestamp (Meta po) = None) | inr err => IsNotFound err end
  | existT (PodsCreate _) x => match x with inl _ => true | inr err => IsAlreadyExists err end
  | _ => true
  end.

(** The reference is added and the mount seen. *)
Lemma add_and_wait_enough cfg fuel podName mountPath target (w : error -> error) tr r :
  exec (wrap_err w (AddRefOfMount cfg fuel target podName) ≫= fun _ => waitUtilMountReady cfg fuel podName mountPath) tr r ->
  Forall (fun e => pod_missing e = false) tr -> Forall (fun e => in_time e = true) tr ->
  (count patch_conflict tr < fuel)%nat -> (count not_ready tr < fuel)%nat -> r = Ok tt.
Proof.
  intros H Hm Ht Hc Hr. apply exec_bind_unit in H as [(t1 & t2 & -> & H1 & H)|(rd & H1 & Hn & ->)].
  - rewrite count_app in Hc, Hr. apply Forall_app in Hm as [_ Hm]. apply Forall_app in Ht as [_ Ht].
    unfold waitUtilMountReady in H.
    apply exec_bind in H as [(ready & t3 & t4 & -> & H2 & H)|(r0 & H2 & Hn & ->)];
      (apply wait_ready_loop_enough in H2;
        [|by repeat apply Forall_app in Ht as [Ht ?]|rewrite ?count_app in Hr; lia]); simplify_eq.
    by destruct H.
  - apply exec_wrap_err in H1 as (r1 & H1 & ->). apply AddRefOfMount_enough in H1; [|done..]. by subst r1.
Qed.

Lemma wait_until_mount_enough cfg fuel n podName volumeId target mountPath newPod tr r :
  (forall t rp, exec newPod t rp -> is_ok rp = true /\ calls is_get t = []) ->
  exec (wait_until_mount cfg fuel (S (S n)) podName volumeId target mountPath newPod) tr r ->
  Forall (fun e => pod_usable e = true) tr -> Forall (fun e => in_time e = true) tr ->
  (forall pre e post, tr = pre ++ e :: post -> pod_missing e = true -> calls is_get pre = []) ->
  (count patch_conflict tr < fuel)%nat -> (count not_ready tr < fuel)%nat -> r = Ok tt.
Proof.
  intros Hnew H Hu Ht Hfirst Hc Hr.
  assert (forall t1 n' ns x t2, tr = t1 ++ (PodsGet n' ns ▷ x) :: t2 -> Forall (fun e => pod_missing e = false) t2) as Hrest.
  { intros t1 n' ns x t2 ->. apply Forall_forall. intros e (l1 & l2 & ->)%list_elem_of_split.
    apply not_true_is_false. intros He.
    specialize (Hfirst (t1 ++ (PodsGet n' ns ▷ x) :: l1) e l2). rewrite <-app_assoc in Hfirst.
    specialize (Hfirst eq_refl He). rewrite calls_app in Hfirst. by apply app_eq_nil in Hfirst as [_ ?]. }
  cbn [wait_until_mount] in H. apply exec_try_GetPod_bind in H as (x & tr' & -> & H).
  apply Forall_cons in Hu as [Hx Hu]. apply Forall_cons in Ht as [_ Ht].
  rewrite count_cons in Hc, Hr. destruct x as [po|e].
  - simpl in Hx. apply bool_decide_eq_true in Hx. rewrite Hx in H.
    eapply add_and_wait_enough; [exact H|by eapply (Hrest [])|done|simpl in *; lia..].
  - simpl in Hx. rewrite Hx in H.
    apply exec_bind in H as [(p & t1 & t2 & -> & H1 & H)|(r0 & H1 & Hn & ->)].
    2:{ apply Hnew in H1 as [? _]. congruence. }
    apply exec_bind in H as [(q & t3 & t4 & -> & H2 & H)|(r0 & H2 & Hn & ->)];
      apply exec_CreatePod in H2 as (y & -> & Hy).
    2:{ apply Forall_app in Hu as [_ [Hu _]%Forall_cons]. simpl in Hu. destruct y as [|e']; [by subst|].
        rewrite Hu in Hy. by subst. }
    apply exec_try_GetPod_bind in H as (x' & tr'' & -> & H).
    repeat apply Forall_app in Hu as [_ Hu]. apply Forall_cons in Hu as [Hx' Hu].
    repeat apply Forall_app in Ht as [_ Ht]. apply Forall_cons in Ht as [_ Ht].
    rewrite !count_app, !count_cons in Hc, Hr. simpl in Hc, Hr.
    destruct x' as [po|e'].
    + simpl in Hx'. apply bool_decide_eq_true in Hx'. rewrite Hx' in H.
      eapply add_and_wait_enough; [exact H| |done|lia..].
      eapply (Hrest ((PodsGet podName (cfg_Namespace cfg) ▷ inr e) :: t1 ++ [PodsCreate p ▷ y])).
      simpl. by rewrite <-app_assoc.
    + exfalso. specialize (Hrest [] _ _ _ _ eq_refl). apply Forall_app in Hrest as [_ Hrest].
      by apply Forall_cons in Hrest as [_ [? _]%Forall_cons].
Qed.

Lemma first_mount_pod_returns cfg podName cmd mountPath key target res configs env delay t rp :
  exec (first_mount_pod cfg podName cmd mountPath key target res configs env delay) t rp ->
  is_ok rp = true /\ calls is_get t = [].
Proof.
  unfold first_mount_pod, NewMountPod. cbv zeta.
  destruct (if Contains _ _ then _ else _) as [cv cm]. intros H.
  apply exec_call_inv in H as (co & t1 & -> & _ & H). apply exec_call_inv in H as (eo & t2 & -> & _ & H).
  by destruct H as [-> ->].
Qed.

(** The four quantities of the settings are empty or parse. *)
Definition quantities_ok (quantity_ok : string -> bool) (s : JfsSetting) : bool :=
  forallb (fun q => String.eqb q EmptyString || quantity_ok q)
    [MountPodCpuLimit s; MountPodMemLimit s; MountPodCpuRequest s; MountPodMemRequest s].

Lemma parsePodResources_returns quantity_ok s tr r :
  quantities_ok quantity_ok s = true ->
  exec (parsePodResources quantity_ok (MountPodCpuLimit s) (MountPodMemLimit s)
          (MountPodCpuRequest s) (MountPodMemRequest s)) tr r ->
  tr = [] /\ is_ok r = true.
Proof.
  unfold quantities_ok, parsePodResources, add_quantity. simpl. rewrite !andb_true_iff, !orb_true_iff.
  intros (H1 & H2 & H3 & H4 & _) H.
  repeat match type of H with context [String.eqb ?q EmptyString] =>
    destruct (String.eqb q EmptyString); cbn in H end;
  repeat match goal with Hq : _ \/ _ |- _ => destruct Hq as [Hq|Hq]; try discriminate Hq; try rewrite Hq in H; cbn in H end;
  by destruct H as [-> ->].
Qed.

(** The number of rounds is not set in the environment. *)
Definition rounds_unset (e : event) : bool :=
  match e with
  | existT (LookupEnv k) v => negb (String.eqb k "LOOP_TIMEOUT" && bool_decide (is_Some v))
  | _ => true
  end.

(** A mount succeeds when it is served: if only the first look at the pod may
    find none, no pod that is found is being deleted, the creation is
    accepted, and no look at the mount path runs into its deadline, then more
    fuel than there are conflicts and looks that came too early makes
    [JMount] return nil (with the default number of rounds). *)
Theorem JMount_completes cfg quantity_ok s fuel storage volumeId mountPath target options tr r :
  exec (JMount cfg quantity_ok (Some s) fuel storage volumeId mountPath target options) tr r ->
  quantities_ok quantity_ok s = true ->
  forallb (fun e => rounds_unset e && pod_usable e && in_time e) tr = true ->
  missing_only_first false tr = true ->
  (count patch_conflict tr < fuel)%nat -> (count not_ready tr < fuel)%nat ->
  r = Ok tt.
Proof.
  intros H Hq Hb Hm Hc Hr.
  apply Forall_forallb in Hb. setoid_rewrite andb_true_iff in Hb. setoid_rewrite andb_true_iff in Hb.
  apply Forall_and in Hb as [[Henv Hu]%Forall_and Ht].
  unfold JMount, waitUntilMount in H.
  apply exec_bind in H as [(res & t1 & t2 & -> & H1 & H)|(r0 & H1 & Hn & ->)];
    apply parsePodResources_returns in H1 as [-> Hok]; [|done|congruence|done]. simpl app in *.
  assert (exists body t3 rb, t2 = (MutexLock (GetPodLock (GeneratePodNameByVolumeId cfg volumeId)) ▷ tt) :: body ++ t3 /\
    exec (loopTimeout ← GetLoopTimeout;
          wait_until_mount cfg fuel (Z.to_nat loopTimeout) (GeneratePodNameByVolumeId cfg volumeId) volumeId target mountPath
            (first_mount_pod cfg (GeneratePodNameByVolumeId cfg volumeId) (mount_command s mountPath options) mountPath
               (GetReferenceKey target) target res (Configs s) (Envs s) (DeletedDelay s))) body rb /\ r = rb) as
    (body & t3 & rb & -> & Hb & ->).
  { apply exec_with_mutex in H as [(body & H & _ & ->)|(body & H & -> & ->)];
      [by eexists body, _, _|eexists body, [], _; by rewrite app_nil_r]. }
  apply Forall_cons in Hu as [_ [Hu _]%Forall_app]. apply Forall_cons in Ht as [_ [Ht _]%Forall_app].
  rewrite count_cons, count_app in Hc, Hr. simpl in Hc, Hr. unfold GetLoopTimeout, Getenv in Hb.
  apply exec_call_inv in Hb as (v & t4 & -> & _ & Hb).
  assert (v = None) as ->.
  { apply Forall_cons in Henv as [_ [[Henv _]%Forall_cons _]%Forall_app]. by destruct v. }
  cbn in Hb.
  apply Forall_cons in Hu as [_ Hu]. apply Forall_cons in Ht as [_ Ht]. rewrite !count_cons in Hc, Hr. simpl in Hc, Hr.
  change (Pos.to_nat 60) with (S (S 58)) in Hb.
  eapply wait_until_mount_enough; [by apply first_mount_pod_returns|exact Hb|done|done| |lia..].
  intros pre e post -> He.
  match type of Hm with missing_only_first _ (?a :: (?b :: _) ++ _) = _ =>
    apply (missing_only_first_spec (a :: b :: pre) false e (post ++ t3)); [|done] end.
  rewrite <-Hm. cbn [app]. by rewrite <-app_assoc.
Qed.
