(* ===== verification/FakeClient.v ===== *)
(** * The API server of the unit tests

    [pkg/juicefs/k8sclient/fake_client.go]: a client that keeps the pods of
    the tests in a map.  The map holds pointers, and [GetPod] hands them out:
    the store of the objects is explicit, so that what is shared between the
    test, the code under test and the fake stays shared.  The locks of the
    fake make each operation atomic. *)
From S2P Require Import Prelude GoStrings GoTime K8sTypes PatchText Prog Config K8sClient Util PodMount.
From stdpp Require Import options.
#[local] Open Scope Z_scope.

Definition loc : Type := nat.

Record FakeK8sClient := mkFake {
  heap : gmap loc Pod;          (* the pod objects *)
  PodMap : gmap string loc;
}.

Definition object (f : FakeK8sClient) (l : loc) : option Pod := heap f !! l.

Definition Flush (f : FakeK8sClient) : FakeK8sClient := mkFake (heap f) ∅.
Definition GetAllPod (f : FakeK8sClient) : list Pod := [].
(** Neither a volume nor an error. *)
Definition GetPersistentVolume (f : FakeK8sClient) (pvName : string) : option PersistentVolume * option error := (None, None).
Definition GetPodLog (f : FakeK8sClient) (podName namespace containerName : string) : string * option error := (EmptyString, None).

Definition running : PodStatus :=
  mkStatus "Running" EmptyString EmptyString
    [mkCond "Ready" "True" EmptyString EmptyString; mkCond "ContainersReady" "True" EmptyString EmptyString] [] [].

(** Writes the status through the pointer and keeps the pointer. *)
Definition CreatePod (pod : loc) (f : FakeK8sClient) : option (loc * FakeK8sClient) :=
  p ← heap f !! pod;
  Some (pod, mkFake (<[pod := mkPod (Meta p) (Spec p) running]> (heap f)) (<[pod_Name p := pod]> (PodMap f))).

Definition GetPod (f : FakeK8sClient) (podName namespace : string) : loc + error :=
  match PodMap f !! podName with
  | Some l => inl l
  | None => inr (ErrApi ReasonNotFound)
  end.

(** Every patch is accepted and none is applied. *)
Definition PatchPod (pod : option loc) (data : Patch) (f : FakeK8sClient) : option error * FakeK8sClient := (None, f).

Definition UpdatePod (pod : loc) (f : FakeK8sClient) : option (option error * FakeK8sClient) :=
  p ← heap f !! pod;
  Some (match PodMap f !! pod_Name p with
        | None => (Some (ErrApi ReasonNotFound), f)
        | Some _ => (None, mkFake (heap f) (<[pod_Name p := pod]> (PodMap f)))
        end).

Definition DeletePod (pod : loc) (f : FakeK8sClient) : option (option error * FakeK8sClient) :=
  p ← heap f !! pod;
  Some (match PodMap f !! pod_Name p with
        | None => (Some (ErrApi ReasonNotFound), f)
        | Some _ => (None, mkFake (heap f) (delete (pod_Name p) (PodMap f)))
        end).

(** ** The fake as the environment of a program *)

Section handler.
Context (ext : forall o, resp o).

(** An object the program made, at an address of its own. *)
Definition alloc (p : Pod) (f : FakeK8sClient) : loc * FakeK8sClient :=
  let l := fresh (dom (heap f)) in (l, mkFake (<[l := p]> (heap f)) (PodMap f)).

Definition create (p : Pod) (f : FakeK8sClient) : (Pod + error) * FakeK8sClient :=
  let (l, f1) := alloc p f in
  match CreatePod l f1 with
  | Some (l, f') => (match object f' l with Some p => inl p | None => inr (ErrApi ReasonNotFound) end, f')
  | None => (inr (ErrApi ReasonNotFound), f)
  end.

(** [op] on the object the map has under a name. *)
Definition on_named (op : loc -> FakeK8sClient -> option (option error * FakeK8sClient)) (name : string) (f : FakeK8sClient)
    : option error * FakeK8sClient :=
  match PodMap f !! name with
  | Some l => default (Some (ErrApi ReasonNotFound), f) (op l f)
  | None => (Some (ErrApi ReasonNotFound), f)
  end.

Definition fake_handle (o : op) (f : FakeK8sClient) : resp o * FakeK8sClient :=
  match o return resp o * FakeK8sClient with
  | PodsGet n ns =>
      (match GetPod f n ns with
       | inl l => match object f l with Some p => inl p | None => inr (ErrApi ReasonNotFound) end
       | inr e => inr e
       end, f)
  | PodsCreate p => create p f
  | PodsUpdate p =>
      let (l, f1) := alloc p f in default (Some (ErrApi ReasonNotFound), f) (UpdatePod l f1)
  | PodsPatch ns n pt => PatchPod (PodMap f !! n) pt f
  | PodsDelete ns n => on_named DeletePod n f
  | PodsList ns _ => (inl (GetAllPod f), f)
  | PodsLogs ns n c => (inl (fst (GetPodLog f n ns c)), f)
  | RangeMap m => (map_to_list m, f)
  | o => (ext o, f)
  end.

Lemma fake_resp_ok o f : resp_ok o (fst (fake_handle o f)).
Proof. destruct o; try exact I. simpl. reflexivity. Qed.

Definition writes_pods (o : op) : bool :=
  match o with PodsCreate _ | PodsUpdate _ | PodsDelete _ _ => true | _ => false end.

Lemma fake_unchanged {A} (p : prog A) f : avoids writes_pods p -> snd (run fake_handle p f) = f.
Proof.
  revert f. induction p as [a|e|w| |o k IH]; intros f Hp; [done..|]. destruct Hp as [Ho Hk].
  simpl. pose proof (fake_resp_ok o f) as Hx. destruct (fake_handle o f) as [x f'] eqn:E.
  assert (f' = f) as -> by (apply (f_equal snd) in E; simpl in E; by destruct o; try discriminate Ho).
  specialize (IH x f (Hk x Hx)). by destruct (run fake_handle (k x) f) as [[tr r] f''].
Qed.
End handler.

Lemma AddRefOfMount_writes cfg fuel target podName : avoids writes_pods (AddRefOfMount cfg fuel target podName).
Proof.
  induction fuel as [|fuel IH]; [done|]. cbn [AddRefOfMount].
  unfold add_ref, K8sClient.GetPod, ReplacePodAnnotation, K8sClient.PatchPod. avoid.
Qed.

(** Against the fake no reference is ever recorded: whatever the tests put
    into it, [AddRefOfMount] leaves its pods as they are. *)
Theorem fake_loses_references ext cfg fuel target podName f :
  snd (run (fake_handle ext) (AddRefOfMount cfg fuel target podName) f) = f.
Proof. apply fake_unchanged, AddRefOfMount_writes. Qed.
