(* ===== verification/ProcessMount.v ===== *)
(** * Mounting through a process

    [pkg/juicefs/mount/interface.go]: the operations a way of mounting offers,
    and [pkg/juicefs/mount/process_mount.go]: mounting with a client process of
    the driver's own container. *)
From S2P Require Import Prelude GoStrings K8sTypes PatchText Prog Config K8sClient MountPod PodMount.
From stdpp Require Import options.
#[local] Open Scope Z_scope.

#[local] Arguments exec : simpl never.

(** ** The interface *)

Record Interface := mkInterface {
  iJMount : forall (storage volumeId mountPath target : string) (options : list string), prog unit;
  iJUmount : forall (volumeId target : string), prog unit;
  iAddRefOfMount : forall (target podName : string), prog unit;
}.

(** ** The process mount *)

(** [for i := 0; i < n; i++]: look at the mount path once a second. *)
Fixpoint process_wait (n : nat) (source mountPath : string) : prog unit :=
  match n with
  | O => Throw (ErrStatus Internal "Mount %v at %v failed: mount isn't ready in 30 seconds" [source; mountPath] None)
  | S n' =>
      r ← call (OsStat mountPath);
      match r with
      | inr e => Throw (ErrStatus Internal "Stat mount path %v failed: %v" [mountPath] (Some e))
      | inl finfo =>
          if fi_Ino finfo =? 1 then mret tt
          else call (Sleep (1000 * millisecond)) ≫= fun _ => process_wait n' source mountPath
      end
  end.

Definition process_JMount (s : JfsSetting) (storage volumeId mountPath target : string) (options : list string) : prog unit :=
  if negb (Contains (Source s) "://") then
    r ← call (DoMount (Source s) mountPath FsType options);
    wrap_err (fun e => ErrStatus Internal "Could not mount %q at %q: %v" [Source s; mountPath] (Some e)) (lift_err r)
  else
    let mountArgs := [Source s; mountPath] ++
      (if (0 <? length options)%nat then ["-o"; Join options ","] else []) in
    '(exist_, err) ← PathExists mountPath;
    match err with
    | Some e => Throw (ErrStatus Internal "Could not check existence of dir %q: %v" [mountPath] (Some e))
    | None =>
        (if negb exist_ then
           r ← call (OsMkdirAll mountPath 493);
           wrap_err (fun e => ErrStatus Internal "Could not create dir %q: %v" [mountPath] (Some e)) (lift_err r)
         else mret tt) ≫= fun _ =>
        r ← call (LikelyNotMountPoint mountPath);
        notMounted ← lift_sum r;
        (if negb notMounted then r ← call (DoUnmount mountPath); lift_err r else mret tt) ≫= fun _ =>
        envs ← call Environ;
        let envs := envs ++ ["JFS_FOREGROUND=1"] in
        let envs := if String.eqb storage "ceph" || String.eqb storage "gs"
                    then envs ++ ["JFS_NO_CHECK_OBJECT_STORAGE=1"] else envs in
        call (Spawn CeMountPath mountArgs envs) ≫= fun _ =>
        process_wait 30 (Source s) mountPath
    end.

Definition process_JUmount (volumeId target : string) : prog unit :=
  r ← call (DoUnmount target); lift_err r.

Definition process_AddRefOfMount (target podName : string) : prog unit := Panic "implement me".

(** ** The two implementations *)

Definition NewProcessMount (setting : JfsSetting) : Interface :=
  mkInterface (process_JMount setting) process_JUmount process_AddRefOfMount.

Definition NewPodMount (cfg : Config) (quantity_ok : string -> bool) (fuel : nat) (setting : option JfsSetting) : Interface :=
  mkInterface (JMount cfg quantity_ok setting fuel) (JUmount cfg fuel) (AddRefOfMount cfg fuel).

(** ** Properties *)

Lemma exec_process_wait n source mountPath tr :
  exec (process_wait n source mountPath) tr (Ok tt) ->
  exists pre fi, tr = pre ++ [OsStat mountPath ▷ inl fi] /\ fi_Ino fi = 1 /\ (length pre <= 2 * (n - 1))%nat.
Proof.
  revert tr. induction n as [|n IH]; intros tr H; [by destruct H|]. cbn [process_wait] in H.
  apply exec_call_inv in H as ([fi|e] & t & -> & _ & H); [|by destruct H].
  destruct (Z.eqb_spec (fi_Ino fi) 1) as [Hi|Hi].
  - destruct H as [-> _]. exists [], fi. simpl. split_and!; [done|done|lia].
  - apply exec_call_inv in H as ([] & t' & -> & _ & H).
    destruct n as [|n]; [by destruct H|].
    apply IH in H as (pre & fi' & -> & Hf & Hl). eexists (_ :: _ :: pre), fi'. split_and!; [done|done|].
    simpl in *. lia.
Qed.

(** The client process of the community edition is reported mounted only
    after the root of a mounted volume was seen at the mount path, at most
    30 looks after the process was started. *)
Theorem process_JMount_ready s storage volumeId mountPath target options tr :
  Contains (Source s) "://" = true ->
  exec (process_JMount s storage volumeId mountPath target options) tr (Ok tt) ->
  exists pre args envs waits fi,
    tr = pre ++ [Spawn CeMountPath args envs ▷ tt] ++ waits ++ [OsStat mountPath ▷ inl fi] /\
    fi_Ino fi = 1 /\ (length waits <= 58)%nat.
Proof.
  intros Hs H. unfold process_JMount in H. rewrite Hs in H. cbn [negb] in H.
  apply exec_PathExists_bind in H as (x & tr' & -> & H).
  destruct (match x with inl _ => _ | inr _ => _ end) as [exist_ [e|]]; [by destruct H|].
  apply exec_bind_unit in H as [(t1 & t2 & -> & _ & H)|(rd & _ & Hn & Hr)]; [|by destruct rd].
  apply exec_call_inv in H as (y & t3 & -> & _ & H).
  apply exec_bind in H as [(nm & t4 & t5 & -> & _ & H)|(rd & _ & Hn & Hr)]; [|by destruct rd].
  apply exec_bind_unit in H as [(t6 & t7 & -> & _ & H)|(rd & _ & Hn & Hr)]; [|by destruct rd].
  apply exec_call_inv in H as (envs & t8 & -> & _ & H).
  apply exec_call_inv in H as ([] & t9 & -> & _ & H).
  apply exec_process_wait in H as (waits & fi & -> & Hf & Hl).
  eexists (_ :: t1 ++ _ :: t4 ++ t6 ++ [_]), _, _, waits, fi. split_and!; [|done|simpl in Hl; lia].
  list_app.
Qed.
