(* ===== verification/Juicefs.v ===== *)
(** * The file system provider

    [pkg/juicefs/juicefs.go]: mounting a file system from the secrets of a
    volume, and the operations on a mounted one: directories, snapshots,
    clones, quotas and bandwidth. *)
From S2P Require Import Prelude GoStrings GoPath GoTime Json K8sTypes PatchText Prog Config K8sClient Util Console MountPod PodMount ProcessMount.
From stdpp Require Import options.
#[local] Open Scope Z_scope.

#[local] Arguments exec : simpl never.

(** A mounted file system. *)
Record jfs := mkJfs {
  jfs_Console : Console;
  jfs_Name : string;
  MountPath : string;
  Options : list string;
  jfs_Setting : JfsSetting;
}.

(** ** [mount.CleanupMountPoint] of the vendored mount library, without the
    extensive check *)

Definition remove_if_unmounted (mountPath : string) (otherwise : prog unit) : prog unit :=
  r ← call (LikelyNotMountPoint mountPath);
  notMnt ← lift_sum r;
  if notMnt : bool then r ← call (OsRemove mountPath); lift_err r else otherwise.

Definition unmount_and_remove (mountPath : string) : prog unit :=
  r ← call (DoUnmount mountPath);
  lift_err r ≫= fun _ =>
  remove_if_unmounted mountPath (Throw (ErrFmt "Failed to unmount path %v" [mountPath] None)).

Definition CleanupMountPoint (mountPath : string) : prog unit :=
  '(pathExists, pathErr) ← PathExists mountPath;
  if negb pathExists then mret tt
  else
    match pathErr with
    | Some e => if IsCorruptedMnt e then unmount_and_remove mountPath
                else Throw (ErrFmt "Error checking path: %v" [] (Some e))
    | None => remove_if_unmounted mountPath (unmount_and_remove mountPath)
    end.

Section Juicefs.
Context (cfg : Config) (lib : Libs) (fuel : nat).

(** ** Operations on a mounted file system *)

Definition GetBasePath (fs : jfs) : string := MountPath fs.

(** A command with the environment of the process and of the volume. *)
Definition Exec_ (fs : jfs) (cmd : string) (args : list string) : prog string :=
  envs ← call Environ;
  order ← call (RangeMap (gm (Envs (jfs_Setting fs))));
  '(out, err) ← call (Command cmd args (envs ++ map (fun kv => fst kv +:+ "=" +:+ snd kv) order));
  match err with Some e => Throw e | None => mret out end.

(** [mount.PathExists] with its error returned in a status. *)
Definition path_exists (fmt path : string) : prog bool :=
  '(exists_, err) ← PathExists path;
  match err with
  | Some e => Throw (ErrStatus Internal fmt [path] (Some e))
  | None => mret exists_
  end.

Definition DeleteSnap (fs : jfs) (snapID : string) : prog unit :=
  let snapPath := PathJoin [MountPath fs; snapID] in
  exists_ ← path_exists "Could not check path %q exists: %v" snapPath;
  if exists_ : bool then Exec_ fs CliPath ["snapshot"; "-d"; snapPath] ≫= fun _ => mret tt
  else mret tt.

(** Make the directory accessible to all: the permission bits are 0777. *)
Definition open_perm (path : string) : prog unit :=
  r ← call (OsStat path);
  match r with
  | inr e => Throw (ErrStatus Internal "Could not stat directory %s: %q" [path] (Some e))
  | inl fi =>
      if negb (fi_Perm fi =? 511) then
        r ← call (OsChmod path 511);
        wrap_err (fun e => ErrStatus Internal "Could not chmod directory %s: %q" [path] (Some e)) (lift_err r)
      else mret tt
  end.

Definition createSnap (fs : jfs) (snapPath srcPath : string) : prog string :=
  exists_ ← path_exists "Could not check path %q exists: %v" snapPath;
  (if negb exists_ then Exec_ fs CliPath ["snapshot"; srcPath; snapPath] ≫= fun _ => mret tt
   else mret tt) ≫= fun _ =>
  open_perm snapPath ≫= fun _ => mret snapPath.

Definition CreateSnap (fs : jfs) (volumeID snapName : string) : prog string :=
  let volPath := PathJoin [MountPath fs; volumeID] in
  let snapPath := volPath +:+ "_" +:+ snapName in
  createSnap fs snapPath volPath ≫= fun _ => mret (Base snapPath).

(** The end of the three ways to create a volume: replace its quota, set the
    bandwidth. *)
Definition quota_and_qos (fs : jfs) (subPath : string) (size : Z) (qos : string) : prog unit :=
  let name := js_Name (jfs_Setting fs) in
  (if 0 <? size then
     try (DeleteQuota lib (jfs_Console fs) name ("/" +:+ subPath)) ≫= fun _ =>
     wrap_err (fun e => ErrStatus Internal "Could not create quota  %s: %q" [subPath] (Some e))
       (CreateQuota lib (jfs_Console fs) name ("/" +:+ subPath) 0 size)
   else mret tt) ≫= fun _ =>
  if (0 <? String.length qos)%nat then
    wrap_err (fun e => ErrStatus Internal "set qos error:%s" [] (Some e)) (SetQos lib (jfs_Console fs) name qos)
  else mret tt.

Definition CreateVolFromSnap (fs : jfs) (volumeID subPath snapID : string) (size : Z) (qos : string) : prog string :=
  let volPath := PathJoin [MountPath fs; subPath] in
  let srcsnapPath := PathJoin [MountPath fs; snapID] in
  wrap_err (fun e => ErrStatus Internal "Could not create vol from snap  %s: %q" [subPath] (Some e))
    (createSnap fs volPath srcsnapPath) ≫= fun _ =>
  quota_and_qos fs subPath size qos ≫= fun _ => mret volPath.

Definition CreateVolFromVol (fs : jfs) (volumeID subPath srcVolID : string) (size : Z) (qos : string) : prog string :=
  let volPath := PathJoin [MountPath fs; subPath] in
  let srcvolPath := PathJoin [MountPath fs; srcVolID] in
  wrap_err (fun e => ErrStatus Internal "Could not create vol from vol  %s: %q" [subPath] (Some e))
    (createSnap fs volPath srcvolPath) ≫= fun _ =>
  quota_and_qos fs subPath size qos ≫= fun _ => mret volPath.

Definition CreateVol (fs : jfs) (volumeID subPath : string) (size : Z) (qos : string) : prog string :=
  let volPath := PathJoin [MountPath fs; subPath] in
  exists_ ← path_exists "Could not check volume path %q exists: %v" volPath;
  (if negb exists_ then
     r ← call (OsMkdirAll volPath 511);
     wrap_err (fun e => ErrStatus Internal "Could not make directory for meta %q: %v" [volPath] (Some e)) (lift_err r)
   else mret tt) ≫= fun _ =>
  open_perm volPath ≫= fun _ =>
  quota_and_qos fs subPath size qos ≫= fun _ => mret volPath.

Definition RmrDir (directory : string) (isCeMount : bool) : prog string :=
  '(out, err) ← call (Command (if isCeMount then CeCliPath else CliPath) ["rmr"; directory] []);
  match err with Some e => Throw e | None => mret out end.

Definition DeleteVol (fs : jfs) (volumeID : string) : prog unit :=
  let volPath := PathJoin [MountPath fs; volumeID] in
  existed ← path_exists "Could not check volume path %q exists: %v" volPath;
  (if existed : bool then
     wrap_err (fun e => ErrStatus Internal "Could not delete volume path %q: %v" [volPath] (Some e))
       (RmrDir volPath (IsCe (jfs_Setting fs))) ≫= fun _ => mret tt
   else mret tt) ≫= fun _ =>
  DeleteQuota lib (jfs_Console fs) (js_Name (jfs_Setting fs)) ("/" +:+ volumeID).

(** ** The provider *)

Definition GetConsole (jfsSecret : JfsSetting) (secrets : gomap) : prog Console :=
  match mlookup (Envs jfsSecret) "BASE_URL" with
  | None => Throw (ErrStatus Internal "base url not found" [] None)
  | Some base =>
      host ← lift_sum (url_parse lib base);
      match mlookup secrets "consoleToken" with
      | None => Throw (ErrStatus Internal "consoleToken not found" [] None)
      | Some token => mret (mkConsole host token)
      end
  end.

Definition GetUniqueId (volumeId : string) : prog string :=
  share ← Getenv "STORAGE_CLASS_SHARE_MOUNT";
  if String.eqb share "true" then
    r ← try (GetPersistentVolume volumeId);
    match r with
    | inr e => if negb (IsNotFound e) then Throw e else mret volumeId
    | inl pv => if negb (String.eqb (pv_StorageClassName pv) EmptyString)
                then mret (pv_StorageClassName pv) else mret volumeId
    end
  else mret volumeId.

Definition JfsUnmount (mountPath : string) : prog unit :=
  r ← call (DoUnmount mountPath);
  lift_err r ≫= fun _ =>
  CleanupMountPoint mountPath.

(** The loops over the keys that are required or set: each appends [--k=v] to
    the arguments of the command, and the same or, for the keys to strip,
    [--k=[secret]] to those of the log. *)
Definition append_keys (isOptional : list string) (strip : bool) (secrets : gomap) (keys : list string)
    (acc : list string * list string) : list string * list string :=
  fold_left (fun '(args, argsStripped) k =>
    if negb (ContainsString isOptional k) || negb (String.eqb (mget secrets k) EmptyString) then
      let arg := "--" +:+ k +:+ "=" +:+ mget secrets k in
      (args ++ [arg], argsStripped ++ [if strip then "--" +:+ k +:+ "=[secret]" else arg])
    else (args, argsStripped)) keys acc.

Definition auth_optional : list string := ["accesskey2"; "secretkey2"; "bucket"; "bucket2"; "passphrase"].
Definition auth_keys : list string := ["accesskey"; "accesskey2"; "bucket"; "bucket2"].
Definition auth_keysStripped : list string := ["token"; "secretkey"; "secretkey2"; "passphrase"].

(** [args] and [argsStripped]. *)
Definition auth_args (secrets : gomap) : list string * list string :=
  append_keys auth_optional true secrets auth_keysStripped
    (append_keys auth_optional false secrets auth_keys
       (["auth"; mget secrets "name"], ["auth"; mget secrets "name"])).

Definition append_if (b : bool) (arg : string) (l : list string) : list string := if b then l ++ [arg] else l.

Definition AuthFs (secrets extraEnvs : gomap) : prog string :=
  match secrets with
  | None => Throw (ErrStatus InvalidArgument "Nil secrets" [] None)
  | Some _ =>
      if String.eqb (mget secrets "name") EmptyString
      then Throw (ErrStatus InvalidArgument "Empty name" [] None)
      else
        let '(args, argsStripped) := auth_args secrets in
        v ← call (LookupEnv "JFS_NO_UPDATE_CONFIG");
        let noUpdate := match v with Some v => String.eqb v "enabled" | None => false end in
        (if noUpdate then
           if String.eqb (mget secrets "bucket") EmptyString
           then Throw (ErrStatus InvalidArgument "bucket argument is required when --no-update option is provided" [] None)
           else if negb (String.eqb (mget secrets "initconfig") EmptyString) then
             let confPath := PathJoin ["/root/.juicefs"; mget secrets "name" +:+ ".conf"] in
             r ← call (OsStat confPath);
             if match r with inr e => IsNotExist e | inl _ => false end then
               r ← call (OsWriteFile confPath (mget secrets "initconfig") 420);
               wrap_err (fun e => ErrStatus Internal "Create config file %q failed: %v" [confPath] (Some e)) (lift_err r) ≫= fun _ =>
               call (Infof "Create config file: %q success" [[confPath]])
             else mret tt
           else mret tt
         else mret tt) ≫= fun _ =>
        call (Infof "AuthFs: cmd %q, args %#v" [[CliPath]; append_if noUpdate "--no-update" argsStripped]) ≫= fun _ =>
        envs ← call Environ;
        order ← call (RangeMap (gm extraEnvs));
        '(out, err) ← call (Command CliPath (append_if noUpdate "--no-update" args) (envs ++ map (fun kv => fst kv +:+ "=" +:+ snd kv) order));
        match err with Some e => Throw e | None => mret out end
  end.

Definition format_optional : list string := ["block-size"; "compress"].
Definition format_keys : list string := ["storage"; "bucket"; "access-key"; "block-size"; "compress"].
Definition format_keysStripped : list string := ["secret-key"].

(** [args] and [argsStripped] before the last two arguments. *)
Definition format_args (noUpdate : bool) (secrets : gomap) : list string * list string :=
  append_keys format_optional true secrets format_keysStripped
    (append_keys format_optional false secrets format_keys (append_if noUpdate "--no-update" ["format"], ["format"])).

Definition ceFormat (secrets : gomap) (noUpdate : bool) : prog string :=
  match secrets with
  | None => Throw (ErrStatus InvalidArgument "Nil secrets" [] None)
  | Some _ =>
      if String.eqb (mget secrets "name") EmptyString
      then Throw (ErrStatus InvalidArgument "Empty name" [] None)
      else if String.eqb (mget secrets "metaurl") EmptyString
      then Throw (ErrStatus InvalidArgument "Empty metaurl" [] None)
      else
        (if String.eqb (mget secrets "storage") "ceph" || String.eqb (mget secrets "storage") "gs"
         then call (Setenv "JFS_NO_CHECK_OBJECT_STORAGE" "1") ≫= fun _ => mret tt
         else mret tt) ≫= fun _ =>
        let '(args, argsStripped) := format_args noUpdate secrets in
        call (Infof "ceFormat: cmd %q, args %#v" [[CeCliPath]; argsStripped ++ ["[metaurl]"; mget secrets "name"]]) ≫= fun _ =>
        '(out, err) ← call (Command CeCliPath (args ++ [mget secrets "metaurl"; mget secrets "name"]) []);
        match err with Some e => Throw e | None => mret out end
  end.

(** The outcome of the upgrade is only logged. *)
Definition Upgrade : prog unit :=
  v ← call (LookupEnv "JFS_AUTO_UPGRADE");
  if match v with Some v => String.eqb v "enabled" | None => false end then
    t ← call (LookupEnv "JFS_AUTO_UPGRADE_TIMEOUT");
    let timeout := match t with Some t => default 10 (Atoi t) | None => 10 end in
    call (CommandContext (wrap64 (timeout * nanos)) CliPath ["version"; "-u"]) ≫= fun _ => mret tt
  else mret tt.

Definition Version : prog string :=
  '(out, err) ← call (Command CliPath ["version"] []);
  match err with Some e => Throw e | None => mret out end.

Definition MountFs (volumeID target : string) (options : list string) (jfsSetting : JfsSetting) : prog string :=
  let '(mountPath, mnt) :=
    if UsePod jfsSetting
    then (PathJoin [PodMountBase; volumeID], NewPodMount cfg (quantity_parses lib) fuel (Some jfsSetting))
    else (PathJoin [MountBase; volumeID], NewProcessMount jfsSetting) in
  call (Infof "Mount: mounting %q at %q with options %v" [[Source jfsSetting]; [mountPath]; options]) ≫= fun _ =>
  wrap_err (fun e => ErrFmt "could not mount %q at %q: %v" [Source jfsSetting; mountPath] (Some e))
    (iJMount mnt (Storage jfsSetting) volumeID mountPath target options) ≫= fun _ =>
  mret mountPath.

(** The authentication or the formatting that precedes the mount; returns the
    source to mount. *)
Definition prepare (secrets : gomap) (s : JfsSetting) : prog string :=
  match mlookup secrets "metaurl" with
  | None =>
      Upgrade ≫= fun _ =>
      (if String.eqb (mget secrets "token") EmptyString then mret tt
       else wrap_err (fun e => ErrStatus Internal "Could not auth juicefs: %v" [] (Some e))
              (AuthFs secrets (Envs s)) ≫= fun _ => mret tt) ≫= fun _ =>
      mret (mget secrets "name")
  | Some source =>
      let noUpdate := String.eqb (mget secrets "storage") EmptyString || String.eqb (mget secrets "bucket") EmptyString in
      wrap_err (fun e => ErrStatus Internal "Could not format juicefs: %v" [] (Some e)) (ceFormat secrets noUpdate) ≫= fun _ =>
      mret (if negb (Contains source "://") then "redis://" +:+ source else source)
  end.

Definition JfsMount (volumeID target : string) (secrets volCtx : gomap) (options : list string) (usePod : bool) : prog jfs :=
  volumeID ← GetUniqueId volumeID;
  jfsSecret ← lift_sum (ParseSetting (yaml_map lib) secrets volCtx usePod);
  console ← GetConsole jfsSecret secrets;
  source ← prepare secrets jfsSecret;
  let jfsSecret := with_source source jfsSecret in
  mountPath ← MountFs volumeID target options jfsSecret;
  mret (mkJfs console (mget secrets "name") mountPath options jfsSecret).
End Juicefs.

(** ** Properties *)

(** *** Cleaning up a mount point *)

Lemma exec_remove_if_unmounted path otherwise tr r :
  exec (remove_if_unmounted path otherwise) tr r ->
  exists x t, tr = (LikelyNotMountPoint path ▷ x) :: t /\
    match x with
    | inr e => t = [] /\ r = Err e
    | inl true => exists y, t = [OsRemove path ▷ y] /\ r = match y with None => Ok tt | Some e => Err e end
    | inl false => exec otherwise t r
    end.
Proof.
  unfold remove_if_unmounted. intros H. apply exec_call_inv in H as (x & t & -> & _ & H).
  exists x, t. split; [done|]. destruct x as [[]|e]; [|done|by destruct H].
  apply exec_call_inv in H as (y & t' & -> & _ & H). apply exec_lift_err in H as [-> ->]. by exists y.
Qed.

(** Every removal in the trace comes right after the directory was seen not
    to be a mount point. *)
Definition removes_unmounted (path : string) (tr : list event) : Prop :=
  forall p x, (OsRemove p ▷ x) ∈ tr ->
    p = path /\ exists pre, tr = pre ++ [LikelyNotMountPoint path ▷ inl true; OsRemove path ▷ x].

Lemma removes_unmounted_cons path e tr :
  (forall p x, e <> (OsRemove p ▷ x)) -> removes_unmounted path tr -> removes_unmounted path (e :: tr).
Proof.
  intros He Ht p x Hin. apply elem_of_cons in Hin as [Hin|Hin]; [by edestruct He|].
  apply Ht in Hin as [-> [pre ->]]. split; [done|]. by exists (e :: pre).
Qed.

Lemma removes_unmounted_nil path : removes_unmounted path [].
Proof. intros p x Hin. set_solver. Qed.

Lemma remove_if_unmounted_safe path otherwise tr r :
  (forall tr r, exec otherwise tr r -> removes_unmounted path tr) ->
  exec (remove_if_unmounted path otherwise) tr r -> removes_unmounted path tr.
Proof.
  intros Ho H. apply exec_remove_if_unmounted in H as (x & t & -> & H).
  destruct x as [[]|e].
  - destruct H as (y & -> & _). intros p z Hin.
    apply elem_of_cons in Hin as [Hin|Hin]; [by apply (f_equal projT1) in Hin|].
    apply list_elem_of_singleton in Hin. pose proof (f_equal projT1 Hin) as Ho'. simplify_eq/=.
    split; [done|]. by exists [].
  - apply removes_unmounted_cons; [|by eauto]. intros p z Heq. by apply (f_equal projT1) in Heq.
  - destruct H as [-> _]. apply removes_unmounted_cons; [|apply removes_unmounted_nil].
    intros p z Heq. by apply (f_equal projT1) in Heq.
Qed.

Lemma CleanupMountPoint_safe mountPath tr r :
  exec (CleanupMountPoint mountPath) tr r -> removes_unmounted mountPath tr.
Proof.
  unfold CleanupMountPoint. intros H. apply exec_PathExists_bind in H as (x & t & -> & H).
  apply removes_unmounted_cons; [intros p z Heq; by apply (f_equal projT1) in Heq|].
  destruct (match x with inl _ => _ | inr _ => _ end) as [pathExists pathErr]. cbv beta iota zeta in H.
  destruct (negb pathExists); [destruct H as [-> _]; apply removes_unmounted_nil|].
  assert (forall tr r, exec (unmount_and_remove mountPath) tr r -> removes_unmounted mountPath tr) as Hu.
  { clear. intros tr r H. apply exec_call_inv in H as (y & t & -> & _ & H).
    apply removes_unmounted_cons; [intros p z Heq; by apply (f_equal projT1) in Heq|].
    destruct y; [destruct H as [-> _]; apply removes_unmounted_nil|].
    eapply remove_if_unmounted_safe, H. intros tr' r' [-> _]. apply removes_unmounted_nil. }
  destruct pathErr as [e|]; [|by eapply remove_if_unmounted_safe, H].
  destruct (IsCorruptedMnt e); [by eauto|]. destruct H as [-> _]. apply removes_unmounted_nil.
Qed.

(** Unmounting a file system never removes a directory that may still be a
    mount point: the only removal is of the mount path itself, and the call
    right before it answered that the path is not a mount point. *)
Theorem JfsUnmount_removes_unmounted mountPath tr r p x :
  exec (JfsUnmount mountPath) tr r -> (OsRemove p ▷ x) ∈ tr ->
  p = mountPath /\ exists pre, tr = pre ++ [LikelyNotMountPoint mountPath ▷ inl true; OsRemove mountPath ▷ x].
Proof.
  intros H. revert p x. change (removes_unmounted mountPath tr).
  unfold JfsUnmount in H. apply exec_call_inv in H as (y & t & -> & _ & H).
  apply removes_unmounted_cons; [intros p z Heq; by apply (f_equal projT1) in Heq|].
  destruct y; [destruct H as [-> _]; apply removes_unmounted_nil|]. by eapply CleanupMountPoint_safe.
Qed.

(** *** Identifiers *)

(** The unique id of a volume is the name of its storage class exactly when
    the shared mount is switched on and the volume is found with a class; it
    is the volume's own id in every other case that returns. *)
Lemma exec_GetUniqueId_ok volumeId tr id :
  exec (GetUniqueId volumeId) tr (Ok id) ->
  exists v, (v <> Some "true" /\ tr = [LookupEnv "STORAGE_CLASS_SHARE_MOUNT" ▷ v] /\ id = volumeId) \/
    (v = Some "true" /\ exists g, tr = [LookupEnv "STORAGE_CLASS_SHARE_MOUNT" ▷ v; PVGet volumeId ▷ g] /\
       match g with
       | inl pv => id = if String.eqb (pv_StorageClassName pv) EmptyString then volumeId else pv_StorageClassName pv
       | inr e => IsNotFound e = true /\ id = volumeId
       end).
Proof.
  unfold GetUniqueId, Getenv. intros H.
  apply exec_bind in H as [(s & t1 & t2 & -> & H1 & H)|(r0 & H1 & Hn & Hr)]; [|by destruct r0].
  apply exec_call_inv in H1 as (v & t & -> & _ & [-> [= ->]]). exists v.
  destruct (String.eqb_spec (default EmptyString v) "true") as [Hv|Hv].
  - right. destruct v as [v|]; [|done]. simpl in Hv. subst v. split; [done|].
    apply exec_bind in H as [(g & t3 & t4 & -> & H2 & H)|(r0 & H2 & Hn & Hr)]; [|by destruct r0].
    apply exec_try in H2 as (r1 & H2 & Hr1). unfold GetPersistentVolume in H2.
    apply exec_call_inv in H2 as (x & t & -> & _ & H2). apply exec_lift_sum in H2 as [-> ->].
    exists x. destruct x as [pv|e]; simplify_eq.
    + destruct (String.eqb (pv_StorageClassName pv) EmptyString); destruct H as [-> [= ->]]; done.
    + destruct (IsNotFound e); destruct H as [-> H]; by simplify_eq/=.
  - left. destruct H as [-> [= ->]]. split_and!; [|done|done]. by intros ->.
Qed.

(** The directory a snapshot id names under the mount point is the one the
    snapshot was created in: [DeleteSnap] and [CreateVolFromSnap] find it
    again (for ids and names that are path elements). *)
Theorem snapshot_path_roundtrip fs volumeID snapName :
  clean_dir (MountPath fs) = true -> plain volumeID = true -> plain (volumeID +:+ "_" +:+ snapName) = true ->
  let snapPath := PathJoin [MountPath fs; volumeID] +:+ "_" +:+ snapName in
  Base snapPath = volumeID +:+ "_" +:+ snapName /\ PathJoin [MountPath fs; Base snapPath] = snapPath.
Proof.
  intros Hm Hv Hs snapPath. subst snapPath. rewrite (PathJoin_plain _ volumeID) by done.
  rewrite !sapp_assoc. rewrite Base_app by done. split; [done|]. by rewrite PathJoin_plain.
Qed.

(** *** Volumes *)

Lemma exec_open_perm path tr :
  exec (open_perm path) tr (Ok tt) ->
  exists fi, (fi_Perm fi = 511 /\ tr = [OsStat path ▷ inl fi]) \/
             tr = [OsStat path ▷ inl fi; OsChmod path 511 ▷ None].
Proof.
  unfold open_perm. intros H. apply exec_call_inv in H as ([fi|e] & t & -> & _ & H); [|by destruct H].
  exists fi. destruct (Z.eqb_spec (fi_Perm fi) 511) as [Hp|Hp]; cbn [negb] in H.
  - destruct H as [-> _]. by left.
  - apply exec_call_inv in H as (y & t' & -> & _ & H). apply exec_wrap_err in H as (r1 & H & Hr).
    apply exec_lift_err in H as [-> ->]. destruct y; [done|]. by right.
Qed.

(** The directory of a volume is reported created only after it was seen
    with, or changed to, permissions for all; what follows is only the quota
    and the bandwidth, and both were accepted. *)
Theorem CreateVol_ok lib fs volumeID subPath size qos tr p :
  exec (CreateVol lib fs volumeID subPath size qos) tr (Ok p) ->
  p = PathJoin [MountPath fs; subPath] /\
  exists pre fi ch post, tr = pre ++ [OsStat p ▷ inl fi] ++ ch ++ post /\
    ((fi_Perm fi = 511 /\ ch = []) \/ ch = [OsChmod p 511 ▷ None]) /\
    exec (quota_and_qos lib fs subPath size qos) post (Ok tt).
Proof.
  unfold CreateVol. intros H.
  apply exec_bind in H as [(ex & t1 & t2 & -> & H1 & H)|(r0 & H1 & Hn & Hr)]; [|by destruct r0].
  apply exec_bind_unit in H as [(t3 & t4 & -> & H2 & H)|(r0 & H2 & Hn & Hr)]; [|by destruct r0].
  apply exec_bind_unit in H as [(t5 & t6 & -> & H3 & H)|(r0 & H3 & Hn & Hr)]; [|by destruct r0].
  apply exec_bind_unit in H as [(t7 & t8 & -> & H4 & H)|(r0 & H4 & Hn & Hr)]; [|by destruct r0].
  destruct H as [-> [= ->]]. split; [done|]. rewrite app_nil_r.
  apply exec_open_perm in H3 as (fi & [[Hp ->]| ->]).
  - exists (t1 ++ t3), fi, [], t7. split_and!; [list_app|by left|done].
  - exists (t1 ++ t3), fi, [OsChmod (PathJoin [MountPath fs; subPath]) 511 ▷ None], t7. split_and!; [list_app|by right|done].
Qed.

Lemma ParseSetting_UsePod yaml secrets volCtx usePod s :
  secrets <> None -> ParseSetting yaml secrets volCtx usePod = inl s -> UsePod s = usePod.
Proof.
  intros Hs. unfold ParseSetting. destruct secrets; [|done].
  repeat case_match; intros; by simplify_eq/=.
Qed.

Lemma exec_JfsMount_ok cfg lib fuel volumeID target secrets volCtx options usePod tr fs :
  exec (JfsMount cfg lib fuel volumeID target secrets volCtx options usePod) tr (Ok fs) ->
  exists id t1 t2 t3, tr = t1 ++ t2 ++ t3 /\ exec (GetUniqueId volumeID) t1 (Ok id) /\
    MountPath fs = PathJoin [if usePod then PodMountBase else MountBase; id] /\
    UsePod (jfs_Setting fs) = usePod /\
    exec (iJMount (if usePod then NewPodMount cfg (quantity_parses lib) fuel (Some (jfs_Setting fs))
                   else NewProcessMount (jfs_Setting fs))
            (Storage (jfs_Setting fs)) id (MountPath fs) target options) t3 (Ok tt).
Proof.
  unfold JfsMount. intros H.
  apply exec_bind in H as [(id & t1 & t2 & -> & H1 & H)|(r0 & H1 & Hn & Hr)]; [|by destruct r0].
  apply exec_bind in H as [(s & t3 & t4 & -> & H2 & H)|(r0 & H2 & Hn & Hr)]; [|by destruct r0].
  apply exec_lift_sum in H2 as [-> H2].
  destruct (ParseSetting (yaml_map lib) secrets volCtx usePod) as [s'|] eqn:Hs; simplify_eq.
  apply exec_bind in H as [(cs & t3 & t5 & -> & H3 & H)|(r0 & H3 & Hn & Hr)]; [|by destruct r0].
  assert (secrets <> None) as Hnil.
  { intros ->. simpl in Hs. simplify_eq. by destruct H3. }
  apply exec_bind in H as [(src & t6 & t7 & -> & H4 & H)|(r0 & H4 & Hn & Hr)]; [|by destruct r0].
  apply exec_bind in H as [(mp & t8 & t9 & -> & H5 & H)|(r0 & H5 & Hn & Hr)]; [|by destruct r0].
  destruct H as [-> [= ->]]. apply ParseSetting_UsePod in Hs as Hu; [|done].
  unfold MountFs in H5. change (UsePod (with_source src s')) with (UsePod s') in H5. rewrite Hu in H5.
  destruct usePod; cbv beta iota in H5;
    apply exec_call_inv in H5 as ([] & t8' & -> & _ & H5);
    (eexists id, t1, (t3 ++ t6 ++ [_]), t8';
     rewrite app_nil_r; split; [list_app|]; split; [done|]);
    (apply exec_bind_unit in H5 as [(t10 & t11 & -> & H5 & [-> [= ->]])|(r0 & H5 & Hn & Hr)]; [|by destruct r0]);
    apply exec_wrap_err in H5 as (r1 & H5 & Hr1); destruct r1 as [[]| | |]; simplify_eq/=;
    rewrite app_nil_r; done.
Qed.

(** A successful [JfsMount] leaves the file system at the unique id of the
    volume below the base directory of the way it is mounted, and it ends with
    a successful [JMount] of exactly that path, for the target it was asked
    for. *)
Theorem JfsMount_ok cfg lib fuel volumeID target secrets volCtx options usePod tr fs :
  exec (JfsMount cfg lib fuel volumeID target secrets volCtx options usePod) tr (Ok fs) ->
  exists id t1 t2 t3, tr = t1 ++ t2 ++ t3 /\ exec (GetUniqueId volumeID) t1 (Ok id) /\
    MountPath fs = PathJoin [if usePod then PodMountBase else MountBase; id] /\
    UsePod (jfs_Setting fs) = usePod /\
    exec (iJMount (if usePod then NewPodMount cfg (quantity_parses lib) fuel (Some (jfs_Setting fs))
                   else NewProcessMount (jfs_Setting fs))
            (Storage (jfs_Setting fs)) id (MountPath fs) target options) t3 (Ok tt).
Proof. apply exec_JfsMount_ok. Qed.
