(* ===== verification/Secrets.v ===== *)
(** * Secrets and the log

    [AuthFs] and [ceFormat] of [pkg/juicefs/juicefs.go] log the command they
    run with the secrets taken out.  Two programs mirror each other when they
    make the same calls but for the arguments of commands; a program mirrors
    the one with other secrets when nothing it logs, reads, writes or returns
    depends on them. *)
From S2P Require Import Prelude GoStrings GoPath K8sTypes Prog Config Util Juicefs.
From stdpp Require Import options.
#[local] Open Scope Z_scope.

#[local] Arguments exec : simpl never.

(** The lines of the log. *)
Definition is_log (o : op) : bool := match o with Infof _ _ => true | _ => false end.

(** ** Programs that differ in the arguments of commands *)

(** Two calls and answers are alike when they are equal, or commands that
    differ in their arguments with the same answer. *)
Inductive alike : event -> event -> Prop :=
| alike_refl e : alike e e
| alike_command cmd args1 args2 env x : alike (Command cmd args1 env ▷ x) (Command cmd args2 env ▷ x).

Inductive mirrors {A} : prog A -> prog A -> Prop :=
| mirrors_refl p : mirrors p p
| mirrors_do o k1 k2 : (forall x, mirrors (k1 x) (k2 x)) -> mirrors (Do o k1) (Do o k2)
| mirrors_command cmd args1 args2 env k1 k2 :
    (forall x, mirrors (k1 x) (k2 x)) -> mirrors (Do (Command cmd args1 env) k1) (Do (Command cmd args2 env) k2).

(** An execution of one is an execution of the other, up to the arguments. *)
Lemma mirrors_exec {A} (p q : prog A) tr r :
  mirrors p q -> exec p tr r -> exists tr', exec q tr' r /\ Forall2 alike tr tr'.
Proof.
  intros Hm. revert tr. induction Hm as [p|o k1 k2 _ IH|cmd a1 a2 env k1 k2 _ IH]; intros tr H.
  - exists tr. split; [done|]. apply Forall_Forall2_diag, Forall_true. constructor.
  - destruct H as (x & t & -> & Hx & H). apply IH in H as (t' & H & Ht).
    exists ((o ▷ x) :: t'). split; [by exists x, t'|]. constructor; [constructor|done].
  - destruct H as (x & t & -> & Hx & H). apply IH in H as (t' & H & Ht).
    exists ((Command cmd a2 env ▷ x) :: t'). split; [by exists x, t'|]. constructor; [constructor|done].
Qed.

Lemma mirrors_bind {A B} (d : prog A) (f g : A -> prog B) :
  (forall x, mirrors (f x) (g x)) -> mirrors (d ≫= f) (d ≫= g).
Proof. intros Hfg. induction d; cbn; [apply Hfg|by constructor..]. Qed.

(** Traces that are alike have the same lines of the log. *)
Lemma alike_log tr tr' : Forall2 alike tr tr' -> calls is_log tr' = calls is_log tr.
Proof.
  induction 1 as [|e e' t t' [e0|] Ht IH]; [done| |exact IH].
  unfold calls in *. rewrite !filter_cons. destruct (decide _); [by f_equal|exact IH].
Qed.

(** ** Secrets that differ in some keys *)

Section same.
(** The keys that may differ, and those of them of which it must not differ
    whether they are set. *)
Context (hidden optional : list string) (m1 m2 : gomap).

Definition same_but : Prop :=
  (forall k, k ∉ hidden -> mget m1 k = mget m2 k) /\
  (forall k, k ∈ optional -> String.eqb (mget m1 k) EmptyString = String.eqb (mget m2 k) EmptyString).

Lemma append_keys_shown isOptional keys acc :
  same_but -> Forall (fun k => k ∉ hidden) keys ->
  append_keys isOptional false m1 keys acc = append_keys isOptional false m2 keys acc.
Proof using.
  intros [Heq _] Hk. revert acc. induction Hk as [|k keys Hk _ IH]; intros [a s]; [done|].
  unfold append_keys. cbn [fold_left]. rewrite (Heq k Hk). apply IH.
Qed.

Lemma append_keys_stripped isOptional keys acc1 acc2 :
  same_but -> Forall (fun k => ContainsString isOptional k = true -> k ∈ optional) keys ->
  snd acc1 = snd acc2 ->
  snd (append_keys isOptional true m1 keys acc1) = snd (append_keys isOptional true m2 keys acc2).
Proof using.
  intros [_ Hset] Hk. revert acc1 acc2.
  induction Hk as [|k keys Hk _ IH]; intros [a1 s1] [a2 s2] Heq; [done|]. simpl in Heq. subst s2.
  unfold append_keys. cbn [fold_left].
  destruct (ContainsString isOptional k) eqn:Hc; cbn [negb orb]; [|by apply IH].
  rewrite (Hset k (Hk eq_refl)). destruct (String.eqb (mget m2 k) EmptyString); by apply IH.
Qed.
End same.

(** The arguments as they are logged. *)
Lemma auth_args_stripped m1 m2 :
  same_but ["token"; "secretkey"; "secretkey2"; "passphrase"] ["secretkey2"; "passphrase"] m1 m2 ->
  snd (auth_args m1) = snd (auth_args m2).
Proof.
  intros Hs. unfold auth_args. eapply append_keys_stripped; [exact Hs| |].
  - apply (bool_decide_unpack _). vm_compute. exact I.
  - erewrite (append_keys_shown _ _ m1 m2); [|exact Hs|apply (bool_decide_unpack _); vm_compute; exact I].
    destruct Hs as [Heq _]. rewrite (Heq "name"); [done|]. apply (bool_decide_unpack _). vm_compute. exact I.
Qed.

Lemma format_args_stripped noUpdate m1 m2 :
  same_but ["secret-key"; "metaurl"] ["metaurl"] m1 m2 ->
  snd (format_args noUpdate m1) = snd (format_args noUpdate m2).
Proof.
  intros Hs. unfold format_args. eapply append_keys_stripped; [exact Hs| |].
  - apply (bool_decide_unpack _). vm_compute. exact I.
  - erewrite (append_keys_shown _ _ m1 m2); [done|exact Hs|apply (bool_decide_unpack _); vm_compute; exact I].
Qed.

(** ** What the log shows *)

(** C32 The authentication keeps the secrets out of the log: with another
    token, secret keys and passphrase it can run with the same answers to the
    same end, every call is the same but for the arguments of the command,
    and the lines of the log are the same.  Only whether the second secret key
    and the passphrase are set shows. *)
Theorem AuthFs_log_hides m1 m2 extraEnvs tr1 r :
  same_but ["token"; "secretkey"; "secretkey2"; "passphrase"] ["secretkey2"; "passphrase"] (Some m1) (Some m2) ->
  exec (AuthFs (Some m1) extraEnvs) tr1 r ->
  exists tr2, exec (AuthFs (Some m2) extraEnvs) tr2 r /\ Forall2 alike tr1 tr2 /\ calls is_log tr2 = calls is_log tr1.
Proof.
  intros Hs H. assert (mirrors (AuthFs (Some m1) extraEnvs) (AuthFs (Some m2) extraEnvs)) as Hm.
  { pose proof (auth_args_stripped _ _ Hs) as Ha. unfold AuthFs.
    assert (forall k, bool_decide (k ∉ ["token"; "secretkey"; "secretkey2"; "passphrase"]) = true ->
              mget (Some m1) k = mget (Some m2) k) as Hk by (intros k Hk%bool_decide_eq_true; by apply Hs).
    rewrite (Hk "name"), (Hk "bucket"), (Hk "initconfig") by reflexivity. case_match; [constructor|].
    destruct (auth_args (Some m1)) as [a1 s1], (auth_args (Some m2)) as [a2 s2]. simpl in Ha. subst s2.
    do 5 (apply mirrors_bind; intros). by apply mirrors_command; constructor. }
  destruct (mirrors_exec _ _ _ _ Hm H) as (tr2 & H2 & Ht). exists tr2. split_and!; [done|done|by apply alike_log].
Qed.

(** The same of the formatting of a community volume, its secret key and the
    address of its metadata engine with the password in it. *)
Theorem ceFormat_log_hides m1 m2 noUpdate tr1 r :
  same_but ["secret-key"; "metaurl"] ["metaurl"] (Some m1) (Some m2) ->
  exec (ceFormat (Some m1) noUpdate) tr1 r ->
  exists tr2, exec (ceFormat (Some m2) noUpdate) tr2 r /\ Forall2 alike tr1 tr2 /\ calls is_log tr2 = calls is_log tr1.
Proof.
  intros Hs H. assert (mirrors (ceFormat (Some m1) noUpdate) (ceFormat (Some m2) noUpdate)) as Hm.
  { pose proof (format_args_stripped noUpdate _ _ Hs) as Ha. unfold ceFormat.
    assert (forall k, bool_decide (k ∉ ["secret-key"; "metaurl"]) = true ->
              mget (Some m1) k = mget (Some m2) k) as Hk by (intros k Hk%bool_decide_eq_true; by apply Hs).
    assert (String.eqb (mget (Some m1) "metaurl") EmptyString = String.eqb (mget (Some m2) "metaurl") EmptyString) as He
      by (apply Hs; constructor).
    rewrite He, (Hk "name"), (Hk "storage") by reflexivity. case_match; [constructor|]. case_match; [constructor|].
    apply mirrors_bind; intros _.
    destruct (format_args noUpdate (Some m1)) as [a1 s1], (format_args noUpdate (Some m2)) as [a2 s2]. simpl in Ha. subst s2.
    apply mirrors_bind; intros _. by apply mirrors_command; constructor. }
  destruct (mirrors_exec _ _ _ _ Hm H) as (tr2 & H2 & Ht). exists tr2. split_and!; [done|done|by apply alike_log].
Qed.

(** What is mounted is logged as it is: of a community volume that is the
    address the formatting hides. *)
Theorem MountFs_logs_source cfg lib fuel volumeID target options s tr r :
  exec (MountFs cfg lib fuel volumeID target options s) tr r ->
  exists mountPath t, tr = (Infof "Mount: mounting %q at %q with options %v" [[Source s]; [mountPath]; options] ▷ tt) :: t.
Proof.
  unfold MountFs. destruct (UsePod s); intros H; apply exec_call_inv in H as ([] & t & -> & _ & _); eauto.
Qed.
