(* ===== verification/Quiet.v ===== *)
(** * What the file system provider leaves alone

    Most operations of the provider touch neither mount pods nor the locks of
    the process.  The lemmas here say so for every set of calls [f] that
    contains none of [provider_op]; the two locking disciplines use them. *)
From S2P Require Import Prelude GoStrings GoPath GoTime K8sTypes PatchText Prog Config K8sClient Util Console MountPod PodMount ProcessMount Juicefs.
From stdpp Require Import options.

(** The calls that change neither pods, nor the reference lock, nor the locks
    of ids. *)
Definition provider_op (o : op) : bool :=
  match o with
  | PodsCreate _ | PodsUpdate _ | PodsPatch _ _ _ | PodsDelete _ _ => false
  | MutexLock JLock | MutexUnlock JLock => false
  | LocksTryAcquire _ | LocksRelease _ => false
  | _ => true
  end.

(** [f] contains no such call. *)
Definition spares (f : op -> bool) : Prop := forall o, provider_op o = true -> f o = false.

Section quiet.
Context (f : op -> bool) (Hf : spares f).

Lemma spares_op o : provider_op o = true -> f o = false.
Proof using Hf. apply Hf. Qed.
#[local] Hint Resolve spares_op : core.
#[local] Hint Extern 1 (provider_op _ = true) => reflexivity : core.

(** *** The console *)

Lemma volume_avoids lib cs name : avoids f (volume lib cs name).
Proof using Hf. unfold volume, GetVolumes, request_unchecked, runHttpRequestRaw. avoid. Qed.
#[local] Hint Resolve volume_avoids : avoids.

Lemma GetQuota_avoids lib cs name path : avoids f (GetQuota lib cs name path).
Proof using Hf. unfold GetQuota, GetQuotas, request, runHttpRequestRaw. avoid. Qed.
#[local] Hint Resolve GetQuota_avoids : avoids.

Lemma CreateQuota_avoids lib cs name path i s : avoids f (CreateQuota lib cs name path i s).
Proof using Hf. unfold CreateQuota, request_unchecked, runHttpRequestRaw. avoid. Qed.

Lemma DeleteQuota_avoids lib cs name path : avoids f (DeleteQuota lib cs name path).
Proof using Hf. unfold DeleteQuota, request_unchecked, runHttpRequestRaw. avoid. Qed.

Lemma SetQos_avoids lib cs name qos : avoids f (SetQos lib cs name qos).
Proof using Hf. unfold SetQos, GetACLList, UpdateQos, request, runHttpRequestRaw. avoid. Qed.
#[local] Hint Resolve CreateQuota_avoids DeleteQuota_avoids SetQos_avoids : avoids.

(** *** Volumes and snapshots *)

Lemma Exec_avoids fs cmd args : avoids f (Exec_ fs cmd args).
Proof using Hf. unfold Exec_. avoid. Qed.

Lemma createSnap_avoids fs a b : avoids f (createSnap fs a b).
Proof using Hf. unfold createSnap, path_exists, PathExists, open_perm, Exec_. avoid. Qed.

Lemma quota_and_qos_avoids lib fs p sz q : avoids f (quota_and_qos lib fs p sz q).
Proof using Hf. unfold quota_and_qos. avoid. Qed.
#[local] Hint Resolve quota_and_qos_avoids : avoids.

Lemma CreateVol_avoids lib fs v p sz q : avoids f (CreateVol lib fs v p sz q).
Proof using Hf. unfold CreateVol, path_exists, PathExists, open_perm. avoid. Qed.

(** *** Mounting *)

Lemma process_JMount_avoids s st v m t o : avoids f (process_JMount s st v m t o).
Proof using Hf.
  assert (forall n source path, avoids f (process_wait n source path)) as Hw.
  { intros n. induction n as [|n IH]; intros; [done|]. cbn [process_wait]. avoid. }
  unfold process_JMount, PathExists. avoid.
Qed.

Lemma waitUtilMountReady_avoids cfg fuel p m : avoids f (waitUtilMountReady cfg fuel p m).
Proof using Hf.
  unfold waitUtilMountReady. apply avoids_bind.
  - induction fuel as [|fuel IH]; [done|]. cbn [wait_ready_loop].
    unfold DoWithTimeout, DoWithContext. avoid.
  - unfold getErrContainerLog, GetPod, GetPodLog. intros []; avoid.
Qed.

Lemma first_mount_pod_avoids cfg a b c d t r e x y : avoids f (first_mount_pod cfg a b c d t r e x y).
Proof using Hf. unfold first_mount_pod, NewMountPod. avoid. Qed.

Lemma GetUniqueId_avoids v : avoids f (GetUniqueId v).
Proof using Hf. unfold GetUniqueId, Getenv, GetPersistentVolume. avoid. Qed.

Lemma GetConsole_avoids lib s secrets : avoids f (GetConsole lib s secrets).
Proof using Hf. unfold GetConsole. avoid. Qed.

Lemma prepare_avoids secrets s : avoids f (prepare secrets s).
Proof using Hf. unfold prepare, Upgrade, AuthFs, ceFormat. avoid. Qed.

Lemma CleanupMountPoint_avoids p : avoids f (CleanupMountPoint p).
Proof using Hf. unfold CleanupMountPoint, unmount_and_remove, remove_if_unmounted, PathExists. avoid. Qed.
#[local] Hint Resolve CleanupMountPoint_avoids : avoids.

Lemma JfsUnmount_avoids p : avoids f (JfsUnmount p).
Proof using Hf. unfold JfsUnmount. avoid. Qed.

Lemma ParseSetting_process yaml secrets volCtx s : ParseSetting yaml secrets volCtx false = inl s -> UsePod s = false.
Proof using. unfold ParseSetting. destruct secrets; [|by intros [= <-]]. repeat case_match; intros; by simplify_eq/=. Qed.

(** The mount with a client process, which the controller service uses. *)
Lemma JfsMount_process_avoids cfg lib fuel v t secrets c o : avoids f (JfsMount cfg lib fuel v t secrets c o false).
Proof using Hf.
  unfold JfsMount. apply avoids_bind; [by apply GetUniqueId_avoids|intros id].
  destruct (ParseSetting _ secrets c false) as [s|] eqn:Hs; [|done]. cbn [lift_sum mbind prog_bind prog_bind_go].
  apply avoids_bind; [by apply GetConsole_avoids|intros cs]. apply avoids_bind; [by apply prepare_avoids|intros src].
  apply avoids_bind; [|done]. unfold MountFs. change (UsePod (with_source src s)) with (UsePod s).
  rewrite (ParseSetting_process _ _ _ _ Hs). cbv beta iota. apply avoids_bind; [by apply avoids_call, Hf|intros _]. apply avoids_bind; [|done].
  apply avoids_wrap_err, process_JMount_avoids.
Qed.
End quiet.

#[export] Hint Resolve volume_avoids GetQuota_avoids CreateQuota_avoids DeleteQuota_avoids SetQos_avoids
  Exec_avoids createSnap_avoids quota_and_qos_avoids CreateVol_avoids process_JMount_avoids
  waitUtilMountReady_avoids first_mount_pod_avoids GetUniqueId_avoids GetConsole_avoids prepare_avoids
  CleanupMountPoint_avoids JfsUnmount_avoids JfsMount_process_avoids : avoids.
