(* ===== verification/ControllerService.v ===== *)
(** * The controller service

    [pkg/driver/controller.go]: the CSI calls that create, delete and expand
    volumes and snapshots.  Every one that works on an id holds the lock of
    that id ([util.ObjLocks]) for its whole duration and answers [Aborted]
    when it is taken; the sizes of the volumes it created are kept in the
    map [vols]. *)
From S2P Require Import Prelude GoStrings GoPath GoTime Json K8sTypes PatchText Prog Config K8sClient Util Console MountPod PodMount ProcessMount Juicefs.
From stdpp Require Import options.
#[local] Open Scope Z_scope.

#[local] Arguments exec : simpl never.

(** ** Requests and responses *)

Inductive AccessMode :=
| UNKNOWN | SINGLE_NODE_WRITER | SINGLE_NODE_READER_ONLY | MULTI_NODE_READER_ONLY
| MULTI_NODE_SINGLE_WRITER | MULTI_NODE_MULTI_WRITER.

#[global] Instance AccessMode_eq_dec : EqDecision AccessMode.
Proof. solve_decision. Defined.

(** The access mode, and the mount flags of a mount capability. *)
Record VolumeCapability := mkCap { cap_Mode : AccessMode; cap_MountFlags : option (list string) }.

Inductive VolumeContentSource := FromSnapshot (id : string) | FromVolume (id : string) | FromNothing.

Record CreateVolumeRequest := mkCVR {
  cv_Name : string;
  cv_Capabilities : option (list VolumeCapability);
  cv_RequiredBytes : Z;                 (* 0 without a capacity range *)
  cv_Parameters : gomap;
  cv_Secrets : gomap;
  cv_Source : option VolumeContentSource;
}.

Record CsiVolume := mkCsiVolume {
  v_VolumeId : string;
  v_CapacityBytes : Z;
  v_Context : gmap string string;
  v_ContentSource : option VolumeContentSource;
}.

Record Snapshot := mkSnapshot {
  sn_SnapshotId : string;
  sn_SourceVolumeId : string;
  sn_CreationTime : Z;
  sn_ReadyToUse : bool;
}.

Inductive ControllerCap := CREATE_DELETE_VOLUME | CREATE_DELETE_SNAPSHOT | CLONE_VOLUME | EXPAND_VOLUME.

Definition volumeCaps : list AccessMode := [SINGLE_NODE_WRITER; MULTI_NODE_MULTI_WRITER; MULTI_NODE_READER_ONLY].
Definition controllerCaps : list ControllerCap :=
  [CREATE_DELETE_VOLUME; CREATE_DELETE_SNAPSHOT; CLONE_VOLUME; EXPAND_VOLUME].

Definition isValidVolumeCapabilities (volCaps : list VolumeCapability) : bool :=
  fold_left (fun foundAll c =>
    if negb (existsb (fun m => bool_decide (m = cap_Mode c)) volumeCaps) then false else foundAll) volCaps true.

(** [if acquired := locks.TryAcquire(id); !acquired { return Aborted };
    defer locks.Release(id); ...]. *)
Definition with_id_lock {A} (fmt id : string) (p : prog A) : prog A :=
  acquired ← call (LocksTryAcquire id);
  if negb acquired then Throw (ErrStatus Aborted fmt [id] None)
  else defer (call (LocksRelease id)) p.

Section Controller.
Context (cfg : Config) (lib : Libs) (fuel : nat).

(** [status.Errorf(codes.Internal, fmt, args..., err)] around a call. *)
Definition internal {A} (fmt : string) (args : list string) (p : prog A) : prog A :=
  wrap_err (fun e => ErrStatus Internal fmt args (Some e)) p.

(** The mount every call of the controller works in. *)
Definition controller_mount (id : string) (secrets : gomap) : prog jfs :=
  internal "Could not mount juicefs: %v" [] (JfsMount cfg lib fuel id EmptyString secrets None [] false).

(** ** Volumes *)

(** The content of a new volume. *)
Definition create_content (fs : jfs) (req : CreateVolumeRequest) (qos : string) : prog unit :=
  let name := cv_Name req in
  let size := cv_RequiredBytes req in
  match cv_Source req with
  | None => internal "Could not create volume: %q, err: %v" [name] (CreateVol lib fs name name size qos) ≫= fun _ => mret tt
  | Some (FromSnapshot snapId) =>
      internal "Could not create volume: %q from snap %q, err: %v" [name; snapId]
        (CreateVolFromSnap lib fs name name snapId size qos) ≫= fun _ => mret tt
  | Some (FromVolume srcVolId) =>
      internal "Could not create volume: %q from volume %q, err: %v" [name; srcVolId]
        (CreateVolFromVol lib fs name name srcVolId size qos) ≫= fun _ => mret tt
  | Some FromNothing => mret tt
  end.

Definition CreateVolume (req : CreateVolumeRequest) : prog CsiVolume :=
  let name := cv_Name req in
  if (String.length name =? 0)%nat then Throw (ErrStatus InvalidArgument "Volume Name cannot be empty" [] None)
  else match cv_Capabilities req with
  | None => Throw (ErrStatus InvalidArgument "Volume Capabilities cannot be empty" [] None)
  | Some _ =>
      with_id_lock VolumeOperationAlreadyExistsFmt name (
        let requiredCap := cv_RequiredBytes req in
        capa ← call (VolsGet name);
        if match capa with Some capa => capa <? requiredCap | None => false end
        then Throw (ErrStatus AlreadyExists "Volume: %q, capacity bytes: %d" [name; itoa requiredCap] None)
        else
          call (VolsSet name requiredCap) ≫= fun _ =>
          let qos := ParseQosParams (cv_Parameters req) in
          fs ← controller_mount name (cv_Secrets req);
          create_content fs req qos ≫= fun _ =>
          internal "Could not unmount volume %q: %v" [name] (JfsUnmount (GetBasePath fs)) ≫= fun _ =>
          mret (mkCsiVolume name requiredCap (<["subPath" := name]> (gm (cv_Parameters req))) (cv_Source req)))
  end.

Definition DeleteVolume (volumeID : string) (secrets : gomap) : prog unit :=
  if (String.length volumeID =? 0)%nat then Throw (ErrStatus InvalidArgument "Volume ID not provided" [] None)
  else
    with_id_lock VolumeOperationAlreadyExistsFmt volumeID (
      fs ← controller_mount volumeID secrets;
      wrap_err (fun _ => ErrStatus Internal "Could not delete volume: %q" [volumeID] None) (DeleteVol lib fs volumeID) ≫= fun _ =>
      call (VolsDelete volumeID) ≫= fun _ =>
      internal "Could not unmount volume %q: %v" [volumeID] (JfsUnmount (GetBasePath fs))).

Definition ControllerGetCapabilities : list ControllerCap := controllerCaps.

Definition unimplemented {A} : prog A := Throw (ErrStatus Unimplemented EmptyString [] None).
Definition GetCapacity : prog unit := unimplemented.
Definition ListVolumes : prog unit := unimplemented.
Definition ListSnapshots : prog unit := unimplemented.
Definition ControllerPublishVolume : prog unit := unimplemented.
Definition ControllerUnpublishVolume : prog unit := unimplemented.

(** The confirmed capabilities, if they are all supported. *)
Definition ValidateVolumeCapabilities (volumeID : string) (volCaps : list VolumeCapability) : prog (option (list VolumeCapability)) :=
  if (String.length volumeID =? 0)%nat then Throw (ErrStatus InvalidArgument "Volume ID not provided" [] None)
  else if (length volCaps =? 0)%nat then Throw (ErrStatus InvalidArgument "Volume capabilities not provided" [] None)
  else
    v ← call (VolsGet volumeID);
    match v with
    | None => Throw (ErrStatus NotFound "Could not get volume by ID %q" [volumeID] None)
    | Some _ => mret (if isValidVolumeCapabilities volCaps then Some volCaps else None)
    end.

(** ** Snapshots *)

(** [ptypes.TimestampNow().GetSeconds()]. *)
Definition now_seconds : prog Z := t ← call TimeNow; mret (t / nanos).

Definition CreateSnapshot (volumeID name : string) (secrets : gomap) : prog Snapshot :=
  if (String.length volumeID =? 0)%nat then Throw (ErrStatus InvalidArgument "Volume ID not provided" [] None)
  else
    with_id_lock SnapshotOperationAlreadyExistsFmt name (
      fs ← controller_mount volumeID secrets;
      snapdirname ← wrap_err (fun _ => ErrStatus Internal "Could not CreateSnap volume: %q" [volumeID] None)
                      (CreateSnap fs volumeID name);
      internal "Could not unmount volume %q: %v" [volumeID] (JfsUnmount (GetBasePath fs)) ≫= fun _ =>
      createdAt ← now_seconds;
      mret (mkSnapshot snapdirname volumeID createdAt true)).

Definition DeleteSnapshot (snapID : string) (secrets : gomap) : prog unit :=
  if (String.length snapID =? 0)%nat then Throw (ErrStatus InvalidArgument "snapID ID not provided" [] None)
  else
    with_id_lock SnapshotOperationAlreadyExistsFmt snapID (
      fs ← controller_mount snapID secrets;
      wrap_err (fun _ => ErrStatus Internal "Could not delete snapshot: %q" [snapID] None) (DeleteSnap fs snapID) ≫= fun _ =>
      internal "Could not unmount snap %q: %v" [snapID] (JfsUnmount (GetBasePath fs))).

(** ** Expansion *)

Definition ControllerExpandVolume (volumeID : string) (capRange : option Z) (secrets : gomap) : prog (Z * bool) :=
  if String.eqb volumeID EmptyString then Throw (ErrStatus InvalidArgument "volume ID cannot be empty" [] None)
  else match capRange with
  | None => Throw (ErrStatus InvalidArgument "capacityRange cannot be empty" [] None)
  | Some requiredBytes =>
      with_id_lock VolumeOperationAlreadyExistsFmt volumeID (
        setting ← lift_sum (ParseSetting (yaml_map lib) secrets None false);
        console ← GetConsole lib setting secrets;
        quota ← GetQuota lib console (js_Name setting) ("/" +:+ volumeID);
        (match quota with
         | None => CreateQuota lib console (js_Name setting) ("/" +:+ volumeID) 0 requiredBytes
         | Some q => UpdateQuota lib console (mkQuota (q_Id q) (q_Volid q) (q_Path q) requiredBytes (q_Inode q))
         end) ≫= fun _ =>
        mret (requiredBytes, false))
  end.
End Controller.

(** ** The lock of an id *)

Lemma exec_with_id_lock {A} fmt id (p : prog A) tr r :
  exec (with_id_lock fmt id p) tr r ->
  (tr = [LocksTryAcquire id ▷ false] /\ r = Err (ErrStatus Aborted fmt [id] None)) \/
  (exists body, tr = (LocksTryAcquire id ▷ true) :: body ++ [LocksRelease id ▷ tt] /\ exec p body r /\ r <> NoFuel) \/
  (exists body, tr = (LocksTryAcquire id ▷ true) :: body /\ exec p body NoFuel /\ r = NoFuel).
Proof.
  unfold with_id_lock. intros H. apply exec_call_inv in H as ([] & t & -> & _ & H); cbn [negb] in H.
  - right. apply exec_defer in H as [(r0 & t1 & t2 & -> & H1 & Hr0 & [[H2 ->]|(rd & H2 & Hrd & ->)])|[H ->]].
    + left. apply exec_call in H2 as ([] & -> & _ & _). eauto.
    + apply exec_call in H2 as ([] & -> & _ & ->). done.
    + right. eauto.
  - left. by destruct H as [-> ->].
Qed.

(** C23 [CreateVolume] answers with a volume only after, under the lock of its
    name and with a recorded size that is not smaller, it mounted the file
    system, made the content (directory, snapshot copy or clone) and unmounted
    it again; the answer carries the name, the size and the parameters of the
    request with the directory added. *)
Theorem CreateVolume_ok cfg lib fuel req tr v :
  exec (CreateVolume cfg lib fuel req) tr (Ok v) ->
  v = mkCsiVolume (cv_Name req) (cv_RequiredBytes req)
        (<["subPath" := cv_Name req]> (gm (cv_Parameters req))) (cv_Source req) /\
  cv_Name req <> EmptyString /\
  exists capa mount content unmount fs,
    tr = (LocksTryAcquire (cv_Name req) ▷ true) :: (VolsGet (cv_Name req) ▷ capa) ::
         (VolsSet (cv_Name req) (cv_RequiredBytes req) ▷ tt) ::
         mount ++ content ++ unmount ++ [LocksRelease (cv_Name req) ▷ tt] /\
    (forall c, capa = Some c -> cv_RequiredBytes req <= c) /\
    exec (JfsMount cfg lib fuel (cv_Name req) EmptyString (cv_Secrets req) None [] false) mount (Ok fs) /\
    exec (create_content lib fs req (ParseQosParams (cv_Parameters req))) content (Ok tt) /\
    exec (JfsUnmount (MountPath fs)) unmount (Ok tt).
Proof.
  unfold CreateVolume. intros H.
  destruct (Nat.eqb_spec (String.length (cv_Name req)) 0) as [|Hne]; [by destruct H|].
  destruct (cv_Capabilities req); [|by destruct H].
  apply exec_with_id_lock in H as [[_ [=]]|[(body & -> & H & _)|(body & _ & _ & [=])]].
  apply exec_call_inv in H as (capa & t & -> & _ & H). cbv beta iota in H.
  destruct (match capa with Some _ => _ | None => _ end) eqn:Hc; [by destruct H|].
  apply exec_call_inv in H as ([] & t' & -> & _ & H).
  apply exec_bind in H as [(fs & t1 & t2 & -> & H1 & H)|(r0 & H1 & Hn & Hr)]; [|by destruct r0].
  apply exec_bind_unit in H as [(t3 & t4 & -> & H2 & H)|(r0 & H2 & Hn & Hr)]; [|by destruct r0].
  apply exec_bind_unit in H as [(t5 & t6 & -> & H3 & H)|(r0 & H3 & Hn & Hr)]; [|by destruct r0].
  destruct H as [-> [= ->]]. split_and!; [done|by intros Hnil; rewrite Hnil in Hne|].
  apply exec_wrap_err in H1 as (r1 & H1 & Hr1). destruct r1; simplify_eq/=.
  apply exec_wrap_err in H3 as (r3 & H3 & Hr3). destruct r3 as [[]| | |]; simplify_eq/=.
  eexists capa, t1, t3, t5, _. split_and!; [list_app| |exact H1|exact H2|exact H3].
  intros c ->. apply Z.ltb_ge in Hc. done.
Qed.

(** A second creation of a volume with a larger size fails with
    [AlreadyExists] before anything is mounted or recorded, and the lock of
    the name is free again. *)
Theorem CreateVolume_larger cfg lib fuel req capa rest r :
  cv_Name req <> EmptyString -> cv_Capabilities req <> None -> capa < cv_RequiredBytes req ->
  exec (CreateVolume cfg lib fuel req)
    ((LocksTryAcquire (cv_Name req) ▷ true) :: (VolsGet (cv_Name req) ▷ Some capa) :: rest) r ->
  rest = [LocksRelease (cv_Name req) ▷ tt] /\
  r = Err (ErrStatus AlreadyExists "Volume: %q, capacity bytes: %d" [cv_Name req; itoa (cv_RequiredBytes req)] None).
Proof.
  intros Hn Hcap Hlt H. unfold CreateVolume in H.
  destruct (Nat.eqb_spec (String.length (cv_Name req)) 0) as [Hz|_]; [by destruct (cv_Name req)|].
  destruct (cv_Capabilities req); [|done].
  apply (exec_call_step (LocksTryAcquire _) _ true) in H. cbn [negb] in H.
  match type of H with exec (defer _ ?b) _ _ => set (body := b) in H end.
  assert (forall t rr, exec body ((VolsGet (cv_Name req) ▷ Some capa) :: t) rr -> t = [] /\
    rr = Err (ErrStatus AlreadyExists "Volume: %q, capacity bytes: %d" [cv_Name req; itoa (cv_RequiredBytes req)] None)) as Hb.
  { intros t rr Hx. apply (exec_call_step (VolsGet _) _ (Some capa)) in Hx. cbv beta iota in Hx.
    apply Z.ltb_lt in Hlt. by rewrite Hlt in Hx. }
  apply exec_defer in H as [(r0 & t1 & t2 & Heq & H1 & Hr0 & [[H2 ->]|(rd & H2 & Hrd & ->)])|[H ->]].
  - destruct t1 as [|e t1]; [by apply exec_call_inv in H1 as (? & ? & [=] & _)|].
    simpl in Heq. injection Heq as <- ->. apply Hb in H1 as [-> ->].
    by apply exec_call in H2 as ([] & -> & _ & _).
  - by apply exec_call in H2 as ([] & _ & _ & ->).
  - by apply Hb in H as [_ [=]].
Qed.

(** C24 An expansion is reported done only if, under the lock of the volume,
    the last request to the console carried the path of the volume and the
    required size, as a new quota or as an update of the one it found, and was
    accepted; the answer is that size. *)
Theorem ControllerExpandVolume_ok lib volumeID capRange secrets tr c b :
  exec (ControllerExpandVolume lib volumeID capRange secrets) tr (Ok (c, b)) ->
  capRange = Some c /\ b = false /\
  exists pre method url fields st ans,
    tr = (LocksTryAcquire volumeID ▷ true) :: pre ++ [HttpDo method url (marshal (Jobj fields)) ▷ inl (st, ans, None);
                                                     LocksRelease volumeID ▷ tt] /\
    st < 400 /\ (method = "POST" \/ method = "PUT") /\
    ("path", Jstr ("/" +:+ volumeID)) ∈ fields /\ ("size", Jnum c) ∈ fields.
Proof.
  unfold ControllerExpandVolume. intros H. case_match; [by destruct H|].
  destruct capRange as [required|]; [|by destruct H].
  apply exec_with_id_lock in H as [[_ [=]]|[(body & -> & H & _)|(body & _ & _ & [=])]].
  apply exec_bind in H as [(setting & t1 & t2 & -> & H1 & H)|(r0 & H1 & Hn & Hr)]; [|by destruct r0].
  apply exec_bind in H as [(console & t3 & t4 & -> & H2 & H)|(r0 & H2 & Hn & Hr)]; [|by destruct r0].
  apply exec_bind in H as [(quota & t5 & t6 & -> & H3 & H)|(r0 & H3 & Hn & Hr)]; [|by destruct r0].
  apply exec_bind_unit in H as [(t7 & t8 & -> & H4 & H)|(r0 & H4 & Hn & Hr)]; [|by destruct r0].
  destruct H as [-> [= -> ->]]. split_and!; [done..|]. destruct quota as [q|].
  - assert (q_Path q = "/" +:+ volumeID) as Hq.
    { apply exec_GetQuota_ok in H3 as (? & ? & ? & ? & ? & ? & ? & _ & _ & _ & _ & _ & Hq & _). done. }
    unfold UpdateQuota in H4.
    apply exec_bind in H4 as [(a & t9 & t10 & -> & H4 & [-> _])|(r0 & H4 & Hn & Hr)]; [|by destruct r0].
    apply exec_request_unchecked_ok in H4 as (st & -> & Hst).
    eexists (t1 ++ t3 ++ t5), _, _, _, st, _. split_and!; [list_app|done|by right|rewrite Hq; set_solver|set_solver].
  - apply exec_CreateQuota_ok in H4 as (? & ? & ? & ? & st' & ? & -> & _ & _ & _ & Hst).
    eexists (t1 ++ t3 ++ t5 ++ [_]), _, _, _, st', _. split_and!; [list_app|done|by left|set_solver..].
Qed.

(** A list of capabilities is valid exactly when every access mode in it
    is one of the three supported ones. *)
Theorem isValidVolumeCapabilities_spec volCaps :
  isValidVolumeCapabilities volCaps = true <->
  Forall (fun c => cap_Mode c = SINGLE_NODE_WRITER \/ cap_Mode c = MULTI_NODE_MULTI_WRITER \/
                   cap_Mode c = MULTI_NODE_READER_ONLY) volCaps.
Proof.
  unfold isValidVolumeCapabilities.
  assert (forall l b, fold_left (fun foundAll c =>
    if negb (existsb (fun m => bool_decide (m = cap_Mode c)) volumeCaps) then false else foundAll) l b = true <->
    b = true /\ Forall (fun c => cap_Mode c = SINGLE_NODE_WRITER \/ cap_Mode c = MULTI_NODE_MULTI_WRITER \/
                   cap_Mode c = MULTI_NODE_READER_ONLY) l) as Hgen; [|rewrite Hgen; naive_solver].
  induction l as [|c l IH]; intros b; simpl.
  - rewrite Forall_nil. naive_solver.
  - rewrite IH, Forall_cons. destruct (cap_Mode c); simpl; naive_solver.
Qed.
