(* ===== verification/Driver.v ===== *)
(** * The driver

    [pkg/driver]: the driver value and its gRPC server ([driver.go]), the
    identity service ([identity.go]), the version ([version.go]), the
    constructors of the two services ([controller.go], [node.go]) and of the
    file system provider ([pkg/juicefs/juicefs.go]), and [ParseEndpoint] of
    [pkg/util/util.go]. *)
From S2P Require Import Prelude GoStrings GoPath GoTime Json K8sTypes PatchText Prog Config K8sClient Util Kubelet.
From S2P Require Import Console Juicefs ControllerService.
From stdpp Require Import options.
#[local] Open Scope Z_scope.

#[local] Arguments exec : simpl never.

(** ** The endpoint *)

Record URL := mkURL { u_Scheme : string; u_Host : string; u_Path : string }.

(** [strings.ToLower] of ASCII text, as the scheme of a parsed URL is. *)
Definition lower (c : ascii) : ascii :=
  if (65 <=? Ascii.nat_of_ascii c)%nat && (Ascii.nat_of_ascii c <=? 90)%nat
  then Ascii.ascii_of_nat (Ascii.nat_of_ascii c + 32) else c.
Fixpoint ToLower (s : string) : string :=
  match s with EmptyString => EmptyString | String c s => String (lower c) (ToLower s) end.

Section Endpoint.
(** [url.Parse]. *)
Context (url_Parse : string -> URL + error).

(** On Linux [filepath.FromSlash] changes nothing. *)
Definition ParseEndpoint (endpoint : string) : prog (string * string) :=
  match url_Parse endpoint with
  | inr e => Throw (ErrFmt "could not parse endpoint: %v" [] (Some e))
  | inl u =>
      let addr := PathJoin [u_Host u; u_Path u] in
      let scheme := ToLower (u_Scheme u) in
      if String.eqb scheme "tcp" then mret (scheme, addr)
      else if String.eqb scheme "unix" then
        let addr := PathJoin ["/"; addr] in
        err ← call (OsRemove addr);
        match err with
        | Some e =>
            if negb (IsNotExist e)
            then Throw (ErrFmt "could not remove unix domain socket %q: %v" [addr] (Some e))
            else mret (scheme, addr)
        | None => mret (scheme, addr)
        end
      else Throw (ErrFmt "unsupported protocol: %s" [scheme] None)
  end.
End Endpoint.

(** ** The version *)

(** The variables the linker sets, and what the runtime knows of itself. *)
Record Build := mkBuild {
  driverVersion : string;
  gitCommit : string;
  buildDate : string;
  runtime_Version : string;
  runtime_Compiler : string;
  GOOS : string;
  GOARCH : string;
}.

Record VersionInfo := mkVersionInfo {
  DriverVersion : string;
  GitCommit : string;
  BuildDate : string;
  GoVersion : string;
  Compiler : string;
  Platform : string;
}.

Definition GetVersion (b : Build) : VersionInfo :=
  mkVersionInfo (driverVersion b) (gitCommit b) (buildDate b) (runtime_Version b) (runtime_Compiler b)
                (GOOS b +:+ "/" +:+ GOARCH b).

Definition version_json (v : VersionInfo) : json :=
  Jobj [("driverVersion", Jstr (DriverVersion v)); ("gitCommit", Jstr (GitCommit v));
        ("buildDate", Jstr (BuildDate v)); ("goVersion", Jstr (GoVersion v));
        ("compiler", Jstr (Compiler v)); ("platform", Jstr (Platform v))].

Definition GetVersionJSON (b : Build) : string := marshal_indent "  " (version_json (GetVersion b)).

(** ** The identity service *)

Definition DriverName : string := "csi-sandstone-mosfsplugin".

Record GetPluginInfoResponse := mkPluginInfo { gpi_Name : string; gpi_VendorVersion : string }.
Inductive PluginCapability := CONTROLLER_SERVICE | VOLUME_ACCESSIBILITY_CONSTRAINTS.

Definition GetPluginInfo (b : Build) : prog GetPluginInfoResponse := mret (mkPluginInfo DriverName (driverVersion b)).
Definition GetPluginCapabilities : prog (list PluginCapability) := mret [CONTROLLER_SERVICE].
Definition Probe : prog unit := mret tt.

(** ** The services *)

(** A provider holds a client of the API server (and the mounter). *)
Record juicefs := mkJuicefs { jf_K8sClient : k8sClient }.

Definition NewJfsProvider : prog juicefs := client ← NewClient; mret (mkJuicefs client).

(** The two services hold a provider by its interface, and pointers that a
    test may leave nil. *)
Record controllerService (Provider : Type) := mkControllerService {
  cs_juicefs : Provider;
  cs_vols : gmap string Z;
  cs_snapLocks : option ObjLocks;
}.
Arguments mkControllerService {Provider}.

Record nodeService (Provider : Type) := mkNodeService {
  ns_juicefs : Provider;
  ns_nodeID : string;
  ns_k8sClient : option k8sClient;
}.
Arguments mkNodeService {Provider}.

(** [if err != nil { panic(err) }]. *)
Definition must {A} (what : string) (p : prog A) : prog A :=
  r ← try p; match r with inl a => mret a | inr _ => Panic what end.

Definition newControllerService : prog (controllerService juicefs) :=
  jfs ← must "NewJfsProvider" NewJfsProvider;
  _ ← must "Version" Version;
  mret (mkControllerService jfs ∅ (Some NewObjLocks)).

Definition newNodeService (nodeID : string) : prog (nodeService juicefs) :=
  jfsProvider ← must "NewJfsProvider" NewJfsProvider;
  _ ← must "Version" Version;
  client ← NewClient;
  mret (mkNodeService jfsProvider nodeID (Some client)).

(** ** The driver and its server *)

Record Driver (Provider : Type) := mkDriver {
  d_controllerService : controllerService Provider;
  d_nodeService : nodeService Provider;
  d_endpoint : string;
}.
Arguments mkDriver {Provider}.
Arguments d_controllerService {Provider}.
Arguments d_nodeService {Provider}.
Arguments d_endpoint {Provider}.

(** [fakes.go]: the driver of the sanity tests.  It has no table of locks, so
    that the first call that asks for one dereferences nil. *)
Definition NewFakeDriver {Provider} (endpoint : string) (fakeProvider : Provider) : Driver Provider :=
  mkDriver (mkControllerService fakeProvider ∅ None) (mkNodeService fakeProvider "fake-node-id" None) endpoint.

Definition NewDriver (endpoint nodeID : string) : prog (Driver juicefs) :=
  cs ← newControllerService;
  ns ← newNodeService nodeID;
  mret (mkDriver cs ns endpoint).

(** [Run] answers when the server stops. *)
Definition Run {Provider} (url_Parse : string -> URL + error) (d : Driver Provider) : prog unit :=
  '(scheme, addr) ← ParseEndpoint url_Parse (d_endpoint d);
  l ← call (NetListen scheme addr);
  lift_err l ≫= fun _ =>
  s ← call Serve;
  lift_err s.

(** [srv]: whether [Run] has come to make the server; the library's [Stop]
    dereferences it. *)
Definition Stop (srv : bool) : prog unit :=
  if srv then call StopServer else Panic "nil pointer dereference".

(** ** Properties *)

(** The text of the version is read back. *)
Lemma GetVersionJSON_roundtrip b :
  valid_json (version_json (GetVersion b)) = true -> parse (GetVersionJSON b) = Some (version_json (GetVersion b)).
Proof. by apply parse_marshal_indent. Qed.

(** The server listens on the host and path of the endpoint: on TCP
    without touching the file system; on a Unix socket at an absolute path
    without relative parts, after the file there was removed or seen not to
    exist; on nothing else. *)
Theorem ParseEndpoint_ok url_Parse endpoint tr scheme addr :
  exec (ParseEndpoint url_Parse endpoint) tr (Ok (scheme, addr)) ->
  exists u, url_Parse endpoint = inl u /\ scheme = ToLower (u_Scheme u) /\
    (scheme = "tcp" /\ tr = [] /\ addr = PathJoin [u_Host u; u_Path u] \/
     scheme = "unix" /\ addr = PathJoin ["/"; PathJoin [u_Host u; u_Path u]] /\
     (exists l, Forall (fun e => plain e = true) l /\ addr = "/" +:+ Join l "/") /\
     exists x, tr = [OsRemove addr ▷ x] /\ (x = None \/ x = Some (ErrOs ENOENT))).
Proof.
  unfold ParseEndpoint. intros H. destruct (url_Parse endpoint) as [u|e]; [|by destruct H].
  exists u. split; [done|]. destruct (String.eqb_spec (ToLower (u_Scheme u)) "tcp") as [Ht|_].
  { destruct H as [-> [= -> ->]]. split; [done|]. by left. }
  destruct (String.eqb_spec (ToLower (u_Scheme u)) "unix") as [Hu|_]; [|by destruct H].
  apply exec_call_inv in H as (x & t & -> & _ & H).
  assert (t = [] /\ scheme = ToLower (u_Scheme u) /\ addr = PathJoin ["/"; PathJoin [u_Host u; u_Path u]] /\
          (x = None \/ x = Some (ErrOs ENOENT))) as (-> & -> & -> & Hx).
  { destruct x as [e|]; [destruct (IsNotExist e) eqn:He|]; cbn [negb] in H; destruct H as [-> [=]]; subst;
      split_and!; try done; [|by left]. right. destruct e as [|[]| | | |]; by try discriminate. }
  split; [done|]. right. split_and!; [done|done|apply PathJoin_root|by exists x].
Qed.
