(* ===== verification/Flags.v ===== *)
(** * The command lines

    [flag.Parse] of the standard library over the flags that
    [cmd/driver/main.go] and [Run] of [pkg/warmup/warmup.go] register.  The
    flags of the libraries (klog, zap, controller-runtime) are a parameter:
    whether a name is a boolean flag, and which texts it accepts. *)
From S2P Require Import Prelude GoStrings.
From stdpp Require Import options.

(** ** The package [flag] *)

(** [strconv.ParseBool]. *)
Definition ParseBool (s : string) : option bool :=
  if bool_decide (s ∈ ["1"; "t"; "T"; "true"; "TRUE"; "True"]) then Some true
  else if bool_decide (s ∈ ["0"; "f"; "F"; "false"; "FALSE"; "False"]) then Some false
  else None.

(** A registered flag: [IsBoolFlag], and what [Set] does to the variables. *)
Record Flag (V : Type) := mkFlag { IsBoolFlag : bool; Set_ : string -> V -> option V }.
Arguments mkFlag {V}.
Arguments IsBoolFlag {V}.
Arguments Set_ {V}.

(** What an argument is to [parseOne]. *)
Inductive word := NotFlag | Terminator | BadSyntax | FlagWord (name : string) (value : option string).

(** A name ends at the first ["="]. *)
Fixpoint cut_value (s : string) : string * option string :=
  match s with
  | EmptyString => (EmptyString, None)
  | String c t =>
      if Ascii.eqb c "="%char then (EmptyString, Some t)
      else let (n, v) := cut_value t in (String c n, v)
  end.

Definition flag_word (name : string) : word :=
  match name with
  | EmptyString => BadSyntax
  | String c _ =>
      if Ascii.eqb c "-"%char || Ascii.eqb c "="%char then BadSyntax
      else let (n, v) := cut_value name in FlagWord n v
  end.

Definition word_of (s : string) : word :=
  match s with
  | String d (String c t) =>
      if negb (Ascii.eqb d "-"%char) then NotFlag
      else if Ascii.eqb c "-"%char
           then if String.eqb t EmptyString then Terminator else flag_word t
           else flag_word (String c t)
  | _ => NotFlag
  end.

(** [ExitOnError]: the usage was asked for (status 0), or the arguments are
    wrong (status 2). *)
Inductive parsed (V : Type) := Parsed (vars : V) (args : list string) | Help | Failed.
Arguments Parsed {V}.
Arguments Help {V}.
Arguments Failed {V}.

Section flag_set.
Context {V : Type} (formal : string -> option (Flag V)).

Fixpoint Parse (args : list string) (vars : V) : parsed V :=
  match args with
  | [] => Parsed vars []
  | s :: rest =>
      match word_of s with
      | NotFlag => Parsed vars (s :: rest)
      | Terminator => Parsed vars rest
      | BadSyntax => Failed
      | FlagWord name value =>
          match formal name with
          | None => if String.eqb name "help" || String.eqb name "h" then Help else Failed
          | Some f =>
              if IsBoolFlag f then
                match Set_ f (default "true" value) vars with Some vars' => Parse rest vars' | None => Failed end
              else match value with
              | Some v => match Set_ f v vars with Some vars' => Parse rest vars' | None => Failed end
              | None =>
                  match rest with
                  | v :: rest' => match Set_ f v vars with Some vars' => Parse rest' vars' | None => Failed end
                  | [] => Failed
                  end
              end
          end
      end
  end.

(** ** Settings *)

(** A way to set a flag: [-name=value], [-name value] or [-name], each with
    one dash or two. *)
Inductive spelling := Joined | Apart | Bare.
Record setting := mkSetting { st_dashes : bool; st_spelling : spelling; st_name : string; st_text : string }.

Definition dashes (two : bool) : string := if two then "--" else "-".

Definition setting_args (s : setting) : list string :=
  match st_spelling s with
  | Joined => [dashes (st_dashes s) +:+ st_name s +:+ "=" +:+ st_text s]
  | Apart => [dashes (st_dashes s) +:+ st_name s; st_text s]
  | Bare => [dashes (st_dashes s) +:+ st_name s]
  end.

(** A name a setting can be written with. *)
Definition name_ok (name : string) : bool :=
  free_of "="%char name && match name with EmptyString => false | String c _ => negb (Ascii.eqb c "-"%char) end.

(** A boolean flag takes its text joined or goes without; another flag takes
    it in one of the other two ways. *)
Definition setting_ok (s : setting) : bool :=
  name_ok (st_name s)
  && match formal (st_name s) with
     | Some f => match st_spelling s with
                 | Joined => true
                 | Apart => negb (IsBoolFlag f)
                 | Bare => IsBoolFlag f && String.eqb (st_text s) "true"
                 end
     | None => false
     end.

Definition apply_setting (vars : option V) (s : setting) : option V :=
  vars ≫= fun vars => formal (st_name s) ≫= fun f => Set_ f (st_text s) vars.

(** Where the flags end. *)
Definition after_flags (tail rest : list string) : Prop :=
  tail = "--" :: rest \/ tail = rest /\ match rest with [] => True | s :: _ => word_of s = NotFlag end.
End flag_set.

(** ** The flags of the driver *)

(** The flags the libraries register: boolean or not, and the texts each
    accepts. *)
Definition LibFlags : Type := string -> option (bool * (string -> bool)).

Definition string_flag {V} (set : string -> V -> V) : Flag V := mkFlag false (fun s vars => Some (set s vars)).
Definition bool_flag {V} (set : bool -> V -> V) : Flag V :=
  mkFlag true (fun s vars => (fun b => set b vars) <$> ParseBool s).
Definition lib_flag {V} (f : bool * (string -> bool)) : Flag V :=
  mkFlag (fst f) (fun s vars => if snd f s then Some vars else None).

Record Flags := mkFlags { f_endpoint : string; f_version : bool; f_nodeID : string; f_enableManager : bool }.

Section command_lines.
Context (lib : LibFlags).

Definition default_flags : Flags := mkFlags "unix://tmp/csi.sock" false EmptyString false.

Definition driver_flags (name : string) : option (Flag Flags) :=
  if String.eqb name "endpoint" then
    Some (string_flag (fun s v => mkFlags s (f_version v) (f_nodeID v) (f_enableManager v)))
  else if String.eqb name "version" then
    Some (bool_flag (fun b v => mkFlags (f_endpoint v) b (f_nodeID v) (f_enableManager v)))
  else if String.eqb name "nodeid" then
    Some (string_flag (fun s v => mkFlags (f_endpoint v) (f_version v) s (f_enableManager v)))
  else if String.eqb name "enable-manager" then
    Some (bool_flag (fun b v => mkFlags (f_endpoint v) (f_version v) (f_nodeID v) b))
  else lib_flag <$> lib name.

Definition parse_flags (args : list string) : parsed Flags := Parse driver_flags args default_flags.

(** ** The flags of the warm-up controller *)

Record WarmupFlags := mkWarmupFlags { metricsAddr : string; probeAddr : string; enableLeaderElection : bool }.

Definition default_warmup_flags : WarmupFlags := mkWarmupFlags ":8080" ":8081" true.

Definition warmup_flags (name : string) : option (Flag WarmupFlags) :=
  if String.eqb name "metrics-bind-address" then
    Some (string_flag (fun s v => mkWarmupFlags s (probeAddr v) (enableLeaderElection v)))
  else if String.eqb name "health-probe-bind-address" then
    Some (string_flag (fun s v => mkWarmupFlags (metricsAddr v) s (enableLeaderElection v)))
  else if String.eqb name "leader-elect" then
    Some (bool_flag (fun b v => mkWarmupFlags (metricsAddr v) (probeAddr v) b))
  else lib_flag <$> lib name.

Definition parse_warmup_flags (args : list string) : parsed WarmupFlags :=
  Parse warmup_flags args default_warmup_flags.
End command_lines.

(** ** What is read *)

(** *** Words *)

Definition with_value (name : string) (value : option string) : string :=
  match value with Some v => name +:+ "=" +:+ v | None => name end.

Lemma cut_value_print n v : free_of "="%char n = true -> cut_value (with_value n v) = (n, v).
Proof.
  induction n as [|c n IH]; [by destruct v|]. simpl. rewrite andb_true_iff, negb_true_iff. intros [Hc Hf].
  destruct v; simpl in *; rewrite Hc, (IH Hf); done.
Qed.

Lemma cut_value_inv s n v : cut_value s = (n, v) -> free_of "="%char n = true /\ s = with_value n v.
Proof.
  revert n v. induction s as [|c s IH]; intros n v; simpl; [by intros [= <- <-]|].
  destruct (Ascii.eqb_spec c "="%char) as [->|Hc]; [by intros [= <- <-]|].
  destruct (cut_value s) as [n' v'] eqn:Hcut. intros [= <- <-]. destruct (IH _ _ eq_refl) as [Hf ->].
  simpl. destruct (Ascii.eqb_spec c "="%char); [done|]. by destruct v'.
Qed.

(** A word that sets a flag is its dashes, name and text. *)
Lemma word_of_print two name value :
  name_ok name = true -> word_of (dashes two +:+ with_value name value) = FlagWord name value.
Proof.
  intros Hn. pose proof (cut_value_print name value) as Hcut. unfold name_ok in Hn. apply andb_prop in Hn as [Hf Hc].
  specialize (Hcut Hf). destruct name as [|c name]; [done|]. apply negb_true_iff in Hc.
  assert (Ascii.eqb c "="%char = false) as He by (by simpl in Hf; apply andb_prop in Hf as [?%negb_true_iff _]).
  assert (with_value (String c name) value = String c (with_value name value)) as Hw by (by destruct value).
  rewrite Hw in *. destruct two; simpl; rewrite Hc; simpl; rewrite ?Hc, He; cbn [orb];
    change (let (n, v) := cut_value (with_value name value) in (String c n, v)) with
      (let (n, v) := cut_value (with_value name value) in (String c n, v));
    simpl in Hcut; rewrite He in Hcut; destruct (cut_value (with_value name value)) as [n v]; by simplify_eq.
Qed.

Lemma flag_word_inv s name value :
  flag_word s = FlagWord name value -> name_ok name = true /\ s = with_value name value.
Proof.
  unfold flag_word. destruct s as [|c s]; [done|].
  destruct (Ascii.eqb c "-"%char) eqn:Hd; [done|]. destruct (Ascii.eqb c "="%char) eqn:He; [done|]. cbn [orb].
  destruct (cut_value (String c s)) as [n v] eqn:Hcut. intros [= -> ->]. apply cut_value_inv in Hcut as [Hf Hs].
  split; [|done]. unfold name_ok. rewrite Hf. destruct name as [|c' name].
  - destruct value; [|done]. injection Hs as -> _. discriminate.
  - assert (c' = c) as -> by (by destruct value; injection Hs). by rewrite Hd.
Qed.

Lemma word_of_inv s name value :
  word_of s = FlagWord name value ->
  name_ok name = true /\ exists two, s = dashes two +:+ with_value name value.
Proof.
  unfold word_of. destruct s as [|d [|c t]]; [done..|]. destruct (Ascii.eqb_spec d "-"%char) as [->|]; [|done]. cbn [negb].
  destruct (Ascii.eqb_spec c "-"%char) as [->|].
  - destruct (String.eqb t EmptyString); [done|]. intros [Hn ->]%flag_word_inv. split; [done|]. by exists true.
  - intros [Hn ->]%flag_word_inv. split; [done|]. by exists false.
Qed.

Lemma word_of_terminator s : word_of s = Terminator <-> s = "--".
Proof.
  split; [|by intros ->]. unfold word_of. destruct s as [|d [|c t]]; [done..|].
  destruct (Ascii.eqb_spec d "-"%char) as [->|]; [|done]. cbn [negb]. unfold flag_word.
  destruct (Ascii.eqb_spec c "-"%char) as [->|].
  - destruct (String.eqb_spec t EmptyString) as [->|]; [done|]. destruct t; [done|]. case_match; [done|]. by destruct (cut_value _).
  - case_match; [done|]. by destruct (cut_value _).
Qed.

(** *** Lists of settings *)

Section settings.
Context {V : Type} (formal : string -> option (Flag V)).
Implicit Types (sets : list setting) (vars : V).

Lemma setting_ok_flag s :
  setting_ok formal s = true -> name_ok (st_name s) = true /\ exists f, formal (st_name s) = Some f.
Proof. unfold setting_ok. intros [Hn H]%andb_prop. split; [done|]. destruct (formal _) as [f|]; [by exists f|done]. Qed.

Lemma Parse_setting s rest vars :
  setting_ok formal s = true ->
  Parse formal (setting_args s ++ rest) vars =
    match apply_setting formal (Some vars) s with Some vars' => Parse formal rest vars' | None => Failed end.
Proof.
  intros H. destruct (setting_ok_flag _ H) as [Hn [f Hf]]. unfold setting_ok in H. rewrite Hn, Hf in H. cbn [andb] in H.
  pose proof (word_of_print (st_dashes s) (st_name s)) as Hw. unfold apply_setting. cbn [mbind option_bind]. rewrite Hf.
  destruct s as [two sp name text]. simpl in *. destruct sp; cbn [setting_args st_spelling app Parse]; simpl st_name; simpl st_text; simpl st_dashes.
  - change (dashes two +:+ name +:+ "=" +:+ text) with (dashes two +:+ with_value name (Some text)).
    rewrite (Hw _ Hn), Hf. cbn [default]. by destruct (IsBoolFlag f).
  - change (dashes two +:+ name) with (dashes two +:+ with_value name None). rewrite (Hw _ Hn), Hf.
    apply negb_true_iff in H as ->. done.
  - change (dashes two +:+ name) with (dashes two +:+ with_value name None). rewrite (Hw _ Hn), Hf.
    apply andb_prop in H as [-> ->%String.eqb_eq]. done.
Qed.

(** Settings in any of the spellings are applied in their order. *)
Lemma Parse_settings sets rest vars :
  forallb (setting_ok formal) sets = true ->
  Parse formal (concat (map setting_args sets) ++ rest) vars =
    match fold_left (apply_setting formal) sets (Some vars) with Some vars' => Parse formal rest vars' | None => Failed end.
Proof.
  revert vars. induction sets as [|s sets IH]; intros vars; cbn [forallb map concat fold_left]; [done|].
  intros [Hs Hss]%andb_prop. rewrite <-app_assoc, Parse_setting by done.
  destruct (apply_setting formal (Some vars) s) as [vars'|]; [by apply IH|].
  clear. induction sets as [|s' sets IH]; [done|]. exact IH.
Qed.

Lemma Parse_after tail rest vars : after_flags tail rest -> Parse formal tail vars = Parsed vars rest.
Proof.
  intros [->|[-> H]]; [done|]. destruct rest as [|s rest]; [done|]. cbn [Parse]. by rewrite H.
Qed.

(** One word, and what may follow it. *)
Lemma Parse_word s rest vars vars' rest' :
  Parse formal (s :: rest) vars = Parsed vars' rest' ->
  (after_flags (s :: rest) rest' /\ vars' = vars) \/
  exists st rest1 vars1, s :: rest = setting_args st ++ rest1 /\ setting_ok formal st = true /\
    apply_setting formal (Some vars) st = Some vars1 /\ Parse formal rest1 vars1 = Parsed vars' rest' /\
    (length rest1 < length (s :: rest))%nat.
Proof.
  cbn [Parse]. destruct (word_of s) as [| | |name value] eqn:Hw; [| |done|].
  - intros [= <- <-]. left. split; [|done]. by right.
  - apply word_of_terminator in Hw as ->. intros [= <- <-]. left. split; [|done]. by left.
  - apply word_of_inv in Hw as (Hn & two & ->). destruct (formal name) as [f|] eqn:Hf; [|by case_match].
    intros H. right. destruct (IsBoolFlag f) eqn:Hb.
    + destruct (Set_ f _ vars) as [vars1|] eqn:Hset; [|done].
      destruct value as [v|]; [exists (mkSetting two Joined name v)|exists (mkSetting two Bare name "true")]; exists rest, vars1;
        unfold setting_ok, apply_setting; simpl; rewrite Hn, Hf, ?Hb; (split_and!; [done..|simpl; lia]).
    + destruct value as [v|]; [|destruct rest as [|v rest]; [done|]];
        (destruct (Set_ f v vars) as [vars1|] eqn:Hset; [|done]);
        [exists (mkSetting two Joined name v), rest, vars1|exists (mkSetting two Apart name v), rest, vars1];
        unfold setting_ok, apply_setting; simpl; rewrite Hn, Hf, ?Hb; (split_and!; [done..|simpl; lia]).
Qed.

(** The arguments that are accepted are lists of settings, and what follows
    the flags. *)
Lemma Parse_inv args vars vars' rest :
  Parse formal args vars = Parsed vars' rest ->
  exists sets tail, args = concat (map setting_args sets) ++ tail /\ forallb (setting_ok formal) sets = true /\
    fold_left (apply_setting formal) sets (Some vars) = Some vars' /\ after_flags tail rest.
Proof.
  revert vars. induction args as [args IH] using (induction_ltof1 _ (@length string)). intros vars.
  destruct args as [|s args].
  - intros [= <- <-]. exists [], []. split_and!; [done..|]. by right.
  - intros [[Ha ->]|(st & rest1 & vars1 & Heq & Hok & Hset & H & Hlt)]%Parse_word.
    + by exists [], (s :: args).
    + destruct (IH rest1 Hlt vars1 H) as (sets & tail & -> & Hoks & Hfold & Ha). rewrite Heq. exists (st :: sets), tail.
      cbn [map concat forallb fold_left]. rewrite Hok, Hset, <-app_assoc. done.
Qed.

Lemma Parse_iff args vars vars' rest :
  Parse formal args vars = Parsed vars' rest <->
  exists sets tail, args = concat (map setting_args sets) ++ tail /\ forallb (setting_ok formal) sets = true /\
    fold_left (apply_setting formal) sets (Some vars) = Some vars' /\ after_flags tail rest.
Proof.
  split; [apply Parse_inv|]. intros (sets & tail & -> & Hok & Hf & Ha).
  rewrite Parse_settings, Hf by done. by apply Parse_after.
Qed.
End settings.

(** ** The driver *)

(** The last setting of a name. *)
Definition last_text (name : string) (sets : list setting) (d : string) : string :=
  fold_left (fun d s => if String.eqb (st_name s) name then st_text s else d) sets d.
Definition last_bool (name : string) (sets : list setting) (d : bool) : bool :=
  fold_left (fun d s => if String.eqb (st_name s) name then default d (ParseBool (st_text s)) else d) sets d.

Section driver.
Context (lib : LibFlags).

Definition setting_accepted (s : setting) : bool :=
  if bool_decide (st_name s ∈ ["endpoint"; "nodeid"]) then true
  else if bool_decide (st_name s ∈ ["version"; "enable-manager"]) then bool_decide (is_Some (ParseBool (st_text s)))
  else match lib (st_name s) with Some f => snd f (st_text s) | None => false end.

Definition flags_of (sets : list setting) (v : Flags) : Flags :=
  mkFlags (last_text "endpoint" sets (f_endpoint v)) (last_bool "version" sets (f_version v))
    (last_text "nodeid" sets (f_nodeID v)) (last_bool "enable-manager" sets (f_enableManager v)).

Lemma apply_driver_setting s v :
  apply_setting (driver_flags lib) (Some v) s = if setting_accepted s then Some (flags_of [s] v) else None.
Proof.
  unfold apply_setting, driver_flags, setting_accepted, flags_of, last_text, last_bool. cbn [fold_left mbind option_bind].
  destruct v as [e ver n m]. simpl.
  destruct (String.eqb_spec (st_name s) "endpoint") as [->|H1]; [done|].
  destruct (String.eqb_spec (st_name s) "version") as [->|H2]; [simpl; by destruct (ParseBool _)|].
  destruct (String.eqb_spec (st_name s) "nodeid") as [->|H3]; [done|].
  destruct (String.eqb_spec (st_name s) "enable-manager") as [->|H4]; [simpl; by destruct (ParseBool _)|].
  rewrite !bool_decide_eq_false_2 by set_solver. destruct (lib (st_name s)) as [f|]; [|done]. simpl. by destruct (snd f _).
Qed.

Lemma apply_driver_settings sets v :
  fold_left (apply_setting (driver_flags lib)) sets (Some v) =
    if forallb setting_accepted sets then Some (flags_of sets v) else None.
Proof.
  revert v. induction sets as [|s sets IH]; intros v; [by destruct v|]. cbn [fold_left forallb].
  rewrite apply_driver_setting. destruct (setting_accepted s); [by rewrite IH|]. clear. cbn [andb].
  induction sets as [|s' sets IH]; [done|]. exact IH.
Qed.
End driver.

(** C28 The command lines the driver accepts are those that spell a list of
    settings of known flags, [-name=text], [-name text] or [-name], with one
    dash or two, whose texts the flags accept, followed by nothing, by [--]
    or by a word that is no flag; each variable is then the last text its
    flag was set to, or its default. *)
Theorem parse_flags_iff lib args fl rest :
  parse_flags lib args = Parsed fl rest <->
  exists sets tail, args = concat (map setting_args sets) ++ tail /\ after_flags tail rest /\
    forallb (fun s => setting_ok (driver_flags lib) s && setting_accepted lib s) sets = true /\
    fl = mkFlags (last_text "endpoint" sets "unix://tmp/csi.sock") (last_bool "version" sets false)
           (last_text "nodeid" sets EmptyString) (last_bool "enable-manager" sets false).
Proof.
  unfold parse_flags. rewrite Parse_iff. split; intros (sets & tail & -> & H); exists sets, tail; split; try done.
  - destruct H as (Hok & Hf & Ha). rewrite apply_driver_settings in Hf. split; [done|].
    destruct (forallb (setting_accepted lib) sets) eqn:Hacc; [|done]. injection Hf as <-. split; [|done].
    apply forallb_forall. intros s Hs. rewrite forallb_forall in Hok, Hacc. by rewrite Hok, Hacc.
  - destruct H as (Ha & Hok & ->). rewrite apply_driver_settings.
    assert (forallb (setting_ok (driver_flags lib)) sets = true /\ forallb (setting_accepted lib) sets = true) as [H1 H2].
    { rewrite !forallb_forall in *. split; intros s Hs; by apply Hok, andb_prop in Hs as [? ?]. }
    by rewrite H1, H2.
Qed.
