(* ===== verification/Startup.v ===== *)
(** * The commands

    The process of the driver ([cmd/driver/main.go]): [init] parses the flags
    and fills the variables of package config, [main] starts the reconciler,
    by polling the kubelet or by watching the API server ([StartReconciler] of
    [pkg/controller/reconciler.go], [cmd/app/pod_manager.go],
    [SetupWithManager] of [pkg/controller/pod_controller.go]), and the server;
    and the process of the warm-up controller ([pkg/warmup/warmup.go]). *)
From S2P Require Import Prelude GoStrings GoPath GoTime Json K8sTypes PatchText Prog Config K8sClient Util Kubelet.
From S2P Require Import Console Juicefs ControllerService Driver Flags.
From stdpp Require Import options.
#[local] Open Scope Z_scope.

#[local] Arguments exec : simpl never.

(** ** Processes *)

(** A part of a process: it goes on with a value, or the process exits with
    a status. *)
Inductive flow (A : Type) := Continue (a : A) | Exit (status : Z).
Arguments Continue {A} a.
Arguments Exit {A} status.

Definition and_then {A B} (p : prog (flow A)) (f : A -> prog (flow B)) : prog (flow B) :=
  r ← p; match r with Continue a => f a | Exit n => mret (Exit n) end.

(** [if err != nil { exit(n) }]. *)
Definition or_exit {A} (n : Z) (p : prog A) : prog (flow A) :=
  r ← try p; match r with inl a => mret (Continue a) | inr _ => mret (Exit n) end.

(** [flag.Parse] exits with the usage or an error. *)
Definition or_usage {V} (p : parsed V) : prog (flow V) :=
  match p with
  | Parsed vars _ => mret (Continue vars)
  | Help => mret (Exit 0)
  | Failed => mret (Exit 2)
  end.

(** [klog.Fatalln]. *)
Definition fatal : Z := 255.

(** ** Variables of the driver *)

Definition defaultReconcileTimeout : Z := 5 * 60 * 1000000000.

Record Vars := mkVars {
  v_Config : Config;
  v_PodName : string;
  v_HostIp : string;
  v_KubeletPort : string;
  v_ReconcileTimeout : Z;
}.

(** What [MOSFS_RECONCILE_TIMEOUT] makes of the default; a text that is no
    duration counts as zero. *)
Definition reconcile_timeout (timeout : string) : Z :=
  if negb (String.eqb timeout EmptyString) then
    let duration := default 0 (ParseDuration timeout) in
    if defaultReconcileTimeout <? duration then duration else defaultReconcileTimeout
  else defaultReconcileTimeout.

(** [init] once the flags are parsed. *)
Definition init_vars : prog (flow Vars) :=
  NodeName ← Getenv "NODE_NAME";
  Namespace ← Getenv "MOSFS_MOUNT_NAMESPACE";
  PodName ← Getenv "POD_NAME";
  MountPointPath ← Getenv "MOSFS_MOUNT_PATH";
  JFSConfigPath ← Getenv "MOSFS_CONFIG_PATH";
  HostIp ← Getenv "HOST_IP";
  KubeletPort ← Getenv "KUBELET_PORT";
  timeout ← Getenv "MOSFS_RECONCILE_TIMEOUT";
  if String.eqb PodName EmptyString || String.eqb Namespace EmptyString then mret (Exit fatal)
  else
    and_then (or_exit 0 NewClient) (fun _ =>
    and_then (or_exit 0 (GetPod PodName Namespace)) (fun pod =>
    match List.find (fun c => String.eqb (cn_Name c) "mosfs-plugin") (Containers (Spec pod)) with
    | Some c => mret (Continue (mkVars (mkConfig NodeName Namespace (cn_Image c) MountPointPath JFSConfigPath)
                                  PodName HostIp KubeletPort (reconcile_timeout timeout)))
    | None => mret (Exit 0)
    end)).

Definition init (lib_flags : LibFlags) (args : list string) : prog (flow (Flags * Vars)) :=
  and_then (or_usage (parse_flags lib_flags args)) (fun flags =>
  and_then init_vars (fun v => mret (Continue (flags, v)))).

(** ** The reconciler *)

Section Reconciler.
Context (unmarshal_pods : string -> option (list Pod) + error).

Definition StartReconciler (v : Vars) : prog unit :=
  match Atoi (v_KubeletPort v) with
  | None => Throw (ErrFmt "strconv.Atoi: parsing %q: invalid syntax" [v_KubeletPort v] None)
  | Some port =>
      kc ← NewKubeletClient (v_HostIp v) port;
      _ ← GetNodeRunningPods unmarshal_pods kc;
      k8sClient ← NewClient;
      call (GoReconcile k8sClient kc)
  end.
End Reconciler.

(** The manager's cache holds the pods of the driver. *)
Definition manager_options : ManagerOptions :=
  mkManagerOptions 9442 "0.0.0.0:8082" EmptyString false "pod.juicefs.com" (Some [(PodTypeKey, PodTypeValue)]).

Record PodManager := mkPodManager { pm_client : k8sClient }.
Record PodController := mkPodController { pc_client : k8sClient }.

Definition NewPodManager : prog PodManager :=
  c ← call GetConfig;
  lift_err c ≫= fun _ =>
  m ← call (NewManager manager_options);
  lift_err m ≫= fun _ =>
  k8sClient ← NewClient;
  mret (mkPodManager k8sClient).

Definition NewPodController (client : k8sClient) : PodController := mkPodController client.

Definition SetupWithManager (m : PodController) : prog unit :=
  c ← call (NewController "mount");
  lift_err c ≫= fun _ =>
  w ← call (Watch "Pod");
  lift_err w.

Definition Start (m : PodManager) : prog unit :=
  SetupWithManager (NewPodController (pm_client m)) ≫= fun _ =>
  s ← call StartManager;
  lift_err s.

(** The goroutine that watches the API server. *)
Definition run_manager : prog (flow unit) :=
  and_then (or_exit fatal NewPodManager) (fun mgr => or_exit fatal (Start mgr)).

(** ** The process *)

Section Main.
Context (lib_flags : LibFlags) (build : Build) (url_Parse : string -> URL + error).
Context (unmarshal_pods : string -> option (list Pod) + error).

Definition start_reconciler (v : Vars) : prog unit :=
  needStartPodManager ←
    (if negb (String.eqb (v_KubeletPort v) EmptyString) && negb (String.eqb (v_HostIp v) EmptyString) then
       r ← try (StartReconciler unmarshal_pods v);
       match r with inl _ => mret false | inr _ => mret true end
     else mret true);
  if needStartPodManager : bool then call GoManager else mret tt.

Definition main (flags : Flags) (v : Vars) : prog (flow unit) :=
  if f_version flags then call (Println (GetVersionJSON build)) ≫= fun _ => mret (Exit 0)
  else if String.eqb (f_nodeID flags) EmptyString then mret (Exit fatal)
  else
    (if f_enableManager flags then start_reconciler v else mret tt) ≫= fun _ =>
    and_then (or_exit fatal (NewDriver (f_endpoint flags) (f_nodeID flags))) (fun drv =>
    or_exit fatal (Run url_Parse drv)).

(** The runtime runs [init] first. *)
Definition process (args : list string) : prog (flow unit) :=
  and_then (init lib_flags args) (fun '(flags, v) => main flags v).
End Main.

(** ** The warm-up controller's process *)

Definition initClientGo : prog unit :=
  c ← call InClusterConfig;
  match c with
  | None => mret tt
  | Some _ =>
      d ← call UserHomeDir;
      dirname ← lift_sum d;
      c ← call (BuildConfigFromFlags (PathJoin [dirname; ".kube"; "config"]));
      lift_err c
  end ≫= fun _ =>
  n ← call NewForConfig;
  match n with Some e => Throw (ErrFmt "new k8s clientset error:%s" [] (Some e)) | None => mret tt end.

Definition check (o : op) (answer : resp o -> option error) : prog unit := x ← call o; lift_err (answer x).

(** [SetupWithManager] of the warm-up controller. *)
Definition CacheReconciler_SetupWithManager : prog unit := check (NewController "Cache") id.

(** [Run]. *)
Definition warmup_Run (lib_flags : LibFlags) (args : list string) : prog (flow unit) :=
  and_then (or_usage (parse_warmup_flags lib_flags args)) (fun flags =>
  let options := mkManagerOptions 9443 (metricsAddr flags) (probeAddr flags) (enableLeaderElection flags)
                   "db069dfd.sandstone.com" None in
  and_then (or_exit 1 (check GetConfig id)) (fun _ =>
  and_then (or_exit 1 (check (NewManager options) id)) (fun _ =>
  and_then (or_exit 1 initClientGo) (fun _ =>
  and_then (or_exit 1 CacheReconciler_SetupWithManager) (fun _ =>
  and_then (or_exit 1 (check (AddHealthzCheck "healthz") id)) (fun _ =>
  and_then (or_exit 1 (check (AddReadyzCheck "readyz") id)) (fun _ =>
  or_exit 1 (check StartManager id)))))))).

(** ** Properties *)

(** *** Rules *)

Lemma exec_and_then {A B} (p : prog (flow A)) (f : A -> prog (flow B)) tr r :
  exec (and_then p f) tr r ->
  (exists a t1 t2, tr = t1 ++ t2 /\ exec p t1 (Ok (Continue a)) /\ exec (f a) t2 r) \/
  (exists n, exec p tr (Ok (Exit n)) /\ r = Ok (Exit n)) \/
  (exists r0, exec p tr r0 /\ is_ok r0 = false /\ r = fail_as r0).
Proof.
  intros H. apply exec_bind in H as [([a|n] & t1 & t2 & -> & H1 & H)|(r0 & H1 & Hn & ->)].
  - left. by exists a, t1, t2.
  - right; left. destruct H as [-> ->]. exists n. by rewrite app_nil_r.
  - right; right. by exists r0.
Qed.

Lemma exec_or_exit {A} n (p : prog A) tr r :
  exec (or_exit n p) tr r ->
  exists r0, exec p tr r0 /\
    r = match r0 with Ok a => Ok (Continue a) | Err _ => Ok (Exit n) | Panicked w => Panicked w | NoFuel => NoFuel end.
Proof.
  intros H. apply exec_bind in H as [(x & t1 & t2 & -> & H1 & H)|(r1 & H1 & Hn & ->)]; apply exec_try in H1 as (r0 & H1 & Hr).
  - exists r0. destruct x as [a|e]; destruct H as [-> ->]; destruct r0; simplify_eq; by rewrite app_nil_r.
  - exists r0. by destruct r0; simplify_eq/=.
Qed.

Lemma avoids_and_then {A B} f (p : prog (flow A)) (g : A -> prog (flow B)) :
  avoids f p -> (forall a, avoids f (g a)) -> avoids f (and_then p g).
Proof. intros Hp Hg. apply avoids_bind; [done|]. intros [a|n]; [apply Hg|done]. Qed.

Lemma avoids_or_exit {A} f n (p : prog A) : avoids f p -> avoids f (or_exit n p).
Proof. intros Hp. apply avoids_bind; [by apply avoids_try|]. by intros [a|e]. Qed.

Lemma avoids_must {A} f what (p : prog A) : avoids f p -> avoids f (must what p).
Proof. intros Hp. apply avoids_bind; [by apply avoids_try|]. by intros [a|e]. Qed.

(** *** Calls of the start-up *)

Definition is_go (o : op) : bool := match o with GoReconcile _ _ | GoManager => true | _ => false end.
Definition is_serve (o : op) : bool := match o with Serve => true | _ => false end.
Definition is_println (o : op) : bool := match o with Println _ => true | _ => false end.

(** What only [main] does. *)
Definition is_main (o : op) : bool := is_go o || is_serve o || is_println o.

Lemma is_main_go f : (forall o, f o = true -> is_main o = true) ->
  forall A (p : prog A), avoids is_main p -> avoids f p.
Proof.
  intros Hf A p. induction p as [a|e|w| |o k IH]; intros Hp; [done..|]. destruct Hp as [Ho Hk]. split; [|auto].
  destruct (f o) eqn:E; [|done]. apply Hf in E. congruence.
Qed.

Lemma NewClient_avoids : avoids is_main NewClient.
Proof. unfold NewClient, Getenv. avoid. Qed.
#[local] Hint Resolve NewClient_avoids : avoids.

Lemma NewDriver_avoids endpoint nodeID : avoids is_main (NewDriver endpoint nodeID).
Proof.
  unfold NewDriver, newControllerService, newNodeService, NewJfsProvider, Version.
  repeat (apply avoids_bind || apply avoids_must || intros ?); avoid.
Qed.

Lemma ParseEndpoint_avoids url_Parse endpoint : avoids is_main (ParseEndpoint url_Parse endpoint).
Proof. unfold ParseEndpoint. avoid. Qed.

Lemma NewKubeletClient_avoids host port : avoids is_main (NewKubeletClient host port).
Proof. unfold NewKubeletClient, makeTransport, Getenv. avoid. Qed.

Lemma GetNodeRunningPods_avoids um kc : avoids is_main (GetNodeRunningPods um kc).
Proof. unfold GetNodeRunningPods. avoid. Qed.
#[local] Hint Resolve NewDriver_avoids ParseEndpoint_avoids NewKubeletClient_avoids GetNodeRunningPods_avoids : avoids.

Lemma init_avoids lib args : avoids is_main (init lib args).
Proof.
  unfold init, init_vars, Getenv, GetPod. apply avoids_and_then; [by destruct (parse_flags lib args)|intros fl].
  apply avoids_and_then; [|done].
  repeat first [apply avoids_and_then | apply avoids_or_exit | progress avoid].
Qed.

(** *** The variables *)

Lemma reconcile_timeout_min t : defaultReconcileTimeout <= reconcile_timeout t.
Proof. unfold reconcile_timeout. destruct (negb _); [|lia]. case_match; [|lia]. apply Z.ltb_lt in H. lia. Qed.

(** [init] stops at the command line, or goes on to the variables. *)
Lemma exec_init lib args tr r :
  exec (init lib args) tr r ->
  ((forall fl rest, parse_flags lib args <> Parsed fl rest) /\ tr = [] /\ exists n, r = Ok (Exit n)) \/
  exists fl rest, parse_flags lib args = Parsed fl rest /\
    ((exists v, exec init_vars tr (Ok (Continue v)) /\ r = Ok (Continue (fl, v))) \/
     (exists r0, exec init_vars tr r0 /\ (forall v, r0 <> Ok (Continue v)) /\
        (forall n, r0 = Ok (Exit n) -> r = Ok (Exit n)) /\ forall p, r <> Ok (Continue p))).
Proof.
  unfold init. intros H. destruct (parse_flags lib args) as [fl rest| |];
    [|by destruct H as [-> ->]; left; eauto..].
  right. exists fl, rest. split; [done|].
  change (exec (and_then init_vars (fun v => mret (Continue (fl, v)))) tr r) in H.
  apply exec_and_then in H as [(v & t3 & t4 & -> & H1 & [-> ->])|[(n & H1 & ->)|(r0 & H1 & Hn & ->)]].
  - left. exists v. by rewrite app_nil_r.
  - right. exists (Ok (Exit n)). split_and!; [done..| |done]. by intros n' [= ->].
  - right. exists r0. split_and!; [done|by destruct r0..].
Qed.

Lemma exec_init_ok lib args tr fl v :
  exec (init lib args) tr (Ok (Continue (fl, v))) ->
  (exists rest, parse_flags lib args = Parsed fl rest) /\ exec init_vars tr (Ok (Continue v)).
Proof.
  intros [(_ & _ & n & [=])|(fl' & rest & Hp & [(v' & H & [= <- <-])|(r0 & _ & _ & _ & Hn)])]%exec_init; [|by destruct (Hn (fl, v))].
  eauto.
Qed.

(** The driver goes on only with the flags its command line spells and the
    name and namespace of its own pod set, with the image of the container [mosfs-plugin] of this pod for the
    mount pods, and with a reconcile timeout of at least five minutes, which
    is the configured one where that is longer. *)
Theorem init_ok lib args tr fl v :
  exec (init lib args) tr (Ok (Continue (fl, v))) ->
  (exists rest, parse_flags lib args = Parsed fl rest) /\
  v_PodName v <> EmptyString /\ cfg_Namespace (v_Config v) <> EmptyString /\
  (exists pod c, (PodsGet (v_PodName v) (cfg_Namespace (v_Config v)) ▷ inl pod) ∈ tr /\
     c ∈ Containers (Spec pod) /\ cn_Name c = "mosfs-plugin" /\ cfg_MountImage (v_Config v) = cn_Image c) /\
  defaultReconcileTimeout <= v_ReconcileTimeout v /\
  (exists t, (LookupEnv "MOSFS_RECONCILE_TIMEOUT" ▷ t) ∈ tr /\
     forall d, ParseDuration (default EmptyString t) = Some d -> defaultReconcileTimeout < d -> v_ReconcileTimeout v = d).
Proof.
  intros [Hflags H]%exec_init_ok. split; [done|]. unfold init_vars in H.
  apply exec_Getenv_bind in H as (node & s1 & -> & H). apply exec_Getenv_bind in H as (ns & s2 & -> & H). apply exec_Getenv_bind in H as (name & s3 & -> & H).
  apply exec_Getenv_bind in H as (mp & s4 & -> & H). apply exec_Getenv_bind in H as (cp & s5 & -> & H).
  apply exec_Getenv_bind in H as (ip & s6 & -> & H). apply exec_Getenv_bind in H as (port & s7 & -> & H).
  apply exec_Getenv_bind in H as (tm & s8 & -> & H).
  destruct (String.eqb_spec (default EmptyString name) EmptyString) as [|Hp]; [by destruct H|].
  destruct (String.eqb_spec (default EmptyString ns) EmptyString) as [|Hn]; [by destruct H|]. cbn [orb] in H.
  apply exec_and_then in H as [(c & t1 & t2 & -> & _ & H)|[(n & _ & [=])|(r0 & _ & Hr & Hr')]]; [|by destruct r0].
  apply exec_and_then in H as [(pod & t3 & t4 & -> & H1 & H)|[(n & _ & [=])|(r0 & _ & Hr & Hr')]]; [|by destruct r0].
  apply exec_or_exit in H1 as ([p|e|w|] & H1 & [=]); subst p.
  apply exec_call_inv in H1 as ([p|e] & t & -> & _ & H1); destruct H1 as [-> [=]]; subst p.
  destruct (List.find _ _) as [c'|] eqn:Hf; [|by destruct H]. destruct H as [-> [= ->]]. simpl.
  apply find_some in Hf as [Hin Hname]. apply String.eqb_eq in Hname.
  split_and!; [done|done| |apply reconcile_timeout_min|].
  - exists pod, c'. split_and!; [set_solver|by apply list_elem_of_In|done|done].
  - exists tm. split; [set_solver|]. intros d Hd Hlt. unfold reconcile_timeout. rewrite Hd.
    destruct (String.eqb_spec (default EmptyString tm) EmptyString) as [He|_]; [by rewrite He in Hd|].
    simpl. by apply Z.ltb_lt in Hlt as ->.
Qed.

(** *** The process *)

Lemma main_calls f {A} (p : prog A) tr r :
  (forall o, f o = true -> is_main o = true) -> avoids is_main p -> exec p tr r -> calls f tr = [].
Proof. intros Hf Hp. apply avoids_calls. by apply (is_main_go f Hf). Qed.

Lemma is_go_main o : is_go o = true -> is_main o = true.
Proof. unfold is_main. by intros ->. Qed.
Lemma is_serve_main o : is_serve o = true -> is_main o = true.
Proof. unfold is_main. intros ->. by rewrite orb_true_r. Qed.
Lemma is_println_main o : is_println o = true -> is_main o = true.
Proof. unfold is_main. intros ->. by rewrite !orb_true_r. Qed.
#[local] Hint Resolve is_go_main is_serve_main is_println_main : core.

(** The calls of a part of the start-up that only [main] makes. *)
Ltac none H := eapply main_calls, H; [by auto|avoid].

(** A polling loop is started by a successful [StartReconciler] alone. *)
Lemma exec_StartReconciler um v tr r :
  exec (StartReconciler um v) tr r ->
  (r <> Ok tt /\ calls is_go tr = []) \/
  (r = Ok tt /\ exists port kc pods ks t1 t2 t3, tr = t1 ++ t2 ++ t3 ++ [GoReconcile ks kc ▷ tt] /\
     Atoi (v_KubeletPort v) = Some port /\ exec (NewKubeletClient (v_HostIp v) port) t1 (Ok kc) /\
     exec (GetNodeRunningPods um kc) t2 (Ok pods) /\ exec NewClient t3 (Ok ks) /\
     calls is_go tr = [GoReconcile ks kc ▷ tt]).
Proof.
  unfold StartReconciler. intros H. destruct (Atoi _) as [port|]; [|destruct H as [-> ->]; by left].
  apply exec_bind in H as [(kc & t1 & t2 & -> & H1 & H)|(r0 & H1 & Hn & ->)];
    (assert (calls is_go t1 = []) as C1 by (none H1)) ||
    (left; split; [by destruct r0|]; none H1).
  apply exec_bind in H as [(pods & t3 & t4 & -> & H2 & H)|(r0 & H2 & Hn & ->)];
    (assert (calls is_go t3 = []) as C2 by (none H2)) ||
    (left; split; [by destruct r0|]; rewrite calls_app, C1; none H2).
  apply exec_bind in H as [(ks & t5 & t6 & -> & H3 & H)|(r0 & H3 & Hn & ->)];
    (assert (calls is_go t5 = []) as C3 by (none H3)) ||
    (left; split; [by destruct r0|]; rewrite !calls_app, C1, C2; none H3).
  apply exec_call in H as ([] & -> & _ & ->). right. split; [done|].
  exists port, kc, pods, ks, t1, t3, t5. split_and!; [done..|]. by rewrite !calls_app, C1, C2, C3.
Qed.

(** The reconciler is started once, by polling if the kubelet answered. *)
Lemma exec_start_reconciler um v tr r :
  exec (start_reconciler um v) tr r ->
  calls is_serve tr = [] /\ calls is_println tr = [] /\
  ((r <> Ok tt /\ calls is_go tr = []) \/
   (r = Ok tt /\ exists e, calls is_go tr = [e] /\
     (e = (GoManager ▷ tt) \/
      exists ks kc pods pre t post, e = (GoReconcile ks kc ▷ tt) /\ tr = pre ++ t ++ post /\
        exec (GetNodeRunningPods um kc) t (Ok pods)))).
Proof.
  intros H. assert (forall f, f GoManager = false -> (forall ks kc, f (GoReconcile ks kc) = false) ->
    (forall o, f o = true -> is_main o = true) -> calls f tr = []) as Hf.
  { intros f H1 H2 Hm. apply (avoids_calls f) with (2 := H). unfold start_reconciler. avoid. unfold StartReconciler.
    pose proof (is_main_go f Hm) as Hg. destruct (Atoi _); [|done]. apply avoids_bind; [apply Hg; avoid|intros kc].
    apply avoids_bind; [apply Hg; avoid|intros _]. apply avoids_bind; [apply Hg; avoid|intros ks]. by apply avoids_call. }
  split; [by apply Hf; auto|]. split; [by apply Hf; auto|].
  apply exec_bind in H as [(need & t1 & t2 & -> & H1 & H)|(r0 & H1 & Hn & ->)].
  - assert ((need = true /\ calls is_go t1 = []) \/ (need = false /\ exists e, calls is_go t1 = [e] /\
      exists ks kc pods pre t post, e = (GoReconcile ks kc ▷ tt) /\ t1 = pre ++ t ++ post /\
        exec (GetNodeRunningPods um kc) t (Ok pods)))
      as [[-> Hc]|(-> & e & Hc & He)].
    { destruct (_ && _); [|destruct H1 as [-> [= ->]]; by left].
      apply exec_bind in H1 as [(x & t3 & t4 & -> & H1 & H2)|(r0 & H1 & Hn & Hr)]; [|by destruct r0].
      apply exec_try in H1 as (r1 & H1 & Hr).
      apply exec_StartReconciler in H1 as [[Hne Hc]|(-> & port & kc & pods & ks & s1 & s2 & s3 & -> & Hp & K1 & K2 & K3 & Hc)].
      - destruct r1 as [[]|e| |]; simplify_eq. destruct H2 as [-> [= ->]]. left. by rewrite app_nil_r.
      - simplify_eq. destruct H2 as [-> [= ->]]. right. rewrite app_nil_r. split; [done|]. eexists. split; [done|].
        by exists ks, kc, pods, s1, s2, (s3 ++ [GoReconcile ks kc ▷ tt]). }
    + apply exec_call in H as ([] & -> & _ & ->). right. split; [done|]. eexists. rewrite calls_app, Hc. by split; [|left].
    + destruct H as [-> ->]. right. split; [done|]. exists e. rewrite app_nil_r. by split; [|right].
  - left. split; [by destruct r0|]. destruct (_ && _); [|by destruct H1 as [-> ->]].
    apply exec_bind in H1 as [([|] & t3 & t4 & -> & H1 & H2)|(r1 & H1 & Hn1 & ->)]; [by destruct H2 as [_ ->]..|].
    apply exec_try in H1 as (r2 & H1 & Hr).
    apply exec_StartReconciler in H1 as [[Hne Hc]|(-> & _)]; [done|]. by simplify_eq.
Qed.

Section process.
Context (lib : LibFlags) (build : Build) (url_Parse : string -> URL + error) (um : string -> option (list Pod) + error).

(** The server part of [main]. *)
Definition serve (flags : Flags) : prog (flow unit) :=
  and_then (or_exit fatal (NewDriver (f_endpoint flags) (f_nodeID flags))) (fun drv => or_exit fatal (Run url_Parse drv)).

Lemma exec_Driver_Run {Provider} (d : Driver Provider) tr r :
  exec (Run url_Parse d) tr r -> calls is_serve tr <> [] ->
  exists sock scheme addr x, tr = sock ++ [NetListen scheme addr ▷ None; Serve ▷ x] /\
    exec (ParseEndpoint url_Parse (d_endpoint d)) sock (Ok (scheme, addr)).
Proof.
  unfold Run. intros H Hs. apply exec_bind in H as [([scheme addr] & t1 & t2 & -> & H1 & H)|(r0 & H1 & Hn & ->)].
  2:{ destruct Hs. none H1. }
  assert (calls is_serve t1 = []) as C1 by none H1. rewrite calls_app, C1 in Hs.
  apply exec_call_inv in H as ([e|] & t & -> & _ & H); [by destruct H as [-> _]|].
  apply exec_call_inv in H as (x & t' & -> & _ & H). apply exec_lift_err in H as [-> _].
  by exists t1, scheme, addr, x.
Qed.

Lemma exec_NewDriver endpoint nodeID tr d :
  exec (NewDriver endpoint nodeID) tr (Ok d) -> d_endpoint d = endpoint.
Proof.
  intros H. do 2 (apply exec_bind in H as [(? & ? & ? & -> & _ & H)|(r0 & _ & Hn & Hr)]; [|by destruct r0]).
  by destruct H as [_ [= ->]].
Qed.

Lemma serve_avoids_go flags : avoids is_go (serve flags).
Proof.
  apply avoids_and_then; [apply avoids_or_exit, (is_main_go _ is_go_main); avoid|intros d].
  apply avoids_or_exit. unfold Run. avoid. apply (is_main_go _ is_go_main). avoid.
Qed.

Lemma exec_serve flags tr r :
  exec (serve flags) tr r -> calls is_serve tr <> [] ->
  exists pre sock scheme addr x, tr = pre ++ sock ++ [NetListen scheme addr ▷ None; Serve ▷ x] /\
    exec (ParseEndpoint url_Parse (f_endpoint flags)) sock (Ok (scheme, addr)) /\
    exists d, exec (NewDriver (f_endpoint flags) (f_nodeID flags)) pre (Ok d).
Proof.
  intros H Hs. apply exec_and_then in H as [(d & t1 & t2 & -> & H1 & H)|[(n & H1 & _)|(r0 & H1 & _)]];
    apply exec_or_exit in H1 as (r1 & H1 & Hr1);
    try (destruct Hs; none H1).
  assert (calls is_serve t1 = []) as C1 by none H1. rewrite calls_app, C1 in Hs.
  destruct r1 as [d'|e| |]; simplify_eq. apply exec_or_exit in H as (r2 & H & _).
  apply exec_Driver_Run in H as (sock & scheme & addr & x & -> & Hp); [|done].
  pose proof (exec_NewDriver _ _ _ _ H1) as Hd. rewrite Hd in Hp.
  exists t1, sock, scheme, addr, x. split_and!; [done|done|by exists d'].
Qed.

(** The parts of a run: the flags and variables, then the version, an exit,
    or the reconciler and the server. *)
Lemma exec_process args tr r :
  exec (process lib build url_Parse um args) tr r ->
  (exists r0, exec (init lib args) tr r0 /\ calls is_main tr = [] /\
     (forall p, r0 <> Ok (Continue p)) /\ forall n, r0 = Ok (Exit n) -> r = Ok (Exit n)) \/
  exists flags rest v t1 t2, tr = t1 ++ t2 /\ parse_flags lib args = Parsed flags rest /\
    exec (init lib args) t1 (Ok (Continue (flags, v))) /\ calls is_main t1 = [] /\
    ((f_version flags = true /\ t2 = [Println (GetVersionJSON build) ▷ tt] /\ r = Ok (Exit 0)) \/
     (f_version flags = false /\ f_nodeID flags = EmptyString /\ t2 = [] /\ r = Ok (Exit fatal)) \/
     (f_version flags = false /\ f_nodeID flags <> EmptyString /\
      exec ((if f_enableManager flags then start_reconciler um v else mret tt) ≫= fun _ => serve flags) t2 r)).
Proof.
  intros H. apply exec_and_then in H as [([flags v] & t1 & t2 & -> & H1 & H)|[(n & H1 & ->)|(r0 & H1 & Hn & ->)]];
    (assert (calls is_main _ = []) as C1 by (eapply avoids_calls, H1; apply init_avoids)).
  - right. destruct (exec_init_ok _ _ _ _ _ H1) as [[rest Hp] _]. exists flags, rest, v, t1, t2.
    split_and!; [done..|]. unfold main in H. destruct (f_version flags).
    { left. apply exec_call_inv in H as ([] & t & -> & _ & [-> ->]). done. }
    right. destruct (String.eqb_spec (f_nodeID flags) EmptyString); [left; by destruct H as [-> ->]|by right].
  - left. exists (Ok (Exit n)). split_and!; [done..|]. by intros n' [= ->].
  - left. exists r0. split_and!; [done..| |]; by destruct r0.
Qed.
End process.

Lemma calls_main_nil f tr : (forall o, f o = true -> is_main o = true) -> calls is_main tr = [] -> calls f tr = [].
Proof.
  intros Hf. rewrite !calls_nil_iff. intros H. apply (Forall_impl _ _ _ H). intros [o x]. simpl. intros Ho.
  destruct (f o) eqn:E; [|done]. apply Hf in E. congruence.
Qed.

(** Whether a command line enables the manager. *)
Definition enables_manager (lib : LibFlags) (args : list string) : bool :=
  match parse_flags lib args with Parsed flags _ => f_enableManager flags | _ => false end.

(** C27 A process of the driver starts one reconciler or none: none unless its
    command line enables the manager, exactly one before it serves if it does;
    and it polls the kubelet only after the kubelet answered with a list of
    pods. *)
Theorem process_one_reconciler lib build url_Parse um args tr r :
  exec (process lib build url_Parse um args) tr r ->
  (length (calls is_go tr) <= 1)%nat /\
  (calls is_go tr <> [] -> enables_manager lib args = true) /\
  (forall x, (Serve ▷ x) ∈ tr -> enables_manager lib args = true -> length (calls is_go tr) = 1%nat) /\
  (forall ks kc, (GoReconcile ks kc ▷ tt) ∈ calls is_go tr ->
     exists pre t post pods, tr = pre ++ t ++ post /\ exec (GetNodeRunningPods um kc) t (Ok pods)).
Proof.
  intros H. pattern tr. match goal with |- ?Q tr =>
    assert (forall t, calls is_go t = [] -> calls is_serve t = [] -> Q t) as Hnone end.
  { intros t Hg Hs. cbv beta. rewrite Hg. split_and!; [simpl; lia|done| |by intros ks kc ?%not_elem_of_nil].
    intros x Hx _. by apply (elem_of_calls is_serve) in Hx. }
  apply exec_process in H as [(r0 & _ & C & _ & _)|(flags & rest & v & t1 & t2 & -> & Hp & _ & C & Hm)].
  { apply Hnone; by apply calls_main_nil; auto. }
  clear Hnone. assert (enables_manager lib args = f_enableManager flags) as -> by (unfold enables_manager; by rewrite Hp).
  pattern (t1 ++ t2). match goal with |- ?Q _ =>
    assert (forall t, calls is_go t = [] -> calls is_serve t = [] -> Q t) as Hnone end.
  { intros t Hg Hs. cbv beta. rewrite Hg. split_and!; [simpl; lia|done| |by intros ks kc ?%not_elem_of_nil].
    intros x Hx _. by apply (elem_of_calls is_serve) in Hx. }
  assert (calls is_go t1 = []) as G1 by (apply calls_main_nil; auto).
  assert (calls is_serve t1 = []) as S1 by (apply calls_main_nil; auto).
  destruct Hm as [(_ & -> & _)|[(_ & _ & -> & _)|(_ & _ & H)]];
    [apply Hnone; by rewrite calls_app, ?G1, ?S1..|].
  apply exec_bind_unit in H as [(t3 & t4 & -> & H1 & H)|(rd & H1 & Hn & ->)].
  - assert (calls is_go t4 = []) as G4 by (eapply avoids_calls, H; apply serve_avoids_go).
    rewrite !calls_app, G1, G4, app_nil_r. destruct (f_enableManager flags).
    + apply exec_start_reconciler in H1 as (_ & _ & [[Hne _]|(_ & e & -> & He)]); [done|].
      split_and!; [simpl; lia|done|done|]. intros ks kc Hin. apply list_elem_of_singleton in Hin as <-.
      destruct He as [He|(ks' & kc' & pods & pre & t & post & He & -> & Hg)].
      * by apply (f_equal projT1) in He.
      * apply (f_equal projT1) in He as [= -> ->]. exists (t1 ++ pre), t, (post ++ t4), pods. split; [list_app|done].
    + destruct H1 as [-> _]. split_and!; [simpl; lia|done|done|by intros ks kc ?%not_elem_of_nil].
  - destruct (f_enableManager flags); [|by destruct H1 as [_ ->]].
    apply exec_start_reconciler in H1 as (Hs & _ & [[_ Hg]|[-> _]]); [|done].
    apply Hnone; rewrite calls_app, ?G1, ?S1; done.
Qed.

(** The server is reached only with a node id and without the version
    flag, after [NewDriver] made both services and the address the endpoint
    names was cleared and bound, in this order; nothing follows. *)
Theorem process_serves lib build url_Parse um args tr r x :
  exec (process lib build url_Parse um args) tr r -> (Serve ▷ x) ∈ tr ->
  exists flags rest, parse_flags lib args = Parsed flags rest /\ f_version flags = false /\ f_nodeID flags <> EmptyString /\
  exists pre services sock scheme addr y d,
    tr = pre ++ services ++ sock ++ [NetListen scheme addr ▷ None; Serve ▷ y] /\
    exec (NewDriver (f_endpoint flags) (f_nodeID flags)) services (Ok d) /\
    exec (ParseEndpoint url_Parse (f_endpoint flags)) sock (Ok (scheme, addr)).
Proof.
  intros H Hx. apply (elem_of_calls is_serve) in Hx; [|done].
  apply exec_process in H as [(r0 & _ & C & _ & _)|(flags & rest & v & t1 & t2 & -> & Hp & _ & C & Hm)].
  { destruct Hx. apply calls_main_nil; auto. }
  exists flags, rest.
  rewrite calls_app, (calls_main_nil is_serve t1 is_serve_main C) in Hx.
  destruct Hm as [(_ & -> & _)|[(_ & _ & -> & _)|(Hv & Hid & H)]]; [done..|].
  split_and!; [done..|].
  apply exec_bind_unit in H as [(t3 & t4 & -> & H1 & H)|(rd & H1 & Hn & ->)].
  - assert (calls is_serve t3 = []) as S3.
    { destruct (f_enableManager flags); [by apply exec_start_reconciler in H1 as (? & _)|by destruct H1 as [-> _]]. }
    rewrite !calls_app, S3 in Hx. apply exec_serve in H as (pre & sock & scheme & addr & y & -> & Hep & d & Hd); [|done].
    exists (t1 ++ t3), pre, sock, scheme, addr, y, d. split_and!; [list_app|done|done].
  - destruct Hx. destruct (f_enableManager flags); [by apply exec_start_reconciler in H1 as (? & _)|by destruct H1 as [-> _]].
Qed.

(** Without the name of its pod in the environment a process whose command
    line is accepted exits with an error, whatever its flags: also [--version]
    prints nothing. *)
Theorem version_needs_pod lib build url_Parse um args tr r :
  exec (process lib build url_Parse um args) tr r ->
  (forall x, (LookupEnv "POD_NAME" ▷ x) ∈ tr -> x = None) ->
  calls is_println tr = [] /\ forall fl rest, parse_flags lib args = Parsed fl rest -> r = Ok (Exit fatal).
Proof.
  intros H Hpod.
  assert (forall t1 t2 r0, tr = t1 ++ t2 -> exec init_vars t1 r0 -> r0 = Ok (Exit fatal)) as Hinit.
  { intros t1 t2 r0 -> H1. unfold init_vars in H1.
    apply exec_Getenv_bind in H1 as (node & s1 & -> & H1). apply exec_Getenv_bind in H1 as (ns & s2 & -> & H1).
    apply exec_Getenv_bind in H1 as (name & s3 & -> & H1).
    rewrite (Hpod name) in H1 by set_solver. do 5 (apply exec_Getenv_bind in H1 as (? & ? & -> & H1)).
    by destruct H1 as [_ ->]. }
  apply exec_process in H as [(r0 & H1 & C & _ & Hr)|(fl & rest & v & t1 & t2 & -> & Hp & [_ H1]%exec_init_ok & _ & _)].
  - split; [apply calls_main_nil; auto|]. intros fl rest Hp.
    apply exec_init in H1 as [(Hnp & _)|(fl' & rest' & _ & [(v & Hv & _)|(r1 & H1 & _ & Hx & _)])]; [by apply Hnp in Hp|..].
    + by pose proof (Hinit tr [] _ (eq_sym (app_nil_r tr)) Hv).
    + pose proof (Hinit tr [] _ (eq_sym (app_nil_r tr)) H1) as ->. by apply Hr, Hx.
  - by pose proof (Hinit t1 t2 _ eq_refl H1).
Qed.
