(* ===== verification/NodeService.v ===== *)
(** * The node service

    [pkg/driver/node.go]: publishing a volume at a target (mount the file
    system through a mount pod, make the volume's directory, bind it to the
    target) and unpublishing it (unmount the target, drop the reference). *)
From S2P Require Import Prelude GoStrings GoPath GoTime K8sTypes PatchText Prog Config K8sClient Util Console MountPod PodMount ProcessMount Juicefs ControllerService.
From stdpp Require Import options.
#[local] Open Scope Z_scope.

#[local] Arguments exec : simpl never.

Definition fsTypeNone : string := "none".
Definition node_CheckTimeout : Z := 2000 * millisecond.

Record NodePublishVolumeRequest := mkNPV {
  np_VolumeId : string;
  np_TargetPath : string;
  np_Capability : option VolumeCapability;
  np_Readonly : bool;
  np_VolumeContext : gomap;
  np_Secrets : gomap;
}.

(** ** The target directory *)

(** Unmounts the target as long as it is a corrupted mount; [fuel] bounds the
    attempts. *)
Fixpoint CreateTarget (fuel : nat) (target : string) : prog unit :=
  match fuel with
  | O => OutOfFuel
  | S fuel' =>
      r ← try (DoWithTimeout node_CheckTimeout (
                 '(exists_, err) ← PathExists target;
                 match err with Some e => Throw e | None => mret exists_ end));
      match r with
      | inl exists_ =>
          if negb exists_ then
            r ← call (OsMkdirAll target 493);
            wrap_err (fun e => ErrFmt "could not create dir %q: %v" [target] (Some e)) (lift_err r)
          else mret tt
      | inr e =>
          if IsCorruptedMnt e then UmountPath target ≫= fun _ => CreateTarget fuel' target
          else Throw e
      end
  end.

(** ** Binding *)

(** The minor of the mount path, copied at its last entry. *)
Definition mount_minor (mountInfos : list MountInfo) (mountPath : string) : option Z :=
  fold_left (fun r mi => if String.eqb (mi_MountPoint mi) mountPath then Some (mi_Minor mi) else r) mountInfos None.

(** The minor of the target is read through a pointer to the loop variable,
    which after the loop holds the last entry of the table. *)
Definition target_minor (mountInfos : list MountInfo) (target : string) : option Z :=
  if existsb (fun mi => String.eqb (mi_MountPoint mi) target) mountInfos
  then mi_Minor <$> last mountInfos else None.

Definition bind_target (bindSource target : string) : prog unit :=
  r ← call (DoMount bindSource target fsTypeNone ["bind"]);
  match r with
  | Some e =>
      call (OsRemove target) ≫= fun _ =>
      Throw (ErrFmt "could not bind %q at %q: %v" [bindSource; target] (Some e))
  | None => mret tt
  end.

Definition checkBindAndMount (mountPath bindSource target : string) : prog unit :=
  r ← call ReadMountInfo;
  mountInfos ← lift_sum r;
  match mount_minor mountInfos mountPath with
  | None => Throw (ErrFmt "BindTarget: mountPath %s not mounted" [mountPath] None)
  | Some mountMinor =>
      match target_minor mountInfos target with
      | Some targetMinor =>
          if targetMinor =? mountMinor then mret tt
          else UmountPath target ≫= fun _ => bind_target bindSource target
      | None => bind_target bindSource target
      end
  end.

Section Node.
Context (cfg : Config) (lib : Libs) (fuel : nat).

(** ** Publishing *)

(** The mount options of a request, in the order the map is ranged over. *)
Definition publish_options (req : NodePublishVolumeRequest) (volCap : VolumeCapability) : prog (list string) :=
  let options : gmap string string :=
    if np_Readonly req || bool_decide (cap_Mode volCap = MULTI_NODE_READER_ONLY) then {["ro" := EmptyString]} else ∅ in
  let options := fold_left (fun m f => <[f := EmptyString]> m) (default [] (cap_MountFlags volCap)) options in
  let mountOptions :=
    match mlookup (np_VolumeContext req) "mountOptions" with Some opts => Split opts "," | None => [] end in
  order ← call (RangeMap options);
  mret (mountOptions ++
        map (fun kv => if negb (String.eqb (snd kv) EmptyString) then fst kv +:+ "=" +:+ snd kv else fst kv) order).

Definition NodePublishVolume (req : NodePublishVolumeRequest) : prog unit :=
  let volumeID := np_VolumeId req in
  let target := np_TargetPath req in
  if (String.length target =? 0)%nat then Throw (ErrStatus InvalidArgument "Target path not provided" [] None)
  else match np_Capability req with
  | None => Throw (ErrStatus InvalidArgument "Volume capability not provided" [] None)
  | Some volCap =>
      if negb (isValidVolumeCapabilities [volCap])
      then Throw (ErrStatus InvalidArgument "Volume capability not supported" [] None)
      else
        internal "Could not create dir %q: %v" [target] (CreateTarget fuel target) ≫= fun _ =>
        mountOptions ← publish_options req volCap;
        fs ← internal "Could not mount juicefs: %v" []
               (JfsMount cfg lib fuel volumeID target (np_Secrets req) (np_VolumeContext req) mountOptions true);
        bindSource ← internal "Could not create volume: %s, %v" [volumeID]
                       (CreateVol lib fs volumeID (mget (np_VolumeContext req) "subPath") 0 EmptyString);
        internal "Could not bind %q at %q: %v" [bindSource; target]
          (checkBindAndMount (GetBasePath fs) bindSource target)
  end.

(** ** Unpublishing *)

(** Unmount until nothing is mounted at the target any more. *)
Fixpoint umount_loop (fuel : nat) (target : string) : prog unit :=
  match fuel with
  | O => OutOfFuel
  | S fuel' =>
      '(out, err) ← call (Command "umount" [target] []);
      match err with
      | None => umount_loop fuel' target
      | Some _ =>
          if negb (not_mounted_msg out) then
            '(_, err) ← call (Command "umount" ["-l"; target] []);
            lift_err err
          else mret tt
      end
  end.

Definition NodeUnpublishVolume (volumeId target : string) : prog unit :=
  if (String.length target =? 0)%nat then Throw (ErrStatus InvalidArgument "Target path not provided" [] None)
  else
    umount_loop fuel target ≫= fun _ =>
    CleanupMountPoint target ≫= fun _ =>
    volumeId ← GetUniqueId volumeId;
    iJUmount (NewPodMount cfg (quantity_parses lib) fuel None) volumeId target.

(** ** The other calls *)

Definition NodeStageVolume : prog unit := unimplemented.
Definition NodeUnstageVolume : prog unit := unimplemented.
Definition NodeExpandVolume : prog unit := unimplemented.
Definition NodeGetVolumeStats : prog unit :=
  Throw (ErrStatus Unimplemented "NodeGetVolumeStats is not implemented yet" [] None).
Definition nodeCaps : list ControllerCap := [].
Definition NodeGetCapabilities : list ControllerCap := nodeCaps.
Definition NodeGetInfo (nodeID : string) : string := nodeID.
End Node.

(** ** Properties *)

Lemma exec_bind_target bindSource target tr :
  exec (bind_target bindSource target) tr (Ok tt) -> tr = [DoMount bindSource target fsTypeNone ["bind"] ▷ None].
Proof.
  unfold bind_target. intros H. apply exec_call_inv in H as ([e|] & t & -> & _ & H).
  - by apply exec_call_inv in H as (? & ? & _ & _ & [_ [=]]).
  - by destruct H as [-> _].
Qed.

(** A target is reported bound only if the mount path is in the mount
    table, and either the directory was bound to the target by the last call,
    or the target is in the table and the last entry of the table has the
    minor number of the mount path. *)
Theorem checkBindAndMount_ok mountPath bindSource target tr :
  exec (checkBindAndMount mountPath bindSource target) tr (Ok tt) ->
  exists l rest m, tr = (ReadMountInfo ▷ inl l) :: rest /\ mount_minor l mountPath = Some m /\
    ((exists pre, rest = pre ++ [DoMount bindSource target fsTypeNone ["bind"] ▷ None]) \/
     (rest = [] /\ exists mi, mi ∈ l /\ mi_MountPoint mi = target /\ mi_Minor <$> last l = Some m)).
Proof.
  unfold checkBindAndMount. intros H. apply exec_call_inv in H as (x & t & -> & _ & H).
  destruct x as [l|e]; [|by destruct H]. cbn [lift_sum mbind prog_bind prog_bind_go] in H.
  destruct (mount_minor l mountPath) as [m|] eqn:Hm; [|by destruct H].
  exists l, t, m. split_and!; [done..|].
  destruct (target_minor l target) as [tm|] eqn:Ht.
  - destruct (Z.eqb_spec tm m) as [->|_].
    + right. destruct H as [-> _]. split; [done|]. unfold target_minor in Ht.
      destruct (existsb _ l) eqn:Hex; [|done]. apply existsb_exists in Hex as (mi & Hin & Hmi).
      exists mi. rewrite list_elem_of_In. apply String.eqb_eq in Hmi. done.
    + left. apply exec_bind_unit in H as [(t1 & t2 & -> & H1 & H)|(r0 & H1 & Hn & Hr)]; [|by destruct r0].
      apply exec_bind_target in H as ->. eauto.
  - left. apply exec_bind_target in H as ->. by exists [].
Qed.

(** A target that is bound to another file system is left as it is and
    reported bound when the last entry of the mount table happens to belong
    to the file system of the mount path: the comparison reads that entry and
    not the target's. *)
Theorem checkBindAndMount_reads_last_entry mountPath bindSource target l mi m :
  mount_minor l mountPath = Some m ->
  mi ∈ l -> mi_MountPoint mi = target -> mi_Minor mi <> m -> mi_Minor <$> last l = Some m ->
  forall tr r, exec (checkBindAndMount mountPath bindSource target) ((ReadMountInfo ▷ inl l) :: tr) r ->
  tr = [] /\ r = Ok tt.
Proof.
  intros Hm Hin Ht Hne Hl tr r H. unfold checkBindAndMount in H.
  apply (exec_call_step ReadMountInfo _ (inl l)) in H. cbn [lift_sum mbind prog_bind prog_bind_go] in H.
  rewrite Hm in H. unfold target_minor in H. rewrite Hl in H.
  assert (existsb (fun mi => String.eqb (mi_MountPoint mi) target) l = true) as Hex.
  { apply existsb_exists. exists mi. by rewrite <-list_elem_of_In, String.eqb_eq. }
  rewrite Hex, Z.eqb_refl in H. done.
Qed.

Lemma exec_umount_loop fuel target tr :
  exec (umount_loop fuel target) tr (Ok tt) ->
  exists outs out e rest, tr = map (fun o => Command "umount" [target] [] ▷ (o, None)) outs ++
      (Command "umount" [target] [] ▷ (out, Some e)) :: rest /\
    ((not_mounted_msg out = true /\ rest = []) \/
     exists o, rest = [Command "umount" ["-l"; target] [] ▷ (o, None)]).
Proof.
  revert tr. induction fuel as [|fuel IH]; intros tr H; [by destruct H|]. cbn [umount_loop] in H.
  apply exec_call_inv in H as ([out [e|]] & t & -> & _ & H); cbv beta iota in H.
  - exists [], out, e, t. split; [done|]. destruct (not_mounted_msg out); cbn [negb] in H.
    + left. by destruct H as [-> _].
    + right. apply exec_call_inv in H as ([o err] & t' & -> & _ & H).
      apply exec_lift_err in H as [-> H]. destruct err; [done|]. by exists o.
  - apply IH in H as (outs & out' & e & rest & -> & H). by exists (out :: outs), out', e, rest.
Qed.

(** C36 When the loop that unmounts a target does not finish within [fuel]
    rounds, there were [fuel] mounts stacked on the target, each unmounted
    successfully: one round more than there are mounts is enough. *)
Theorem umount_loop_fuel fuel target tr :
  exec (umount_loop fuel target) tr NoFuel ->
  exists outs, length outs = fuel /\ tr = map (fun o => Command "umount" [target] [] ▷ (o, None)) outs.
Proof.
  revert tr. induction fuel as [|fuel IH]; intros tr H.
  { destruct H as [-> _]. by exists []. }
  cbn [umount_loop] in H. apply exec_call_inv in H as ([out [e|]] & t & -> & _ & H); cbv beta iota in H.
  - exfalso. destruct (negb (not_mounted_msg out)); [|by destruct H].
    apply exec_call_inv in H as ([o err] & t' & -> & _ & H). apply exec_lift_err in H as [_ H]. by destruct err.
  - apply IH in H as (outs & <- & ->). by exists (out :: outs).
Qed.

(** C22 A volume is reported unpublished only after nothing was mounted at the
    target any more (the last unmount failed with one of the messages that
    say so, or the lazy unmount succeeded), the target was cleaned up, and
    the reference of exactly this target was dropped from the mount pod of
    the volume's unique id. *)
Theorem NodeUnpublishVolume_ok cfg lib fuel volumeId target tr :
  exec (NodeUnpublishVolume cfg lib fuel volumeId target) tr (Ok tt) ->
  target <> EmptyString /\
  exists outs out e lazy cleanup uid id drop,
    tr = (map (fun o => Command "umount" [target] [] ▷ (o, None)) outs ++
          (Command "umount" [target] [] ▷ (out, Some e)) :: lazy) ++ cleanup ++ uid ++ drop /\
    ((not_mounted_msg out = true /\ lazy = []) \/
     exists o, lazy = [Command "umount" ["-l"; target] [] ▷ (o, None)]) /\
    exec (CleanupMountPoint target) cleanup (Ok tt) /\
    exec (GetUniqueId volumeId) uid (Ok id) /\
    exec (JUmount cfg fuel id target) drop (Ok tt).
Proof.
  unfold NodeUnpublishVolume. intros H.
  destruct (Nat.eqb_spec (String.length target) 0) as [|Hne]; [by destruct H|].
  split; [by intros ->|].
  apply exec_bind_unit in H as [(t1 & t2 & -> & H1 & H)|(r0 & H1 & Hn & Hr)]; [|by destruct r0].
  apply exec_umount_loop in H1 as (outs & out & e & lazy & -> & Hlazy).
  apply exec_bind_unit in H as [(t3 & t4 & -> & H2 & H)|(r0 & H2 & Hn & Hr)]; [|by destruct r0].
  apply exec_bind in H as [(id & t5 & t6 & -> & H3 & H)|(r0 & H3 & Hn & Hr)]; [|by destruct r0].
  by exists outs, out, e, lazy, t3, t5, id, t6.
Qed.

(** The target directory is reported ready only if the last look at it
    succeeded, or it did not exist and was made. *)
Theorem CreateTarget_ok fuel target tr :
  exec (CreateTarget fuel target) tr (Ok tt) ->
  exists pre, (exists fi, tr = pre ++ [OsStat target ▷ inl fi]) \/
    exists e, IsNotExist e = true /\ tr = pre ++ [OsStat target ▷ inr e; OsMkdirAll target 493 ▷ None].
Proof.
  revert tr. induction fuel as [|fuel IH]; intros tr H; [by destruct H|]. cbn [CreateTarget] in H.
  apply exec_bind in H as [(a & t1 & t2 & -> & H1 & H)|(r0 & H1 & Hn & Hr)]; [|by destruct r0].
  destruct a as [exists_|e].
  - apply exec_try in H1 as (r1 & H1 & Hr1). destruct r1; simplify_eq.
    unfold DoWithTimeout, DoWithContext in H1. apply exec_call_inv in H1 as ([c|] & t & -> & _ & H1); [by destruct H1|].
    apply exec_PathExists_bind in H1 as (x & t' & -> & H1). destruct x as [fi|e].
    + destruct H1 as [-> [= ->]]. cbn [negb] in H. destruct H as [-> _]. eexists [_]. left. by exists fi.
    + destruct (IsNotExist e) eqn:He.
      * destruct H1 as [-> [= ->]]. cbn [negb] in H.
        apply exec_call_inv in H as (y & t & -> & _ & H). apply exec_wrap_err in H as (r1 & H & Hr).
        apply exec_lift_err in H as [-> ->]. destruct y; [done|]. eexists [_]. right. by exists e.
      * destruct (IsCorruptedMnt e); by destruct H1.
  - destruct (IsCorruptedMnt e); [|by destruct H].
    apply exec_bind_unit in H as [(t3 & t4 & -> & H2 & H)|(r0 & H2 & Hn & Hr)]; [|by destruct r0].
    apply IH in H as (pre & [(fi & ->)|(e' & He & ->)]); exists (t1 ++ t3 ++ pre).
    + left. exists fi. list_app.
    + right. exists e'. split; [done|]. list_app.
Qed.

Lemma exec_NodePublishVolume_ok cfg lib fuel req tr :
  exec (NodePublishVolume cfg lib fuel req) tr (Ok tt) ->
  exists volCap t1 t2 opts mount fs vol bindSource bind,
    np_Capability req = Some volCap /\ isValidVolumeCapabilities [volCap] = true /\
    tr = t1 ++ t2 ++ mount ++ vol ++ bind /\
    exec (CreateTarget fuel (np_TargetPath req)) t1 (Ok tt) /\
    exec (publish_options req volCap) t2 (Ok opts) /\
    exec (JfsMount cfg lib fuel (np_VolumeId req) (np_TargetPath req) (np_Secrets req) (np_VolumeContext req) opts true)
      mount (Ok fs) /\
    exec (CreateVol lib fs (np_VolumeId req) (mget (np_VolumeContext req) "subPath") 0 EmptyString) vol (Ok bindSource) /\
    exec (checkBindAndMount (MountPath fs) bindSource (np_TargetPath req)) bind (Ok tt).
Proof.
  unfold NodePublishVolume, internal. intros H. case_match; [by destruct H|].
  destruct (np_Capability req) as [volCap|]; [|by destruct H].
  destruct (isValidVolumeCapabilities [volCap]) eqn:Hv; cbn [negb] in H; [|by destruct H].
  apply exec_bind_unit in H as [(t1 & t2 & -> & H1 & H)|(r0 & H1 & Hn & Hr)]; [|by destruct r0].
  apply exec_bind in H as [(opts & t3 & t4 & -> & H2 & H)|(r0 & H2 & Hn & Hr)]; [|by destruct r0].
  apply exec_bind in H as [(fs & t5 & t6 & -> & H3 & H)|(r0 & H3 & Hn & Hr)]; [|by destruct r0].
  apply exec_bind in H as [(src & t7 & t8 & -> & H4 & H)|(r0 & H4 & Hn & Hr)]; [|by destruct r0].
  apply exec_wrap_err_ok in H1, H3, H4, H.
  by exists volCap, t1, t3, opts, t5, fs, t7, src, t8.
Qed.

(** C21 A volume is reported published only for a supported capability, and
    after, in this order: the target directory existed or was made, the file
    system was mounted through a mount pod with a reference for this target,
    the volume's directory was made, and the binding of exactly that
    directory to the target was checked or made. *)
Theorem NodePublishVolume_ok cfg lib fuel req tr :
  exec (NodePublishVolume cfg lib fuel req) tr (Ok tt) ->
  exists volCap t1 t2 opts mount fs vol bindSource bind,
    np_Capability req = Some volCap /\ isValidVolumeCapabilities [volCap] = true /\
    tr = t1 ++ t2 ++ mount ++ vol ++ bind /\
    exec (CreateTarget fuel (np_TargetPath req)) t1 (Ok tt) /\
    exec (publish_options req volCap) t2 (Ok opts) /\
    exec (JfsMount cfg lib fuel (np_VolumeId req) (np_TargetPath req) (np_Secrets req) (np_VolumeContext req) opts true)
      mount (Ok fs) /\
    exec (CreateVol lib fs (np_VolumeId req) (mget (np_VolumeContext req) "subPath") 0 EmptyString) vol (Ok bindSource) /\
    exec (checkBindAndMount (MountPath fs) bindSource (np_TargetPath req)) bind (Ok tt).
Proof. apply exec_NodePublishVolume_ok. Qed.
