(* ===== verification/Completion.v ===== *)
(** * Requests to the node service are answered

    [NodeService.v] says what a request that was answered without an error
    has done.  Here is the converse: a request that is served by the API
    server, the file system and the commands it runs ends without an error,
    and the fuel of its loops need only exceed the number of times they were
    told to try again. *)
From S2P Require Import Prelude GoStrings GoPath GoTime Sha256 K8sTypes PatchText Prog Config K8sClient Util Console MountPod PodMount Progress ProcessMount Juicefs Quiet ControllerService NodeService.
From stdpp Require Import options.
#[local] Open Scope Z_scope.

#[local] Arguments exec : simpl never.

(** ** Programs that succeed when they are served *)

(** Whatever answers [p] gets among those [ok] accepts, it returns a value
    that satisfies [Q]. *)
Fixpoint succeeds {A} (ok : event -> bool) (p : prog A) (Q : A -> Prop) : Prop :=
  match p with
  | Ret a => Q a
  | Do o k => forall x, resp_ok o x -> ok (o ▷ x) = true -> succeeds ok (k x) Q
  | _ => False
  end.

Section succeeds.
Context (ok : event -> bool).

Lemma succeeds_exec {A} (p : prog A) Q tr r :
  succeeds ok p Q -> exec p tr r -> forallb ok tr = true -> exists a, r = Ok a /\ Q a.
Proof.
  revert tr. induction p as [a|e|w| |o k IH]; intros tr Hp He Ht; [|done..|].
  - destruct He as [_ ->]. eauto.
  - destruct He as (x & t & -> & Hx & He). apply andb_prop in Ht as [Hox Ht]. eapply IH; [by apply Hp|done..].
Qed.

Lemma succeeds_bind {A B} (p : prog A) (f : A -> prog B) Q :
  succeeds ok p (fun a => succeeds ok (f a) Q) -> succeeds ok (p ≫= f) Q.
Proof. induction p as [a|e|w| |o k IH]; intros Hp; [done..|]. intros x Hx Hox. by apply IH, Hp. Qed.

Lemma succeeds_mono {A} (p : prog A) (Q Q' : A -> Prop) :
  (forall a, Q a -> Q' a) -> succeeds ok p Q -> succeeds ok p Q'.
Proof. intros HQ. induction p as [a|e|w| |o k IH]; simpl; naive_solver. Qed.

Lemma succeeds_wrap_err {A} g (p : prog A) Q : succeeds ok p Q -> succeeds ok (wrap_err g p) Q.
Proof. induction p as [a|e|w| |o k IH]; intros Hp; [done..|]. intros x Hx Hox. by apply IH, Hp. Qed.

Lemma succeeds_try {A} (p : prog A) Q : succeeds ok p (fun a => Q (inl a)) -> succeeds ok (try p) Q.
Proof. induction p as [a|e|w| |o k IH]; intros Hp; [done..|]. intros x Hx Hox. by apply IH, Hp. Qed.

Lemma succeeds_call o Q : (forall x, ok (o ▷ x) = true -> Q x) -> succeeds ok (call o) Q.
Proof. intros H x _ Hx. by apply H. Qed.
End succeeds.

(** [serve]: follow the structure of the program and open the answers. *)
Ltac serve_step :=
  lazymatch goal with
  | |- succeeds _ (Ret _) _ => cbn [succeeds]
  | |- succeeds _ (mret _) _ => change (mret ?x) with (Ret x); cbn [succeeds]
  | |- succeeds _ (_ ≫= _) _ => apply succeeds_bind
  | |- succeeds _ (wrap_err _ _) _ => apply succeeds_wrap_err
  | |- succeeds _ (call _) _ => apply succeeds_call; intros ? ?
  | |- succeeds _ (lift_err ?x) _ => destruct x; [discriminate|cbn [lift_err succeeds]]
  | |- succeeds _ (lift_sum ?x) _ => destruct x; [cbn [lift_sum succeeds]|discriminate]
  | |- succeeds _ (match ?x with _ => _ end) _ => destruct x
  end.
Ltac serve := repeat (serve_step; cbv beta).

(** ** What it is to be served *)

(** A look at a file finds it or finds that there is none; directories are
    made, commands other than unmounts succeed, bindings are accepted, the
    mount table lists the mount path; the shared mount and the restriction on
    configuration updates are not switched on. *)
Definition node_serves (mountPath : string) (e : event) : bool :=
  match e with
  | existT (OsStat _) x => match x with inl _ => true | inr err => IsNotExist err end
  | existT (OsMkdirAll _ _) x | existT (OsChmod _ _) x | existT (OsRemove _) x => bool_decide (x = None)
  | existT (DoMount _ _ _ _) x | existT (DoUnmount _) x => bool_decide (x = None)
  | existT (Command cmd args _) x =>
      String.eqb cmd "umount" && (length args =? 1)%nat || bool_decide (snd x = None)
  | existT ReadMountInfo x => match x with inl l => bool_decide (is_Some (mount_minor l mountPath)) | inr _ => false end
  | existT (LikelyNotMountPoint _) x => match x with inl _ => true | inr _ => false end
  | existT (LookupEnv k) v =>
      negb (String.eqb k "STORAGE_CLASS_SHARE_MOUNT" && bool_decide (v = Some "true"))
      && negb (String.eqb k "JFS_NO_UPDATE_CONFIG" && bool_decide (v = Some "enabled"))
  | _ => true
  end.

(** The path an event shows to be there. *)
Definition shows (e : event) : gset string :=
  match e with
  | existT (OsMkdirAll p _) None => {[p]}
  | existT (OsStat p) (inl _) => {[p]}
  | _ => ∅
  end.

(** A path that was found or made is found again. *)
Fixpoint paths_stay (seen : gset string) (tr : list event) : bool :=
  match tr with
  | [] => true
  | e :: t =>
      match e with existT (OsStat p) (inr _) => bool_decide (p ∉ seen) | _ => true end
      && paths_stay (shows e ∪ seen) t
  end.

(** A mount point that was unmounted is none. *)
Fixpoint unmounts_hold (done_ : bool) (tr : list event) : bool :=
  match tr with
  | [] => true
  | e :: t =>
      match e with existT (LikelyNotMountPoint _) (inl b) => b || negb done_ | _ => true end
      && unmounts_hold (done_ || match e with existT (DoUnmount _) None => true | _ => false end) t
  end.

(** What a run may not contain once something happened, it may not contain
    from the start. *)
Lemma missing_only_first_weaken seen tr : missing_only_first seen tr = true -> missing_only_first false tr = true.
Proof.
  revert seen. assert (forall b seen, (b = true -> seen = true) -> missing_only_first seen tr = true -> missing_only_first b tr = true)
    as H; [|intros seen; by apply H].
  induction tr as [|e tr IH]; intros b seen Hb; simpl; [done|]. rewrite !andb_true_iff, !negb_true_iff.
  intros [H1 H2]. split.
  - destruct (pod_missing e); [|done]. destruct b; [|done]. by rewrite Hb in H1.
  - refine (IH _ _ _ H2). rewrite !orb_true_iff. naive_solver.
Qed.

Lemma missing_only_first_app t1 t2 :
  missing_only_first false (t1 ++ t2) = true -> missing_only_first false t1 = true /\ missing_only_first false t2 = true.
Proof.
  generalize false at 1 2. induction t1 as [|e t1 IH]; intros seen; simpl.
  - intros H. split; [done|]. by eapply missing_only_first_weaken.
  - rewrite !andb_true_iff. intros [H1 [H2 H3]%IH]. done.
Qed.

Lemma paths_stay_weaken made made' tr : made' ⊆ made -> paths_stay made tr = true -> paths_stay made' tr = true.
Proof.
  revert made made'. induction tr as [|e tr IH]; intros made made' Hm; simpl; [done|]. rewrite !andb_true_iff. intros [H1 H2]. split.
  - destruct e as [[] x]; try done. destruct x; [done|]. rewrite bool_decide_eq_true in *. set_solver.
  - refine (IH _ _ _ H2). set_solver.
Qed.

Lemma paths_stay_app t1 t2 : paths_stay ∅ (t1 ++ t2) = true -> paths_stay ∅ t1 = true /\ paths_stay ∅ t2 = true.
Proof.
  generalize (∅ : gset string) at 1 2. induction t1 as [|e t1 IH]; intros made; simpl.
  - intros H. split; [done|]. eapply paths_stay_weaken, H. set_solver.
  - rewrite !andb_true_iff. intros [H1 [H2 H3]%IH]. done.
Qed.

Lemma unmounts_hold_app t1 t2 : unmounts_hold false (t1 ++ t2) = true -> unmounts_hold false t1 = true /\ unmounts_hold false t2 = true.
Proof.
  assert (forall tr b d, (b = true -> d = true) -> unmounts_hold d tr = true -> unmounts_hold b tr = true) as Hweak.
  { induction tr as [|e tr IH]; intros b d Hb; simpl; [done|]. rewrite !andb_true_iff. intros [H1 H2]. split.
    - destruct e as [[] x]; try done. destruct x as [[]|]; try done. simpl in *. destruct b; [|done]. by rewrite Hb in H1.
    - eapply IH, H2. rewrite !orb_true_iff. intros [Hx|Hx]; [left; by apply Hb|by right]. }
  generalize false at 1 2. induction t1 as [|e t1 IH]; intros d; simpl.
  - intros H. split; [done|]. by apply (Hweak _ _ d).
  - rewrite !andb_true_iff. intros [H1 [H2 H3]%IH]. done.
Qed.

(** A part that succeeds in a run, and what follows. *)
Lemma exec_bind_returns {A B} (G : list event -> Prop) (p : prog A) (f : A -> prog B) tr r :
  (forall t1 t2, G (t1 ++ t2) -> G t1 /\ G t2) ->
  (forall t rp, exec p t rp -> G t -> is_ok rp = true) ->
  exec (p ≫= f) tr r -> G tr ->
  exists a t1 t2, tr = t1 ++ t2 /\ exec p t1 (Ok a) /\ exec (f a) t2 r /\ G t1 /\ G t2.
Proof.
  intros Happ Hp H HG. apply exec_bind in H as [(a & t1 & t2 & -> & H1 & H2)|(r0 & H1 & Hn & ->)].
  - apply Happ in HG as [HG1 HG2]. exists a, t1, t2. done.
  - apply Hp in H1; [congruence|done].
Qed.

Lemma map_err_ok {A} g (r : result A) : is_ok (map_err g r) = is_ok r.
Proof. by destruct r. Qed.

(** Without the shared mount a volume is mounted under its own name. *)
Lemma GetUniqueId_returns ok path volumeId :
  (forall e, ok e = true -> node_serves path e = true) ->
  succeeds ok (GetUniqueId volumeId) (fun id => id = volumeId).
Proof.
  intros Hok. unfold GetUniqueId, Getenv. apply succeeds_bind, succeeds_bind, succeeds_call. intros v Hv%Hok.
  cbn [succeeds mret prog_ret]. destruct (String.eqb_spec (default EmptyString v) "true") as [He|_]; [|done].
  exfalso. destruct v as [v|]; simpl in He; [subst v|]; discriminate.
Qed.

(** ** Publishing *)

Section publish.
Context (path : string) (fuel : nat).

Definition publish_served (e : event) : bool :=
  node_serves path e && rounds_unset e && pod_usable e && in_time e.

Definition publish_run (tr : list event) : Prop :=
  forallb publish_served tr = true /\ missing_only_first false tr = true /\ paths_stay ∅ tr = true /\
  (count patch_conflict tr < fuel)%nat /\ (count not_ready tr < fuel)%nat.

Lemma publish_run_app t1 t2 : publish_run (t1 ++ t2) -> publish_run t1 /\ publish_run t2.
Proof.
  unfold publish_run. rewrite forallb_app, andb_true_iff, !count_app.
  intros ([H1 H2] & [H3 H4]%missing_only_first_app & [H5 H6]%paths_stay_app & H7 & H8). split_and!; (done || lia).
Qed.

(** A part without loops. *)
Lemma publish_served_exec {A} (p : prog A) t rp :
  succeeds publish_served p (fun _ => True) -> exec p t rp -> publish_run t -> is_ok rp = true.
Proof. intros Hp He [Ht _]. by destruct (succeeds_exec _ _ _ _ _ Hp He Ht) as (a & -> & _). Qed.

Lemma publish_served_spec e :
  publish_served e = true -> node_serves path e = true /\ rounds_unset e = true /\ pod_usable e = true /\ in_time e = true.
Proof. unfold publish_served. rewrite !andb_true_iff. tauto. Qed.

Lemma publish_served_env k v :
  publish_served (LookupEnv k ▷ v) = true ->
  ~ (k = "STORAGE_CLASS_SHARE_MOUNT" /\ v = Some "true") /\ ~ (k = "JFS_NO_UPDATE_CONFIG" /\ v = Some "enabled").
Proof.
  intros [H _]%publish_served_spec. apply andb_prop in H as [H1 H2]. split; intros [-> ->]; discriminate.
Qed.

Lemma CreateTarget_returns n target t rp :
  exec (CreateTarget (S n) target) t rp -> publish_run t -> is_ok rp = true.
Proof.
  apply publish_served_exec. cbn [CreateTarget]. unfold DoWithTimeout, DoWithContext, PathExists.
  apply succeeds_bind, succeeds_try, succeeds_bind, succeeds_call. intros c Hc.
  apply publish_served_spec in Hc as (_ & _ & _ & Hc). destruct c; [done|]. apply succeeds_bind, succeeds_bind, succeeds_call.
  intros [fi|e] Hx; [done|]. apply publish_served_spec in Hx as [Hx _]. simpl in Hx. rewrite Hx.
  intros y _ [Hy _]%publish_served_spec. by destruct y.
Qed.

(** The second look at the directory of the volume comes after it was made. *)
Lemma CreateVol_returns lib fs v sub t rp :
  exec (CreateVol lib fs v sub 0 EmptyString) t rp -> publish_run t -> is_ok rp = true.
Proof.
  set (dir := PathJoin [MountPath fs; sub]).
  assert (forall t rp, exec (open_perm dir ≫= fun _ => quota_and_qos lib fs sub 0 EmptyString ≫= fun _ => mret dir) t rp ->
    forallb publish_served t = true -> (forall e rest, t <> (OsStat dir ▷ inr e) :: rest) -> is_ok rp = true) as Hopen.
  { clear. intros t rp H Hs Hnot.
    apply exec_bind in H as [([] & t1 & t2 & -> & H1 & [_ ->])|(r0 & H & Hn & ->)]; [done|exfalso].
    apply exec_call_inv in H as ([fi|e] & t' & -> & _ & H); [|by eapply Hnot].
    destruct (negb _); [|by destruct H as [_ ->]].
    apply exec_call_inv in H as (y & t'' & -> & _ & H). destruct y; [|by destruct H as [_ ->]].
    simpl in Hs. discriminate. }
  intros H (Hs & _ & Hd & _). apply exec_bind in H as [(ex & t1 & t2 & -> & H1 & H)|(r0 & H1 & Hn & ->)];
    apply exec_PathExists_bind in H1 as (x & t' & -> & H1); apply andb_prop in Hs as [[Hx _]%publish_served_spec Hs];
    apply andb_prop in Hd as [_ Hd].
  - destruct x as [fi|e].
    + destruct H1 as [-> [= ->]]. eapply (Hopen _ _ H Hs). intros e rest ->. simpl in Hd.
      rewrite bool_decide_eq_false_2 in Hd by set_solver. discriminate.
    + simpl in Hx. rewrite Hx in H1. destruct H1 as [-> [= ->]]. cbn [negb] in H.
      apply exec_bind in H as [([] & t1 & t3 & -> & H1 & H)|(r0 & H1 & Hn & ->)];
        apply exec_call_inv in H1 as (y & t & -> & _ & H1); apply andb_prop in Hs as [[Hy _]%publish_served_spec Hs];
        destruct y; try done; destruct H1 as [-> ?]; [|by subst r0].
      eapply (Hopen _ _ H Hs). intros e' rest ->. simpl in Hd.
      rewrite bool_decide_eq_false_2 in Hd by set_solver. discriminate.
  - exfalso. destruct x as [fi|e]; [by destruct H1 as [_ ->]|]. simpl in Hx. rewrite Hx in H1. by destruct H1 as [_ ->].
Qed.

Lemma publish_options_returns req volCap t rp : exec (publish_options req volCap) t rp -> publish_run t -> is_ok rp = true.
Proof. apply publish_served_exec. unfold publish_options. by serve. Qed.

Lemma publish_served_node e : publish_served e = true -> node_serves path e = true.
Proof. by intros [H _]%publish_served_spec. Qed.

Lemma bind_returns bindSource target : succeeds publish_served (bind_target bindSource target) (fun _ => True).
Proof. intros x _ [Hx _]%publish_served_spec. by destruct x. Qed.

Lemma checkBindAndMount_returns bindSource target t rp :
  exec (checkBindAndMount path bindSource target) t rp -> publish_run t -> is_ok rp = true.
Proof.
  apply publish_served_exec. unfold checkBindAndMount. apply succeeds_bind, succeeds_call.
  intros x [Hx _]%publish_served_spec. destruct x as [l|]; [|discriminate]. simpl in Hx. apply bool_decide_eq_true in Hx as [m Hm].
  cbn [lift_sum mbind prog_bind prog_bind_go]. rewrite Hm. destruct (target_minor l target); [|apply bind_returns].
  destruct (_ =? _); [done|]. apply succeeds_bind. eapply (succeeds_mono _ _ (fun _ => True)); [intros _ _; apply bind_returns|].
  unfold UmountPath. by serve.
Qed.

(** The secrets name the file system, and the engine is not named by an
    empty text. *)
Lemma prepare_returns secrets s :
  secrets <> None -> mget secrets "name" <> EmptyString -> mlookup secrets "metaurl" <> Some EmptyString ->
  succeeds publish_served (prepare secrets s) (fun _ => True).
Proof.
  intros Hs Hn%String.eqb_neq Hm. unfold prepare. destruct (mlookup secrets "metaurl") as [source|] eqn:Hurl.
  - apply succeeds_bind, succeeds_wrap_err. unfold ceFormat. destruct secrets as [m|]; [|done]. rewrite Hn.
    assert (String.eqb (mget (Some m) "metaurl") EmptyString = false) as ->.
    { apply String.eqb_neq. unfold mget. rewrite Hurl. simpl. congruence. }
    apply succeeds_bind. apply (succeeds_mono _ _ (fun _ => True)); [|by serve]. intros _ _.
    destruct (format_args _ _) as [args stripped]. apply succeeds_bind, succeeds_call. intros [] _.
    apply succeeds_bind, succeeds_call. intros [out err] [Hc _]%publish_served_spec. by destruct err.
  - apply succeeds_bind. apply (succeeds_mono _ _ (fun _ => True)); [|unfold Upgrade; by serve]. intros _ _.
    apply succeeds_bind. apply (succeeds_mono _ _ (fun _ => True)); [done|].
    destruct (String.eqb (mget secrets "token") EmptyString); [done|]. apply succeeds_bind, succeeds_wrap_err.
    unfold AuthFs. destruct secrets as [m|]; [|done]. rewrite Hn. destruct (auth_args _) as [args stripped]. apply succeeds_bind, succeeds_call.
    intros v [_ Hv]%publish_served_env.
    assert (match v with Some v => String.eqb v "enabled" | None => false end = false) as ->.
    { destruct v as [v|]; [|done]. apply String.eqb_neq. intros ->. by apply Hv. }
    intros [] _ _ envs _ _ order _ _ [out err] _ [Hc _]%publish_served_spec. by destruct err.
Qed.

Lemma JMount_returns cfg quantity_ok s storage volumeId mountPath target options t rp :
  quantities_ok quantity_ok s = true ->
  exec (JMount cfg quantity_ok (Some s) fuel storage volumeId mountPath target options) t rp -> publish_run t -> is_ok rp = true.
Proof.
  intros Hq H (Hs & Hm & _ & Hc & Hr). assert (rp = Ok tt) as ->; [|done].
  eapply JMount_completes; [exact H|exact Hq| |exact Hm|exact Hc|exact Hr].
  apply forallb_forall. intros e He. rewrite forallb_forall in Hs. apply Hs, publish_served_spec in He as (_ & -> & -> & ->). done.
Qed.

Section mount.
Context (lib : Libs) (secrets volCtx : gomap) (s : JfsSetting).
Context (Hset : ParseSetting (yaml_map lib) secrets volCtx true = inl s).
Context (Hquant : quantities_ok (quantity_parses lib) s = true).
Context (Hbase : exists base host, mlookup (Envs s) "BASE_URL" = Some base /\ url_parse lib base = inl host).
Context (Htoken : is_Some (mlookup secrets "consoleToken")) (Hmeta : mlookup secrets "metaurl" <> Some EmptyString).

Lemma JfsMount_returns cfg volumeID target options t rp :
  exec (JfsMount cfg lib fuel volumeID target secrets volCtx options true) t rp -> publish_run t -> is_ok rp = true.
Proof using Hset Hquant Hbase Htoken Hmeta.
  intros H HG. unfold JfsMount in H.
  assert (secrets <> None) as Hs by (intros ->; by destruct Htoken).
  assert (mget secrets "name" <> EmptyString) as Hname.
  { intros Hn. unfold ParseSetting in Hset. destruct secrets; [|done]. by rewrite Hn in Hset. }
  assert (exists c, GetConsole lib s secrets = Ret c) as [console Hcons].
  { destruct Hbase as (base & host & H1 & H2), Htoken as [tok H3]. unfold GetConsole. rewrite H1, H2, H3. by eexists. }
  apply (exec_bind_returns publish_run) in H as (id & t1 & t2 & -> & _ & H & _ & HG2); [|exact publish_run_app| |done].
  2:{ intros t' rp'. apply publish_served_exec. eapply succeeds_mono; [|apply (GetUniqueId_returns _ path), publish_served_node]. done. }
  rewrite Hset in H. cbn [lift_sum mbind prog_bind prog_bind_go] in H. rewrite Hcons in H. cbn [mbind prog_bind prog_bind_go] in H.
  apply (exec_bind_returns publish_run) in H as (src & t3 & t4 & -> & _ & H & _ & HG4); [|exact publish_run_app| |done].
  2:{ intros t' rp'. by apply publish_served_exec, prepare_returns. }
  apply (exec_bind_returns publish_run) in H as (mp & t5 & t6 & -> & _ & [_ ->] & _); [done|exact publish_run_app| |done].
  intros t' rp' H' HG'. unfold MountFs in H'. change (UsePod (with_source src s)) with (UsePod s) in H'.
  rewrite (ParseSetting_UsePod _ _ _ _ _ Hs Hset) in H'. cbv beta iota in H'.
  apply exec_call_inv in H' as ([] & t'' & -> & _ & H'). apply (publish_run_app [_]) in HG' as [_ HG'].
  apply (exec_bind_returns publish_run) in H' as ([] & t7 & t8 & -> & _ & [_ ->] & _); [done|exact publish_run_app| |done].
  intros t3' rp'' H'' HG''. apply exec_wrap_err in H'' as (r1 & H1 & ->). rewrite map_err_ok.
  eapply (JMount_returns cfg (quantity_parses lib) (with_source src s) EmptyString); [exact Hquant|exact H1|exact HG''].
Qed.
End mount.
End publish.

(** A request that names a target, a supported capability and secrets from
    which the file system and the console can be found. *)
Definition publishable (lib : Libs) (req : NodePublishVolumeRequest) : bool :=
  negb (String.length (np_TargetPath req) =? 0)%nat
  && match np_Capability req with Some c => isValidVolumeCapabilities [c] | None => false end
  && match ParseSetting (yaml_map lib) (np_Secrets req) (np_VolumeContext req) true with
     | inl s => quantities_ok (quantity_parses lib) s
                && match mlookup (Envs s) "BASE_URL" with
                   | Some base => match url_parse lib base with inl _ => true | inr _ => false end
                   | None => false
                   end
     | inr _ => false
     end
  && bool_decide (is_Some (mlookup (np_Secrets req) "consoleToken"))
  && negb (bool_decide (mlookup (np_Secrets req) "metaurl" = Some EmptyString)).

(** C15 A request to publish a volume is answered without an error when it is
    served: every call succeeds but for looks that find nothing yet and
    patches that meet a conflict, what was found or made stays, only the
    first look at the mount pod may find none, and the fuel exceeds the
    conflicts and the looks that came too early. *)
Theorem NodePublishVolume_completes cfg lib fuel req tr r :
  exec (NodePublishVolume cfg lib fuel req) tr r ->
  publishable lib req = true ->
  forallb (publish_served (PathJoin [PodMountBase; np_VolumeId req])) tr = true ->
  missing_only_first false tr = true -> paths_stay ∅ tr = true ->
  (count patch_conflict tr < fuel)%nat -> (count not_ready tr < fuel)%nat ->
  r = Ok tt.
Proof.
  set (path := PathJoin [PodMountBase; np_VolumeId req]). intros H Hp Hs Hm Hd Hc Hr.
  assert (publish_run path fuel tr) as HG by done. clear Hs Hm Hd Hc Hr.
  unfold publishable in Hp. rewrite !andb_true_iff, !negb_true_iff, bool_decide_eq_true, bool_decide_eq_false in Hp.
  destruct Hp as ((((Ht & Hcap) & Hset) & Htok) & Hmeta). unfold NodePublishVolume, internal in H. rewrite Ht in H.
  destruct (np_Capability req) as [volCap|]; [|done]. rewrite Hcap in H. cbn [negb] in H.
  destruct (ParseSetting _ _ _ _) as [s|] eqn:Hps; [|done]. apply andb_prop in Hset as [Hq Hb].
  assert (exists base host, mlookup (Envs s) "BASE_URL" = Some base /\ url_parse lib base = inl host) as Hbase.
  { destruct (mlookup (Envs s) "BASE_URL") as [base|]; [|done]. destruct (url_parse lib base) as [host|] eqn:Hu; [|done]. by exists base, host. }
  destruct fuel as [|n]; [destruct HG as (_ & _ & _ & HG & _); lia|].
  pose proof (publish_run_app path (S n)) as Happ.
  apply (exec_bind_returns (publish_run path (S n))) in H as ([] & t1 & t2 & -> & _ & H & _ & HG2); [|done| |done].
  2:{ intros t rp (r1 & Hx & ->)%exec_wrap_err HGt. rewrite map_err_ok. by eapply CreateTarget_returns. }
  apply (exec_bind_returns (publish_run path (S n))) in H as (opts & t3 & t4 & -> & _ & H & _ & HG4); [|done| |done].
  2:{ intros t rp. apply publish_options_returns. }
  apply (exec_bind_returns (publish_run path (S n))) in H as (fs & t5 & t6 & -> & Hfs & H & HG5 & HG6); [|done| |done].
  2:{ intros t rp (r1 & Hx & ->)%exec_wrap_err HGt. rewrite map_err_ok.
    exact (JfsMount_returns path (S n) lib _ _ s Hps Hq Hbase Htok Hmeta _ _ _ _ _ _ Hx HGt). }
  assert (MountPath fs = path) as Hpath.
  { apply exec_wrap_err_ok, exec_JfsMount_ok in Hfs as (id & u1 & u2 & u3 & -> & Hid & -> & _).
    apply Happ in HG5 as [[HG5 _] _].
    destruct (succeeds_exec _ _ _ _ _ (GetUniqueId_returns _ path (np_VolumeId req) (publish_served_node path)) Hid HG5) as (id' & [= <-] & ->). done. }
  apply (exec_bind_returns (publish_run path (S n))) in H as (src & t7 & t8 & -> & _ & H & _ & HG8); [|done| |done].
  2:{ intros t rp (r1 & Hx & ->)%exec_wrap_err HGt. rewrite map_err_ok. eapply CreateVol_returns; [exact Hx|exact HGt]. }
  apply exec_wrap_err in H as (r1 & H & ->). unfold GetBasePath in H. rewrite Hpath in H.
  apply checkBindAndMount_returns with (fuel := S n) in H; [|done]. by destruct r1 as [[]| | |].
Qed.

(** ** Unpublishing *)

(** An unmount that succeeded, so that the loop goes on. *)
Definition unmounted (e : event) : bool :=
  match e with
  | existT (Command cmd args _) x => String.eqb cmd "umount" && (length args =? 1)%nat && bool_decide (snd x = None)
  | _ => false
  end.

Definition unpublish_served (e : event) : bool :=
  node_serves EmptyString e && missing_not_found e && negb (patch_failed e || delete_failed e).

Lemma unpublish_served_spec e : unpublish_served e = true -> node_serves EmptyString e = true.
Proof. unfold unpublish_served. rewrite !andb_true_iff. tauto. Qed.

Section unpublish.
Context (fuel : nat).

Definition unpublish_run (tr : list event) : Prop :=
  forallb unpublish_served tr = true /\ missing_only_first false tr = true /\ unmounts_hold false tr = true /\
  (count patch_conflict tr < fuel)%nat /\ (count unmounted tr < fuel)%nat.

Lemma unpublish_run_app t1 t2 : unpublish_run (t1 ++ t2) -> unpublish_run t1 /\ unpublish_run t2.
Proof.
  unfold unpublish_run. rewrite forallb_app, andb_true_iff, !count_app.
  intros ([H1 H2] & [H3 H4]%missing_only_first_app & [H5 H6]%unmounts_hold_app & H7 & H8). split_and!; (done || lia).
Qed.

Lemma umount_loop_returns n target t rp :
  exec (umount_loop n target) t rp -> forallb unpublish_served t = true -> (count unmounted t < n)%nat -> is_ok rp = true.
Proof.
  revert t. induction n as [|n IH]; intros t H Hs Hc; [lia|]. cbn [umount_loop] in H.
  apply exec_call_inv in H as ([out [e|]] & t' & -> & _ & H); apply andb_prop in Hs as [Hx Hs]; cbv beta iota in H.
  - destruct (negb (not_mounted_msg out)); [|by destruct H as [_ ->]].
    apply exec_call_inv in H as ([o err] & t'' & -> & _ & H). apply andb_prop in Hs as [Hy _].
    apply unpublish_served_spec in Hy. apply exec_lift_err in H as [_ ->]. by destruct err.
  - apply (IH _ H Hs). rewrite count_cons in Hc. simpl in Hc. lia.
Qed.

(** What remains of the cleaning once the mount is gone. *)
Lemma remove_returns path otherwise d t rp :
  exec (remove_if_unmounted path otherwise) t rp -> forallb unpublish_served t = true -> unmounts_hold d t = true ->
  (forall t, exec otherwise t rp -> forallb unpublish_served t = true -> unmounts_hold d t = true -> d = false -> is_ok rp = true) ->
  is_ok rp = true.
Proof.
  intros H Hs Hu Ho. apply exec_remove_if_unmounted in H as (x & t' & -> & H).
  apply andb_prop in Hs as [Hx%unpublish_served_spec Hs]. apply andb_prop in Hu as [Hd Hu]. rewrite orb_false_r in Hu.
  destruct x as [[]|e]; [| |discriminate].
  - destruct H as (y & -> & ->). apply andb_prop in Hs as [Hy%unpublish_served_spec _]. by destruct y.
  - simpl in Hd. apply negb_true_iff in Hd. by eapply Ho.
Qed.

Lemma unmount_and_remove_returns path d t rp :
  exec (unmount_and_remove path) t rp -> forallb unpublish_served t = true -> unmounts_hold d t = true -> is_ok rp = true.
Proof.
  intros H Hs Hu. apply exec_call_inv in H as (y & t' & -> & _ & H).
  apply andb_prop in Hs as [Hy%unpublish_served_spec Hs]. destruct y; [discriminate|].
  simpl in Hu. rewrite orb_true_r in Hu.
  eapply remove_returns; [exact H|exact Hs|exact Hu|done].
Qed.

Lemma CleanupMountPoint_returns path t rp : exec (CleanupMountPoint path) t rp -> unpublish_run t -> is_ok rp = true.
Proof.
  unfold CleanupMountPoint. intros H (Hs & _ & Hu & _). apply exec_PathExists_bind in H as (x & t' & -> & H).
  apply andb_prop in Hs as [Hx%unpublish_served_spec Hs]. simpl in Hu.
  destruct x as [fi|e].
  - cbn [negb] in H. eapply remove_returns; [exact H|exact Hs|exact Hu|]. intros t H' Hs' Hu' _.
    by eapply unmount_and_remove_returns.
  - simpl in Hx. rewrite Hx in H. by destruct H as [_ ->].
Qed.
End unpublish.

(** C14 A request to unpublish a volume is answered without an error when it is
    served: a lazy unmount succeeds, what was unmounted is no mount point any
    more, only the first look at the mount pod may find none, its deletion is
    accepted and no patch fails for another reason than a conflict, and the
    fuel exceeds the conflicts and the mounts stacked on the target. *)
Theorem NodeUnpublishVolume_completes cfg lib fuel volumeId target tr r :
  exec (NodeUnpublishVolume cfg lib fuel volumeId target) tr r ->
  target <> EmptyString ->
  forallb unpublish_served tr = true ->
  missing_only_first false tr = true -> unmounts_hold false tr = true ->
  (count patch_conflict tr < fuel)%nat -> (count unmounted tr < fuel)%nat ->
  r = Ok tt.
Proof.
  intros H Ht Hs Hm Hu Hc Hn. assert (unpublish_run fuel tr) as HG by done. clear Hs Hm Hu Hc Hn.
  unfold NodeUnpublishVolume in H. destruct (Nat.eqb_spec (String.length target) 0) as [Hz|_]; [by destruct target|].
  pose proof (unpublish_run_app fuel) as Happ.
  apply (exec_bind_returns (unpublish_run fuel)) in H as ([] & t1 & t2 & -> & _ & H & _ & HG2); [|done| |done].
  2:{ intros t rp Hx (Hs & _ & _ & _ & Hn). by eapply umount_loop_returns. }
  apply (exec_bind_returns (unpublish_run fuel)) in H as ([] & t3 & t4 & -> & _ & H & _ & HG4); [|done| |done].
  2:{ intros t rp. apply CleanupMountPoint_returns. }
  apply (exec_bind_returns (unpublish_run fuel)) in H as (id & t5 & t6 & -> & _ & H & _ & (Hs & Hm & _ & Hc & _)); [|done| |done].
  2:{ intros t rp Hx [Hs _].
    by destruct (succeeds_exec _ _ _ _ _ (GetUniqueId_returns _ EmptyString volumeId unpublish_served_spec) Hx Hs) as (a & -> & _). }
  eapply JUmount_completes; [exact H| |exact Hm|exact Hc].
  apply forallb_forall. intros e He. rewrite forallb_forall in Hs. apply Hs in He. unfold unpublish_served in He.
  rewrite !andb_true_iff in He. destruct He as [[_ ->] ->]. done.
Qed.
