(* ===== verification/IdLocks.v ===== *)
(** * Mutual exclusion of the controller's operations

    The gRPC server runs the calls of the controller concurrently.  In every
    interleaving of any number of them over one [ObjLocks] table, two
    operations on the same id are never between the acquisition and the
    release of its lock at the same time; and every call gives the lock back
    on whatever way it ends. *)
From S2P Require Import Prelude GoStrings GoPath GoTime K8sTypes PatchText Prog Protocol Config K8sClient Util Console MountPod PodMount ProcessMount Juicefs Quiet ControllerService.
From stdpp Require Import options.

#[local] Arguments exec : simpl never.

(** ** Calls of the controller *)

Inductive Request :=
| ReqCreateVolume (req : CreateVolumeRequest)
| ReqDeleteVolume (volumeID : string) (secrets : gomap)
| ReqCreateSnapshot (volumeID name : string) (secrets : gomap)
| ReqDeleteSnapshot (snapID : string) (secrets : gomap)
| ReqExpandVolume (volumeID : string) (capRange : option Z) (secrets : gomap).

(** The handler of a call; what it answers does not matter here. *)
Definition serve (cfg : Config) (lib : Libs) (fuel : nat) (r : Request) : prog unit :=
  match r with
  | ReqCreateVolume req => CreateVolume cfg lib fuel req ≫= fun _ => mret tt
  | ReqDeleteVolume id s => DeleteVolume cfg lib fuel id s
  | ReqCreateSnapshot id n s => CreateSnapshot cfg lib fuel id n s ≫= fun _ => mret tt
  | ReqDeleteSnapshot id s => DeleteSnapshot cfg lib fuel id s
  | ReqExpandVolume id c s => ControllerExpandVolume lib id c s ≫= fun _ => mret tt
  end.

(** ** The table and the protocol *)

(** How the table answers; every other call leaves it alone. *)
Definition table_answer (o : op) (w : ObjLocks) (x : resp o) (w' : ObjLocks) : Prop :=
  match o return resp o -> Prop with
  | LocksTryAcquire id => fun b => (b, w') = TryAcquire w id
  | LocksRelease id => fun _ => w' = Release w id
  | _ => fun _ => w' = w
  end x.

Definition is_idlock (o : op) : bool :=
  match o with LocksTryAcquire _ | LocksRelease _ => true | _ => false end.

(** The state is the id a program holds: it asks for an id only when it holds
    none, and releases only the one it holds. *)
Definition idlock : protocol := {|
  pstate := option string;
  pre s o := match o with
             | LocksTryAcquire _ => s = None
             | LocksRelease id => s = Some id
             | _ => True
             end;
  post s o := match o return resp o -> option string with
              | LocksTryAcquire id => fun b => if b then Some id else s
              | LocksRelease _ => fun _ => None
              | _ => fun _ => s
              end;
|}.

(** A program that ends holds nothing. *)
Definition releases (s : option string) (r : result unit) : Prop := r <> NoFuel -> s = None.

(** ** The handlers keep to the protocol *)

Lemma wp_idlock_frame {A} (p : prog A) s :
  avoids is_idlock p -> wp idlock p s (fun s' _ => s' = s).
Proof. apply wp_frame. intros o Ho. by destruct o. Qed.

Lemma wp_with_id_lock {A} fmt id (p : prog A) :
  avoids is_idlock p ->
  wp idlock (with_id_lock fmt id p) None (fun s r => r <> NoFuel -> s = None).
Proof.
  intros Hp. split; [done|]. intros [] _; [|done]. apply wp_defer.
  eapply wp_mono; [|by apply wp_idlock_frame]. simpl. intros s r ->. destruct r; done.
Qed.

Lemma spares_idlock : spares is_idlock.
Proof. intros o Ho. by destruct o. Qed.
#[export] Hint Resolve spares_idlock : avoids.

Lemma wp_answer {A} (p : prog A) :
  wp idlock p None (fun s r => r <> NoFuel -> s = None) ->
  wp idlock (p ≫= fun _ => mret tt) None releases.
Proof.
  intros H. apply wp_bind. eapply wp_mono; [|exact H]. simpl. intros s r Hr.
  unfold releases. destruct r; simpl; auto.
Qed.

(** The id a call locks, and the calls that are refused before. *)
Definition request_id (r : Request) : string :=
  match r with
  | ReqCreateVolume req => cv_Name req
  | ReqDeleteVolume id _ => id
  | ReqCreateSnapshot _ name _ => name
  | ReqDeleteSnapshot id _ => id
  | ReqExpandVolume id _ _ => id
  end.

Definition request_invalid (r : Request) : bool :=
  match r with
  | ReqCreateVolume req => (String.length (cv_Name req) =? 0)%nat || bool_decide (cv_Capabilities req = None)
  | ReqDeleteVolume id _ => (String.length id =? 0)%nat
  | ReqCreateSnapshot id _ _ => (String.length id =? 0)%nat
  | ReqDeleteSnapshot id _ => (String.length id =? 0)%nat
  | ReqExpandVolume id c _ => String.eqb id EmptyString || bool_decide (c = None)
  end.

(** A handler refuses the call, or does its work under the lock of the id;
    the work makes none of the calls [f]. *)
Definition under_lock {A} (f : op -> bool) (r : Request) (p : prog A) : Prop :=
  if request_invalid r then exists msg, p = Throw (ErrStatus InvalidArgument msg [] None)
  else exists fmt q, p = with_id_lock fmt (request_id r) q /\ avoids f q.

Section handlers.
Context (f : op -> bool) (Hf : spares f).
Context (cfg : Config) (lib : Libs) (fuel : nat).

Lemma handler_op o : provider_op o = true -> f o = false.
Proof using Hf. apply Hf. Qed.
#[local] Hint Resolve handler_op Hf : core.
#[local] Hint Resolve Hf : avoids.
#[local] Hint Extern 1 (provider_op _ = true) => reflexivity : core.

Lemma CreateVolume_under_lock req : under_lock f (ReqCreateVolume req) (CreateVolume cfg lib fuel req).
Proof using Hf.
  unfold under_lock, request_invalid, CreateVolume. destruct (_ =? 0)%nat; [by eexists|].
  destruct (cv_Capabilities req); [|by eexists]. rewrite orb_false_l. eexists _, _. split; [done|].
  unfold controller_mount, create_content, CreateVol, CreateVolFromSnap, CreateVolFromVol,
    path_exists, PathExists, open_perm, internal. avoid.
Qed.

Lemma DeleteVolume_under_lock id s : under_lock f (ReqDeleteVolume id s) (DeleteVolume cfg lib fuel id s).
Proof using Hf.
  unfold under_lock, request_invalid, DeleteVolume. destruct (_ =? 0)%nat; [by eexists|].
  eexists _, _. split; [done|]. unfold controller_mount, internal, DeleteVol, RmrDir, path_exists, PathExists. avoid.
Qed.

Lemma CreateSnapshot_under_lock id n s : under_lock f (ReqCreateSnapshot id n s) (CreateSnapshot cfg lib fuel id n s).
Proof using Hf.
  unfold under_lock, request_invalid, CreateSnapshot. destruct (_ =? 0)%nat; [by eexists|].
  eexists _, _. split; [done|]. unfold controller_mount, internal, CreateSnap, now_seconds. avoid.
Qed.

Lemma DeleteSnapshot_under_lock id s : under_lock f (ReqDeleteSnapshot id s) (DeleteSnapshot cfg lib fuel id s).
Proof using Hf.
  unfold under_lock, request_invalid, DeleteSnapshot. destruct (_ =? 0)%nat; [by eexists|].
  eexists _, _. split; [done|]. unfold controller_mount, internal, DeleteSnap, path_exists, PathExists. avoid.
Qed.

Lemma ControllerExpandVolume_under_lock id c s : under_lock f (ReqExpandVolume id c s) (ControllerExpandVolume lib id c s).
Proof using Hf.
  unfold under_lock, request_invalid, ControllerExpandVolume. destruct (String.eqb _ _); [by eexists|].
  destruct c; [|by eexists]. rewrite orb_false_l. eexists _, _. split; [done|].
  unfold GetConsole, UpdateQuota, request_unchecked, runHttpRequestRaw. avoid.
Qed.

Lemma avoids_under_lock {A} r (p : prog A) :
  (forall id, f (LocksTryAcquire id) = false) -> (forall id, f (LocksRelease id) = false) -> under_lock f r p -> avoids f p.
Proof.
  intros H1 H2. unfold under_lock. destruct (request_invalid r); [by intros [msg ->]|].
  intros (fmt & q & -> & Hq). unfold with_id_lock. avoid; auto.
Qed.

(** The handlers change neither pods nor the reference lock. *)
Lemma serve_avoids r :
  (forall id, f (LocksTryAcquire id) = false) -> (forall id, f (LocksRelease id) = false) -> avoids f (serve cfg lib fuel r).
Proof using Hf.
  intros H1 H2. destruct r as [req|id s|id n s|id s|id c s]; cbn [serve];
    repeat (apply avoids_bind; [|done]); eapply avoids_under_lock; try done.
  - apply CreateVolume_under_lock.
  - apply DeleteVolume_under_lock.
  - apply CreateSnapshot_under_lock.
  - apply DeleteSnapshot_under_lock.
  - apply ControllerExpandVolume_under_lock.
Qed.
End handlers.

#[local] Hint Resolve CreateVolume_under_lock DeleteVolume_under_lock CreateSnapshot_under_lock
  DeleteSnapshot_under_lock ControllerExpandVolume_under_lock spares_idlock : core.

(** Every handler of the controller keeps to the protocol. *)
Lemma wp_under_lock {A} r (p : prog A) :
  under_lock is_idlock r p -> wp idlock p None (fun s x => x <> NoFuel -> s = None).
Proof.
  unfold under_lock. destruct (request_invalid r); [by intros [msg ->]|].
  intros (fmt & q & -> & Hq). by apply wp_with_id_lock.
Qed.

Lemma serve_idlock cfg lib fuel r : wp idlock (serve cfg lib fuel r) None releases.
Proof. destruct r; cbn [serve]; [apply wp_answer| |apply wp_answer| |apply wp_answer]; eapply wp_under_lock; eauto. Qed.

(** ** Ways out *)

(** How a call [r] that did not stop for want of fuel can have gone. *)
Definition outcome {A} (r : Request) (tr : list event) (res : result A) : Prop :=
  if request_invalid r then tr = [] /\ exists msg, res = Err (ErrStatus InvalidArgument msg [] None)
  else (tr = [LocksTryAcquire (request_id r) ▷ false] /\
        exists fmt, res = Err (ErrStatus Aborted fmt [request_id r] None)) \/
       exists body, tr = (LocksTryAcquire (request_id r) ▷ true) :: body ++ [LocksRelease (request_id r) ▷ tt] /\
         Forall (fun e => is_idlock (projT1 e) = false) body.

Lemma exec_under_lock {A} r (p : prog A) tr res :
  under_lock is_idlock r p -> exec p tr res -> res <> NoFuel -> outcome r tr res.
Proof.
  unfold under_lock, outcome. destruct (request_invalid r).
  - intros [msg ->] [-> ->] _. eauto.
  - intros (fmt & q & -> & Hq) [[-> ->]|[(body & -> & H & _)|(body & _ & _ & ->)]]%exec_with_id_lock Hr; [eauto| |done].
    right. exists body. split; [done|]. by eapply avoids_exec.
Qed.

Lemma outcome_answer {A} r (p : prog A) tr res :
  under_lock is_idlock r p -> exec (p ≫= fun _ => mret tt) tr res -> res <> NoFuel -> outcome r tr res.
Proof.
  intros Hp [(a & t1 & t2 & -> & H & [-> ->])|(r0 & H & Hn & ->)]%exec_bind Hr;
    apply (exec_under_lock _ _ _ _ Hp) in H; [|done| |by intros ->].
  - rewrite app_nil_r. revert H. unfold outcome. destruct (request_invalid r); [by intros [_ [? [=]]]|].
    intros [[_ [? [=]]]|H]; eauto.
  - revert H. unfold outcome. destruct (request_invalid r).
    + intros [-> [msg ->]]. eauto.
    + intros [[-> [fmt ->]]|H]; eauto.
Qed.

(** C25 A malformed call of the controller is refused before any call is made;
    a call for an id another operation holds is aborted and touches nothing;
    any other call gives the lock of its id back as the last thing it does,
    whether it ends with an answer, an error or a panic, and does not use
    the lock table in between. *)
Theorem serve_outcomes cfg lib fuel r tr res :
  exec (serve cfg lib fuel r) tr res -> res <> NoFuel -> outcome r tr res.
Proof. destruct r; cbn [serve]; (eapply outcome_answer || eapply exec_under_lock); eauto. Qed.

(** ** Exclusion *)

(** What the pool holds is in the table, and no id is held twice. *)
Definition consistent (w : ObjLocks) (ss : list (option string)) : Prop :=
  (forall i id, ss !! i = Some (Some id) -> id ∈ locks w) /\
  (forall i j id, ss !! i = Some (Some id) -> ss !! j = Some (Some id) -> i = j).

Lemma consistent_step w ss i s o (x : resp o) w' :
  consistent w ss -> ss !! i = Some s -> pre idlock s o -> table_answer o w x w' ->
  consistent w' (<[i := post idlock s o x]> ss).
Proof.
  intros [H1 H2] Hi Hpre Ha.
  destruct (is_idlock o) eqn:Ho.
  2:{ assert (post idlock s o x = s /\ w' = w) as [-> ->] by (by destruct o). by rewrite list_insert_id. }
  destruct o; try discriminate Ho; simpl in Hpre, Ha; subst.
  - unfold TryAcquire in Ha. case_decide as Hd; injection Ha as -> ->; simpl.
    + by rewrite list_insert_id.
    + split.
      * intros j id' Hj. simpl. apply list_lookup_insert_Some in Hj as [(-> & [= ->] & _)|[Hne Hj]]; [set_solver|].
        apply H1 in Hj. set_solver.
      * intros j k id' Hj Hk.
        apply list_lookup_insert_Some in Hj as [(-> & Hj' & _)|[Hne Hj]];
          apply list_lookup_insert_Some in Hk as [(-> & Hk' & _)|[Hne' Hk]]; simplify_eq; try done; eauto;
          exfalso; apply Hd; eauto.
  - split.
    + intros j id' Hj. apply list_lookup_insert_Some in Hj as [(-> & [=] & _)|[Hne Hj]].
      simpl. apply elem_of_difference. split; [by eapply H1|]. intros ->%elem_of_singleton.
      apply Hne. by eapply H2.
    + intros j k id' Hj Hk.
      apply list_lookup_insert_Some in Hj as [(-> & [=] & _)|[Hne Hj]].
      apply list_lookup_insert_Some in Hk as [(-> & [=] & _)|[Hne' Hk]]. eauto.
Qed.

(** Configurations in which the pool follows the protocol over the table. *)
Definition inv (ss : list (option string)) (c : conf) : Prop :=
  follow idlock releases ss (pool c) /\ consistent (world c) ss.

Lemma inv_step ss c l c' :
  inv ss c -> step table_answer c l c' ->
  exists s, ss !! l.1 = Some s /\ pre idlock s (projT1 l.2) /\
    table_answer (projT1 l.2) (world c) (projT2 l.2) (world c') /\
    inv (<[l.1 := post idlock s (projT1 l.2) (projT2 l.2)]> ss) c'.
Proof.
  intros [Hf Hc] Hs. destruct (follow_step _ _ _ _ _ _ _ Hf Hs) as (s & Hi & Hpre & Ha & Hf').
  exists s. split_and!; [done..|]. split; [done|]. by eapply consistent_step.
Qed.

Lemma inv_steps ss c tr c' : inv ss c -> steps table_answer c tr c' -> exists ss', inv ss' c'.
Proof.
  intros Hi Hs. revert ss Hi. induction Hs as [c|c1 l c2 tr c3 H1 H2 IH]; intros ss Hi; [by exists ss|].
  destruct (inv_step _ _ _ _ Hi H1) as (s & _ & _ & _ & Hi'). eauto.
Qed.

(** A thread holds its id until it releases it. *)
Lemma held_steps ss c tr c' i id :
  inv ss c -> ss !! i = Some (Some id) -> steps table_answer c tr c' ->
  (i, LocksRelease id ▷ tt) ∈ tr \/ exists ss', inv ss' c' /\ ss' !! i = Some (Some id).
Proof.
  intros Hi Hh Hs. revert ss Hi Hh.
  induction Hs as [c|c1 l c2 tr c3 H1 H2 IH]; intros ss Hi Hh; [right; by exists ss|].
  destruct (inv_step _ _ _ _ Hi H1) as (s & Hl & Hpre & _ & Hi').
  assert (l = (i, LocksRelease id ▷ tt) \/
          <[l.1 := post idlock s (projT1 l.2) (projT2 l.2)]> ss !! i = Some (Some id)) as [->|Hh'].
  { destruct l as [j [o x]]. simpl in *.
    destruct (decide (i = j)) as [<-|Hne]; [|right; by rewrite list_lookup_insert_ne].
    rewrite Hh in Hl. injection Hl as <-. rewrite list_lookup_insert_eq by (by eapply lookup_lt_Some).
    destruct o; simpl in *; try (by right); try done. injection Hpre as ->. destruct x. by left. }
  - left. set_solver.
  - destruct (IH _ Hi' Hh') as [Hin|Hr]; [left; set_solver|by right].
Qed.

Lemma serve_inv cfg lib fuel reqs :
  inv (map (fun _ => None) reqs) (mkConf NewObjLocks (map (serve cfg lib fuel) reqs)).
Proof.
  split.
  - apply Forall2_fmap. apply Forall_Forall2_diag, Forall_forall. intros r _. apply serve_idlock.
  - assert (forall i id, map (fun _ : Request => @None string) reqs !! i <> Some (Some id)) as Hn.
    { intros i id. rewrite list_lookup_fmap. by destruct (reqs !! i). }
    split; intros; exfalso; by eapply Hn.
Qed.

(** C3 In every interleaving of controller calls over one lock table, between
    two successful acquisitions of the same id the first holder released it:
    no two operations on one id are under way at the same time. *)
Theorem controller_exclusion cfg lib fuel reqs a i b j rest c id :
  steps table_answer (mkConf NewObjLocks (map (serve cfg lib fuel) reqs))
    (a ++ (i, LocksTryAcquire id ▷ true) :: b ++ (j, LocksTryAcquire id ▷ true) :: rest) c ->
  (i, LocksRelease id ▷ tt) ∈ b.
Proof.
  intros H. apply steps_app in H as (c1 & H1 & H).
  destruct (inv_steps _ _ _ _ (serve_inv cfg lib fuel reqs) H1) as (ss1 & Hi1).
  inversion H as [|? ? c2 ? ? Hs1 H']; subst.
  destruct (inv_step _ _ _ _ Hi1 Hs1) as (s & Hl & _ & _ & Hi2). simpl in *.
  apply steps_app in H' as (c3 & H2 & H').
  destruct (held_steps _ _ _ _ i id Hi2 ltac:(by rewrite list_lookup_insert_eq by (by eapply lookup_lt_Some)) H2)
    as [Hin|(ss3 & Hi3 & Hh3)]; [done|]. exfalso.
  inversion H' as [|? ? c4 ? ? Hs2 _]; subst.
  destruct (inv_step _ _ _ _ Hi3 Hs2) as (s' & _ & _ & Ha & _). simpl in Ha.
  unfold TryAcquire in Ha. case_decide as Hd; [done|]. apply Hd. by eapply Hi3.
Qed.
