(* ===== verification/RefLock.v ===== *)
(** * References under concurrency

    The node service serves mounts and unmounts of the same volume
    concurrently; the references of a mount pod are kept on the API server and
    protected by one lock of the driver process.  For every server that
    applies the patches as documented, and every interleaving of any number of
    requests to publish and unpublish volumes and to the controller service,
    a mount pod is deleted only while it has no reference, and no request
    loses the reference of another one. *)
From S2P Require Import Prelude GoStrings GoPath GoTime Sha256 K8sTypes PatchText Prog Protocol Config K8sClient Util Console MountPod PodMount ProcessMount Juicefs Quiet ControllerService NodeService IdLocks.
From stdpp Require Import options.

#[local] Arguments exec : simpl never.

(** ** The server and the lock *)

(** The calls that can change annotations or the lock. *)
Definition is_reflock (o : op) : bool :=
  match o with
  | MutexLock JLock | MutexUnlock JLock | PodsPatch _ _ _ | PodsDelete _ _ | PodsUpdate _ => true
  | _ => false
  end.

(** What the driver relies on: the annotations of the pods on the server, the
    state of the lock, and how the calls move them. *)
Class RefServer (W : Type) := {
  answers : forall o, W -> resp o -> W -> Prop;
  annotations : W -> string -> string -> option (gmap string string);
  held : W -> bool;
  lock_law w x w' : answers (MutexLock JLock) w x w' ->
    held w = false /\ held w' = true /\ annotations w' = annotations w;
  unlock_law w x w' : answers (MutexUnlock JLock) w x w' ->
    held w' = false /\ annotations w' = annotations w;
  get_law w n ns p w' : answers (PodsGet n ns) w (inl p) w' ->
    pod_Name p = n /\ pod_Namespace p = ns /\ annotations w ns n = Some (gm (pod_Annotations p));
  (* no other call of the driver changes the annotations of an existing pod *)
  frame_law o w x w' ns n a : is_reflock o = false -> answers o w x w' ->
    held w' = held w /\ (annotations w ns n = Some a -> annotations w' ns n = Some a);
  (* a patch that is answered with an error, as after a lost reply, has
     changed nothing or was applied *)
  patch_error_law w ns n pt e w' : answers (PodsPatch ns n pt) w (Some e) w' ->
    annotations w' = annotations w \/ answers (PodsPatch ns n pt) w None w';
  patch_held_law w ns n pt x w' : answers (PodsPatch ns n pt) w x w' -> held w' = held w;
  patch_other_law w ns n pt x w' ns' n' : answers (PodsPatch ns n pt) w x w' ->
    (ns', n') <> (ns, n) -> annotations w' ns' n' = annotations w ns' n';
  replace_law w ns n a w' : answers (PodsPatch ns n (JSONPatch [ReplaceMap "/metadata/annotations" a])) w None w' ->
    annotations w' ns n = Some a;
  remove_law w ns n path k a w' : pointer path = Some ["metadata"; "annotations"; k] ->
    answers (PodsPatch ns n (JSONPatch [RemovePath path])) w None w' ->
    annotations w ns n = Some a -> annotations w' ns n = Some (delete k a);
  merge_law w ns n m a w' : answers (PodsPatch ns n (StrategicMergeAnnotations m)) w None w' ->
    annotations w ns n = Some a -> annotations w' ns n = Some (m ∪ a);
  delete_held_law w ns n x w' : answers (PodsDelete ns n) w x w' -> held w' = held w;
}.

(** ** Requests to the driver *)

(** The requests that change something: those to the node service, and those
    to the controller service. *)
Inductive Call :=
| CallPublish (req : NodePublishVolumeRequest)
| CallUnpublish (volumeId target : string)
| CallController (r : Request).

Definition call_target (c : Call) : string :=
  match c with CallPublish req => np_TargetPath req | CallUnpublish _ t => t | CallController _ => EmptyString end.

Definition perform (cfg : Config) (lib : Libs) (fuel : nat) (c : Call) : prog unit :=
  match c with
  | CallPublish req => NodePublishVolume cfg lib fuel req
  | CallUnpublish v t => NodeUnpublishVolume cfg lib fuel v t
  | CallController r => serve cfg lib fuel r
  end.

Definition is_mount (c : Call) : bool := match c with CallPublish _ => true | _ => false end.
Definition is_umount (c : Call) : bool := match c with CallUnpublish _ _ => true | _ => false end.

Lemma is_umount_mount c : is_umount c = true -> is_mount c = false.
Proof. by destruct c. Qed.

(** The patch that drops a reference names its annotation. *)
Lemma pointer_reference t :
  pointer ("/metadata/annotations/" +:+ GetReferenceKey t) = Some ["metadata"; "annotations"; GetReferenceKey t].
Proof. apply pointer_annotation, GetReferenceKey_plain. Qed.

(** The references among the annotations of a pod. *)
Definition references (a : gmap string string) : gset string := dom (filter (fun kv => is_ref kv = true) a).

(** How the references follow changes of the annotations. *)
Lemma references_insert_ref a t :
  references (<[GetReferenceKey t := t]> a) = {[GetReferenceKey t]} ∪ references a.
Proof.
  unfold references. rewrite map_filter_insert_True by apply String.eqb_refl. apply dom_insert_L.
Qed.

Lemma references_insert_other a k v :
  (forall t, k <> GetReferenceKey t) -> references (<[k := v]> a) = references a.
Proof.
  intros Hk. unfold references. rewrite map_filter_insert_not'; [done|..].
  - unfold is_ref. simpl. intros Heq%String.eqb_eq. by apply Hk in Heq.
  - intros y _ Heq%String.eqb_eq. by apply Hk in Heq.
Qed.

Lemma references_delete a k : references (delete k a) = references a ∖ {[k]}.
Proof. unfold references. rewrite map_filter_delete. apply dom_delete_L. Qed.

Lemma references_empty : references ∅ = ∅.
Proof. unfold references. by rewrite map_filter_empty, dom_empty_L. Qed.

Lemma references_prefix a k : k ∈ references a -> HasPrefix k "mosfs-" = true.
Proof.
  unfold references. rewrite elem_of_dom. intros [v [_ Hv]%map_lookup_filter_Some].
  unfold is_ref in Hv. simpl in Hv. apply String.eqb_eq in Hv as ->. apply GetReferenceKey_prefix.
Qed.

(** The calls the protocol is about. *)
Definition is_guarded (o : op) : bool := is_reflock o || is_create o.

Lemma spares_guarded : spares is_guarded.
Proof. intros o Ho. destruct o; try done; by destruct m. Qed.
#[export] Hint Resolve spares_guarded : avoids.

(** ** The protocol *)

(** The patches a call sends to a pod it read as [p]. *)
Definition touches (c : Call) (p : Pod) (pt : Patch) : Prop :=
  if is_mount c then pt = JSONPatch [ReplaceMap "/metadata/annotations" (referenced p (call_target c))]
  else is_umount c = true /\
       (pt = JSONPatch [RemovePath ("/metadata/annotations/" +:+ GetReferenceKey (call_target c))] \/
        exists v, pt = StrategicMergeAnnotations {[DeleteDelayAtKey := v]}).

(** The state is the call and, while it holds the lock, the pods it has read
    since its last write. *)
Definition reflock : protocol := {|
  pstate := Call * option (gmap (string * string) Pod);
  pre s o :=
    match o with
    | MutexLock JLock => s.2 = None
    | MutexUnlock JLock => s.2 <> None
    | PodsPatch ns n pt => exists M p, s.2 = Some M /\ M !! (ns, n) = Some p /\ touches s.1 p pt
    | PodsDelete ns n =>
        exists M p, s.2 = Some M /\ M !! (ns, n) = Some p /\ hasRef p = false /\ is_umount s.1 = true
    | PodsCreate p => is_mount s.1 = true /\ references (gm (pod_Annotations p)) = {[GetReferenceKey (call_target s.1)]}
    | PodsUpdate _ => False
    | _ => True
    end;
  post s o :=
    match o return resp o -> Call * option (gmap (string * string) Pod) with
    | MutexLock JLock => fun _ => (s.1, Some ∅)
    | MutexUnlock JLock => fun _ => (s.1, None)
    | PodsGet n ns => fun x =>
        match s.2, x with
        | Some M, inl p => (s.1, Some (<[(pod_Namespace p, pod_Name p) := p]> M))
        | _, _ => s
        end
    | PodsPatch _ _ _ | PodsDelete _ _ => fun _ => (s.1, (fun _ => ∅) <$> s.2)
    | _ => fun _ => s
    end;
|}.

(** ** The calls keep to the protocol *)

(** A call that ends does not hold the lock. *)
Definition unlocked (c : Call) (s : pstate reflock) (r : result unit) : Prop := r <> NoFuel -> s = (c, None).

Lemma wp_reflock_frame {A} (p : prog A) c :
  avoids is_guarded p -> wp reflock p (c, None) (fun s' _ => s' = (c, None)).
Proof. apply wp_frame. intros o Ho. destruct o; try done; by destruct m. Qed.

(** A critical section of the lock. *)
Lemma wp_JLock {A} (p : prog A) c Q :
  wp reflock p (c, Some ∅) (fun s r => s.1 = c /\ s.2 <> None /\ (r <> NoFuel -> Q (c, None) r) /\ (r = NoFuel -> Q s r)) ->
  wp reflock (with_mutex JLock p) (c, None) Q.
Proof.
  intros H. split; [done|]. intros [] _. apply wp_defer. eapply wp_mono; [|exact H].
  intros [c' M] r (Ht & HM & Hok & Hnf). simpl in Ht. subst c'. destruct r; [split; [exact HM|]; intros [] _; by apply Hok..|].
  by apply Hnf.
Qed.

(** The first read of a critical section. *)
Lemma wp_GetPod_locked {B} n ns (f : Pod -> prog B) c Q :
  (forall p, wp reflock (f p) (c, Some (<[(pod_Namespace p, pod_Name p) := p]> ∅)) Q) ->
  (forall e, Q (c, Some ∅) (Err e)) ->
  wp reflock (GetPod n ns ≫= f) (c, Some ∅) Q.
Proof. intros H1 H2. split; [done|]. intros [p|e] _; [apply H1|apply H2]. Qed.

(** In the critical section of a pod read as [p]. *)
Lemma wp_PatchPod p M c pt Q :
  M !! (pod_Namespace p, pod_Name p) = Some p -> touches c p pt ->
  (forall x, Q (c, Some ∅) (match x with None => Ok tt | Some e => Err e end)) ->
  wp reflock (PatchPod (Some p) pt) (c, Some M) Q.
Proof.
  intros HM Ht HQ. split; [by exists M, p|]. intros [e|] _; [apply (HQ (Some e))|apply (HQ None)].
Qed.

Section mount.
Context (cfg : Config) (c : Call) (mounts : is_mount c = true).

Lemma wp_add_ref podName :
  wp reflock (add_ref cfg (call_target c) podName) (c, None) (fun s r => s = (c, None) /\ r <> NoFuel).
Proof using mounts.
  apply wp_JLock, wp_GetPod_locked; [intros p|intros e; split_and!; naive_solver].
  cbv zeta. destruct (mlookup (pod_Annotations p) (GetReferenceKey (call_target c))); [simpl; split_and!; naive_solver|].
  apply wp_bind, wp_try. eapply wp_PatchPod; [by rewrite lookup_insert_eq|unfold touches; by rewrite mounts|].
  intros [e|]; simpl; [|split_and!; naive_solver].
  destruct (IsConflict e); simpl; split_and!; naive_solver.
Qed.

Lemma wp_AddRefOfMount fuel podName :
  wp reflock (AddRefOfMount cfg fuel (call_target c) podName) (c, None) (fun s _ => s = (c, None)).
Proof using mounts.
  induction fuel as [|fuel IH]; [done|]. cbn [AddRefOfMount]. apply wp_bind, wp_try.
  eapply wp_mono; [|apply wp_add_ref]. intros s r [-> Hr]. destruct r as [[]|e| |]; try done.
  destruct (IsConflict e); [|done]. split; [done|]. intros [] _. exact IH.
Qed.
End mount.

Section umount.
Context (c : Call) (umounts : is_umount c = true).

Lemma wp_del_ref podName ns :
  wp reflock (del_ref (GetReferenceKey (call_target c)) podName ns) (c, None) (fun s r => s = (c, None) /\ r <> NoFuel).
Proof using umounts.
  apply wp_JLock, wp_GetPod_locked; [intros p|intros e; split_and!; naive_solver].
  destruct (mlookup (pod_Annotations p) (GetReferenceKey (call_target c))); [|simpl; split_and!; naive_solver].
  eapply wp_PatchPod; [by rewrite lookup_insert_eq|unfold touches; rewrite is_umount_mount by done; by split; [|left]|].
  intros [e|]; simpl; split_and!; naive_solver.
Qed.

Lemma wp_del_ref_loop fuel podName ns :
  wp reflock (del_ref_loop fuel (GetReferenceKey (call_target c)) podName ns) (c, None) (fun s _ => s = (c, None)).
Proof using umounts.
  induction fuel as [|fuel IH]; [done|]. cbn [del_ref_loop]. apply wp_bind, wp_try.
  eapply wp_mono; [|apply wp_del_ref]. intros s r [-> Hr]. destruct r as [[]|e| |]; try done.
  by destruct (IsConflict e).
Qed.

Lemma wp_deleteMountPod podName ns :
  wp reflock (deleteMountPod podName ns) (c, None) (fun s r => s = (c, None)).
Proof using umounts.
  apply wp_JLock, wp_GetPod_locked; [intros p|intros e; split_and!; naive_solver].
  destruct (hasRef p) eqn:Hr; [simpl; split_and!; naive_solver|].
  assert (mlookup (pod_Annotations p) DeleteDelayTimeKey = None) as Hd.
  { apply eq_None_not_Some. intros Hs%hasRef_delay. congruence. }
  unfold ShouldDelay. rewrite Hd. cbn. split.
  - eexists _, p. split_and!; [done|by rewrite lookup_insert_eq|done..].
  - intros [e|] _; simpl; split_and!; naive_solver.
Qed.
End umount.

Lemma wp_JUmount cfg fuel volumeId c :
  is_umount c = true -> wp reflock (JUmount cfg fuel volumeId (call_target c)) (c, None) (unlocked c).
Proof.
  intros Hc. unfold JUmount, unlocked. apply wp_bind, wp_try. split; [done|]. intros [pod|e] _; simpl.
  - apply wp_bind. eapply wp_mono; [|by apply (wp_del_ref_loop c)]. intros s [[]|e| |] ->; try done.
    split; [done|]. intros [newPod|e] _; simpl; [|done]. destruct (hasRef newPod); [done|].
    eapply wp_mono; [|by apply wp_deleteMountPod]. naive_solver.
  - by destruct (IsNotFound e).
Qed.

(** The pod of the first mount carries exactly its reference. *)
Lemma first_mount_pod_references cfg podName cmd mountPath target res configs env delay tr p :
  exec (first_mount_pod cfg podName cmd mountPath (GetReferenceKey target) target res configs env delay) tr (Ok p) ->
  references (gm (pod_Annotations p)) = {[GetReferenceKey target]}.
Proof.
  intros (_ & _ & -> & _)%exec_first_mount_pod. unfold first_annotations. cbv zeta.
  destruct (_ =? _)%nat; [|rewrite references_insert_other by (intros t Ht; by destruct (GetReferenceKey_not_delay t))];
    rewrite references_insert_ref, references_empty; set_solver.
Qed.

Lemma wp_wait_until_mount cfg fuel n podName volumeId c mountPath newPod :
  is_mount c = true -> avoids is_guarded newPod ->
  (forall tr p, exec newPod tr (Ok p) -> references (gm (pod_Annotations p)) = {[GetReferenceKey (call_target c)]}) ->
  wp reflock (wait_until_mount cfg fuel n podName volumeId (call_target c) mountPath newPod) (c, None)
    (fun s _ => s = (c, None)).
Proof.
  intros Hc Hnew Hrefs. induction n as [|n IH]; [done|]. cbn [wait_until_mount].
  apply wp_bind, wp_try. split; [done|]. intros [po|e] _.
  - change (wp reflock (match DeletionTimestamp (Meta po) with
      | Some _ => call (Sleep (500 * millisecond)) ≫= fun _ =>
                  wait_until_mount cfg fuel n podName volumeId (call_target c) mountPath newPod
      | None => wrap_err (fun e => ErrFmt "add target:[%s] ref in mountPod:%s, error:%s" [call_target c; podName] (Some e))
                  (AddRefOfMount cfg fuel (call_target c) podName) ≫= fun _ => waitUtilMountReady cfg fuel podName mountPath
      end) (c, None) (fun s _ => s = (c, None))).
    destruct (DeletionTimestamp (Meta po)).
    + split; [done|]. intros [] _. exact IH.
    + apply wp_bind, wp_wrap_err. eapply wp_mono; [|by apply wp_AddRefOfMount]. intros s [[]|e| |] ->; try done.
      apply wp_reflock_frame, waitUtilMountReady_avoids, spares_guarded.
  - change (wp reflock (if IsNotFound e then p ← newPod; CreatePod p ≫= fun _ =>
        wait_until_mount cfg fuel n podName volumeId (call_target c) mountPath newPod else Throw e)
      (c, None) (fun s _ => s = (c, None))).
    destruct (IsNotFound e); [|done]. apply wp_bind.
    eapply wp_mono; [|eapply wp_exec; [by apply wp_reflock_frame|exact (fun tr r H => ex_intro _ tr H)]].
    intros s [p|e'| |] [-> [tr Htr]]; try done. apply Hrefs in Htr. apply wp_bind. split; [done|].
    intros [q|e'] _; simpl; [exact IH|]. destruct (IsAlreadyExists e'); [exact IH|done].
Qed.

Lemma wp_with_PodLock {A} i (p : prog A) c :
  wp reflock p (c, None) (fun s _ => s = (c, None)) ->
  wp reflock (with_mutex (PodLock i) p) (c, None) (fun s _ => s = (c, None)).
Proof.
  intros H. split; [done|]. intros [] _. apply wp_defer. eapply wp_mono; [|exact H].
  intros s r ->. by destruct r.
Qed.

Lemma wp_JMount cfg q setting fuel storage volumeId mountPath options c :
  is_mount c = true ->
  wp reflock (JMount cfg q setting fuel storage volumeId mountPath (call_target c) options) (c, None)
    (fun s _ => s = (c, None)).
Proof.
  intros Hc. unfold JMount, waitUntilMount. destruct setting as [s|]; [|done].
  cbv zeta. apply wp_bind.
  eapply wp_mono; [|apply wp_reflock_frame; unfold parsePodResources, add_quantity; avoid].
  intros st [res|e| |] ->; try done. apply wp_with_PodLock, wp_bind.
  eapply wp_mono; [|apply wp_reflock_frame; unfold GetLoopTimeout, Getenv; avoid].
  intros st [lt|e| |] ->; try done. apply wp_wait_until_mount; [done|apply first_mount_pod_avoids, spares_guarded|].
  intros tr p. apply first_mount_pod_references.
Qed.

(** *** Whole requests *)

(** A program that begins and ends without the lock. *)
Definition outside {A} (c : Call) (p : prog A) : Prop := wp reflock p (c, None) (fun s _ => s = (c, None)).

Lemma outside_quiet {A} c (p : prog A) : avoids is_guarded p -> outside c p.
Proof. apply wp_reflock_frame. Qed.

Lemma outside_bind {A B} c (p : prog A) (g : A -> prog B) : outside c p -> (forall a, outside c (g a)) -> outside c (p ≫= g).
Proof.
  intros Hp Hg. apply wp_bind. eapply wp_mono; [|exact Hp]. intros s [a|e|w|] ->; [apply Hg|done..].
Qed.

Lemma outside_wrap_err {A} c g (p : prog A) : outside c p -> outside c (wrap_err g p).
Proof. intros Hp. apply wp_wrap_err. eapply wp_mono; [|exact Hp]. by intros s r ->. Qed.

(** The parts of a request that leave the protocol alone. *)
Lemma CreateTarget_avoids fuel target : avoids is_guarded (CreateTarget fuel target).
Proof.
  induction fuel as [|fuel IH]; [done|]. cbn [CreateTarget].
  unfold DoWithTimeout, DoWithContext, PathExists, UmountPath. avoid.
Qed.

Lemma checkBindAndMount_avoids mountPath bindSource target : avoids is_guarded (checkBindAndMount mountPath bindSource target).
Proof. unfold checkBindAndMount, bind_target, UmountPath. avoid. Qed.

Lemma umount_loop_avoids fuel target : avoids is_guarded (umount_loop fuel target).
Proof. induction fuel as [|fuel IH]; [done|]. cbn [umount_loop]. avoid. Qed.
#[local] Hint Resolve CreateTarget_avoids checkBindAndMount_avoids umount_loop_avoids : avoids.

Section request.
Context (cfg : Config) (lib : Libs) (fuel : nat).

Lemma outside_MountFs c volumeID options s :
  is_mount c = true -> outside c (MountFs cfg lib fuel volumeID (call_target c) options s).
Proof.
  intros Hc. unfold MountFs. destruct (UsePod s); cbv beta iota;
    (apply outside_bind; [by apply outside_quiet, avoids_call|intros _]);
    (apply outside_bind; [apply outside_wrap_err|done]).
  - by apply wp_JMount.
  - apply outside_quiet, process_JMount_avoids, spares_guarded.
Qed.

Lemma outside_JfsMount c volumeID secrets volCtx options usePod :
  is_mount c = true -> outside c (JfsMount cfg lib fuel volumeID (call_target c) secrets volCtx options usePod).
Proof.
  intros Hc. unfold JfsMount.
  repeat (apply outside_bind; [first [by apply outside_MountFs|apply outside_quiet; avoid]|intros ?]). done.
Qed.

Lemma outside_NodePublishVolume req : outside (CallPublish req) (NodePublishVolume cfg lib fuel req).
Proof.
  unfold NodePublishVolume, internal. repeat case_match; try done.
  apply outside_bind; [apply outside_quiet, avoids_wrap_err; avoid|intros _].
  apply outside_bind; [apply outside_quiet; unfold publish_options; avoid|intros opts].
  apply outside_bind; [by apply outside_wrap_err, (outside_JfsMount (CallPublish req))|intros fs].
  apply outside_bind; [apply outside_quiet, avoids_wrap_err; avoid|intros src].
  apply outside_quiet, avoids_wrap_err. avoid.
Qed.

Lemma outside_controller r : outside (CallController r) (serve cfg lib fuel r).
Proof. apply outside_quiet, serve_avoids; [apply spares_guarded|done..]. Qed.

Lemma wp_NodeUnpublishVolume volumeId target :
  let c := CallUnpublish volumeId target in
  wp reflock (NodeUnpublishVolume cfg lib fuel volumeId target) (c, None) (unlocked c).
Proof.
  intros c. unfold NodeUnpublishVolume. case_match; [done|].
  assert (forall A (p : prog A) g, avoids is_guarded p -> (forall a, wp reflock (g a) (c, None) (unlocked c)) ->
    wp reflock (p ≫= g) (c, None) (unlocked c)) as Hb.
  { intros A p g Hp Hg. apply wp_bind. eapply wp_mono; [|by apply wp_reflock_frame].
    intros s [a|e|w|] ->; [apply Hg|done..]. }
  apply Hb; [avoid|intros _]. apply Hb; [avoid|intros _]. apply Hb; [avoid|intros id]. by apply (wp_JUmount _ _ _ c).
Qed.
End request.

Section system.
Context {W : Type} `{!RefServer W}.

(** Whatever it is answered, a patch changed nothing or was applied. *)
Lemma patch_settles w ns n pt x w' :
  answers (PodsPatch ns n pt) w x w' -> annotations w' = annotations w \/ answers (PodsPatch ns n pt) w None w'.
Proof. destruct x as [e|]; [apply patch_error_law|by right]. Qed.

(** What a thread has read under the lock is what the server has, and only
    one thread is inside. *)
Definition accurate (w : W) (ss : list (pstate reflock)) : Prop :=
  (forall i t M, ss !! i = Some (t, Some M) ->
     held w = true /\
     forall ns n p, M !! (ns, n) = Some p -> annotations w ns n = Some (gm (pod_Annotations p))) /\
  (forall i j t t' M M', ss !! i = Some (t, Some M) -> ss !! j = Some (t', Some M') -> i = j).

(** What the threads of [ss] know, in the world [w']. *)
Definition known (w' : W) (M : gmap (string * string) Pod) : Prop :=
  held w' = true /\
  forall ns n p, M !! (ns, n) = Some p -> annotations w' ns n = Some (gm (pod_Annotations p)).

(** Thread [i] moves from the knowledge [K] to [K']. *)
Lemma accurate_update w ss i t K K' w' :
  accurate w ss -> ss !! i = Some (t, K) -> (K = None -> K' = None) ->
  (forall M, K' = Some M -> known w' M) ->
  (K = None -> forall j t' M, j <> i -> ss !! j = Some (t', Some M) -> known w' M) ->
  accurate w' (<[i := (t, K')]> ss).
Proof.
  intros [H1 H2] Hi HK Hme Hoth. split.
  - intros j t' M Hj. apply list_lookup_insert_Some in Hj as [(-> & [= -> ->] & _)|[Hne Hj]]; [by apply Hme|].
    destruct K as [M0|]; [by destruct Hne; eapply H2|]. by eapply Hoth.
  - intros j k t1 t2 M1 M2 Hj Hk.
    apply list_lookup_insert_Some in Hj as [(-> & Hj' & _)|[Hne Hj]];
      apply list_lookup_insert_Some in Hk as [(-> & Hk' & _)|[Hne' Hk]]; simplify_eq; try done; eauto;
      (destruct K as [M0|]; [eauto|by specialize (HK eq_refl)]).
Qed.

Lemma known_empty w' : held w' = true -> known w' ∅.
Proof. intros Hh. split; [done|]. intros ns n p Hp. by rewrite lookup_empty in Hp. Qed.

Lemma accurate_lock w ss i t x w' :
  accurate w ss -> answers (MutexLock JLock) w x w' ->
  accurate w' (<[i := (t, Some ∅)]> ss).
Proof.
  intros [H1 H2] Ha. destruct (lock_law _ _ _ Ha) as (Hfree & Hheld & Han).
  assert (forall j t' M, ss !! j <> Some (t', Some M)) as Hnone.
  { intros j t' M Hj. apply H1 in Hj as [Hj _]. congruence. }
  split.
  - intros j t' M Hj. apply list_lookup_insert_Some in Hj as [(-> & [= -> <-] & _)|[Hne Hj]]; [|by destruct (Hnone j t' M)].
    by apply known_empty.
  - intros j k t1 t2 M1 M2 Hj Hk.
    apply list_lookup_insert_Some in Hj as [(-> & _ & _)|[Hne Hj]]; [|by destruct (Hnone j t1 M1)].
    apply list_lookup_insert_Some in Hk as [(-> & _ & _)|[Hne Hk]]; [done|by destruct (Hnone k t2 M2)].
Qed.

Lemma accurate_step w ss i s o (x : resp o) w' :
  accurate w ss -> ss !! i = Some s -> pre reflock s o -> answers o w x w' ->
  accurate w' (<[i := post reflock s o x]> ss).
Proof.
  intros Hacc Hi Hpre Ha. pose proof Hacc as [H1 H2]. destruct s as [t K].
  destruct (is_reflock o) eqn:Ho.
  - destruct o; try discriminate Ho.
    + done.
    + destruct Hpre as (M & p & HK & _). simpl in HK. subst K.
      eapply accurate_update; [done..| |done]. intros M' [= <-]. apply known_empty.
      rewrite (patch_held_law _ _ _ _ _ _ Ha). by eapply H1.
    + destruct Hpre as (M & p & HK & _). simpl in HK. subst K.
      eapply accurate_update; [done..| |done]. intros M' [= <-]. apply known_empty.
      rewrite (delete_held_law _ _ _ _ _ Ha). by eapply H1.
    + destruct m; [|done]. by eapply accurate_lock.
    + destruct m; [|done]. simpl in Hpre. destruct K as [M|]; [|done]. by eapply accurate_update.
  - assert (forall M, known w M -> known w' M) as Hk.
    { intros M [Hh HM]. split; [by rewrite (proj1 (frame_law o w x w' EmptyString EmptyString ∅ Ho Ha))|].
      intros ns n p Hp. by eapply frame_law, HM. }
    assert (post reflock (t, K) o x = (t, K) \/
      exists M p, K = Some M /\ annotations w (pod_Namespace p) (pod_Name p) = Some (gm (pod_Annotations p)) /\
        post reflock (t, K) o x = (t, Some (<[(pod_Namespace p, pod_Name p) := p]> M))) as [-> |(M & p & -> & Hp & ->)].
    { destruct o; try (by left); try (destruct m; try done; by left).
      destruct K as [M|]; [|by left]. destruct x as [p|e]; [|by left]. right. exists M, p.
      apply get_law in Ha as (Hn & Hns & Ha). split_and!; [done|by rewrite Hn, Hns|done]. }
    + eapply accurate_update; [done|done|done|intros M ->|intros -> j t' M _ Hj]; apply Hk; by eapply H1.
    + eapply accurate_update; [done..| |done]. intros M' [= <-]. apply Hk. destruct (H1 _ _ _ Hi) as [Hw HM].
      split; [done|]. intros ns n p'. rewrite lookup_insert_Some.
      intros [[Heq ->]|[_ Hp']]; [injection Heq as <- <-; auto|eauto].
Qed.

(** The configurations that a set of calls can reach. *)
Definition sys_inv (calls : list Call) (ss : list (pstate reflock)) (c : conf) : Prop :=
  follow reflock (fun s r => r <> NoFuel -> s.2 = None) ss (pool c) /\ accurate (world c) ss /\
  map fst ss = calls.

Lemma thread_call calls ss c i call K :
  sys_inv calls ss c -> ss !! i = Some (call, K) -> calls !! i = Some call.
Proof.
  intros (_ & _ & <-) Hi. etransitivity; [apply list_lookup_fmap|]. exact (f_equal (fmap fst) Hi).
Qed.

Lemma post_call s o (x : resp o) : (post reflock s o x).1 = s.1.
Proof. destruct s as [t K], o; try done; try (by destruct m). simpl. by destruct K, x. Qed.

Lemma sys_inv_step calls ss c l c' :
  sys_inv calls ss c -> step answers c l c' ->
  exists s, ss !! l.1 = Some s /\ pre reflock s (projT1 l.2) /\
    answers (projT1 l.2) (world c) (projT2 l.2) (world c') /\
    sys_inv calls (<[l.1 := post reflock s (projT1 l.2) (projT2 l.2)]> ss) c'.
Proof.
  intros (Hf & Hc & Ht) Hs. destruct (follow_step _ _ _ _ _ _ _ Hf Hs) as (s & Hi & Hpre & Ha & Hf').
  exists s. split_and!; [done..|]. split_and!; [done|by eapply accurate_step|].
  rewrite <-Ht. change (fst <$> <[l.1 := post reflock s (projT1 l.2) (projT2 l.2)]> ss = fst <$> ss).
  rewrite list_fmap_insert, post_call. apply list_insert_id.
  etransitivity; [apply list_lookup_fmap|]. exact (f_equal (fmap fst) Hi).
Qed.

Lemma sys_inv_steps calls ss c tr c' :
  sys_inv calls ss c -> steps answers c tr c' -> exists ss', sys_inv calls ss' c'.
Proof.
  intros Hi Hs. revert ss Hi. induction Hs as [c|c1 l c2 tr c3 H1 H2 IH]; intros ss Hi; [by exists ss|].
  destruct (sys_inv_step _ _ _ _ _ Hi H1) as (s & _ & _ & _ & Hi'). eauto.
Qed.

Lemma perform_inv cfg lib fuel calls w :
  sys_inv calls (map (fun c => (c, None)) calls) (mkConf w (map (perform cfg lib fuel) calls)).
Proof.
  assert (forall i t M, map (fun c => (c, None)) calls !! i <> Some (t, @Some (gmap (string * string) Pod) M)) as Hn.
  { intros i t M. rewrite list_lookup_fmap. by destruct (calls !! i). }
  split_and!.
  - apply Forall2_fmap, Forall_Forall2_diag, Forall_forall. intros r _.
    destruct r as [req|v t|r];
      (eapply wp_mono; [|first [apply outside_NodePublishVolume|apply wp_NodeUnpublishVolume|apply outside_controller]]).
    + by intros s rr ->.
    + intros s rr Hu Hr. unfold unlocked in Hu. by rewrite Hu.
    + by intros s rr ->.
  - split; intros; exfalso; by eapply Hn.
  - rewrite map_map. apply map_id.
Qed.

(** C1 In every interleaving of requests to publish and unpublish volumes and
    to the controller service over a lawful server, at the moment a mount pod
    is deleted its annotations on the server contain no key of the driver: no
    reference is left. *)
Theorem node_deletes_unreferenced cfg lib fuel calls w tr c i ns n x c' :
  steps answers (mkConf w (map (perform cfg lib fuel) calls)) tr c ->
  step answers c (i, PodsDelete ns n ▷ x) c' ->
  exists a, annotations (world c) ns n = Some a /\
            forall k v, a !! k = Some v -> HasPrefix k "mosfs-" = false.
Proof.
  intros Hs H. destruct (sys_inv_steps _ _ _ _ _ (perform_inv cfg lib fuel calls w) Hs) as (ss & Hi).
  destruct (sys_inv_step _ _ _ _ _ Hi H) as ([call K] & Hl & (M & p & HK & Hp & Hr & _) & _ & _). simpl in HK. subst K.
  destruct Hi as (_ & [H1 _] & _). destruct (H1 _ _ _ Hl) as [_ HM].
  exists (gm (pod_Annotations p)). split; [by apply HM|]. intros k v Hk.
  apply not_true_is_false. intros Hpre. assert (hasRef p = true) by (apply hasRef_spec; eauto). congruence.
Qed.

(** C2 In every such interleaving, a patch that a request sends to a mount pod
    leaves every annotation on the server as it is, except the reference of
    the request's own target and the pending deletion time: references of
    other targets are never lost. *)
Theorem node_keeps_other_references cfg lib fuel calls w tr c i ns n pt x c' :
  steps answers (mkConf w (map (perform cfg lib fuel) calls)) tr c ->
  step answers c (i, PodsPatch ns n pt ▷ x) c' ->
  exists call a a', calls !! i = Some call /\
    annotations (world c) ns n = Some a /\ annotations (world c') ns n = Some a' /\
    (forall k, k <> GetReferenceKey (call_target call) -> k <> DeleteDelayAtKey -> a' !! k = a !! k) /\
    (forall ns' n', (ns', n') <> (ns, n) -> annotations (world c') ns' n' = annotations (world c) ns' n').
Proof.
  intros Hs H. destruct (sys_inv_steps _ _ _ _ _ (perform_inv cfg lib fuel calls w) Hs) as (ss & Hi).
  destruct (sys_inv_step _ _ _ _ _ Hi H) as ([call K] & Hl & (M & p & HK & Hp & Ht) & Ha & _). simpl in HK, Ht, Ha. subst K.
  pose proof (thread_call _ _ _ _ _ _ Hi Hl) as Hc.
  destruct Hi as (_ & [H1 _] & _). destruct (H1 _ _ _ Hl) as [_ HM].
  exists call, (gm (pod_Annotations p)).
  assert (Hother : forall ns' n', (ns', n') <> (ns, n) -> annotations (world c') ns' n' = annotations (world c) ns' n').
  { intros ns' n'. by eapply patch_other_law. }
  apply HM in Hp as Hp'. destruct (patch_settles _ _ _ _ _ _ Ha) as [Hsame|Ha'].
  { exists (gm (pod_Annotations p)). rewrite Hsame. done. }
  clear Ha. rename Ha' into Ha.
  unfold touches in Ht. destruct (is_mount call); [subst pt|destruct Ht as [_ [-> |[v ->]]]].
  - eexists. rewrite (replace_law _ _ _ _ _ Ha). split_and!; try done. apply referenced_spec.
  - eexists. rewrite (remove_law _ _ _ _ _ _ _ (pointer_reference _) Ha Hp'). split_and!; try done.
    intros k Hk _. by rewrite lookup_delete_ne.
  - eexists. rewrite (merge_law _ _ _ _ _ _ Ha Hp'). split_and!; try done.
    intros k _ Hk. rewrite lookup_union_r; [done|]. by rewrite lookup_singleton_ne.
Qed.
End system.
