(* ===== verification/Registry.v ===== *)
(** * The registry of references

    What the node service promises about mount pods, without locks, requests
    and retries: a registry that keeps the set of reference keys of every
    mount pod and changes by four atomic actions.  Over every server that
    creates, patches and deletes pods as documented, each interleaving of
    requests to publish and unpublish volumes and to the controller service
    is, call by call, a run of the registry in which every request performs
    only its own actions. *)
From S2P Require Import Prelude GoStrings GoPath GoTime Sha256 K8sTypes PatchText Prog Protocol Config K8sClient Util MountPod PodMount RefLock.
From stdpp Require Import options.

(** ** The specification *)

(** The reference keys of a mount pod, by namespace and name. *)
Definition registry := string -> string -> option (gset string).

Inductive action :=
| Create (ns n key : string)    (* the pod, with its first reference *)
| Add (ns n key : string)
| Drop (ns n key : string)
| Delete (ns n : string).

(** Nothing changes but the entry of one pod. *)
Definition same_except (ns n : string) (R R' : registry) : Prop :=
  forall ns' n', (ns', n') <> (ns, n) -> R' ns' n' = R ns' n'.

(** A pod without references may be deleted: it goes, or stays until its
    finalizer is taken off. *)
Definition rstep (R : registry) (a : option action) (R' : registry) : Prop :=
  match a with
  | None => forall ns n, R' ns n = R ns n
  | Some (Create ns n k) => R ns n = None /\ R' ns n = Some {[k]} /\ same_except ns n R R'
  | Some (Add ns n k) => exists s, R ns n = Some s /\ R' ns n = Some ({[k]} ∪ s) /\ same_except ns n R R'
  | Some (Drop ns n k) => exists s, R ns n = Some s /\ R' ns n = Some (s ∖ {[k]}) /\ same_except ns n R R'
  | Some (Delete ns n) => R ns n = Some ∅ /\ (R' ns n = None \/ R' ns n = Some ∅) /\ same_except ns n R R'
  end.

(** The actions of a request: a publication creates and adds, an
    unpublication drops and deletes, and both only for their own target; a
    request to the controller service does none. *)
Definition performs (c : Call) (a : option action) : Prop :=
  match a with
  | None => True
  | Some (Create _ _ k) | Some (Add _ _ k) => is_mount c = true /\ k = GetReferenceKey (call_target c)
  | Some (Drop _ _ k) => is_umount c = true /\ k = GetReferenceKey (call_target c)
  | Some (Delete _ _) => is_umount c = true
  end.

(** The runs of the registry under a list of calls. *)
Inductive rsteps (calls : list Call) : registry -> list (nat * option action) -> registry -> Prop :=
| rsteps_nil R R' : (forall ns n, R' ns n = R ns n) -> rsteps calls R [] R'
| rsteps_cons R1 i c a R2 l R3 :
    calls !! i = Some c -> performs c a -> rstep R1 a R2 -> rsteps calls R2 l R3 ->
    rsteps calls R1 ((i, a) :: l) R3.

(** The entry an action is about. *)
Definition entry (a : option action) : option (string * string) :=
  match a with
  | None => None
  | Some (Create ns n _) | Some (Add ns n _) | Some (Drop ns n _) | Some (Delete ns n) => Some (ns, n)
  end.

Lemma rstep_frame R a R' ns n : rstep R a R' -> entry a <> Some (ns, n) -> R' ns n = R ns n.
Proof.
  destruct a as [[x y ?|x y ?|x y ?|x y]|]; simpl; intros H Hne; [| | | |apply H]; split_ex;
    match goal with Hs : same_except x y R R' |- _ => apply Hs end; congruence.
Qed.

(** An action takes away a key only by a drop of that very key. *)
Lemma rstep_keeps R a R' ns n k s :
  rstep R a R' -> R ns n = Some s -> k ∈ s -> (forall ns n, a <> Some (Drop ns n k)) ->
  exists s', R' ns n = Some s' /\ k ∈ s'.
Proof.
  intros H HR Hk Hd. destruct (decide (entry a = Some (ns, n))) as [Ha|Ha].
  2:{ exists s. by rewrite (rstep_frame _ _ _ _ _ H Ha). }
  destruct a as [[x y key|x y key|x y key|x y]|]; simplify_eq/=; split_ex; simplify_eq.
  - eexists. split; [done|]. set_solver.
  - eexists. split; [done|]. assert (key <> k) by (intros ->; by eapply Hd). set_solver.
  - set_solver.
Qed.

(** ** Annotations and references *)

Lemma references_referenced p t :
  references (referenced p t) = {[GetReferenceKey t]} ∪ references (gm (pod_Annotations p)).
Proof.
  unfold referenced. rewrite references_delete, references_insert_ref.
  assert (DeleteDelayAtKey ∉ {[GetReferenceKey t]} ∪ references (gm (pod_Annotations p))) as Hn; [|set_solver].
  intros [Hin%elem_of_singleton|Hin]%elem_of_union; [by destruct (GetReferenceKey_not_delay t)|].
  unfold references in Hin. apply elem_of_dom in Hin as [v [_ Hv]%map_lookup_filter_Some].
  unfold is_ref in Hv. apply String.eqb_eq in Hv. simpl in Hv. by destruct (GetReferenceKey_not_delay v).
Qed.

Lemma hasRef_no_references p : hasRef p = false -> references (gm (pod_Annotations p)) = ∅.
Proof.
  intros Hr. apply set_eq. intros k. split; [|set_solver]. intros Hk.
  pose proof (references_prefix _ _ Hk) as Hp. unfold references in Hk.
  apply elem_of_dom in Hk as [v [Hk _]%map_lookup_filter_Some].
  assert (hasRef p = true); [|congruence]. apply hasRef_spec. by exists k, v.
Qed.

(** ** The server *)

(** What the driver relies on beyond [RefServer]: who changes which pods. *)
Class RegistryServer (W : Type) `{!RefServer W} := {
  quiet_law o w x w' : is_guarded o = false -> answers o w x w' ->
    forall ns n, annotations w' ns n = annotations w ns n;
  create_law w p q w' : answers (PodsCreate p) w (inl q) w' ->
    annotations w (pod_Namespace p) (pod_Name p) = None /\
    annotations w' (pod_Namespace p) (pod_Name p) = Some (gm (pod_Annotations p)) /\
    forall ns n, (ns, n) <> (pod_Namespace p, pod_Name p) -> annotations w' ns n = annotations w ns n;
  (* so has a creation *)
  create_error_law w p e w' : answers (PodsCreate p) w (inr e) w' ->
    (forall ns n, annotations w' ns n = annotations w ns n) \/ exists q, answers (PodsCreate p) w (inl q) w';
  delete_law w ns n x w' : answers (PodsDelete ns n) w x w' ->
    (annotations w' ns n = annotations w ns n \/ x = None /\ annotations w' ns n = None) /\
    forall ns' n', (ns', n') <> (ns, n) -> annotations w' ns' n' = annotations w ns' n';
}.

Section refinement.
Context {W : Type} `{!RefServer W} `{!RegistryServer W}.

(** The registry a server stands for. *)
Definition registry_of (w : W) : registry := fun ns n => references <$> annotations w ns n.

Lemma registry_same w w' :
  (forall ns n, annotations w' ns n = annotations w ns n) -> rstep (registry_of w) None (registry_of w').
Proof. intros H ns n. unfold registry_of. by rewrite H. Qed.

Lemma registry_same_except w w' ns n :
  (forall ns' n', (ns', n') <> (ns, n) -> annotations w' ns' n' = annotations w ns' n') ->
  same_except ns n (registry_of w) (registry_of w').
Proof. intros H ns' n' Hne. unfold registry_of. by rewrite H. Qed.

(** Whatever it is answered, a creation changed nothing or was carried out. *)
Lemma create_settles w p x w' :
  answers (PodsCreate p) w x w' ->
  (forall ns n, annotations w' ns n = annotations w ns n) \/ exists q, answers (PodsCreate p) w (inl q) w'.
Proof using RegistryServer0. destruct x as [q|e]; [right; by exists q|apply create_error_law]. Qed.

(** Every call is an action of the registry or changes nothing. *)
Lemma refines_step calls ss c l c' :
  sys_inv calls ss c -> step answers c l c' ->
  exists call a, calls !! l.1 = Some call /\ performs call a /\
    rstep (registry_of (world c)) a (registry_of (world c')).
Proof using RegistryServer0.
  intros Hi H. destruct (sys_inv_step _ _ _ _ _ Hi H) as ([call K] & Hl & Hpre & Ha & _).
  pose proof (thread_call _ _ _ _ _ _ Hi Hl) as Hc. exists call.
  destruct Hi as (_ & [Hacc _] & _).
  assert (forall M, K = Some M -> forall ns n p, M !! (ns, n) = Some p ->
            annotations (world c) ns n = Some (gm (pod_Annotations p))) as HM.
  { intros M ->. by apply (Hacc _ _ _ Hl). }
  destruct l as [i [o x]]. simpl in *. destruct (is_guarded o) eqn:Hg.
  2:{ exists None. split_and!; [done..|]. apply registry_same. by eapply quiet_law. }
  destruct o; try discriminate Hg.
  - destruct Hpre as [Hm Hr]. destruct (create_settles _ _ _ _ Ha) as [Hsame|[q Ha']].
    + exists None. split_and!; [done..|]. by apply registry_same.
    + clear Ha. rename Ha' into Ha. exists (Some (Create (pod_Namespace p) (pod_Name p) (GetReferenceKey (call_target call)))).
      apply create_law in Ha as (H1 & H2 & H3). split_and!; [done..|].
      split_and!; [unfold registry_of; by rewrite H1|unfold registry_of; rewrite H2; simpl; by rewrite Hr|].
      by apply registry_same_except.
  - done.
  - destruct Hpre as (M & p & -> & Hp & Ht). pose proof (HM _ eq_refl _ _ _ Hp) as Han.
    destruct (patch_settles _ _ _ _ _ _ Ha) as [Hsame|Ha'].
    { exists None. split_and!; [done..|]. apply registry_same. intros. by rewrite Hsame. }
    assert (same_except ns name (registry_of (world c)) (registry_of (world c'))) as Hse.
    { apply registry_same_except. intros ns' n'. by eapply patch_other_law. }
    clear Ha. rename Ha' into Ha. unfold touches in Ht. destruct (is_mount call) eqn:Hm; [subst pt|destruct Ht as [Hum [-> |[v ->]]]].
    + exists (Some (Add ns name (GetReferenceKey (call_target call)))). split_and!; [done..|].
      exists (references (gm (pod_Annotations p))). unfold registry_of at 1 2.
      rewrite Han, (replace_law _ _ _ _ _ Ha). simpl. by rewrite references_referenced.
    + exists (Some (Drop ns name (GetReferenceKey (call_target call)))). split_and!; [done..|].
      exists (references (gm (pod_Annotations p))). unfold registry_of at 1 2.
      rewrite Han, (remove_law _ _ _ _ _ _ _ (pointer_reference _) Ha Han). simpl. by rewrite references_delete.
    + exists None. split_and!; [done..|]. intros ns' n'.
      destruct (decide ((ns', n') = (ns, name))) as [[= -> ->]|Hne]; [|by apply Hse].
      unfold registry_of. rewrite Han, (merge_law _ _ _ _ _ _ Ha Han), <-insert_union_singleton_l. simpl.
      rewrite references_insert_other; [done|]. intros t Heq. by destruct (GetReferenceKey_not_delay t).
  - destruct Hpre as (M & p & -> & Hp & Hr & Hm). pose proof (HM _ eq_refl _ _ _ Hp) as Han.
    apply hasRef_no_references in Hr. apply delete_law in Ha as [Hx Hse].
    exists (Some (Delete ns name)). split_and!; [done..|]. split_and!; [| |by apply registry_same_except].
    + unfold registry_of. rewrite Han. simpl. by rewrite Hr.
    + unfold registry_of. destruct Hx as [-> |[_ ->]]; [right|by left]. rewrite Han. simpl. by rewrite Hr.
  - destruct m; [|done]. exists None. split_and!; [done..|]. apply registry_same. intros.
    by destruct (lock_law _ _ _ Ha) as (_ & _ & ->).
  - destruct m; [|done]. exists None. split_and!; [done..|]. apply registry_same. intros.
    by destruct (unlock_law _ _ _ Ha) as (_ & ->).
Qed.

(** C11 The driver refines the registry: every interleaving of requests to
    publish and unpublish volumes and to the controller service over a lawful
    server is a run of the registry with one action (or none) per call,
    performed by the thread that made the call, and a thread performs only
    what its call is for. *)
Theorem node_refines_registry cfg lib fuel calls w tr c :
  steps answers (mkConf w (map (perform cfg lib fuel) calls)) tr c ->
  exists l, rsteps calls (registry_of w) l (registry_of (world c)) /\ map fst l = map fst tr.
Proof using RegistryServer0.
  intros Hs. pose proof (perform_inv cfg lib fuel calls w) as Hi. revert Hi.
  generalize (map (fun c => (c, @None (gmap (string * string) Pod))) calls) as ss.
  change w with (world (mkConf w (map (perform cfg lib fuel) calls))) at 2.
  induction Hs as [c|c1 l c2 tr c3 H1 H2 IH]; intros ss Hi.
  { exists []. split; [by constructor|done]. }
  destruct (refines_step _ _ _ _ _ Hi H1) as (call & a & Hc & Hp & Hr).
  destruct (sys_inv_step _ _ _ _ _ Hi H1) as (s & _ & _ & _ & Hi').
  destruct (IH _ Hi') as (l' & Hl & Heq). exists ((l.1, a) :: l').
  split; [by econstructor|]. simpl. by rewrite Heq.
Qed.

(** C12 A reference whose target no request unpublishes survives every interleaving:
    it stays in the annotations of its pod on the server, and the pod stays. *)
Theorem node_reference_survives cfg lib fuel calls w tr c ns n a k :
  steps answers (mkConf w (map (perform cfg lib fuel) calls)) tr c ->
  annotations w ns n = Some a -> k ∈ references a ->
  (forall call, call ∈ calls -> is_umount call = true -> GetReferenceKey (call_target call) <> k) ->
  exists a', annotations (world c) ns n = Some a' /\ k ∈ references a'.
Proof using RegistryServer0.
  intros Hs Ha Hk Hno. pose proof (perform_inv cfg lib fuel calls w) as Hi. revert a Ha Hk Hi.
  generalize (map (fun c => (c, @None (gmap (string * string) Pod))) calls) as ss.
  change w with (world (mkConf w (map (perform cfg lib fuel) calls))) at 1.
  induction Hs as [c|c1 l c2 tr c3 H1 H2 IH]; intros ss a Ha Hk Hi; [eauto|].
  destruct (refines_step _ _ _ _ _ Hi H1) as (call & act & Hc & Hp & Hr).
  destruct (sys_inv_step _ _ _ _ _ Hi H1) as (s & _ & _ & _ & Hi').
  assert (exists s', registry_of (world c2) ns n = Some s' /\ k ∈ s') as (s' & Hs' & Hk').
  { eapply rstep_keeps; [exact Hr|unfold registry_of; by rewrite Ha|done|].
    intros ns' n' ->. destruct Hp as [Hm ->]. by eapply Hno; [eapply list_elem_of_lookup_2|..]. }
  unfold registry_of in Hs'. apply fmap_Some in Hs' as (a2 & Ha2 & ->). eauto.
Qed.
End refinement.
