(* ===== verification/Publication.v ===== *)
(** * A published volume keeps its mount pod

    Mounting, counting references and deleting pods together: once a request
    to publish a volume was answered without an error, the mount pod of the
    volume carries the reference of its target, whatever the other requests
    do, until the target is unpublished. *)
From S2P Require Import Prelude GoStrings GoPath GoTime Sha256 K8sTypes PatchText Prog Protocol Config K8sClient Util Console MountPod PodMount ProcessMount Juicefs NodeService RefLock Registry.
From stdpp Require Import options.

#[local] Arguments exec : simpl never.

(** ** The reference is recorded *)

(** A call that shows the reference of [target] on a pod, or writes it. *)
Definition records (podName ns target : string) (e : event) : Prop :=
  (exists p, e = (PodsGet podName ns ▷ inl p) /\ is_Some (mlookup (pod_Annotations p) (GetReferenceKey target))) \/
  (exists p, e = (PodsPatch ns podName (JSONPatch [ReplaceMap "/metadata/annotations" (referenced p target)]) ▷ None)).

(** What the server answers to a read of a pod is that pod. *)
Definition named_answers (tr : list event) : Prop :=
  forall n ns p, (PodsGet n ns ▷ inl p) ∈ tr -> pod_Name p = n /\ pod_Namespace p = ns.

(** No patch was refused but for a conflict. *)
Definition only_conflicts (tr : list event) : Prop :=
  forall ns n pt e, (PodsPatch ns n pt ▷ Some e) ∈ tr -> IsConflict e = true.

Definition only_conflictsb (tr : list event) : bool :=
  forallb (fun e => match projT1 e as o return resp o -> bool with
                    | PodsPatch _ _ _ => fun x => match x with Some e => IsConflict e | None => true end
                    | _ => fun _ => true
                    end (projT2 e)) tr.

Lemma only_conflictsb_spec tr : only_conflictsb tr = true -> only_conflicts tr.
Proof.
  intros H ns n pt e Hin. unfold only_conflictsb in H. rewrite forallb_forall in H.
  apply list_elem_of_In in Hin. by apply H in Hin.
Qed.

Lemma AddRefOfMount_records cfg fuel target podName tr :
  exec (AddRefOfMount cfg fuel target podName) tr (Ok tt) -> named_answers tr -> only_conflicts tr ->
  exists e, e ∈ tr /\ records podName (cfg_Namespace cfg) target e.
Proof.
  intros H Hn Hc. apply exec_AddRefOfMount in H as (pre & last & -> & _ & H & _); [|done].
  apply exec_add_ref in H as (g & body & -> & H). destruct g as [p|e]; [|by destruct H].
  destruct (Hn podName (cfg_Namespace cfg) p) as [Hp1 Hp2]; [set_solver|].
  destruct (mlookup _ _) eqn:Hk.
  - exists (PodsGet podName (cfg_Namespace cfg) ▷ inl p). split; [set_solver|]. left. eauto.
  - destruct H as (x & -> & Hx). destruct x as [e|].
    + assert (IsConflict e = true) as He.
      { eapply Hc. apply elem_of_app. right. do 2 (apply elem_of_cons; right). by apply elem_of_cons; left. }
      by rewrite He in Hx.
    + exists (PodsPatch (pod_Namespace p) (pod_Name p) (JSONPatch [ReplaceMap "/metadata/annotations" (referenced p target)]) ▷ None).
      split; [set_solver|]. right. exists p. by rewrite Hp1, Hp2.
Qed.

Lemma publish_adds_reference cfg lib fuel req tr :
  exec (NodePublishVolume cfg lib fuel req) tr (Ok tt) ->
  exists id uid ref, uid ⊆ tr /\ exec (GetUniqueId (np_VolumeId req)) uid (Ok id) /\ ref ⊆ tr /\
    exec (AddRefOfMount cfg fuel (np_TargetPath req) (GeneratePodNameByVolumeId cfg id)) ref (Ok tt).
Proof.
  intros H. apply exec_NodePublishVolume_ok in H as (volCap & t1 & t2 & opts & mount & fs & vol & src & bind & _ & _ & -> & _ & _ & H & _).
  apply exec_JfsMount_ok in H as (id & uid & t3 & t4 & -> & Hid & _ & _ & H).
  apply (exec_JMount_ok _ _ _ _ EmptyString) in H as (pre & po & ref & pre' & fi & -> & _ & H & _).
  exists id, uid, ref. split_and!; [set_solver|done|set_solver|done].
Qed.

(** ** and stays *)

Section server.
Context {W : Type} `{!RefServer W} `{!RegistryServer W}.

(** An annotation of the driver that no unpublication of the pool is for. *)
Definition kept (calls : list Call) (k : string) : Prop :=
  HasPrefix k "mosfs-" = true /\ k <> DeleteDelayAtKey /\
  forall c, c ∈ calls -> is_umount c = true -> GetReferenceKey (call_target c) <> k.

Definition has_key (w : W) (ns n k : string) : Prop := exists a, annotations w ns n = Some a /\ is_Some (a !! k).

Lemma has_key_same w w' ns n k :
  annotations w' ns n = annotations w ns n -> has_key w ns n k -> has_key w' ns n k.
Proof. unfold has_key. by intros ->. Qed.

Lemma has_key_step calls ss c l c' ns n k :
  sys_inv calls ss c -> step answers c l c' -> kept calls k ->
  has_key (world c) ns n k -> has_key (world c') ns n k.
Proof using RegistryServer0.
  intros Hi H (Hpre & Hdel & Hno) Hk. destruct (sys_inv_step _ _ _ _ _ Hi H) as ([call K] & Hl & Hp & Ha & _).
  pose proof (thread_call _ _ _ _ _ _ Hi Hl) as Hc%list_elem_of_lookup_2. destruct Hi as (_ & [Hacc _] & _).
  assert (forall M, K = Some M -> forall ns n p, M !! (ns, n) = Some p ->
            annotations (world c) ns n = Some (gm (pod_Annotations p))) as HM.
  { intros M ->. by apply (Hacc _ _ _ Hl). }
  destruct l as [i [o x]]. simpl in *. destruct (is_guarded o) eqn:Hg.
  2:{ eapply has_key_same, Hk. by eapply quiet_law. }
  destruct o; try discriminate Hg.
  - destruct (create_settles _ _ _ _ Ha) as [Hsame|[q Ha']]; [by eapply has_key_same, Hk|].
    apply create_law in Ha' as (H1 & _ & H3). eapply has_key_same, Hk. apply H3. intros [= -> ->].
    destruct Hk as (a & Hk & _). congruence.
  - done.
  - destruct Hp as (M & p & -> & Hp & Ht). pose proof (HM _ eq_refl _ _ _ Hp) as Han.
    destruct (patch_settles _ _ _ _ _ _ Ha) as [Hsame|Ha']; [eapply has_key_same, Hk; by rewrite Hsame|].
    clear Ha. rename Ha' into Ha.
    destruct (decide ((ns, n) = (ns0, name))) as [[= -> ->]|Hne];
      [|eapply has_key_same, Hk; by eapply patch_other_law].
    destruct Hk as (a & Han' & Hk). rewrite Han in Han'. simplify_eq. unfold touches in Ht.
    destruct (is_mount call) eqn:Hm; [subst pt|destruct Ht as [Hum [-> |[v ->]]]].
    + eexists. rewrite (replace_law _ _ _ _ _ Ha). split; [done|].
      destruct (referenced_spec p (call_target call)) as (Hr & _ & Ho).
      destruct (decide (k = GetReferenceKey (call_target call))) as [->|Hne]; [by rewrite Hr|by rewrite Ho].
    + eexists. rewrite (remove_law _ _ _ _ _ _ _ (pointer_reference _) Ha Han). split; [done|].
      rewrite lookup_delete_ne; [done|]. by apply Hno.
    + eexists. rewrite (merge_law _ _ _ _ _ _ Ha Han). split; [done|]. rewrite lookup_union_r; [done|].
      by rewrite lookup_singleton_ne.
  - destruct Hp as (M & p & -> & Hp & Hr & _). pose proof (HM _ eq_refl _ _ _ Hp) as Han.
    apply delete_law in Ha as [_ Ho]. eapply has_key_same, Hk. apply Ho. intros [= -> ->].
    destruct Hk as (a & Han' & [v Hv]). rewrite Han in Han'. simplify_eq.
    assert (hasRef p = true); [|congruence]. apply hasRef_spec. by exists k, v.
  - destruct m; [|done]. eapply has_key_same, Hk. destruct (lock_law _ _ _ Ha) as (_ & _ & Hsame). by rewrite Hsame.
  - destruct m; [|done]. eapply has_key_same, Hk. destruct (unlock_law _ _ _ Ha) as (_ & Hsame). by rewrite Hsame.
Qed.

Lemma has_key_steps calls ss c tr c' ns n k :
  sys_inv calls ss c -> steps answers c tr c' -> kept calls k ->
  has_key (world c) ns n k -> has_key (world c') ns n k.
Proof using RegistryServer0.
  intros Hi Hs Hk. revert ss Hi. induction Hs as [c|c1 l c2 tr c3 H1 H2 IH]; intros ss Hi H; [done|].
  destruct (sys_inv_step _ _ _ _ _ Hi H1) as (s & _ & _ & _ & Hi'). exact (IH _ Hi' (has_key_step _ _ _ _ _ _ _ _ Hi H1 Hk H)).
Qed.

(** *** Events of a run *)

(** An event of a run, with the configurations around it. *)
Lemma steps_at c tr c' i e :
  steps answers c tr c' -> (i, e) ∈ tr ->
  exists tr1 c1 c2 tr2, steps answers c tr1 c1 /\ step answers c1 (i, e) c2 /\ steps answers c2 tr2 c' /\
    answers (projT1 e) (world c1) (projT2 e) (world c2).
Proof.
  intros Hs (tr1 & tr2 & ->)%list_elem_of_split. apply steps_app in Hs as (c1 & H1 & H2).
  inversion H2 as [|? ? c2 ? ? Hst H3]; subst. exists tr1, c1, c2, tr2. split_and!; [done..|].
  by inversion Hst.
Qed.

Lemma steps_named_answers c tr c' i : steps answers c tr c' -> named_answers (thread i tr).
Proof.
  intros Hs n ns p Hin%elem_of_thread. destruct (steps_at _ _ _ _ _ Hs Hin) as (_ & c1 & c2 & _ & _ & _ & _ & Ha).
  apply get_law in Ha as (H1 & H2 & _). done.
Qed.

Lemma records_has_key c e c' i podName ns target :
  step answers c (i, e) c' -> records podName ns target e -> has_key (world c') ns podName (GetReferenceKey target).
Proof using RegistryServer0.
  intros H Hr. assert (answers (projT1 e) (world c) (projT2 e) (world c')) as Ha by (by inversion H).
  destruct Hr as [(p & -> & Hk)|(p & ->)]; simpl in Ha.
  - exists (gm (pod_Annotations p)). rewrite (quiet_law (PodsGet podName ns) _ _ _ eq_refl Ha). by apply get_law in Ha as (_ & _ & ->).
  - eexists. rewrite (replace_law _ _ _ _ _ Ha). split; [done|]. by rewrite (proj1 (referenced_spec p target)).
Qed.

(** C13 In every interleaving of requests to publish and unpublish volumes and
    to the controller service over a lawful server: when a request to publish was answered without an error
    and none of its patches was refused but for a conflict, the mount pod of
    the unique id of its volume is on the server and carries the reference
    of its target, unless the target is unpublished by a request of the
    pool. *)
Theorem publication_lasts cfg lib fuel calls w tr c i req :
  steps answers (mkConf w (map (perform cfg lib fuel) calls)) tr c ->
  calls !! i = Some (CallPublish req) -> pool c !! i = Some (mret tt) ->
  only_conflicts (thread i tr) ->
  (forall call, call ∈ calls -> is_umount call = true ->
     GetReferenceKey (call_target call) <> GetReferenceKey (np_TargetPath req)) ->
  exists id uid, uid ⊆ thread i tr /\ exec (GetUniqueId (np_VolumeId req)) uid (Ok id) /\
    has_key (world c) (cfg_Namespace cfg) (GeneratePodNameByVolumeId cfg id) (GetReferenceKey (np_TargetPath req)).
Proof using RegistryServer0.
  intros Hs Hi Hd Hc Hno.
  assert (exec (NodePublishVolume cfg lib fuel req) (thread i tr) (Ok tt)) as H.
  { eapply steps_done; [exact Hs| |exact Hd]. simpl. rewrite list_lookup_fmap. by rewrite Hi. }
  apply publish_adds_reference in H as (id & uid & ref & Huid & Hid & Href & H). exists id, uid. split; [done|]. split; [done|].
  apply AddRefOfMount_records in H as (e & He & Hr).
  - apply Href, elem_of_thread in He. destruct (steps_at _ _ _ _ _ Hs He) as (tr1 & c1 & c2 & tr2 & H1 & H2 & H3 & _).
    destruct (sys_inv_steps _ _ _ _ _ (perform_inv cfg lib fuel calls w) H1) as (ss & Hinv).
    destruct (sys_inv_step _ _ _ _ _ Hinv H2) as (s & _ & _ & _ & Hinv').
    eapply has_key_steps; [exact Hinv'|exact H3| |by eapply records_has_key].
    split_and!; [apply GetReferenceKey_prefix|by destruct (GetReferenceKey_not_delay (np_TargetPath req))|exact Hno].
  - intros n ns p Hin. eapply steps_named_answers; [exact Hs|by apply Href].
  - intros ns n pt e Hin. eapply Hc. by apply Href.
Qed.
End server.
