(* ===== verification/PodDriver.v ===== *)
(** * The recovery of mount pods

    [pkg/controller/pod_driver.go]: one pass over a mount pod.  [Run] drops
    the references of pods that are gone, deletes the mount pod when no
    reference is left, and hands it to the handler of its status otherwise:
    a broken pod is deleted, a deleted pod that is still referenced is made
    again, and the targets of a ready pod are mounted again when they broke. *)
From S2P Require Import Prelude GoStrings GoPath GoTime Sha256 K8sTypes PatchText Prog Config K8sClient Util MountInfoTable.
From stdpp Require Import options.
#[local] Open Scope Z_scope.

#[local] Arguments exec : simpl never.

(** ** Data *)

Inductive podStatus := podReady | podError | podDeleted | podPending.

#[global] Instance podStatus_eq_dec : EqDecision podStatus.
Proof. solve_decision. Defined.

Definition second : Z := 1000000000.

(** ** The status of a pod *)

Definition getPodStatus (pod : option Pod) : podStatus :=
  match pod with
  | None => podError
  | Some pod =>
      if bool_decide (is_Some (DeletionTimestamp (Meta pod))) then podDeleted
      else if IsPodError pod then podError
      else if IsPodReady pod then podReady
      else podPending
  end.

(** ** Handlers *)

(** A pod like [pod] but without status, UID and finalizers. *)
Definition copy_of_pod (pod : Pod) : Pod :=
  mkPod (mkMeta (pod_Name pod) (pod_Namespace pod) EmptyString (Labels (Meta pod)) (pod_Annotations pod)
           None None)
        (Spec pod) zeroStatus.

(** [for i := 0; i < n; i++]: wait for the pod to go, and take the finalizer
    off the pod that is still there. *)
Fixpoint wait_deleted_error (n : nat) (pod : Pod) : prog unit :=
  match n with
  | O => mret tt
  | S n' =>
      r ← try (GetPod (pod_Name pod) (pod_Namespace pod));
      match r with
      | inl oldPod =>
          (if bool_decide (is_Some (pod_Finalizers pod))
              || (length (default [] (pod_Finalizers oldPod)) =? 0)%nat
           then try (RemoveFinalizer oldPod Finalizer) ≫= fun _ => mret tt
           else mret tt) ≫= fun _ =>
          call (Sleep (5 * second)) ≫= fun _ =>
          wait_deleted_error n' pod
      | inr e => if IsNotFound e then mret tt else wait_deleted_error n' pod
      end
  end.

(** The copy of the pod that asks for no resources. *)
Definition redeploy_without_resources (pod : Pod) : prog unit :=
  let newPod := DeleteResourceOfPod (AddFinalizer (copy_of_pod pod) Finalizer) in
  try (CreatePod newPod) ≫= fun _ => mret tt.

Definition podErrorHandler (pod : option Pod) : prog unit :=
  match pod with
  | None => mret tt
  | Some pod =>
      with_mutex (GetPodLock (pod_Name pod)) (
        if IsPodResourceError pod then
          if IsPodHasResource pod then
            pod ← RemoveFinalizer pod Finalizer;
            DeletePod pod ≫= fun _ =>
            wait_deleted_error 30 pod ≫= fun _ =>
            redeploy_without_resources pod
          else mret tt
        else
          '(sourcePath, _) ← lift_sum (GetMountPathOfPod pod);
          '(exists_, err) ← PathExists sourcePath;
          needDeleted ←
            (if bool_decide (is_Some err) || negb exists_ then mret true
             else notMnt ← call (LikelyNotMountPoint sourcePath);
                  mret (match notMnt with inr _ => true | inl b => b end));
          if needDeleted : bool then DeletePod pod else mret tt)
  end.

(** Wait for the pod to go; any error ends the wait. *)
Fixpoint wait_deleted (n : nat) (podName namespace : string) : prog unit :=
  match n with
  | O => mret tt
  | S n' =>
      r ← try (GetPod podName namespace);
      match r with
      | inl _ => call (Sleep (5 * second)) ≫= fun _ => wait_deleted n' podName namespace
      | inr _ => mret tt
      end
  end.

(** The deferred closure that makes the pod again. *)
Definition recreate (pod : Pod) : prog unit :=
  wait_deleted 30 (pod_Name pod) (pod_Namespace pod) ≫= fun _ =>
  let newPod := AddFinalizer (copy_of_pod pod) Finalizer in
  try (CreatePod newPod) ≫= fun _ => mret tt.

Definition podDeletedHandler (pod : option Pod) : prog unit :=
  match pod with
  | None => mret tt
  | Some pod =>
      if negb (ContainsString (default [] (pod_Finalizers pod)) Finalizer) then mret tt
      else if IsPodResourceError pod then mret tt
      else
        pod ← RemoveFinalizer pod Finalizer;
        match pod_Annotations pod with
        | None => mret tt
        | Some annotations =>
            order ← call (RangeMap annotations);
            let targets := map snd (List.filter is_ref order) in
            if (length targets =? 0)%nat then mret tt
            else
              match GetMountPathOfPod pod with
              | inr _ => mret tt
              | inl (sourcePath, _) =>
                  with_mutex (GetPodLock (pod_Name pod)) (
                    defer (recreate pod) (UmountPath sourcePath))
              end
        end
  end.

(** One turn of the recovery loop. *)
Definition recover_target (sourcePath : string) (kv : string * string) : prog unit :=
  if is_ref kv then
    r ← call (OsStat (snd kv));
    match r with
    | inl _ => mret tt
    | inr e =>
        if IsNotExist e then mret tt
        else call (DoMount sourcePath (snd kv) "none" ["bind"]) ≫= fun _ => mret tt
    end
  else mret tt.

(** The directory the targets are bound to: the one named after the volume,
    or the root of the mount when there is none; nothing is recovered when
    neither can be read. *)
Definition recovery_source (mntPath volumeId : string) : prog (option string) :=
  let sourcePath := mntPath +:+ "/" +:+ volumeId in
  r ← call (OsStat sourcePath);
  match r with
  | inl _ => mret (Some sourcePath)
  | inr e =>
      if negb (IsNotExist e) then mret None
      else
        r2 ← call (OsStat mntPath);
        match r2 with
        | inl _ => mret (Some mntPath)
        | inr _ => mret None
        end
  end.

Definition podReadyHandler (pod : option Pod) : prog unit :=
  match pod with
  | None => mret tt
  | Some pod =>
      match pod_Annotations pod with
      | None => mret tt
      | Some annotations =>
          match GetMountPathOfPod pod with
          | inr _ => mret tt
          | inl (mntPath, volumeId) =>
              source ← recovery_source mntPath volumeId;
              match source with
              | None => mret tt
              | Some sourcePath =>
                  order ← call (RangeMap annotations);
                  for_each (recover_target sourcePath) order
              end
          end
      end
  end.

Definition podPendingHandler (pod : option Pod) : prog unit :=
  match pod with
  | None => mret tt
  | Some pod => if String.eqb (Phase (Status pod)) "Succeeded" then DeletePod pod else mret tt
  end.

(** The handlers [newPodDriver] registers. *)
Definition handlers (st : podStatus) : option Pod -> prog unit :=
  match st with
  | podReady => podReadyHandler
  | podError => podErrorHandler
  | podPending => podPendingHandler
  | podDeleted => podDeletedHandler
  end.

(** ** One pass *)

(** Whether the pod of a target is in the table of known pods. *)
Definition target_exists (mit : mountInfoTable) (kv : string * string) : bool :=
  bool_decide (is_Some (deletedPods mit !! getPodUid (snd kv))).

(** The loop over the annotations: the number of live targets and the keys
    of the others. *)
Fixpoint scan_refs (mit : mountInfoTable) (l : list (string * string)) (existTargets : Z) (delAnnotations : list string)
    : Z * list string :=
  match l with
  | [] => (existTargets, delAnnotations)
  | kv :: rest =>
      if is_ref kv then
        if negb (target_exists mit kv) then scan_refs mit rest existTargets (delAnnotations ++ [fst kv])
        else scan_refs mit rest (existTargets + 1) delAnnotations
      else scan_refs mit rest existTargets delAnnotations
  end.

(** The part of [Run] that takes annotations away. *)
Definition drop_annotations (current : Pod) (delAnnotations : list string) : prog unit :=
  if negb (length delAnnotations =? 0)%nat then
    newPod ← GetPod (pod_Name current) (pod_Namespace current);
    if negb (size (GetAllRefKeys newPod) =? size (GetAllRefKeys current))%nat
    then Throw (ErrApi ReasonConflict)
    else DelPodAnnotation current delAnnotations
  else mret tt.

Definition Run (mit : mountInfoTable) (current : Pod) : prog unit :=
  order ← call (RangeMap (gm (pod_Annotations current)));
  let '(existTargets, delAnnotations) := scan_refs mit order 0 [] in
  let delAnnotations :=
    if negb (existTargets =? 0) && negb (String.eqb (mget (pod_Annotations current) DeleteDelayAtKey) EmptyString)
    then delAnnotations ++ [DeleteDelayAtKey] else delAnnotations in
  drop_annotations current delAnnotations ≫= fun _ =>
  let dispatch := handlers (getPodStatus (Some current)) (Some current) in
  if (existTargets =? 0) && bool_decide (DeletionTimestamp (Meta current) = None) then
    shouldDelay ← ShouldDelay current;
    if negb shouldDelay then DeletePod current else dispatch
  else dispatch.

(** ** The scan of the references *)

(** The references of a pod whose targets belong to a known pod, and the
    others. *)
Definition live_refs (mit : mountInfoTable) (pod : Pod) : gmap string string :=
  filter (fun kv => is_ref kv && target_exists mit kv = true) (gm (pod_Annotations pod)).
Definition dead_refs (mit : mountInfoTable) (pod : Pod) : gmap string string :=
  filter (fun kv => is_ref kv && negb (target_exists mit kv) = true) (gm (pod_Annotations pod)).

Lemma scan_refs_spec mit l n d :
  scan_refs mit l n d =
  (n + Z.of_nat (length (List.filter (fun kv => is_ref kv && target_exists mit kv) l)),
   d ++ map fst (List.filter (fun kv => is_ref kv && negb (target_exists mit kv)) l)).
Proof.
  revert n d. induction l as [|kv l IH]; intros n d; simpl.
  { by rewrite Z.add_0_r, app_nil_r. }
  destruct (is_ref kv) eqn:Hr, (target_exists mit kv) eqn:Ht; simpl; rewrite IH; f_equal; [lia|].
  by rewrite <-app_assoc.
Qed.

Lemma elem_of_list_filter_map (f : string * string -> bool) (m : gmap string string) l kv :
  l ≡ₚ map_to_list m -> kv ∈ List.filter f l <-> m !! fst kv = Some (snd kv) /\ f kv = true.
Proof.
  intros Hl. rewrite list_elem_of_In, filter_In, <-list_elem_of_In, Hl.
  destruct kv as [k v]. by rewrite elem_of_map_to_list.
Qed.

Lemma scan_live_zero mit pod l :
  l ≡ₚ map_to_list (gm (pod_Annotations pod)) ->
  fst (scan_refs mit l 0 []) = 0 <-> live_refs mit pod = ∅.
Proof.
  intros Hl. rewrite scan_refs_spec. simpl. unfold live_refs. split.
  - intros Hz. apply map_empty. intros k.
    apply map_lookup_filter_None. right. intros v Hk Hf.
    assert ((k, v) ∈ List.filter (fun kv => is_ref kv && target_exists mit kv) l) as Hin
      by (by apply (elem_of_list_filter_map _ _ _ _ Hl)).
    destruct (List.filter _ l); [set_solver|simpl in Hz; lia].
  - intros He. destruct (List.filter _ l) as [|[k v] l'] eqn:Hf; [done|]. exfalso.
    assert ((k, v) ∈ List.filter (fun kv => is_ref kv && target_exists mit kv) l) as Hin
      by (rewrite Hf; set_solver).
    apply (elem_of_list_filter_map _ _ _ _ Hl) in Hin as [Hk Hb].
    by eapply map_filter_empty_not_lookup in He.
Qed.

Lemma scan_dead mit pod l k :
  l ≡ₚ map_to_list (gm (pod_Annotations pod)) ->
  k ∈ snd (scan_refs mit l 0 []) <-> k ∈ dom (dead_refs mit pod).
Proof.
  intros Hl. rewrite scan_refs_spec. simpl. rewrite list_elem_of_fmap, elem_of_dom. unfold dead_refs. split.
  - intros ([k' v] & -> & Hin). apply (elem_of_list_filter_map _ _ _ _ Hl) in Hin as [Hk Hb].
    exists v. by apply map_lookup_filter_Some.
  - intros [v Hv]. apply map_lookup_filter_Some in Hv as [Hk Hb]. exists (k, v).
    split; [done|]. by apply (elem_of_list_filter_map _ _ _ _ Hl).
Qed.

(** ** The calls of the handlers *)

Definition is_annotation_removal (o : op) : bool :=
  match o with PodsPatch _ _ (JSONPatch (RemovePath _ :: _)) => true | _ => false end.

Lemma RemoveFinalizer_avoids f pod fin :
  (forall ns n v, f (PodsPatch ns n (JSONPatch [ReplaceList "/metadata/finalizers" v])) = false) ->
  avoids f (RemoveFinalizer pod fin).
Proof.
  intros Hf. unfold RemoveFinalizer, PatchPod. destruct (pod_Finalizers pod) as [fs|].
  - destruct (remove_finalizer fin fs). avoid.
  - avoid.
Qed.

Lemma RemoveFinalizer_bind_avoids {B} f pod fin (g : Pod -> prog B) :
  (forall ns n v, f (PodsPatch ns n (JSONPatch [ReplaceList "/metadata/finalizers" v])) = false) ->
  (forall s, avoids f (g (with_finalizers s pod))) -> avoids f (RemoveFinalizer pod fin ≫= g).
Proof.
  intros Hf Hg. unfold RemoveFinalizer, PatchPod. destruct (pod_Finalizers pod) as [fs|].
  - destruct (remove_finalizer fin fs). split; [done|]. intros [e|] _; [done|apply Hg].
  - split; [done|]. intros [e|] _; [done|apply Hg].
Qed.

Lemma wait_deleted_error_avoids f n pod :
  (forall ns n v, f (PodsPatch ns n (JSONPatch [ReplaceList "/metadata/finalizers" v])) = false) ->
  (forall n ns, f (PodsGet n ns) = false) -> (forall t, f (Sleep t) = false) ->
  avoids f (wait_deleted_error n pod).
Proof.
  intros H1 H2 H3. induction n as [|n IH]; [done|]. cbn [wait_deleted_error]. unfold GetPod.
  avoid. by apply RemoveFinalizer_avoids.
Qed.

Lemma wait_deleted_avoids f n podName ns :
  (forall n ns, f (PodsGet n ns) = false) -> (forall t, f (Sleep t) = false) ->
  avoids f (wait_deleted n podName ns).
Proof. intros H2 H3. induction n as [|n IH]; [done|]. cbn [wait_deleted]. unfold GetPod. avoid. Qed.

#[local] Arguments getPodStatus : simpl never.
#[local] Opaque wait_deleted wait_deleted_error RemoveFinalizer.

(** The calls of the handlers. *)
Definition handler_op (o : op) : bool :=
  match o with
  | PodsGet _ _ | PodsCreate _ | PodsDelete _ _ | PodsPatch _ _ (JSONPatch [ReplaceList _ _])
  | OsStat _ | Command _ _ _ | DoMount _ _ _ _ | LikelyNotMountPoint _
  | Sleep _ | MutexLock _ | MutexUnlock _ | RangeMap _ => true
  | _ => false
  end.

Lemma handlers_avoids f st pod :
  (forall o, handler_op o = true -> f o = false) -> avoids f (handlers st pod).
Proof.
  intros Hf. destruct st, pod as [pod|]; cbn [handlers]; try exact I.
  - unfold podReadyHandler, recovery_source, recover_target. avoid; by apply Hf.
  - unfold podErrorHandler, redeploy_without_resources, PathExists, DeletePod, CreatePod.
    avoid; try by apply Hf.
    + apply RemoveFinalizer_avoids. intros. by apply Hf.
    + apply wait_deleted_error_avoids; intros; by apply Hf.
  - unfold podDeletedHandler, recreate, UmountPath, CreatePod. avoid; try by apply Hf.
    + apply RemoveFinalizer_avoids. intros. by apply Hf.
    + apply wait_deleted_avoids; intros; by apply Hf.
  - unfold podPendingHandler, DeletePod. avoid; by apply Hf.
Qed.

(** No handler takes an annotation away. *)
Lemma handlers_avoid_removal st pod : avoids is_annotation_removal (handlers st pod).
Proof. apply handlers_avoids. intros [] Ho; try done. by destruct pt as [[|[] []]| |]. Qed.

Lemma ShouldDelay_avoids f pod :
  f TimeNow = false -> (forall t, f (LocalOffset t) = false) ->
  (forall ns n m, f (PodsPatch ns n (StrategicMergeAnnotations m)) = false) -> avoids f (ShouldDelay pod).
Proof. intros H1 H2 H3. unfold ShouldDelay, GetTimeAfterDelay, AddPodAnnotation, PatchPod. avoid. Qed.

(** ** What a pass does *)

(** The annotations a pass takes away. *)
Definition stale (mit : mountInfoTable) (pod : Pod) (k : string) : Prop :=
  k ∈ dom (dead_refs mit pod) \/
  (k = DeleteDelayAtKey /\ live_refs mit pod <> ∅ /\ mget (pod_Annotations pod) DeleteDelayAtKey <> EmptyString).

Lemma exec_drop_annotations current del tr r :
  exec (drop_annotations current del) tr r ->
  (del = [] /\ tr = [] /\ r = Ok tt) \/
  (del <> [] /\ exists g body, tr = (PodsGet (pod_Name current) (pod_Namespace current) ▷ g) :: body /\
    match g with
    | inr e => body = [] /\ r = Err e
    | inl newPod =>
        if (size (GetAllRefKeys newPod) =? size (GetAllRefKeys current))%nat then
          exists x, body = [PodsPatch (pod_Namespace current) (pod_Name current)
                              (JSONPatch (map (fun k => RemovePath ("/metadata/annotations/" +:+ k)) del)) ▷ x] /\
                    r = match x with None => Ok tt | Some e => Err e end
        else body = [] /\ r = Err (ErrApi ReasonConflict)
    end).
Proof.
  unfold drop_annotations. destruct (Nat.eqb_spec (length del) 0) as [Hl|Hl]; cbn [negb]; intros H.
  - left. destruct H as [-> ->]. by apply nil_length_inv in Hl.
  - right. split; [by intros ->|].
    apply exec_GetPod_bind in H as [(p & tr' & -> & H)|(e & -> & ->)]; [|by exists (inr e), []].
    exists (inl p), tr'. split; [done|].
    destruct (size (GetAllRefKeys p) =? _)%nat; cbn [negb] in H; [|done]. by apply exec_PatchPod in H.
Qed.

(** The pass in three parts: the scan, the removal of stale annotations, and
    the deletion or the handler. *)
Lemma exec_Run mit current tr r :
  exec (Run mit current) tr r ->
  exists order del tr', tr = (RangeMap (gm (pod_Annotations current)) ▷ order) :: tr' /\
    (forall k, k ∈ del <-> stale mit current k) /\
    ((exec (drop_annotations current del) tr' r /\ is_ok r = false) \/
     exists t1 t2, tr' = t1 ++ t2 /\ exec (drop_annotations current del) t1 (Ok tt) /\
       exec (if bool_decide (live_refs mit current = ∅ /\ DeletionTimestamp (Meta current) = None) then
               shouldDelay ← ShouldDelay current;
               if negb shouldDelay then DeletePod current
               else handlers (getPodStatus (Some current)) (Some current)
             else handlers (getPodStatus (Some current)) (Some current)) t2 r).
Proof.
  unfold Run. intros H. apply exec_call_inv in H as (order & tr' & -> & Hl & H).
  pose proof (scan_live_zero mit current order Hl) as Hlive.
  assert (forall k, k ∈ snd (scan_refs mit order 0 []) <-> k ∈ dom (dead_refs mit current)) as Hdead
    by (intros; by apply scan_dead).
  destruct (scan_refs mit order 0 []) as [n d] eqn:Hs. simpl in Hlive, Hdead.
  eexists order, _, tr'. split; [done|]. split.
  2:{ apply exec_bind_unit in H as [(t1 & t2 & -> & H1 & H)|(rd & H1 & Hn & ->)].
      - right. exists t1, t2. split_and!; [done|exact H1|].
        replace (bool_decide _) with ((n =? 0) && bool_decide (DeletionTimestamp (Meta current) = None)); [exact H|].
        apply eq_true_iff_eq. rewrite andb_true_iff, Z.eqb_eq, !bool_decide_eq_true. by rewrite Hlive.
      - left. destruct rd; [done|exact (conj H1 Hn)..]. }
  intros k. unfold stale. rewrite <-Hdead, <-Hlive.
  destruct (Z.eqb_spec n 0) as [->|Hn]; simpl; [naive_solver|].
  destruct (String.eqb_spec (mget (pod_Annotations current) DeleteDelayAtKey) EmptyString) as [He|He]; simpl;
    [naive_solver|].
  rewrite elem_of_app, list_elem_of_singleton. naive_solver.
Qed.

(** Deletions of other pods than the given one. *)
Definition foreign_delete (pod : Pod) (o : op) : bool :=
  match o with
  | PodsDelete ns n => negb (String.eqb ns (pod_Namespace pod) && String.eqb n (pod_Name pod))
  | _ => false
  end.

Lemma DeletePod_own pod pod' :
  pod_Name pod' = pod_Name pod -> pod_Namespace pod' = pod_Namespace pod ->
  avoids (foreign_delete pod) (DeletePod pod').
Proof.
  intros Hn Hns. unfold DeletePod. rewrite Hn, Hns. avoid. simpl. by rewrite !String.eqb_refl.
Qed.

(** A handler deletes the pod it is given or none. *)
Lemma handlers_delete_own st pod : avoids (foreign_delete pod) (handlers st (Some pod)).
Proof.
  destruct st; cbn [handlers].
  - unfold podReadyHandler, recovery_source, recover_target. avoid.
  - unfold podErrorHandler. apply avoids_with_mutex; [done..|].
    destruct (IsPodResourceError pod); [destruct (IsPodHasResource pod); [|done]|].
    + apply RemoveFinalizer_bind_avoids; [done|]. intros s. apply avoids_bind; [by apply DeletePod_own|].
      intros _. apply avoids_bind; [by apply wait_deleted_error_avoids|].
      unfold redeploy_without_resources, CreatePod. avoid.
    + unfold PathExists. avoid. by apply DeletePod_own.
  - unfold podDeletedHandler, recreate, UmountPath, CreatePod. avoid.
    + by apply RemoveFinalizer_avoids.
    + by apply wait_deleted_avoids.
  - unfold podPendingHandler. destruct (String.eqb _ _); [by apply DeletePod_own|done].
Qed.

(** Only two handlers delete: the one of broken pods, and the one of pending
    pods for a pod that ran to its end. *)
Lemma handlers_delete_case st pod :
  st <> podError -> (st = podPending -> Phase (Status pod) <> "Succeeded") ->
  avoids is_delete (handlers st (Some pod)).
Proof.
  intros Hst Hp. destruct st; cbn [handlers]; [|done| |].
  - unfold podReadyHandler, recovery_source, recover_target. avoid.
  - unfold podDeletedHandler, recreate, UmountPath, CreatePod. avoid.
    + by apply RemoveFinalizer_avoids.
    + by apply wait_deleted_avoids.
  - unfold podPendingHandler. destruct (String.eqb_spec (Phase (Status pod)) "Succeeded"); [|done].
    by destruct Hp.
Qed.

Lemma drop_annotations_avoids f current del :
  (forall n ns, f (PodsGet n ns) = false) -> (forall ns n ops, f (PodsPatch ns n (JSONPatch ops)) = false) ->
  avoids f (drop_annotations current del).
Proof. intros. unfold drop_annotations, GetPod, DelPodAnnotation, PatchPod. avoid. Qed.

(** C8 [Run] deletes no pod but the one it looks at, never one that is being
    deleted already, and only for one of three reasons: no reference of it
    belongs to a known pod, it is broken, or it ran to its end. *)
Theorem Run_delete_cases mit current tr r ns n x :
  exec (Run mit current) tr r -> (PodsDelete ns n ▷ x) ∈ tr ->
  n = pod_Name current /\ ns = pod_Namespace current /\ DeletionTimestamp (Meta current) = None /\
  (live_refs mit current = ∅ \/ IsPodError current = true \/
   (IsPodReady current = false /\ Phase (Status current) = "Succeeded")).
Proof.
  intros H Hin. apply exec_Run in H as (order & del & tr' & -> & _ & H).
  apply elem_of_cons in Hin as [Hin|Hin]; [by apply (f_equal projT1) in Hin|].
  assert (forall t rr, exec (drop_annotations current del) t rr -> calls is_delete t = []) as Hd.
  { intros t rr. apply avoids_calls, drop_annotations_avoids; done. }
  destruct H as [[H _]|(t1 & t2 & -> & H1 & H)].
  { apply Hd in H. by apply (elem_of_calls is_delete) in Hin. }
  apply elem_of_app in Hin as [Hin|Hin]; [apply Hd in H1; by apply (elem_of_calls is_delete) in Hin|].
  set (P := handlers _ _) in H.
  assert (foreign_delete current (PodsDelete ns n) = false) as Hown.
  { apply not_true_is_false. intros Hf. eapply elem_of_calls; [exact Hf|exact Hin|].
    eapply avoids_calls, H. subst P. case_bool_decide; [|apply handlers_delete_own].
    apply avoids_bind; [by apply ShouldDelay_avoids|]. intros []; cbn [negb];
      [apply handlers_delete_own|by apply DeletePod_own]. }
  simpl in Hown. apply negb_false_iff in Hown. destruct (String.eqb_spec ns (pod_Namespace current)) as [->|];
    destruct (String.eqb_spec n (pod_Name current)) as [->|]; simplify_eq/=.
  split; [done|]. split; [done|]. case_bool_decide as Hz; [destruct Hz; auto|].
  assert (getPodStatus (Some current) = podError \/
          (getPodStatus (Some current) = podPending /\ Phase (Status current) = "Succeeded")) as Hst.
  { destruct (decide (getPodStatus (Some current) = podError)) as [|Hne]; [by left|]. right.
    destruct (decide (getPodStatus (Some current) = podPending /\ Phase (Status current) = "Succeeded")); [done|].
    exfalso. refine (elem_of_calls is_delete t2 (PodsDelete _ _) x eq_refl Hin _). eapply avoids_calls, H.
    apply handlers_delete_case; naive_solver. }
  unfold getPodStatus in Hst. case_bool_decide as Hd'; [naive_solver|].
  apply eq_None_not_Some in Hd'. split; [done|]. right.
  destruct (IsPodError current); [by left|]. destruct (IsPodReady current); naive_solver.
Qed.

(** C7 [Run] takes annotations off a pod only when a fresh read of it shows
    as many references as the copy it works on, and then takes off exactly the
    references whose pods are gone, with the pending deletion time when some
    reference is alive: never a live reference. *)
Theorem Run_removes_exactly_stale mit current tr r ns n pth ops x :
  exec (Run mit current) tr r ->
  (PodsPatch ns n (JSONPatch (RemovePath pth :: ops)) ▷ x) ∈ tr ->
  n = pod_Name current /\ ns = pod_Namespace current /\
  exists del order newPod rest,
    RemovePath pth :: ops = map (fun k => RemovePath ("/metadata/annotations/" +:+ k)) del /\
    (forall k, k ∈ del <-> stale mit current k) /\
    tr = (RangeMap (gm (pod_Annotations current)) ▷ order) :: (PodsGet n ns ▷ inl newPod) ::
         (PodsPatch ns n (JSONPatch (RemovePath pth :: ops)) ▷ x) :: rest /\
    size (GetAllRefKeys newPod) = size (GetAllRefKeys current).
Proof.
  intros H Hin. apply exec_Run in H as (order & del & tr' & -> & Hdel & H).
  apply elem_of_cons in Hin as [Hin|Hin]; [by apply (f_equal projT1) in Hin|].
  assert (exists rr t1 t2, exec (drop_annotations current del) t1 rr /\ tr' = t1 ++ t2 /\
            (PodsPatch ns n (JSONPatch (RemovePath pth :: ops)) ▷ x) ∈ t1) as (rr & t1 & t2 & H1 & -> & Hin1).
  { destruct H as [[H _]|(t1 & t2 & -> & H1 & H)].
    { exists r, tr', []. by rewrite app_nil_r. }
    apply elem_of_app in Hin as [Hin|Hin]; [by exists (Ok tt), t1, t2|]. exfalso.
    refine (elem_of_calls is_annotation_removal t2 (PodsPatch _ _ (JSONPatch (RemovePath _ :: _))) x eq_refl Hin _). eapply avoids_calls, H.
    case_bool_decide; [|apply handlers_avoid_removal].
    apply avoids_bind; [by apply ShouldDelay_avoids|]. intros []; cbn [negb];
      [apply handlers_avoid_removal|unfold DeletePod; avoid]. }
  apply exec_drop_annotations in H1 as [(_ & -> & _)|(_ & g & body & -> & Hg)]; [set_solver|].
  apply elem_of_cons in Hin1 as [Hin1|Hin1]; [by apply (f_equal projT1) in Hin1|].
  destruct g as [newPod|e]; [|destruct Hg as [-> _]; set_solver].
  destruct (Nat.eqb_spec (size (GetAllRefKeys newPod)) (size (GetAllRefKeys current))) as [Hsz|];
    [|destruct Hg as [-> _]; set_solver].
  destruct Hg as (y & -> & _). apply list_elem_of_singleton in Hin1.
  pose proof (f_equal projT1 Hin1) as Ho. cbn [projT1] in Ho. injection Ho as -> -> Hops.
  split_and!; [done..|]. exists del, order, newPod, t2. split_and!; try done. by rewrite Hin1.
Qed.

(** C20 When something is stale and a fresh read of the pod shows another
    number of references, [Run] ends with a conflict after the read: nothing
    is written. *)
Theorem Run_conflict_on_change mit current k order newPod rest r :
  stale mit current k ->
  size (GetAllRefKeys newPod) <> size (GetAllRefKeys current) ->
  exec (Run mit current)
    ((RangeMap (gm (pod_Annotations current)) ▷ order) ::
     (PodsGet (pod_Name current) (pod_Namespace current) ▷ inl newPod) :: rest) r ->
  rest = [] /\ r = Err (ErrApi ReasonConflict).
Proof.
  intros Hk Hsz H. apply exec_Run in H as (order' & del & tr' & Htr & Hdel & H).
  assert (del <> []) as Hne by (intros ->; apply Hdel in Hk; set_solver).
  apply (f_equal tail) in Htr. simpl in Htr. subst tr'.
  apply Nat.eqb_neq in Hsz.
  assert (exists rr t1 t2, exec (drop_annotations current del) t1 rr /\
    (PodsGet (pod_Name current) (pod_Namespace current) ▷ inl newPod) :: rest = t1 ++ t2 /\
    (is_ok rr = false -> t2 = [] /\ r = rr)) as (rr & t1 & t2 & H1 & Heq & Hr).
  { destruct H as [[H _]|(t1 & t2 & Heq & H & _)]; [|by exists (Ok tt), t1, t2].
    exists r, ((PodsGet (pod_Name current) (pod_Namespace current) ▷ inl newPod) :: rest), [].
    by rewrite app_nil_r. }
  apply exec_drop_annotations in H1 as [(? & _)|(_ & g & body & -> & Hg)]; [done|].
  pose proof (f_equal (fun l => l ≫= get_answer) (f_equal head Heq)) as Hg'. simpl in Hg'. simplify_eq.
  rewrite Hsz in Hg. destruct Hg as [-> ->]. destruct Hr as [-> ->]; [done|].
  apply (f_equal tail) in Heq. done.
Qed.

(** ** Deletion of a pod without references *)

(** A pass over a pod that is not being deleted, has no live reference and
    asks for no delay returns nil only if it deleted the pod; the deletion is
    its last call. *)
Theorem Run_deletes_unreferenced mit current tr :
  live_refs mit current = ∅ -> DeletionTimestamp (Meta current) = None ->
  mlookup (pod_Annotations current) DeleteDelayTimeKey = None ->
  exec (Run mit current) tr (Ok tt) ->
  exists pre, tr = pre ++ [PodsDelete (pod_Namespace current) (pod_Name current) ▷ None].
Proof.
  intros Hl Hd Hdelay H. apply exec_Run in H as (order & del & tr' & -> & _ & H).
  destruct H as [[_ [=]]|(t1 & t2 & -> & _ & H)].
  rewrite bool_decide_true in H by done. unfold ShouldDelay in H. rewrite Hdelay in H.
  cbn [mbind prog_bind prog_bind_go mret prog_ret negb] in H. apply exec_DeletePod in H as (x & -> & Hx).
  destruct x; [done|]. eexists (_ :: t1). done.
Qed.

(** ** The handler of ready pods *)

(** What the recovery does with one annotation. *)
Definition recovered (sourcePath : string) (kv : string * string) (evs : list event) : Prop :=
  if is_ref kv then
    exists x, match x with
    | inl _ => evs = [OsStat (snd kv) ▷ x]
    | inr e => if IsNotExist e then evs = [OsStat (snd kv) ▷ x]
               else exists y, evs = [OsStat (snd kv) ▷ x; DoMount sourcePath (snd kv) "none" ["bind"] ▷ y]
    end
  else evs = [].

Lemma exec_recover_target sourcePath kv tr r :
  exec (recover_target sourcePath kv) tr r -> recovered sourcePath kv tr /\ r = Ok tt.
Proof.
  unfold recover_target, recovered. destruct (is_ref kv); [|by intros [-> ->]].
  intros H. apply exec_call_inv in H as (x & t & -> & _ & H). destruct x as [fi|e].
  - destruct H as [-> ->]. split; [by exists (inl fi)|done].
  - cbv beta iota in H. destruct (IsNotExist e) eqn:He.
    + destruct H as [-> ->]. split; [|done]. exists (inr e). by rewrite He.
    + apply exec_call_inv in H as (y & t' & -> & _ & [-> ->]). split; [|done].
      exists (inr e). rewrite He. by exists y.
Qed.

Lemma exec_recover_targets sourcePath l tr r :
  exec (for_each (recover_target sourcePath) l) tr r ->
  r = Ok tt /\ exists evs, tr = concat evs /\ Forall2 (recovered sourcePath) l evs.
Proof.
  revert tr. induction l as [|kv l IH]; intros tr H.
  - destruct H as [-> ->]. split; [done|]. by exists [].
  - apply exec_for_each_cons in H as [(t1 & t2 & -> & H1 & H)|(r0 & H1 & Hn & ->)].
    + apply exec_recover_target in H1 as [H1 _]. apply IH in H as [-> (evs & -> & Hf)].
      split; [done|]. exists (t1 :: evs). split; [done|by constructor].
    + by apply exec_recover_target in H1 as [_ ->].
Qed.

Lemma exec_recovery_source mntPath volumeId tr r :
  exec (recovery_source mntPath volumeId) tr r ->
  exists src, r = Ok src /\
    (src = None \/ src = Some mntPath \/ src = Some (mntPath +:+ "/" +:+ volumeId)).
Proof.
  unfold recovery_source. intros H. apply exec_call_inv in H as (x & t & -> & _ & H).
  destruct x as [fi|e]; [destruct H; naive_solver|]. cbv beta iota in H.
  destruct (negb (IsNotExist e)); [destruct H; naive_solver|].
  apply exec_call_inv in H as (y & t' & -> & _ & H). destruct y; destruct H; naive_solver.
Qed.

(** C10 The recovery of a ready pod never fails; after it found the source
    directory it looks at every reference of the pod exactly once and binds
    the source to exactly those targets whose [stat] fails with an error
    other than "not exist" (a broken mount); without a source it mounts
    nothing. *)
Theorem podReadyHandler_recovers pod annotations mntPath volumeId tr r :
  pod_Annotations pod = Some annotations ->
  GetMountPathOfPod pod = inl (mntPath, volumeId) ->
  exec (podReadyHandler (Some pod)) tr r ->
  r = Ok tt /\
  exists src pre post, tr = pre ++ post /\ exec (recovery_source mntPath volumeId) pre (Ok src) /\
    match src with
    | None => post = []
    | Some sourcePath =>
        (sourcePath = mntPath \/ sourcePath = mntPath +:+ "/" +:+ volumeId) /\
        exists order evs, post = (RangeMap annotations ▷ order) :: concat evs /\
          order ≡ₚ map_to_list annotations /\ Forall2 (recovered sourcePath) order evs
    end.
Proof.
  intros Ha Hp H. unfold podReadyHandler in H. rewrite Ha, Hp in H.
  apply exec_bind in H as [(src & t1 & t2 & -> & H1 & H)|(r0 & H1 & Hn & ->)].
  - destruct (exec_recovery_source _ _ _ _ H1) as (src' & [= <-] & Hsrc).
    destruct src as [sourcePath|].
    + apply exec_call_inv in H as (order & t & -> & Ho & H).
      apply exec_recover_targets in H as [-> (evs & -> & Hf)]. split; [done|].
      eexists (Some sourcePath), t1, _. split; [done|]. split; [done|].
      split; [naive_solver|]. by exists order, evs.
    + destruct H as [-> ->]. split; [done|]. by eexists None, t1, [].
  - destruct (exec_recovery_source _ _ _ _ H1) as (src' & -> & _). done.
Qed.

(** ** The handler of deleted pods *)

Lemma exec_RemoveFinalizer_bind {B} pod fin (g : Pod -> prog B) tr r :
  exec (RemoveFinalizer pod fin ≫= g) tr r ->
  exists x tr', tr = (PodsPatch (pod_Namespace pod) (pod_Name pod)
      (JSONPatch [ReplaceList "/metadata/finalizers"
        ((fun fs => filter (fun s => s <> fin) fs) <$> pod_Finalizers pod)]) ▷ x) :: tr' /\
    match x with
    | Some e => tr' = [] /\ r = Err e
    | None => exists s, exec (g (with_finalizers s pod)) tr' r
    end.
Proof.
  Transparent RemoveFinalizer. unfold RemoveFinalizer.
  destruct (pod_Finalizers pod) as [fs|].
  - pose proof (remove_finalizer_spec fin fs) as [Hf _].
    destruct (remove_finalizer fin fs) as [f arr]. simpl in Hf. subst f.
    intros H. apply exec_call_inv in H as ([e|] & t & -> & _ & H); [destruct H as [-> ->]; by exists (Some e), []|].
    exists None, t. split; [done|]. by exists (Some arr).
  - intros H. apply exec_call_inv in H as ([e|] & t & -> & _ & H); [destruct H as [-> ->]; by exists (Some e), []|].
    exists None, t. split; [done|]. by exists None.
Qed.

Lemma exec_try_Create pod tr r :
  exec (try (CreatePod pod) ≫= fun _ => mret tt) tr r ->
  exists x, tr = [PodsCreate pod ▷ x] /\ r = Ok tt.
Proof.
  intros H. apply exec_bind in H as [(a & t1 & t2 & -> & H1 & [-> ->])|(r0 & H1 & Hn & ->)];
    apply exec_try in H1 as (r1 & H1 & Hr1); apply exec_CreatePod in H1 as (x & -> & ->).
  - exists x. by rewrite app_nil_r.
  - exfalso. destruct x as [|e]; [by simplify_eq/=|]. destruct (IsAlreadyExists e); by simplify_eq/=.
Qed.

Lemma exec_wait_deleted n podName ns tr r : exec (wait_deleted n podName ns) tr r -> r = Ok tt.
Proof.
  Transparent wait_deleted. revert tr. induction n as [|n IH]; intros tr H; [by destruct H|].
  cbn [wait_deleted] in H. apply exec_try_GetPod_bind in H as ([p|e] & t & -> & H).
  - apply exec_call_inv in H as ([] & t' & -> & _ & H). eauto.
  - by destruct H.
Qed.

Lemma exec_recreate pod tr r :
  exec (recreate pod) tr r ->
  r = Ok tt /\ exists pre x, tr = pre ++ [PodsCreate (AddFinalizer (copy_of_pod pod) Finalizer) ▷ x] /\
    exec (wait_deleted 30 (pod_Name pod) (pod_Namespace pod)) pre (Ok tt).
Proof.
  unfold recreate. intros H. apply exec_bind_unit in H as [(t1 & t2 & -> & H1 & H)|(rd & H1 & Hn & ->)].
  - apply exec_try_Create in H as (x & -> & ->). eauto.
  - by rewrite (exec_wait_deleted _ _ _ _ _ H1) in Hn.
Qed.

Lemma exec_UmountPath path tr r :
  exec (UmountPath path) tr r ->
  r = Ok tt /\ exists x rest, tr = (Command "umount" [path] [] ▷ x) :: rest /\
    (rest = [] \/ exists y, rest = [Command "umount" ["-l"; path] [] ▷ y]).
Proof.
  unfold UmountPath. intros H. apply exec_call_inv in H as ([out [e|]] & t & -> & _ & H).
  - cbv beta iota in H. destruct (negb (not_mounted_msg out)).
    + apply exec_call_inv in H as (y & t' & -> & _ & [-> ->]). eauto 10.
    + destruct H as [-> ->]. eauto 10.
  - destruct H as [-> ->]. eauto 10.
Qed.

(** The annotations of a pod hold a reference. *)
Definition referenced_by (a : gmap string string) : bool := existsb is_ref (map_to_list a).

Lemma referenced_by_order a order :
  order ≡ₚ map_to_list a -> (length (map snd (List.filter is_ref order)) =? 0)%nat = negb (referenced_by a).
Proof.
  intros Ho. unfold referenced_by. assert (existsb is_ref (map_to_list a) = existsb is_ref order) as ->.
  { apply eq_true_iff_eq. rewrite !existsb_exists.
    split; intros (x & Hx & Hr); exists x; (split; [|done]); apply list_elem_of_In in Hx; apply list_elem_of_In;
      [by rewrite Ho|by rewrite <-Ho]. }
  rewrite length_map. clear. induction order as [|x l IH]; [done|]. simpl. by destruct (is_ref x).
Qed.

(** The pod is made again: its mount path is unmounted, its end is waited for
    and a pod like it is asked for, whatever the answer, under its lock. *)
Definition remade (pod : Pod) (mntPath : string) (tr : list event) : Prop :=
  exists umount waits p x,
    tr = (MutexLock (GetPodLock (pod_Name pod)) ▷ tt) :: umount ++ waits ++
         [PodsCreate p ▷ x; MutexUnlock (GetPodLock (pod_Name pod)) ▷ tt] /\
    exec (UmountPath mntPath) umount (Ok tt) /\
    exec (wait_deleted 30 (pod_Name pod) (pod_Namespace pod)) waits (Ok tt) /\
    pod_Name p = pod_Name pod /\ pod_Namespace p = pod_Namespace pod /\
    Labels (Meta p) = Labels (Meta pod) /\ pod_Annotations p = pod_Annotations pod /\
    Spec p = Spec pod /\ pod_Finalizers p = Some [Finalizer] /\ DeletionTimestamp (Meta p) = None.

Lemma exec_remake pod mntPath tr r :
  exec (with_mutex (GetPodLock (pod_Name pod)) (defer (recreate pod) (UmountPath mntPath))) tr r ->
  r = Ok tt /\ remade pod mntPath tr.
Proof.
  intros H. apply exec_with_mutex in H as [(body & H & _ & ->)|(body & H & -> & ->)].
  2:{ apply exec_defer in H as [(r0 & t1 & t2 & -> & H1 & Hr0 & [[_ <-]|(rd & H & Hrd & Hr)])|[H _]]; [done|..].
      - by apply exec_recreate in H as [-> _].
      - by apply exec_UmountPath in H as [[=] _]. }
  apply exec_defer in H as [(r0 & t1 & t2 & -> & H1 & _ & [[H ->]|(rd & H & Hrd & Hr)])|[H _]].
  2:{ by apply exec_recreate in H as [-> _]. }
  2:{ by apply exec_UmountPath in H as [[=] _]. }
  destruct (exec_UmountPath _ _ _ H1) as [-> _]. apply exec_recreate in H as [_ (waits & x & -> & Hw)].
  split; [done|]. eexists t1, waits, _, x. split_and!; [list_app|exact H1|exact Hw|done..].
Qed.

(** C9 What becomes of a mount pod that is being deleted, on every branch.  A
    pod without the driver's finalizer, or one that failed for lack of
    resources, is left alone.  Otherwise the finalizer is taken off; if the
    server refuses that, its error is returned and nothing else happens.  If
    it does not, nil is returned, and exactly if a reference is among the
    annotations and the mount path can be read from the pod, the mount path is
    unmounted under the lock of the pod and, last of all, a pod with the name,
    namespace, labels, annotations and specification of the old one and the
    finalizer is asked for, whatever the unmount, the wait for the old pod and
    the creation are answered. *)
Theorem podDeletedHandler_recreates pod tr r :
  exec (podDeletedHandler (Some pod)) tr r ->
  if negb (ContainsString (default [] (pod_Finalizers pod)) Finalizer) || IsPodResourceError pod
  then tr = [] /\ r = Ok tt
  else exists y rest,
    tr = (PodsPatch (pod_Namespace pod) (pod_Name pod)
            (JSONPatch [ReplaceList "/metadata/finalizers"
               ((fun fs => filter (fun s => s <> Finalizer) fs) <$> pod_Finalizers pod)]) ▷ y) :: rest /\
    match y with
    | Some e => rest = [] /\ r = Err e
    | None => r = Ok tt /\
        match pod_Annotations pod with
        | None => rest = []
        | Some a => exists order after, rest = (RangeMap a ▷ order) :: after /\
            match GetMountPathOfPod pod with
            | inl (mntPath, _) => if referenced_by a then remade pod mntPath after else after = []
            | inr _ => after = []
            end
        end
    end.
Proof.
  unfold podDeletedHandler. intros H.
  destruct (negb (ContainsString _ _)); [by destruct H|]. destruct (IsPodResourceError pod); [by destruct H|].
  apply exec_RemoveFinalizer_bind in H as (y & rest & -> & H). exists y, rest. split; [done|].
  destruct y as [e|]; [done|]. destruct H as [s H].
  change (pod_Annotations (with_finalizers s pod)) with (pod_Annotations pod) in H.
  change (GetMountPathOfPod (with_finalizers s pod)) with (GetMountPathOfPod pod) in H.
  destruct (pod_Annotations pod) as [a|]; [|by destruct H].
  apply exec_call_inv in H as (order & after & -> & Ho & H). rewrite (referenced_by_order _ _ Ho) in H.
  destruct (referenced_by a); cbn [negb] in H.
  - destruct (GetMountPathOfPod pod) as [[mntPath v]|e].
    + apply exec_remake in H as [-> H]. split; [done|]. by exists order, after.
    + destruct H as [-> ->]. split; [done|]. by exists order, [].
  - destruct H as [-> ->]. split; [done|]. exists order, []. split; [done|]. by destruct (GetMountPathOfPod pod) as [[]|].
Qed.

(** ** The handler of broken pods *)

(** Creations of other pods than [p]. *)
Lemma exec_create_only {A} (p : prog A) q tr r y x :
  (forall t rr, exec p t rr -> calls is_create t = [] \/ exists pre z, t = pre ++ [PodsCreate q ▷ z] /\ calls is_create pre = []) ->
  exec p tr r -> (PodsCreate y ▷ x) ∈ tr -> y = q.
Proof.
  intros Hp He Hin. apply Hp in He as [Hq|(pre & z & -> & Hq)].
  - exfalso. exact (elem_of_calls is_create tr (PodsCreate y) x eq_refl Hin Hq).
  - apply elem_of_app in Hin as [Hin|Hin].
    + exfalso. exact (elem_of_calls is_create pre (PodsCreate y) x eq_refl Hin Hq).
    + apply list_elem_of_singleton, (f_equal projT1) in Hin. by simplify_eq/=.
Qed.

Lemma no_resources pod : IsPodHasResource (DeleteResourceOfPod pod) = false.
Proof.
  unfold IsPodHasResource, DeleteResourceOfPod. simpl. induction (Containers (Spec pod)) as [|c l IH]; [done|].
  simpl. by rewrite IH.
Qed.

(** The body of the handler for a pod that failed for lack of resources. *)
Lemma exec_redeploy pod t rr :
  exec (pod' ← RemoveFinalizer pod Finalizer;
        DeletePod pod' ≫= fun _ => wait_deleted_error 30 pod' ≫= fun _ => redeploy_without_resources pod') t rr ->
  calls is_create t = [] \/
  exists pre z, t = pre ++ [PodsCreate (DeleteResourceOfPod (AddFinalizer (copy_of_pod pod) Finalizer)) ▷ z] /\
    calls is_create pre = [].
Proof.
  intros H. apply exec_RemoveFinalizer_bind in H as ([e|] & t' & -> & H).
  { left. by destruct H as [-> _]. }
  destruct H as [s H]. apply exec_bind_unit in H as [(t1 & t2 & -> & H1 & H)|(rd & H1 & Hn & ->)];
    apply exec_DeletePod in H1 as (x & -> & Hx); [|by left].
  assert (forall t rr, exec (wait_deleted_error 30 (with_finalizers s pod)) t rr -> calls is_create t = []) as Hw.
  { intros t rr'. apply avoids_calls. by apply wait_deleted_error_avoids. }
  apply exec_bind_unit in H as [(t3 & t4 & -> & H2 & H)|(rd & H2 & Hn & ->)]; apply Hw in H2.
  - apply exec_try_Create in H as (z & -> & ->). right. eexists (_ :: _ :: t3), z.
    split; [done|exact H2].
  - left. exact H2.
Qed.

(** The only pod the handler of broken pods creates is a copy of the given
    pod (name, namespace, labels, annotations, containers with their commands)
    with the finalizer, that asks for no resources: should it fail for lack
    of resources again, the handler leaves it alone. *)
Theorem podErrorHandler_strips pod tr r p x :
  exec (podErrorHandler (Some pod)) tr r -> (PodsCreate p ▷ x) ∈ tr ->
  IsPodResourceError pod = true /\
  pod_Name p = pod_Name pod /\ pod_Namespace p = pod_Namespace pod /\
  Labels (Meta p) = Labels (Meta pod) /\ pod_Annotations p = pod_Annotations pod /\
  map cn_Command (Containers (Spec p)) = map cn_Command (Containers (Spec pod)) /\
  pod_Finalizers p = Some [Finalizer] /\ IsPodHasResource p = false.
Proof.
  unfold podErrorHandler. intros H Hin.
  eapply exec_with_mutex_in in Hin as (body & rr & Hb & Hinb); [|exact H|done..].
  destruct (IsPodResourceError pod).
  2:{ exfalso. refine (elem_of_calls is_create body (PodsCreate p) x eq_refl Hinb _). eapply avoids_calls, Hb.
      unfold PathExists, DeletePod. avoid. }
  destruct (IsPodHasResource pod); [|destruct Hb as [-> _]; set_solver].
  eapply exec_create_only in Hinb as ->; [|apply exec_redeploy|exact Hb].
  split_and!; try done; [|apply no_resources].
  simpl. rewrite map_map. by apply map_ext.
Qed.
