(* ===== verification/PodShape.v ===== *)
(** * The shape of a mount pod

    What the parts of the node service and the reconciler expect of a mount
    pod, and that every pod they create has it: the pods of a mount
    ([pkg/juicefs/mount/pod.go], [pod_mount.go]) and the ones the reconciler
    makes again ([pkg/controller/pod_driver.go]). *)
From S2P Require Import Prelude GoStrings GoPath GoTime Sha256 Json K8sTypes PatchText Prog Protocol Config K8sClient Util MountInfoTable MountPod PodMount PodDriver.
From stdpp Require Import options.
#[local] Open Scope Z_scope.

#[local] Arguments exec : simpl never.

(** Every mount of a container names a volume of the pod. *)
Definition mounts_declared (s : PodSpec) : Prop :=
  Forall (fun c => Forall (fun m => vm_Name m ∈ map vol_Name (Volumes s)) (cn_VolumeMounts c)) (Containers s).

(** A pod that the reconciler finds by its label, that runs the client in its
    one container and is never restarted in place. *)
Definition mount_pod (p : Pod) : Prop :=
  mounts_declared (Spec p) /\ length (Containers (Spec p)) = 1%nat /\ RestartPolicy (Spec p) = "Never" /\
  mlookup (Labels (Meta p)) PodTypeKey = Some PodTypeValue.

(** ... and that is kept until the driver has seen its deletion. *)
Definition new_mount_pod (p : Pod) : Prop :=
  mount_pod p /\ pod_Finalizers p = Some [Finalizer] /\ DeletionTimestamp (Meta p) = None.

#[global] Instance mounts_declared_dec s : Decision (mounts_declared s).
Proof. unfold mounts_declared. apply _. Defined.
#[global] Instance mount_pod_dec p : Decision (mount_pod p).
Proof. unfold mount_pod. apply _. Defined.
#[global] Instance new_mount_pod_dec p : Decision (new_mount_pod p).
Proof. unfold new_mount_pod. apply _. Defined.

(** Creations of other pods. *)
Definition ill_created (o : op) : bool :=
  match o with PodsCreate p => negb (bool_decide (new_mount_pod p)) | _ => false end.

Lemma created_shape {A} (q : prog A) tr r p x :
  avoids ill_created q -> exec q tr r -> (PodsCreate p ▷ x) ∈ tr -> new_mount_pod p.
Proof.
  intros Hq H Hin. pose proof (avoids_exec _ _ _ _ Hq H) as Hf. rewrite Forall_forall in Hf.
  apply Hf in Hin. simpl in Hin. apply negb_false_iff, bool_decide_eq_true in Hin. done.
Qed.

(** ** The pods of a mount *)

Lemma config_volumes_names i l : map vm_Name (map snd (config_volumes i l)) = map vol_Name (map fst (config_volumes i l)).
Proof. revert i. induction l as [|[k v] l IH]; intros i; [done|]. simpl. by rewrite IH. Qed.

Lemma getCacheDirVolumes_names cmd :
  map vm_Name (snd (getCacheDirVolumes cmd)) = map vol_Name (fst (getCacheDirVolumes cmd)).
Proof.
  unfold getCacheDirVolumes. repeat case_match; try done. simpl. rewrite !map_map.
  apply map_ext_in. intros [v m] Hin. apply in_flat_map in Hin as (o & _ & Hin).
  unfold cache_dir_volumes in Hin. repeat case_match; try done.
  apply in_map_iff in Hin as (d & [= <- <-] & _). done.
Qed.

(** The volumes and mounts of a new pod match one by one. *)
Lemma exec_NewMountPod cfg podName cmd mountPath res configs env tr p :
  exec (NewMountPod cfg podName cmd mountPath res configs env) tr (Ok p) ->
  new_mount_pod p /\
  (Contains (quoteForShell cmd) "cache-dir" = false ->
   exists l, Volumes (Spec p) = [mkVolume "jfs-dir" (HostPathDirectoryOrCreate (cfg_MountPointPath cfg));
                                 mkVolume "jfs-root-dir" (HostPathDirectoryOrCreate (cfg_JFSConfigPath cfg));
                                 mkVolume "jfs-default-cache" (HostPathDirectoryOrCreate "/var/jfsCache")]
                                ++ map fst (config_volumes 1 l)).
Proof.
  unfold NewMountPod. intros H.
  assert (forall cvs cms, (if Contains (quoteForShell cmd) "cache-dir" then getCacheDirVolumes (quoteForShell cmd)
     else ([mkVolume "jfs-default-cache" (HostPathDirectoryOrCreate "/var/jfsCache")],
           [mkVMount "jfs-default-cache" "/var/jfsCache" true])) = (cvs, cms) -> map vm_Name cms = map vol_Name cvs) as Hnames.
  { intros cvs cms. destruct (Contains _ _); [|by intros [= <- <-]]. intros Heq.
    pose proof (getCacheDirVolumes_names (quoteForShell cmd)) as Hn. by rewrite Heq in Hn. }
  destruct (if Contains _ _ then _ else _) as [cvs cms] eqn:E. specialize (Hnames _ _ eq_refl).
  apply exec_call_inv in H as (co & t & -> & _ & H). apply exec_call_inv in H as (eo & t' & -> & _ & H).
  destruct H as [-> [= ->]]. split.
  - unfold new_mount_pod, mount_pod. split_and!; try done. unfold mounts_declared. apply Forall_singleton.
    apply Forall_forall. intros m Hm. change (vm_Name m ∈ map vol_Name ([mkVolume "jfs-dir" (HostPathDirectoryOrCreate (cfg_MountPointPath cfg));
                                 mkVolume "jfs-root-dir" (HostPathDirectoryOrCreate (cfg_JFSConfigPath cfg))] ++ cvs ++ map fst (config_volumes 1 co))).
    rewrite !map_app, <-Hnames, <-config_volumes_names.
    change (vm_Name m ∈ map vm_Name [mkVMount "jfs-dir" PodMountBase true; mkVMount "jfs-root-dir" "/root/.juicefs" true]
              ++ map vm_Name cms ++ map vm_Name (map snd (config_volumes 1 co))).
    rewrite <-!map_app. apply list_elem_of_fmap. by exists m.
  - intros Hc. rewrite Hc in E. injection E as <- <-. by exists co.
Qed.

Lemma itoa_inj i j : itoa i = itoa j -> i = j.
Proof.
  intros H. pose proof (parse_num_itoa i EmptyString eq_refl) as Hi. pose proof (parse_num_itoa j EmptyString eq_refl) as Hj.
  rewrite H, Hj in Hi. by injection Hi.
Qed.

Lemma config_names_from i l n :
  n ∈ map vol_Name (map fst (config_volumes i l)) -> exists j, i <= j /\ n = "config-" +:+ itoa j.
Proof.
  revert i. induction l as [|[k v] l IH]; intros i; simpl; [by intros ?%not_elem_of_nil|].
  intros [->|H]%elem_of_cons; [exists i; split; [lia|done]|]. apply IH in H as (j & Hj & ->). exists j. split; [lia|done].
Qed.

Lemma config_volumes_NoDup i l : NoDup (map vol_Name (map fst (config_volumes i l))).
Proof.
  revert i. induction l as [|[k v] l IH]; intros i; [constructor|]. cbn [config_volumes map fst vol_Name].
  constructor; [|apply IH]. intros Hin. apply config_names_from in Hin as (j & Hj & Heq).
  injection Heq as Heq. apply itoa_inj in Heq. lia.
Qed.

(** C16 Every pod a mount creates is a mount pod: each mount of its one
    container names a volume of the pod, it is never restarted in place, it
    carries the label the reconciler selects by and the finalizer; and its
    volumes have pairwise distinct names, unless the mount options name cache
    directories. *)
Theorem JMount_creates_mount_pods cfg quantity_ok s fuel storage volumeId mountPath target options tr r p x :
  exec (JMount cfg quantity_ok (Some s) fuel storage volumeId mountPath target options) tr r ->
  (PodsCreate p ▷ x) ∈ tr ->
  new_mount_pod p /\
  (Contains (quoteForShell (mount_command s mountPath options)) "cache-dir" = false -> NoDup (map vol_Name (Volumes (Spec p)))).
Proof.
  intros H Hin. eapply exec_JMount_create in H as (res & t & H); [|done]. unfold first_mount_pod in H.
  apply exec_bind in H as [(q & t1 & t2 & -> & H1 & H)|(r0 & H1 & Hn & Hr)]; [|by destruct r0].
  destruct H as [_ [= ->]]. apply exec_NewMountPod in H1 as [Hq Hv]. split; [exact Hq|].
  intros Hc. destruct (Hv Hc) as [l Hl]. simpl. rewrite Hl, map_app.
  apply NoDup_app. split_and!; [by apply (bool_decide_unpack _)| |apply config_volumes_NoDup].
  intros n Hn (j & _ & ->)%config_names_from.
  simpl in Hn. by repeat (apply elem_of_cons in Hn as [Hn|Hn]; [discriminate Hn|]); apply not_elem_of_nil in Hn.
Qed.

(** ** The pods the reconciler makes again *)

(** What both handlers create from a mount pod is a new mount pod. *)
Lemma copy_shape pod : mount_pod pod -> new_mount_pod (AddFinalizer (copy_of_pod pod) Finalizer).
Proof. by destruct pod. Qed.

Lemma strip_shape pod : new_mount_pod pod -> new_mount_pod (DeleteResourceOfPod pod).
Proof.
  intros ((Hm & Hl & Hr & Hlab) & Hf & Hd). split; [split_and!|by split]; try done.
  - unfold mounts_declared in *. simpl. apply Forall_map. apply (Forall_impl _ _ _ Hm). by intros c.
  - simpl. by rewrite length_map.
Qed.

Lemma create_avoids q : new_mount_pod q -> avoids ill_created (try (CreatePod q) ≫= fun _ => mret tt).
Proof.
  intros Hq. apply avoids_bind; [|done]. apply avoids_try. unfold CreatePod.
  apply avoids_bind; [|by intros [|e]; [|destruct (IsAlreadyExists e)]].
  apply avoids_call. simpl. by rewrite bool_decide_true.
Qed.

Lemma no_creation {A} (p : prog A) : avoids is_create p -> avoids ill_created p.
Proof.
  induction p as [a|e|w| |o k IH]; intros Hp; [done..|]. destruct Hp as [Ho Hk]. split; [|auto].
  destruct o; done.
Qed.

Lemma recreate_shape pod : mount_pod pod -> avoids ill_created (recreate pod).
Proof.
  intros Hp. apply avoids_bind; [apply no_creation; by apply wait_deleted_avoids|intros _].
  by apply create_avoids, copy_shape.
Qed.

(** The finalizers are not part of what makes a pod a mount pod. *)
Lemma mount_pod_finalizers s pod : mount_pod pod -> mount_pod (with_finalizers s pod).
Proof. by destruct pod. Qed.

#[local] Arguments mount_pod : simpl never.
#[local] Arguments new_mount_pod : simpl never.
#[local] Opaque recreate wait_deleted wait_deleted_error RemoveFinalizer.

Lemma handlers_shape st pod : mount_pod pod -> avoids ill_created (handlers st (Some pod)).
Proof.
  intros Hp. destruct st; cbn [handlers].
  - unfold podReadyHandler, recovery_source, recover_target. avoid.
  - unfold podErrorHandler. apply avoids_with_mutex; [done..|].
    destruct (IsPodResourceError pod); [destruct (IsPodHasResource pod); [|done]|].
    + apply RemoveFinalizer_bind_avoids; [done|]. intros s. apply avoids_bind; [unfold DeletePod; avoid|intros _].
      apply avoids_bind; [by apply wait_deleted_error_avoids|intros _].
      by apply create_avoids, strip_shape, copy_shape, mount_pod_finalizers.
    + unfold PathExists, DeletePod. avoid.
  - unfold podDeletedHandler. destruct (negb _); [done|]. destruct (IsPodResourceError pod); [done|].
    apply RemoveFinalizer_bind_avoids; [done|]. intros s. unfold UmountPath. avoid.
    by apply recreate_shape, mount_pod_finalizers.
  - unfold podPendingHandler, DeletePod. avoid.
Qed.

(** C17 The reconciler keeps the shape: every pod that a pass over a mount
    pod creates, whichever handler it came to, is again a mount pod, with the
    finalizer and not being deleted. *)
Theorem Run_creates_mount_pods mit current tr r p x :
  mount_pod current -> exec (Run mit current) tr r -> (PodsCreate p ▷ x) ∈ tr -> new_mount_pod p.
Proof.
  intros Hc. apply created_shape. unfold Run. avoid.
  all: try (by apply drop_annotations_avoids); try (by apply ShouldDelay_avoids);
    try (by apply handlers_shape); unfold DeletePod; avoid.
Qed.
