(* ===== verification/Reconciler.v ===== *)
(** * Reconciling the mount pods of a node

    Two ways to run [PodDriver]: a loop that polls the kubelet
    ([pkg/controller/reconciler.go]) and a controller that is called for one
    pod at a time ([pkg/controller/pod_controller.go]). *)
From S2P Require Import Prelude GoStrings GoTime K8sTypes PatchText Prog Protocol Config K8sClient Util Kubelet MountInfoTable PodDriver.
From stdpp Require Import options.
#[local] Open Scope Z_scope.

#[local] Arguments exec : simpl never.

Definition DriverName : string := "csi-sandstone-mosfsplugin".

(** ** The polling loop *)

Section Polling.
Context (cfg : Config) (ReconcileTimeout : Z) (unmarshal_pods : string -> option (list Pod) + error).

(** The mount pods of the driver among the pods of the node. *)
Definition is_mount_pod (pod : Pod) : bool :=
  String.eqb (pod_Namespace pod) (cfg_Namespace cfg)
  && match mlookup (Labels (Meta pod)) PodTypeKey with
     | Some value => String.eqb value PodTypeValue
     | None => false
     end.

(** [Group.Go] of [errgroup]: the first goroutine that returns an error
    cancels the context of the group. *)
Definition group_go (f : prog unit) : prog unit :=
  r ← try f;
  match r with
  | inr e => call (GroupCancel e)
  | inl _ => mret tt
  end.

(** The goroutine of one mount pod.  It assigns to the variable [err] of the
    loop, which the goroutines of a turn share: what it reads there may come
    from the pass over another pod. *)
Definition reconcile_pod (mit : mountInfoTable) (podList : list Pod) (pod : Pod) : prog unit :=
  let mit := setPodsStatus mit (Some podList) in
  let backOffID := "mountpod/" +:+ pod_Name pod in
  d ← call (CtxDone ReconcileTimeout);
  match d with
  | Some _ => mret tt
  | None =>
      inBackOff ← call (BackOffActive backOffID);
      if negb inBackOff then
        r ← try (Run mit pod);
        call (ErrStore (match r with inr e => Some e | inl _ => None end)) ≫= fun _ =>
        err ← call ErrLoad;
        match err with
        | Some _ => call (BackOffNext backOffID) ≫= fun _ => err ← call ErrLoad; lift_err err
        | None => call (BackOffReset backOffID)
        end
      else mret tt
  end.

(** One turn of the loop: the goroutines it starts, which then run
    concurrently; none when the pods or the mount table cannot be read. *)
Definition doReconcile (kc : KubeletClient) : prog (list (prog unit)) :=
  r ← try (GetNodeRunningPods unmarshal_pods kc);
  match r with
  | inr _ => mret []
  | inl podList =>
      m ← try (parse newMountInfoTable);
      match m with
      | inr _ => mret []
      | inl mit =>
          match podList with
          | None => Panic "nil PodList"
          | Some podList => mret (map (fun pod => group_go (reconcile_pod mit podList pod)) (List.filter is_mount_pod podList))
          end
      end
  end.
End Polling.

(** The status of every pod of the cluster. *)
Definition getClusterPodsStatus : prog (list Pod * gmap string bool) :=
  podList ← wrap_err (fun e => ErrFmt "set cluster pods status error:%s" [] (Some e)) GetAllPod;
  mret (podList, fold_left (fun m pod => <[UID (Meta pod) := is_deleting pod]> m) podList ∅).

(** ** The controller *)

Record Result := mkResult { Requeue : bool; RequeueAfter : Z }.

(** [t.Sub(u)]: saturates at the ends of a 64-bit duration. *)
Definition time_Sub (t u : Z) : Z := Z.max (- 2 ^ 63) (Z.min (2 ^ 63 - 1) (t - u)).

Section Controller.
Context (cfg : Config) (listCache : bool).

(** The namespaces in which a volume of the driver is claimed. *)
Definition claim_namespaces (pvs : list PersistentVolume) : gmap string string :=
  fold_left (fun m pv =>
    match pv_CSIDriver pv with
    | Some d => if String.eqb d DriverName then
                  match pv_ClaimNamespace pv with Some ns => <[ns := EmptyString]> m | None => m end
                else m
    | None => m
    end) pvs ∅.

(** [for ns := range storeNamespace]: the pods of each namespace, appended. *)
Fixpoint list_pods (nss : list (string * string)) : prog (list Pod) :=
  match nss with
  | [] => mret []
  | (ns, _) :: rest =>
      podList ← ListPod listCache ns;
      more ← list_pods rest;
      mret (podList ++ more)
  end.

Definition ListAppPod : prog (list Pod) :=
  pvs ← ListPersistentVolumes;
  order ← call (RangeMap (claim_namespaces pvs));
  list_pods order.

Definition on_this_node (pod : Pod) : bool :=
  String.eqb (NodeName (Spec pod)) (cfg_NodeName cfg)
  || String.eqb (mget (NodeSelector (Spec pod)) "kubernetes.io/hostname") (cfg_NodeName cfg).

Definition Reconcile (name namespace : string) : prog Result :=
  r ← try (GetPod name namespace);
  match r with
  | inr e => if negb (IsNotFound e) then Throw e else mret (mkResult false 0)
  | inl mountPod =>
      if negb (on_this_node mountPod) then mret (mkResult false 0)
      else
        mit ← parse newMountInfoTable;
        podList ← ListAppPod;
        let mit := setPodsStatus mit (Some podList) in
        Run mit mountPod ≫= fun _ =>
        let delayAtStr := mget (pod_Annotations mountPod) DeleteDelayAtKey in
        if negb (String.eqb delayAtStr EmptyString) then
          delayAt ← lift_sum (GetTime delayAtStr);
          now ← call TimeNow;
          mret (mkResult true (if delayAt <? now then 0 else time_Sub delayAt now))
        else mret (mkResult false 0)
  end.

(** The filters of the events of the watch.  Creations and deletions pass; an
    object that is not a pod panics. *)
Definition CreateFunc (pod : option string) : prog bool :=
  match pod with None => Panic "interface conversion" | Some _ => mret true end.
Definition DeleteFunc (pod : option string) : prog bool :=
  match pod with None => Panic "interface conversion" | Some _ => mret true end.

(** The filter of update events, on the resource versions of the new and the
    old object if they are pods; the name of the new one is read first. *)
Definition UpdateFunc (podNew podOld : option string) : prog bool :=
  match podNew with
  | None => Panic "nil pod"
  | Some new =>
      match podOld with
      | None => mret false
      | Some old => mret (negb (String.eqb new old))
      end
  end.
End Controller.

(** ** Properties *)

(** One turn of the polling loop starts a goroutine for exactly the pods
    of the driver's namespace that carry its label, all over the mount table
    and the pod list it read, and calls nothing but the kubelet and the mount
    table itself. *)
Theorem doReconcile_selects cfg timeout unmarshal_pods kc tr tasks :
  exec (doReconcile cfg timeout unmarshal_pods kc) tr (Ok tasks) ->
  tasks = [] \/
  exists podList get l, tr = get ++ [ReadMountInfo ▷ inl l] /\
    exec (GetNodeRunningPods unmarshal_pods kc) get (Ok (Some podList)) /\
    tasks = map (fun pod => group_go (reconcile_pod timeout (mkMit l ∅) podList pod))
              (List.filter (fun p => String.eqb (pod_Namespace p) (cfg_Namespace cfg) &&
                 bool_decide (mlookup (Labels (Meta p)) PodTypeKey = Some PodTypeValue)) podList).
Proof.
  unfold doReconcile. intros H.
  apply exec_bind in H as [(g & t1 & t2 & -> & H1 & H)|(r0 & H1 & Hn & Hr)]; [|by destruct r0].
  apply exec_try in H1 as (r1 & H1 & Hr1). destruct g as [podList|e]; [|left; by destruct H as [_ [= ->]]].
  destruct r1 as [pl| | |]; simplify_eq.
  apply exec_bind in H as [(m & t3 & t4 & -> & H2 & H)|(r0 & H2 & Hn & Hr)]; [|by destruct r0].
  apply exec_try in H2 as (r2 & H2 & Hr2). unfold parse in H2.
  apply exec_call_inv in H2 as ([l|e] & t' & -> & _ & H2); destruct H2 as [-> ->]; simplify_eq;
    [|left; by destruct H as [_ [= ->]]].
  destruct pl as [podList|]; [|by destruct H]. destruct H as [-> [= ->]].
  right. exists podList, t1, l. split_and!; [by list_app|done|]. f_equal.
  apply filter_ext. intros p. unfold is_mount_pod. f_equal. destruct (mlookup _ _) as [v|]; [|done].
  apply eq_true_iff_eq. rewrite String.eqb_eq, bool_decide_eq_true. naive_solver.
Qed.

(** A goroutine that is let in makes one pass and leaves its outcome in the
    shared variable; what it reads there next decides whether the back-off of
    its pod is reset or lengthened, and a last reading is what it returns. *)
Lemma exec_reconcile_pod timeout mit podList pod tr r :
  exec (reconcile_pod timeout mit podList pod) tr r ->
  let id := "mountpod/" +:+ pod_Name pod in
  (exists e, tr = [CtxDone timeout ▷ Some e] /\ r = Ok tt) \/
  (tr = [CtxDone timeout ▷ None; BackOffActive id ▷ true] /\ r = Ok tt) \/
  exists pass r0, exec (Run (setPodsStatus mit (Some podList)) pod) pass r0 /\
    match r0 with
    | Ok _ | Err _ => exists seen last,
        tr = (CtxDone timeout ▷ None) :: (BackOffActive id ▷ false) :: pass ++
             (ErrStore (match r0 with Err e => Some e | _ => None end) ▷ tt) :: (ErrLoad ▷ seen) :: last /\
        match seen with
        | None => last = [BackOffReset id ▷ tt] /\ r = Ok tt
        | Some _ => exists e, last = [BackOffNext id ▷ tt; ErrLoad ▷ e] /\
                              r = match e with Some e => Err e | None => Ok tt end
        end
    | _ => r = r0 /\ tr = (CtxDone timeout ▷ None) :: (BackOffActive id ▷ false) :: pass
    end.
Proof.
  intros H id. unfold reconcile_pod in H. apply exec_call_inv in H as ([c|] & t & -> & _ & H).
  { left. destruct H as [-> ->]. by exists c. }
  apply exec_call_inv in H as (b & t' & -> & _ & H). right.
  destruct b; cbn [negb] in H; [destruct H as [-> ->]; by left|].
  right. apply exec_bind in H as [(a & t1 & t2 & -> & H1 & H)|(r1 & H1 & Hn & ->)];
    apply exec_try in H1 as (r0 & H1 & Hr).
  - exists t1, r0. split; [done|].
    apply exec_call_inv in H as ([] & t & -> & _ & H). apply exec_call_inv in H as (seen & t' & -> & _ & H).
    assert (match seen with
            | None => t' = [BackOffReset id ▷ tt] /\ r = Ok tt
            | Some _ => exists e, t' = [BackOffNext id ▷ tt; ErrLoad ▷ e] /\
                                  r = match e with Some e => Err e | None => Ok tt end
            end) as Hlast.
    { destruct seen as [s0|].
      - apply exec_call_inv in H as ([] & t'' & -> & _ & H). apply exec_call_inv in H as (e & t & -> & _ & H).
        apply exec_lift_err in H as [-> ->]. by exists e.
      - by apply exec_call in H as ([] & -> & _ & ->). }
    destruct r0 as [[]|e| |]; simplify_eq/=; by exists seen, t'.
  - exists t', r0. split; [done|]. destruct r0 as [[]|e| |]; by simplify_eq/=.
Qed.

(** A pod that runs on another node is left alone: the controller makes no
    call after reading it. *)
Theorem Reconcile_other_node cfg listCache name namespace mountPod rest r :
  on_this_node cfg mountPod = false ->
  exec (Reconcile cfg listCache name namespace) ((PodsGet name namespace ▷ inl mountPod) :: rest) r ->
  rest = [] /\ r = Ok (mkResult false 0).
Proof.
  intros Hn H. unfold Reconcile in H.
  apply exec_try_GetPod_bind in H as (x & tr' & Heq & H).
  pose proof (f_equal (fun l => head l ≫= get_answer) Heq) as Hx. simpl in Hx. injection Hx as <-.
  apply (f_equal tail) in Heq. cbn [tail] in Heq. subst tr'. rewrite Hn in H. done.
Qed.

Lemma claim_namespaces_spec pvs pv ns :
  pv ∈ pvs -> pv_CSIDriver pv = Some DriverName -> pv_ClaimNamespace pv = Some ns ->
  is_Some (claim_namespaces pvs !! ns).
Proof.
  unfold claim_namespaces. intros Hin Hd Hc.
  set (f := fun m pv => _).
  assert (forall l m, is_Some (m !! ns) -> is_Some (fold_left f l m !! ns)) as Hkeep.
  { induction l as [|q l IH]; intros m Hm; [done|]. simpl. apply IH. unfold f.
    repeat case_match; try done. destruct (decide (s0 = ns)) as [->|Hne]; [rewrite lookup_insert_eq; by eexists|].
    by rewrite lookup_insert_ne. }
  generalize (∅ : gmap string string). induction pvs as [|q l IH]; intros m; [set_solver|].
  apply elem_of_cons in Hin as [<-|Hin]; [|by apply IH]. simpl. apply Hkeep. unfold f.
  rewrite Hd, Hc, String.eqb_refl. rewrite lookup_insert_eq. by eexists.
Qed.

Lemma exec_list_pods c nss tr pods ns v :
  exec (list_pods c nss) tr (Ok pods) -> (ns, v) ∈ nss ->
  exists rv l, (PodsList ns rv ▷ inl l) ∈ tr /\ l ⊆ pods.
Proof.
  revert tr pods. induction nss as [|[n u] nss IH]; intros tr pods H Hin; [set_solver|].
  cbn [list_pods] in H.
  apply exec_bind in H as [(l & t1 & t2 & -> & H1 & H)|(r0 & H1 & Hn & Hr)]; [|by destruct r0].
  apply exec_bind in H as [(more & t3 & t4 & -> & H2 & H)|(r0 & H2 & Hn & Hr)]; [|by destruct r0].
  destruct H as [-> [= ->]]. apply elem_of_cons in Hin as [[= <- <-]|Hin].
  - unfold ListPod in H1. apply exec_call_inv in H1 as (x & t & -> & _ & H1).
    apply exec_lift_sum in H1 as [-> H1]. destruct x as [l'|]; simplify_eq.
    exists (if c then "0" else EmptyString), l'. split; [by left|set_solver].
  - destruct (IH _ _ H2 Hin) as (rv & l' & Hl & Hsub). exists rv, l'. set_solver.
Qed.

(** The pods the controller judges references by include all pods of every
    namespace in which a volume of the driver is claimed: a reference is never
    taken for dead because its pod was not listed there. *)
Theorem ListAppPod_complete c tr pods :
  exec (ListAppPod c) tr (Ok pods) ->
  exists pvs rest, tr = (PVList ▷ inl pvs) :: rest /\
    forall pv ns, pv ∈ pvs -> pv_CSIDriver pv = Some DriverName -> pv_ClaimNamespace pv = Some ns ->
      exists rv l, (PodsList ns rv ▷ inl l) ∈ tr /\ l ⊆ pods.
Proof.
  unfold ListAppPod, ListPersistentVolumes. intros H.
  apply exec_bind in H as [(pvs & t1 & t2 & -> & H1 & H)|(r0 & H1 & Hn & Hr)]; [|by destruct r0].
  apply exec_call_inv in H1 as (x & t & -> & _ & H1). apply exec_lift_sum in H1 as [-> H1]. destruct x; simplify_eq.
  exists l. eexists. split; [done|]. intros pv ns Hin Hd Hc.
  apply exec_call_inv in H as (order & t' & -> & Ho & H).
  destruct (claim_namespaces_spec _ _ _ Hin Hd Hc) as [v Hv].
  assert ((ns, v) ∈ order) as Hord. { simpl in Ho. rewrite Ho. by apply elem_of_map_to_list. }
  destruct (exec_list_pods _ _ _ _ _ _ H Hord) as (rv & l' & Hl & Hsub). exists rv, l'. split; [|done].
  apply elem_of_app. right. by right.
Qed.

(** The controller asks to be called again exactly when the copy of the pod
    it read carries a deletion time; the wait is that time minus the current
    one, never negative. *)
Theorem Reconcile_requeue cfg c name namespace tr res :
  exec (Reconcile cfg c name namespace) tr (Ok res) -> Requeue res = true ->
  exists mountPod pre t now,
    tr = (PodsGet name namespace ▷ inl mountPod) :: pre ++ [TimeNow ▷ now] /\
    GetTime (mget (pod_Annotations mountPod) DeleteDelayAtKey) = inl t /\
    RequeueAfter res = Z.max 0 (Z.min (2 ^ 63 - 1) (t - now)).
Proof.
  unfold Reconcile. intros H Hq. apply exec_try_GetPod_bind in H as (x & tr' & -> & H).
  destruct x as [mountPod|e]; [|destruct (IsNotFound e); cbn [negb] in H; destruct H as [_ H]; by simplify_eq/=].
  destruct (on_this_node cfg mountPod); cbn [negb] in H; [|destruct H as [_ H]; by simplify_eq/=].
  apply exec_bind in H as [(mit & t1 & t2 & -> & H1 & H)|(r0 & H1 & Hn & Hr)]; [|by destruct r0].
  apply exec_bind in H as [(podList & t3 & t4 & -> & H2 & H)|(r0 & H2 & Hn & Hr)]; [|by destruct r0].
  cbv zeta in H.
  apply exec_bind_unit in H as [(t5 & t6 & -> & H3 & H)|(r0 & H3 & Hn & Hr)]; [|by destruct r0].
  case_match; cbn in H; [|destruct H as [_ H]; by simplify_eq/=].
  apply exec_bind in H as [(t & t7 & t8 & -> & H4 & H)|(r0 & H4 & Hn & Hr)]; [|by destruct r0].
  apply exec_lift_sum in H4 as [-> H4]. destruct (GetTime _) as [t'|] eqn:Ht; simplify_eq.
  apply exec_call_inv in H as (now & t9 & -> & _ & [-> [= ->]]).
  exists mountPod, (t1 ++ t3 ++ t5), t', now. split_and!; [list_app|done|]. simpl. unfold time_Sub.
  destruct (Z.ltb_spec t' now); lia.
Qed.
