(* ===== verification/Backoff.v ===== *)
(** * The back-off of the polling loop

    [client-go/util/flowcontrol/backoff.go] as [reconciler.go] uses it: a
    table of the pods whose last pass failed, each with the time it is left
    alone.  The table has no jitter, so that it needs no random numbers; its
    methods hold its lock, so that each is one step.  Durations are 64-bit
    integers of nanoseconds, instants integers. *)
From S2P Require Import Prelude GoTime K8sTypes Prog PodDriver Reconciler.
From stdpp Require Import options.
#[local] Open Scope Z_scope.

Record backoffEntry := mkEntry { backoff : Z; lastUpdate : Z }.

Record Backoff := mkBackoff {
  defaultDuration : Z;
  maxDuration : Z;
  perItemBackoff : gmap string backoffEntry;
}.

Definition NewBackOff (initial max : Z) : Backoff := mkBackoff initial max ∅.

Definition with_items (m : gmap string backoffEntry) (p : Backoff) : Backoff :=
  mkBackoff (defaultDuration p) (maxDuration p) m.

Definition hasExpired (eventTime lastUpdate maxDuration : Z) : bool :=
  wrap64 (maxDuration * 2) <? time_Sub eventTime lastUpdate.

Definition Get (p : Backoff) (id : string) : Z :=
  match perItemBackoff p !! id with Some entry => backoff entry | None => 0 end.

(** [now] is what the clock of the table shows when it is written. *)
Definition Next (p : Backoff) (id : string) (eventTime now : Z) : Backoff :=
  let delay :=
    match perItemBackoff p !! id with
    | None => defaultDuration p
    | Some entry =>
        if hasExpired eventTime (lastUpdate entry) (maxDuration p) then defaultDuration p
        else Z.min (wrap64 (backoff entry * 2)) (maxDuration p)
    end in
  with_items (<[id := mkEntry delay now]> (perItemBackoff p)) p.

Definition Reset (p : Backoff) (id : string) : Backoff := with_items (delete id (perItemBackoff p)) p.

Definition IsInBackOffSinceUpdate (p : Backoff) (id : string) (eventTime : Z) : bool :=
  match perItemBackoff p !! id with
  | None => false
  | Some entry =>
      if hasExpired eventTime (lastUpdate entry) (maxDuration p) then false
      else time_Sub eventTime (lastUpdate entry) <? backoff entry
  end.

(** Entries that were not written for twice the maximum are dropped. *)
Definition GC (p : Backoff) (now : Z) : Backoff :=
  with_items (filter (fun kv => (time_Sub now (lastUpdate kv.2) <=? wrap64 (maxDuration p * 2)) = true) (perItemBackoff p)) p.

(** The table of [reconciler.go]. *)
Definition retryPeriod : Z := 5 * second.
Definition maxRetryPeriod : Z := 300 * second.
Definition reconciler_backoff : Backoff := NewBackOff retryPeriod maxRetryPeriod.

(** ** Properties *)

(** A table that is used with positive durations whose sums fit an integer. *)
Definition sane (p : Backoff) : Prop :=
  0 < defaultDuration p <= maxDuration p /\ maxDuration p < 2 ^ 62.

(** Every delay is at least the initial one and at most the maximum. *)
Definition bounded (p : Backoff) : Prop :=
  map_Forall (fun _ entry => defaultDuration p <= backoff entry <= maxDuration p) (perItemBackoff p).

Lemma wrap64_id x : - 2 ^ 63 <= x < 2 ^ 63 -> wrap64 x = x.
Proof. intros H. unfold wrap64. rewrite Z.mod_small; lia. Qed.

Lemma Next_delay p id t now :
  sane p -> bounded p ->
  exists entry, perItemBackoff (Next p id t now) !! id = Some entry /\ lastUpdate entry = now /\
    defaultDuration p <= backoff entry <= maxDuration p /\
    backoff entry =
      match perItemBackoff p !! id with
      | Some old => if hasExpired t (lastUpdate old) (maxDuration p) then defaultDuration p
                    else Z.min (backoff old * 2) (maxDuration p)
      | None => defaultDuration p
      end.
Proof.
  intros Hs Hb. unfold sane in Hs. unfold Next. simpl. rewrite lookup_insert_eq. eexists. split; [done|]. simpl.
  destruct (perItemBackoff p !! id) as [old|] eqn:Hid; [|split_and!; [done|lia..]].
  specialize (Hb id old Hid). simpl in Hb. destruct (hasExpired _ _ _); [split_and!; [done|lia..]|].
  rewrite wrap64_id by lia. split_and!; [done|lia..].
Qed.

Lemma bounded_Next p id t now : sane p -> bounded p -> bounded (Next p id t now).
Proof.
  intros Hs Hb. destruct (Next_delay p id t now Hs Hb) as (entry & He & _ & Hbd & _).
  intros k e Hk. destruct (decide (k = id)) as [->|Hne]; [simpl in *; by simplify_eq|].
  simpl in Hk. rewrite lookup_insert_ne in Hk by done. by apply (Hb k).
Qed.

Lemma bounded_Reset p id : bounded p -> bounded (Reset p id).
Proof. intros Hb. by apply map_Forall_delete. Qed.

Lemma bounded_GC p now : bounded p -> bounded (GC p now).
Proof. intros Hb k e [Hk _]%map_lookup_filter_Some. by apply (Hb k). Qed.

(** A pod is left alone for at most the maximum after its last failure, and
    never before the first one. *)
Lemma back_off_window p id t :
  sane p -> bounded p -> IsInBackOffSinceUpdate p id t = true ->
  exists entry, perItemBackoff p !! id = Some entry /\ t < lastUpdate entry + maxDuration p.
Proof.
  unfold IsInBackOffSinceUpdate, sane. intros Hs Hb H. destruct (perItemBackoff p !! id) as [entry|] eqn:Hid; [|done].
  exists entry. split; [done|]. specialize (Hb id entry Hid). simpl in Hb.
  destruct (hasExpired _ _ _); [done|]. apply Z.ltb_lt in H. unfold time_Sub in H. lia.
Qed.

(** A failure noted at [t] when the clock shows [now]. *)
Fixpoint failures (p : Backoff) (id : string) (times : list (Z * Z)) : Backoff :=
  match times with
  | [] => p
  | (t, now) :: rest => failures (Next p id t now) id rest
  end.

(** No failure comes later than twice the maximum after the one before. *)
Fixpoint steady (max prev : Z) (times : list (Z * Z)) : Prop :=
  match times with
  | [] => True
  | (t, now) :: rest => time_Sub t prev <= max * 2 /\ steady max now rest
  end.

Lemma Z_pow2_succ (n : nat) : 2 ^ Z.of_nat (S n) = 2 * 2 ^ Z.of_nat n.
Proof. rewrite Nat2Z.inj_succ. apply Z.pow_succ_r. lia. Qed.

Lemma failures_from p id entry times :
  sane p -> bounded p -> perItemBackoff p !! id = Some entry ->
  steady (maxDuration p) (lastUpdate entry) times ->
  Get (failures p id times) id = Z.min (backoff entry * 2 ^ Z.of_nat (length times)) (maxDuration p).
Proof.
  revert p entry. induction times as [|[t now] times IH]; intros p entry Hs Hb He Hst.
  - unfold Get. simpl. rewrite He, Z.mul_1_r. specialize (Hb id entry He). simpl in Hb. lia.
  - destruct Hst as [Ht Hst]. destruct (Next_delay p id t now Hs Hb) as (e & Hn & Hl & Hbd & Hd).
    cbn [failures]. rewrite (IH (Next p id t now) e); [|done|by apply bounded_Next|done|by rewrite Hl].
    rewrite He in Hd. unfold sane in Hs.
    assert (hasExpired t (lastUpdate entry) (maxDuration p) = false) as Hx.
    { unfold hasExpired. rewrite wrap64_id by lia. apply Z.ltb_ge. lia. }
    rewrite Hx in Hd. cbn [length maxDuration with_items Next]. rewrite Hd, Z_pow2_succ.
    specialize (Hb id entry He). simpl in Hb. pose proof (Z.pow_pos_nonneg 2 (Z.of_nat (length times)) ltac:(lia) ltac:(lia)).
    nia.
Qed.

(** C38 A pod whose passes fail one after the other is left alone for the initial
    time doubled with every failure, up to the maximum: for the table of the
    loop 5, 10, 20, 40, 80, 160 and then 300 seconds. *)
Theorem failures_double p id t now times :
  sane p -> bounded p -> perItemBackoff p !! id = None -> steady (maxDuration p) now times ->
  Get (failures p id ((t, now) :: times)) id =
  Z.min (defaultDuration p * 2 ^ Z.of_nat (length times)) (maxDuration p).
Proof.
  intros Hs Hb Hn Hst. destruct (Next_delay p id t now Hs Hb) as (e & He & Hl & _ & Hd). rewrite Hn in Hd.
  cbn [failures]. rewrite (failures_from _ id e); [|done|by apply bounded_Next|done|by rewrite Hl].
  by rewrite Hd.
Qed.
