(* ===== verification/Polling.v ===== *)
(** * A turn of the polling loop

    [reconciler.go]: every turn starts one goroutine per mount pod of the node
    and waits for all of them.  They share the table of the back-offs, the
    context of their group and, because the closure assigns to a variable of
    the loop, the error of the last pass.  Here the goroutines run in every
    interleaving over these three. *)
From S2P Require Import Prelude GoStrings GoTime K8sTypes PatchText Prog Protocol Config K8sClient Util MountInfoTable PodDriver Reconciler Backoff.
From stdpp Require Import options.
#[local] Open Scope Z_scope.

#[local] Arguments exec : simpl never.

(** ** What the goroutines share *)

Record turn_state := mkTurn {
  stored : list (option error);     (* what was assigned to [err], the last first *)
  cancelled : bool;                 (* the context of the group *)
  table : Backoff;
  clock : Z;
}.

Definition assign (e : option error) (w : turn_state) : turn_state :=
  mkTurn (e :: stored w) (cancelled w) (table w) (clock w).
Definition cancel_group (w : turn_state) : turn_state := mkTurn (stored w) true (table w) (clock w).
Definition with_table (b : Backoff) (w : turn_state) : turn_state := mkTurn (stored w) (cancelled w) b (clock w).
Definition at_time (t : Z) (w : turn_state) : turn_state := mkTurn (stored w) (cancelled w) (table w) t.

(** [err] before the first assignment of the turn is nil. *)
Definition err_value (w : turn_state) : option error := default None (head (stored w)).

(** The calls on the shared state; time goes on between any two calls, and
    whatever else a pass calls may answer anything. *)
Definition turn_effect (o : op) (w : turn_state) : resp o -> turn_state -> Prop :=
  match o return resp o -> turn_state -> Prop with
  | ErrStore e => fun _ w' => w' = assign e w
  | ErrLoad => fun x w' => x = err_value w /\ w' = w
  | GroupCancel _ => fun _ w' => w' = cancel_group w
  | CtxDone _ => fun x w' => (x = Some Canceled -> cancelled w = true) /\ (cancelled w = true -> x <> None) /\ w' = w
  | BackOffActive id => fun x w' => x = IsInBackOffSinceUpdate (table w) id (clock w) /\ w' = w
  | BackOffNext id => fun _ w' => exists t, t <= clock w /\ w' = with_table (Next (table w) id t (clock w)) w
  | BackOffReset id => fun _ w' => w' = with_table (Reset (table w) id) w
  | _ => fun _ w' => w' = w
  end.

Definition turn_answer (o : op) (w : turn_state) (x : resp o) (w' : turn_state) : Prop :=
  exists t, clock w <= t /\ turn_effect o (at_time t w) x w'.

(** ** The calls of a pass *)

Definition of_turn (o : op) : bool :=
  match o with
  | ErrStore _ | ErrLoad | GroupCancel _ | CtxDone _ | BackOffActive _ | BackOffNext _ | BackOffReset _ => true
  | _ => false
  end.

Lemma Run_avoids_turn mit pod : avoids of_turn (Run mit pod).
Proof.
  assert (forall st p, avoids of_turn (handlers st p)) as Hh
    by (intros st p; apply handlers_avoids; by intros []).
  unfold Run. apply avoids_bind; [by split|]. intros order. destruct (scan_refs _ _ _ _) as [n del].
  unfold drop_annotations, GetPod, DeletePod, DelPodAnnotation, PatchPod. avoid. by apply ShouldDelay_avoids.
Qed.

(** ** The protocol of a goroutine

    The state is the identifier of its pod in the back-off table and how far
    it is: it reads the shared error only after it has assigned to it, and
    resets or lengthens the back-off of its own pod according to what it read
    last. *)
Inductive phase := Before | Assigned | Saw (e : option error).

Definition goroutine : protocol := {|
  pstate := string * phase;
  pre s o := match o with
             | ErrLoad => s.2 <> Before
             | BackOffNext id => id = s.1 /\ exists e, s.2 = Saw (Some e)
             | BackOffReset id => id = s.1 /\ s.2 = Saw None
             | GroupCancel e => s.2 = Saw (Some e)
             | _ => True
             end;
  post s o := match o return resp o -> string * phase with
              | ErrStore _ => fun _ => (s.1, Assigned)
              | ErrLoad => fun x => (s.1, Saw x)
              | _ => fun _ => s
              end;
|}.

Lemma wp_pass {A} (p : prog A) s : avoids of_turn p -> wp goroutine p s (fun s' _ => s' = s).
Proof. apply wp_frame. intros o Ho. by destruct o. Qed.

Lemma wp_goroutine timeout mit podList pod :
  wp goroutine (group_go (reconcile_pod timeout mit podList pod)) ("mountpod/" +:+ pod_Name pod, Before)
    (fun _ _ => True).
Proof.
  unfold group_go. apply wp_bind, wp_try. unfold reconcile_pod.
  apply wp_bind, wp_call; [done|]. intros [c|] _; [done|].
  apply wp_bind, wp_call; [done|]. intros [] _; cbn [negb]; [done|].
  apply wp_bind, wp_try. eapply wp_mono; [|apply wp_pass, Run_avoids_turn].
  intros s r ->. destruct r as [[]|e| |]; try done.
  all: apply wp_bind, wp_call; [done|]; intros [] _; apply wp_bind, wp_call; [done|]; intros [e'|] _.
  all: try (apply wp_call; [done|]; by intros []).
  all: apply wp_bind, wp_call; [naive_solver|]; intros [] _; apply wp_bind, wp_call; [done|]; by intros [e''|].
Qed.

(** ** Every interleaving *)

(** What the states of the goroutines say of the shared state. *)
Definition know (ss : list (pstate goroutine)) (w : turn_state) : Prop :=
  (forall i id ph, ss !! i = Some (id, ph) ->
     match ph with Before => True | Assigned => stored w <> [] | Saw e => e ∈ stored w end) /\
  (cancelled w = true -> exists e, Some e ∈ stored w).

(** What was assigned to [err] when the back-off of a pod is lengthened or
    reset or a goroutine finds the group cancelled. *)
Definition justified (ids : list string) (st : list (option error)) (l : nat * event) : Prop :=
  (forall id, projT1 l.2 = BackOffNext id -> ids !! l.1 = Some id /\ exists e, Some e ∈ st) /\
  (forall id, projT1 l.2 = BackOffReset id -> ids !! l.1 = Some id /\ None ∈ st) /\
  (forall t, l.2 = (CtxDone t ▷ Some Canceled) -> exists e, Some e ∈ st).

Lemma justified_mono ids st st' l : st ⊆ st' -> justified ids st l -> justified ids st' l.
Proof. intros Hst (H1 & H2 & H3). split_and!; intros ? H; [apply H1 in H|apply H2 in H|apply H3 in H]; naive_solver. Qed.

Lemma know_mono ss w w' :
  know ss w -> stored w ⊆ stored w' -> (cancelled w' = true -> cancelled w = true) -> know ss w'.
Proof.
  intros [Hs Hc] Hst Hc'. split; [|naive_solver].
  intros i id ph Hi. specialize (Hs i id ph Hi). destruct ph; [done| |by apply Hst].
  intros He. rewrite He in Hst. destruct (stored w) as [|e l]; [done|]. specialize (Hst e). set_solver.
Qed.

Lemma know_insert ss w i id ph :
  know ss w -> match ph with Before => True | Assigned => stored w <> [] | Saw e => e ∈ stored w end ->
  know (<[i := (id, ph)]> ss) w.
Proof.
  intros [Hs Hc] Hph. split; [|done]. intros j id' ph' Hj.
  apply list_lookup_insert_Some in Hj as [(<- & [= <- <-] & _)|[_ Hj]]; [done|by eapply Hs].
Qed.

Lemma err_value_stored w : stored w <> [] -> err_value w ∈ stored w.
Proof. unfold err_value. destruct (stored w); [done|]. intros _. simpl. by left. Qed.

(** One call: what the caller may do, what changes, and why it may. *)
Lemma turn_call ss i id ph o w x w' :
  know ss w -> ss !! i = Some (id, ph) -> pre goroutine (id, ph) o -> turn_answer o w x w' ->
  know (<[i := post goroutine (id, ph) o x]> ss) w' /\
  (stored w' = stored w \/ exists e, o = ErrStore e /\ stored w' = e :: stored w) /\
  (forall ids, ids !! i = Some id -> justified ids (stored w) (i, o ▷ x)).
Proof.
  intros Hk Hi Hpre (t & _ & Ha). pose proof (proj1 Hk i id ph Hi) as Hph.
  assert (forall s, s = (id, ph) -> <[i := s]> ss = ss) as Hid by (intros s ->; by apply list_insert_id).
  assert (forall w', stored w' = stored w -> (cancelled w' = true -> cancelled w = true) -> know ss w') as Hkm.
  { intros v Hs. apply know_mono; [done|by rewrite Hs]. }
  assert (match o with ErrStore _ | ErrLoad | GroupCancel _ => True
          | _ => post goroutine (id, ph) o x = (id, ph) /\ stored w' = stored w /\ cancelled w' = cancelled w end) as Hframe.
  { destruct o; try exact I; cbn in Ha; destruct_and?; try (destruct Ha as (t' & _ & Ha)); by subst. }
  split_and!.
  - destruct o; try (destruct Hframe as (Hp & Hs & Hc); rewrite Hid by done; apply Hkm; [done|by rewrite Hc]); cbn in Ha.
    + subst w'. apply know_insert; [|done]. eapply know_mono; [exact Hk|simpl; set_solver|done].
    + destruct Ha as [-> ->]. apply know_insert; [by apply Hkm|]. apply (err_value_stored (at_time t w)).
      cbn in Hpre. by destruct ph; [|exact Hph|intros Hn; simpl in Hn; rewrite Hn in Hph; set_solver].
    + subst w'. cbn. cbn in Hpre. rewrite Hid by done. split; [exact (proj1 Hk)|]. intros _. subst ph. by exists e.
  - destruct o; try (left; apply Hframe); cbn in Ha; [subst w'; right; by eexists|destruct Ha as [_ ->]; by left|subst w'; by left].
  - intros ids Hids. split_and!; simpl; intros ? Ho.
    + subst o. cbn in Hpre. destruct Hpre as [-> [e ->]]. split; [done|by exists e].
    + subst o. cbn in Hpre. by destruct Hpre as [-> ->].
    + pose proof (f_equal (@projT1 _ _) Ho) as Ho'. simpl in Ho'. subst o. apply event_inj in Ho. subst x.
      cbn in Ha. apply (proj2 Hk). by apply Ha.
Qed.

Lemma turn_steps c tr c' ss :
  steps turn_answer c tr c' -> follow goroutine (fun _ _ => True) ss (pool c) -> know ss (world c) ->
  (forall e, e ∈ stored (world c') -> e ∈ stored (world c) \/ exists j, (j, ErrStore e ▷ tt) ∈ tr) /\
  stored (world c) ⊆ stored (world c') /\
  Forall (justified (ss.*1) (stored (world c'))) tr.
Proof.
  intros H. induction H as [c|c1 [i e] c2 tr c3 Hs _ IH] in ss |- *; intros Hf Hk.
  { split_and!; [auto|done|constructor]. }
  destruct (follow_step _ _ _ _ _ _ _ Hf Hs) as ([id ph] & Hi & Hpre & Ha & Hf'). destruct e as [o x]. simpl in *.
  destruct (turn_call ss i id ph o (world c1) x (world c2) Hk Hi Hpre Ha) as (Hk' & Hst & Hj).
  destruct (IH _ Hf' Hk') as (H1 & H2 & H3). clear IH.
  assert (stored (world c1) ⊆ stored (world c2)) as Hsub by (destruct Hst as [->|(e & _ & ->)]; set_solver).
  split_and!.
  - intros e [He|[j Hj']]%H1; [|right; exists j; by right].
    destruct Hst as [Heq|(e' & -> & Heq)]; rewrite Heq in He; [by left|].
    apply elem_of_cons in He as [->|He]; [|by left]. right. exists i. destruct x. by left.
  - by etrans.
  - constructor.
    + eapply justified_mono; [|apply Hj]; [by etrans|]. by rewrite list_lookup_fmap, Hi.
    + assert ((<[i := post goroutine (id, ph) o x]> ss).*1 = ss.*1) as Hids.
      { rewrite list_fmap_insert. apply list_insert_id. rewrite list_lookup_fmap, Hi. simpl. f_equal. by destruct o. }
      rewrite <-Hids. exact H3.
Qed.

(** [other_events H]: leave only the cases of [H : e ∈ l] in which the calls
    agree. *)
Ltac other_events H :=
  repeat first
    [ apply elem_of_cons in H as [H|H];
        [first [by apply (f_equal (@projT1 _ _)) in H | apply (f_equal (@projT1 _ _)) in H; cbn in H; simplify_eq]|]
    | apply elem_of_app in H as [H|H]
    | apply elem_of_nil in H; destruct H ].

(** ** A turn *)

Section turn.
Context (timeout : Z) (mit : mountInfoTable) (podList pods : list Pod).

Definition backOffID (pod : Pod) : string := "mountpod/" +:+ pod_Name pod.
Definition goroutines : list (prog unit) := map (fun pod => group_go (reconcile_pod timeout mit podList pod)) pods.

(** Goroutine [j] was let in, and its pass ended with [r]. *)
Definition passed (j : nat) (r : result unit) (tr : list (nat * event)) : Prop :=
  exists pod pass rest, pods !! j = Some pod /\
    exec (Run (setPodsStatus mit (Some podList)) pod) pass r /\
    thread j tr = (CtxDone timeout ▷ None) :: (BackOffActive (backOffID pod) ▷ false) :: pass ++ rest.

(** A pass makes no assignment. *)
Lemma pass_stores {pod pass r e} :
  exec (Run (setPodsStatus mit (Some podList)) pod) pass r -> (ErrStore e ▷ tt) ∉ pass.
Proof.
  intros Hrun Hp. apply (elem_of_calls of_turn) in Hp; [|done].
  apply Hp. eapply avoids_calls; [apply Run_avoids_turn|exact Hrun].
Qed.

(** The assignment of a goroutine follows its pass. *)
Lemma pass_prefix pod r pass e (l1 l2 last : list event) :
  exec (Run (setPodsStatus mit (Some podList)) pod) pass r ->
  l1 ++ l2 = (CtxDone timeout ▷ None) :: (BackOffActive (backOffID pod) ▷ false) :: pass ++ (ErrStore e ▷ tt) :: last ->
  (ErrStore e ▷ tt) ∈ l1 ->
  exists rest, l1 = (CtxDone timeout ▷ None) :: (BackOffActive (backOffID pod) ▷ false) :: pass ++ rest.
Proof.
  intros Hrun Heq Hin.
  change ((CtxDone timeout ▷ None) :: (BackOffActive (backOffID pod) ▷ false) :: pass ++ (ErrStore e ▷ tt) :: last)
    with (((CtxDone timeout ▷ None) :: (BackOffActive (backOffID pod) ▷ false) :: pass) ++ (ErrStore e ▷ tt) :: last) in Heq.
  apply List.app_eq_app in Heq as (l & [[-> _]|[Hl _]]); [by exists l|]. exfalso.
  assert ((ErrStore e ▷ tt) ∈ (CtxDone timeout ▷ None) :: (BackOffActive (backOffID pod) ▷ false) :: pass) as Hp
    by (rewrite Hl; set_solver).
  other_events Hp. by eapply pass_stores.
Qed.

(** What is assigned to the shared variable is the outcome of the pass of the
    goroutine that assigns it. *)
Lemma assigned_outcome c tr c' j e :
  pool c = goroutines -> steps turn_answer c tr c' -> (j, ErrStore e ▷ tt) ∈ tr ->
  passed j (match e with Some e => Err e | None => Ok tt end) tr.
Proof.
  intros Hc Hs Hin. destruct (steps_thread_in _ _ _ _ _ _ Hs Hin) as [p Hp].
  pose proof (steps_thread _ _ _ _ _ _ Hs Hp) as (more & r & He). rewrite Hc in Hp. unfold goroutines in Hp.
  apply list_lookup_fmap_Some in Hp as (pod & -> & Hpod). apply elem_of_thread in Hin.
  assert ((ErrStore e ▷ tt) ∈ thread j tr ++ more) as Hin' by (apply elem_of_app; by left).
  unfold group_go in He.
  assert (exists t1 t2 r0, thread j tr ++ more = t1 ++ t2 /\ exec (reconcile_pod timeout mit podList pod) t1 r0 /\
            (ErrStore e ▷ tt) ∉ t2) as (t1 & t2 & r0 & Heq & H1 & H2).
  { apply exec_bind in He as [(a & t1 & t2 & Heq & H1 & He)|(r1 & H1 & Hn & _)];
      apply exec_try in H1 as (r0 & H1 & _).
    - exists t1, t2, r0. split_and!; [done..|]. destruct a as [u|e'].
      + destruct He as [-> _]. set_solver.
      + apply exec_call in He as ([] & -> & _). intros Hx%list_elem_of_singleton. by apply (f_equal (@projT1 _ _)) in Hx.
    - exists (thread j tr ++ more), [], r0. rewrite app_nil_r. split_and!; [done..|set_solver]. }
  assert ((ErrStore e ▷ tt) ∈ t1) as Ht1 by (rewrite Heq in Hin'; set_solver). clear Hin'.
  apply exec_reconcile_pod in H1. fold (backOffID pod) in H1.
  destruct H1 as [(c0 & -> & _)|[[-> _]|(pass & r1 & Hrun & H1)]]; [by other_events Ht1..|].
  destruct r1 as [[]|e1| |].
  3-4: exfalso; destruct H1 as [_ ->]; other_events Ht1; by eapply pass_stores.
  all: destruct H1 as (seen & last & -> & Hlast); other_events Ht1; [exfalso; by eapply pass_stores| |].
  2,4: exfalso; destruct seen; [destruct Hlast as (e' & -> & _)|destruct Hlast as [-> _]]; by other_events Ht1.
  all: rewrite <-app_comm_cons, <-app_comm_cons, <-app_assoc in Heq.
  all: destruct (pass_prefix _ _ _ _ _ _ _ Hrun Heq Hin) as [rest Hrest]; by exists pod, pass, rest.
Qed.

End turn.

(** *** The table *)

Lemma turn_answer_table o w x w' :
  turn_answer o w x w' -> sane (table w) -> bounded (table w) ->
  sane (table w') /\ bounded (table w') /\
  defaultDuration (table w') = defaultDuration (table w) /\ maxDuration (table w') = maxDuration (table w).
Proof.
  intros (t & _ & Ha) Hs Hb.
  destruct o; cbn in Ha; try (by subst w'); try (by destruct Ha as (_ & _ & ->)); try (by destruct Ha as (_ & ->)).
  - destruct Ha as (t' & _ & ->). split_and!; [done|by apply bounded_Next|done..].
  - subst w'. split_and!; [done|by apply bounded_Reset|done..].
Qed.

(** In every interleaving every pod in back-off is left alone for at least
    the initial and at most the maximal time. *)
Lemma steps_bounded c tr c' :
  steps turn_answer c tr c' -> sane (table (world c)) -> bounded (table (world c)) ->
  sane (table (world c')) /\ bounded (table (world c')) /\
  defaultDuration (table (world c')) = defaultDuration (table (world c)) /\
  maxDuration (table (world c')) = maxDuration (table (world c)).
Proof.
  induction 1 as [c|c1 l c2 tr c3 Hst _ IH]; intros Hs Hb; [done|].
  destruct Hst as [w w' ts i o k x Hi Ha Hx]. simpl in *.
  destruct (turn_answer_table _ _ _ _ Ha Hs Hb) as (H1 & H2 & H3 & H4).
  destruct (IH H1 H2) as (H5 & H6 & H7 & H8). split_and!; [done..|congruence|congruence].
Qed.
