(* ===== verification/Warmup.v ===== *)
(** * The warm-up controller

    [pkg/warmup/controllers/cache_controller.go]: a [Cache] object asks for a
    path of a volume to be loaded into the caches of the nodes that use it.
    The controller finds the nodes of the pods that use the claim and runs the
    warm-up command in the mount pod of each of them. *)
From S2P Require Import Prelude GoStrings GoPath GoTime K8sTypes PatchText Prog Config K8sClient Util Console MountPod Juicefs PodDriver Reconciler.
From stdpp Require Import options.
#[local] Open Scope Z_scope.

#[local] Arguments exec : simpl never.

Definition retryTimeout : Z := 15 * second.

(** ** Names *)

(** [/mosfs/<class>/<volume>/<path>] with the shared mount,
    [/mosfs/<volume>/<path>] without. *)
Definition cache_path (shareMount : bool) (scName pvName path : string) : string :=
  let cachePath := if shareMount then "/mosfs/" +:+ scName +:+ "/" +:+ pvName else "/mosfs/" +:+ pvName in
  if (0 <? String.length path)%nat then PathJoin [cachePath; path] else cachePath.

Definition mount_pod_name (shareMount : bool) (nodeName scName pvName : string) : string :=
  if shareMount then "mosfs-" +:+ nodeName +:+ "-" +:+ scName else "mosfs-" +:+ nodeName +:+ "-" +:+ pvName.

Definition warm_up_command (path : string) : list string := ["/usr/bin/dfscli"; "warmup"; path].

(** ** The claim and its nodes *)

Definition getStorageClassNameAndPVName (namespace pvcName : string) : prog (string * string) :=
  r ← call (ClaimGet namespace pvcName);
  match r with
  | inr e => Throw (ErrFmt "get pvc:%s, error:%w" [pvcName] (Some e))
  | inl pvc =>
      match pvc_StorageClassName pvc with
      | None => Panic "nil pointer dereference"
      | Some storageClassName =>
          let pvName := pvc_VolumeName pvc in
          if (String.length storageClassName =? 0)%nat then
            Throw (ErrFmt "ns:%s, pvc:%s related storageclass is empty, cache only support dynamic provision"
                     [namespace; pvcName] None)
          else if (String.length pvName =? 0)%nat then
            Throw (ErrFmt "ns:%s, pvc:%s not bound to pv" [namespace; pvcName] None)
          else mret (storageClassName, pvName)
      end
  end.

(** The loop over the volumes of one pod: a volume that is not a claim ends
    it. *)
Fixpoint pod_nodes (pvcName nodeName : string) (volumes : list Volume) : list string :=
  match volumes with
  | [] => []
  | volume :: rest =>
      match vol_Source volume with
      | PersistentVolumeClaim claim =>
          (if String.eqb claim pvcName && (0 <? String.length nodeName)%nat then [nodeName] else [])
          ++ pod_nodes pvcName nodeName rest
      | _ => []
      end
  end.

Definition used_nodes (pvcName : string) (pods : list Pod) : list string :=
  flat_map (fun pod => pod_nodes pvcName (NodeName (Spec pod)) (Volumes (Spec pod))) pods.

Definition fromPVCGetUsedPodsNodeName (ns pvcName : string) : prog (list string) :=
  r ← call (PodsList ns EmptyString);
  match r with
  | inr e => Throw (ErrFmt "list pod in namesapce:%s, error:%w" [] (Some e))
  | inl podList => mret (used_nodes pvcName podList)
  end.

(** ** Warming up *)

Definition warmUp (nodeName scName pvName path namespace : string) (shareMount : bool) : prog unit :=
  r ← call (PodExec namespace (mount_pod_name shareMount nodeName scName pvName) (warm_up_command path));
  match r with
  | inr e => Throw (ErrFmt "new exec error:%s" [] (Some e))
  | inl (stdout, stderr, Some e) => Throw (ErrFmt "stdout:%s, stderr:%s, err:%w" [stdout; stderr] (Some e))
  | inl (_, _, None) => mret tt
  end.

(** The loop of [warmUpAll]: the error it stops at. *)
Fixpoint warm_nodes (scName pvName path namespace : string) (shareMount : bool) (nodesName : list string)
    : prog (option error) :=
  match nodesName with
  | [] => mret None
  | nodeName :: rest =>
      r ← try (warmUp nodeName scName pvName path namespace shareMount);
      match r with
      | inr e => mret (Some e)
      | inl _ => warm_nodes scName pvName path namespace shareMount rest
      end
  end.

Definition with_status (cached : bool) (message : string) (c : Cache) : Cache :=
  mkCache (cache_Name c) (cache_Namespace c) (cache_DeletionTimestamp c) (PvcName c) (cache_Path c) cached message.

Section Controller.
(** [err.Error()]: the text of an error, which libraries make too. *)
Context (Error : error -> string).

Definition warmUpAll (scName pvName path namespace : string) (shareMount : bool) (cache : Cache)
    (nodesName : list string) : prog unit :=
  finalErr ← warm_nodes scName pvName path namespace shareMount nodesName;
  let cache := match finalErr with
               | Some e => with_status false (Error e) cache
               | None => with_status true (cache_Message cache) cache
               end in
  r ← call (CacheStatusUpdate cache);
  match r with
  | Some e => Throw (ErrFmt "update cache:%s, error:%s" [cache_Name cache] (Some e))
  | None => match finalErr with
            | Some e => Throw (ErrFmt "warm up cahche:%s, error:%s" [cache_Name cache] (Some e))
            | None => mret tt
            end
  end.

(** The result and the error, which the code returns together. *)
Definition retry (e : error) : Result * option error := (mkResult true retryTimeout, Some e).
Definition cancel (e : error) : Result * option error := (mkResult false retryTimeout, Some e).
Definition done_ : Result * option error := (mkResult false 0, None).

(** The branch for a cache that is not warmed up yet. *)
Definition reconcile_uncached (namespace : string) (cache : Cache) : prog (Result * option error) :=
  r ← try (getStorageClassNameAndPVName namespace (PvcName cache));
  match r with
  | inr e => mret (retry e)
  | inl (scName, pvName) =>
      share ← Getenv "STORAGE_CLASS_SHARE_MOUNT";
      let shareMount := String.eqb share "true" in
      let cachePath := cache_path shareMount scName pvName (cache_Path cache) in
      n ← try (fromPVCGetUsedPodsNodeName namespace (PvcName cache));
      match n with
      | inr e => mret (retry e)
      | inl nodesName =>
          if (length nodesName =? 0)%nat then mret (cancel (ErrFmt "%s" ["nodeName is empty"] None))
          else
            mountNamespace ← Getenv "MOSFS_MOUNT_NAMESPACE";
            if (String.length mountNamespace =? 0)%nat then
              mret (cancel (ErrFmt "get namespace failed, namespace can not empty" [] None))
            else
              w ← try (warmUpAll scName pvName cachePath mountNamespace shareMount cache nodesName);
              match w with
              | inr e => mret (retry e)
              | inl _ => mret done_
              end
      end
  end.

Definition Reconcile (namespace name : string) : prog (Result * option error) :=
  r ← call (CacheGet namespace name);
  match r with
  | inr e => if IsNotFound e then mret done_ else mret (retry e)
  | inl cache =>
      if bool_decide (is_Some (cache_DeletionTimestamp cache)) then
        d ← call (CacheDelete cache);
        match d with
        | Some e => if negb (IsNotFound e) then mret (retry e) else mret done_
        | None => mret done_
        end
      else if Cached cache then mret done_
      else reconcile_uncached namespace cache
  end.
End Controller.

(** ** The nodes of a claim *)

(** The volumes before the first one that is not a claim. *)
Fixpoint leading_claims (volumes : list Volume) : list string :=
  match volumes with
  | [] => []
  | volume :: rest =>
      match vol_Source volume with PersistentVolumeClaim claim => claim :: leading_claims rest | _ => [] end
  end.

Lemma elem_of_pod_nodes pvcName nodeName volumes n :
  n ∈ pod_nodes pvcName nodeName volumes <->
  n = nodeName /\ nodeName <> EmptyString /\ pvcName ∈ leading_claims volumes.
Proof.
  assert (0 <? String.length nodeName = true <-> nodeName <> EmptyString)%nat as Hlen.
  { rewrite Nat.ltb_lt. destruct nodeName; simpl; split; intros; [lia|done|done|lia]. }
  induction volumes as [|v rest IH]; simpl; [set_solver|].
  destruct (vol_Source v) as [| |claim|]; [set_solver..| |set_solver].
  rewrite elem_of_app, IH, elem_of_cons.
  destruct (String.eqb_spec claim pvcName) as [->|Hne]; simpl.
  - destruct (0 <? String.length nodeName)%nat eqn:Hl; [rewrite list_elem_of_singleton; tauto|].
    assert (nodeName = EmptyString) as -> by (destruct nodeName; [done|simpl in Hl; done]).
    set_solver.
  - rewrite elem_of_nil. naive_solver.
Qed.

(** C30 The controller warms up exactly the nodes of the pods of the namespace
    that are scheduled and whose volumes name the claim before any volume that
    is not a claim: a pod that lists a configuration volume first is missed. *)
Theorem used_nodes_spec pvcName pods node :
  node ∈ used_nodes pvcName pods <->
  exists pod, pod ∈ pods /\ NodeName (Spec pod) = node /\ node <> EmptyString /\
    pvcName ∈ leading_claims (Volumes (Spec pod)).
Proof.
  unfold used_nodes. rewrite elem_of_flat_map. setoid_rewrite elem_of_pod_nodes. naive_solver.
Qed.

(** ** The trace of a warm-up *)

(** The successful run of the command on a node. *)
Definition warmed (scName pvName path namespace : string) (shareMount : bool) (nodeName : string) (e : event) : Prop :=
  exists out err, e = (PodExec namespace (mount_pod_name shareMount nodeName scName pvName)
                         (warm_up_command path) ▷ inl (out, err, None)).

Lemma exec_warm_nodes scName pvName path namespace shareMount nodes tr r :
  exec (warm_nodes scName pvName path namespace shareMount nodes) tr r ->
  exists ok, r = Ok ok /\
    match ok with
    | None => Forall2 (warmed scName pvName path namespace shareMount) nodes tr
    | Some _ => exists pre node post t x, nodes = pre ++ node :: post /\
        Forall2 (warmed scName pvName path namespace shareMount) pre t /\
        tr = t ++ [PodExec namespace (mount_pod_name shareMount node scName pvName) (warm_up_command path) ▷ x] /\
        forall out err, x <> inl (out, err, None)
    end.
Proof.
  revert tr. induction nodes as [|node nodes IH]; intros tr H; cbn [warm_nodes] in H.
  { destruct H as [-> ->]. exists None. split; [done|constructor]. }
  unfold warmUp in H. apply exec_call_inv in H as (x & t & -> & _ & H).
  destruct x as [[[out err] [e|]]|e].
  - destruct H as [-> ->]. eexists. split; [done|].
    by exists [], node, nodes, [], (inl (out, err, Some e)); split_and!.
  - apply IH in H as (ok & -> & H). exists ok. split; [done|]. destruct ok as [e|].
    + destruct H as (pre & node' & post & t' & x & -> & Hf & -> & Hx).
      exists (node :: pre), node', post, ((PodExec namespace (mount_pod_name shareMount node scName pvName) (warm_up_command path)
        ▷ inl (out, err, None)) :: t'), x.
      split_and!; [done| |done|done]. constructor; [by exists out, err|done].
    + constructor; [by exists out, err|done].
  - destruct H as [-> ->]. eexists. split; [done|]. by exists [], node, nodes, [], (inr e); split_and!.
Qed.


(** A warm-up ends with the update of the status; the cache is marked only
    when every node was warmed up. *)
Lemma exec_warmUpAll Error scName pvName path namespace shareMount cache nodes tr r :
  exec (warmUpAll Error scName pvName path namespace shareMount cache nodes) tr r ->
  exists t c x, tr = t ++ [CacheStatusUpdate c ▷ x] /\
    ((exists e, r = Err e /\ (Cached c = false \/ x <> None)) \/ (r = Ok tt /\ Cached c = true /\ x = None)) /\
    Forall (fun e => exists node y, e = (PodExec namespace (mount_pod_name shareMount node scName pvName)
                                           (warm_up_command path) ▷ y)) t /\
    (Cached c = true -> c = with_status true (cache_Message cache) cache /\
       Forall2 (warmed scName pvName path namespace shareMount) nodes t).
Proof.
  unfold warmUpAll. intros H.
  apply exec_bind in H as [(ok & t & t2 & -> & H1 & H)|(r0 & H1 & Hn & Hr)];
    apply exec_warm_nodes in H1 as (ok' & Heq & H1); simplify_eq.
  apply exec_call_inv in H as (x & t3 & -> & _ & H). exists t.
  destruct ok' as [e|].
  - destruct H1 as (pre & node & post & t' & y & -> & Hf & -> & Hy).
    eexists _, x. split; [by destruct x; destruct H as [-> ->]|]. split_and!; [|..|done].
    + left. destruct x; destruct H as [-> ->]; eauto.
    + apply Forall_app. split; [|repeat constructor; eauto].
      clear -Hf. induction Hf as [|n e l t (out & err & ->) _ IH]; constructor; eauto.
  - eexists _, x. split; [by destruct x; destruct H as [-> ->]|]. split_and!; [..|done].
    + destruct x; destruct H as [-> ->]; [left|right]; naive_solver.
    + clear -H1. induction H1 as [|n e l t (out & err & ->) _ IH]; constructor; eauto.
Qed.

(** The calls that change something: commands in pods and status updates. *)
Definition is_warm_up (o : op) : bool :=
  match o with PodExec _ _ _ | CacheStatusUpdate _ => true | _ => false end.

Definition share_mount (v : option string) : bool := String.eqb (default EmptyString v) "true".

(** What the controller reads before it warms up. *)
Definition prepared (namespace : string) (cache : Cache) (claim : Claim) (share : option string)
    (pods : list Pod) (mountNamespace : string) : list event :=
  [ClaimGet namespace (PvcName cache) ▷ inl claim;
   LookupEnv "STORAGE_CLASS_SHARE_MOUNT" ▷ share;
   PodsList namespace EmptyString ▷ inl pods;
   LookupEnv "MOSFS_MOUNT_NAMESPACE" ▷ Some mountNamespace].

Lemma exec_reconcile_uncached Error namespace cache tr r :
  exec (reconcile_uncached Error namespace cache) tr r ->
  (calls is_warm_up tr = [] /\ forall res, r <> Ok (res, None)) \/
  exists claim scName share pods mountNamespace t rw,
    pvc_StorageClassName claim = Some scName /\ used_nodes (PvcName cache) pods <> [] /\
    tr = prepared namespace cache claim share pods mountNamespace ++ t /\
    exec (warmUpAll Error scName (pvc_VolumeName claim)
            (cache_path (share_mount share) scName (pvc_VolumeName claim) (cache_Path cache))
            mountNamespace (share_mount share) cache (used_nodes (PvcName cache) pods)) t rw /\
    (forall res, r = Ok (res, None) -> res = mkResult false 0 /\ rw = Ok tt).
Proof.
  unfold reconcile_uncached, getStorageClassNameAndPVName. intros H.
  apply exec_call_inv in H as ([claim|e] & t & -> & _ & H); [|left; by destruct H as [-> ->]].
  destruct (pvc_StorageClassName claim) as [scName|] eqn:Hsc; [|left; by destruct H as [-> ->]].
  destruct (String.length scName =? 0)%nat; [left; by destruct H as [-> ->]|].
  destruct (String.length (pvc_VolumeName claim) =? 0)%nat; [left; by destruct H as [-> ->]|].
  apply exec_call_inv in H as (share & t' & -> & _ & H).
  apply exec_call_inv in H as ([pods|e] & t'' & -> & _ & H); [|left; by destruct H as [-> ->]].
  cbn [prog_bind_go try mbind prog_bind mret prog_ret] in H.
  destruct (length (used_nodes (PvcName cache) pods) =? 0)%nat eqn:Hl; [left; by destruct H as [-> ->]|].
  apply exec_call_inv in H as (mns & t3 & -> & _ & H).
  cbn [prog_bind_go try mbind prog_bind mret prog_ret] in H.
  destruct (String.length (default EmptyString mns) =? 0)%nat eqn:Hm; [left; by destruct H as [-> ->]|].
  destruct mns as [mns|]; [|done]. right.
  apply exec_bind in H as [(w & t4 & t5 & -> & H1 & H)|(r0 & H1 & Hn & ->)];
    apply exec_try in H1 as (rw & H1 & Hrw).
  - exists claim, scName, share, pods, mns, t4, rw. split_and!; [done|by intros Hnil; rewrite Hnil in Hl| |done|].
    + destruct w; destruct H as [-> _]; by rewrite app_nil_r.
    + intros res Hr. destruct w as [[]|e]; destruct H as [_ H]; rewrite H in Hr; [|done].
      destruct rw; by simplify_eq.
  - exists claim, scName, share, pods, mns, t3, rw. split_and!; [done|by intros Hnil; rewrite Hnil in Hl|done|done|].
    intros res Hr. by destruct r0.
Qed.

(** C29 A reconciliation of a cache without error is the end of the matter for
    one of four reasons: the object is gone, its deletion was sent, it was
    warmed up before, or the command just succeeded in the mount pod of every
    node that uses the claim, in order, and the mark was written after that. *)
Theorem Reconcile_done Error namespace name tr res :
  exec (Reconcile Error namespace name) tr (Ok (res, None)) ->
  res = mkResult false 0 /\
  ((exists e, tr = [CacheGet namespace name ▷ inr e] /\ IsNotFound e = true) \/
   exists cache t, tr = (CacheGet namespace name ▷ inl cache) :: t /\
     ((is_Some (cache_DeletionTimestamp cache) /\ exists d, t = [CacheDelete cache ▷ d] /\
         match d with Some e => IsNotFound e = true | None => True end) \/
      (cache_DeletionTimestamp cache = None /\ Cached cache = true /\ t = []) \/
      (cache_DeletionTimestamp cache = None /\ Cached cache = false /\
       exists claim scName share pods mountNamespace execs,
         pvc_StorageClassName claim = Some scName /\ used_nodes (PvcName cache) pods <> [] /\
         t = prepared namespace cache claim share pods mountNamespace ++ execs ++
               [CacheStatusUpdate (with_status true (cache_Message cache) cache) ▷ None] /\
         Forall2 (warmed scName (pvc_VolumeName claim)
                    (cache_path (share_mount share) scName (pvc_VolumeName claim) (cache_Path cache))
                    mountNamespace (share_mount share))
           (used_nodes (PvcName cache) pods) execs))).
Proof.
  unfold Reconcile. intros H. apply exec_call_inv in H as ([cache|e] & t & -> & _ & H).
  2:{ destruct (IsNotFound e) eqn:He; destruct H as [-> H]; simplify_eq. split; [done|]. left. by exists e. }
  case_bool_decide as Hd.
  { apply exec_call_inv in H as (d & t' & -> & _ & H).
    destruct d as [e|]; [destruct (IsNotFound e) eqn:He|]; destruct H as [-> H]; simplify_eq/=;
      (split; [done|]); right; eexists _, _; (split; [done|]); left; (split; [done|]); eexists; (split; [done|]); done. }
  apply eq_None_not_Some in Hd. destruct (Cached cache) eqn:Hc.
  { destruct H as [-> [= ->]]. split; [done|]. right. eexists _, _. split; [done|]. right. by left. }
  apply exec_reconcile_uncached in H as [[_ Hr]|(claim & sc & share & pods & mns & t' & rw & Hsc & Hu & -> & Hw & Hr)].
  { by destruct (Hr res). }
  destruct (Hr res eq_refl) as [-> ->]. split; [done|]. right. eexists _, _. split; [done|]. right. right.
  apply exec_warmUpAll in Hw as (execs & c & x & -> & [(e & [=] & _)|(_ & Hm & ->)] & _ & Hc').
  destruct (Hc' Hm) as [-> Hf]. split_and!; [done..|]. by exists claim, sc, share, pods, mns, execs.
Qed.


(** Whatever happens, a cache is marked as warmed up only as the last call,
    for an object that was neither deleted nor marked when it was read, and
    after the command succeeded on every node; no command runs for an object
    that is deleted or marked. *)
Theorem Reconcile_marks Error namespace name tr r :
  exec (Reconcile Error namespace name) tr r ->
  calls is_warm_up tr = [] \/
  exists cache claim scName share pods mountNamespace execs c x,
    cache_DeletionTimestamp cache = None /\ Cached cache = false /\ pvc_StorageClassName claim = Some scName /\
    tr = (CacheGet namespace name ▷ inl cache) :: prepared namespace cache claim share pods mountNamespace ++
           execs ++ [CacheStatusUpdate c ▷ x] /\
    Forall (fun e => exists node y, e = (PodExec mountNamespace
              (mount_pod_name (share_mount share) node scName (pvc_VolumeName claim))
              (warm_up_command (cache_path (share_mount share) scName (pvc_VolumeName claim) (cache_Path cache))) ▷ y))
      execs /\
    (Cached c = true ->
       c = with_status true (cache_Message cache) cache /\
       Forall2 (warmed scName (pvc_VolumeName claim)
                  (cache_path (share_mount share) scName (pvc_VolumeName claim) (cache_Path cache))
                  mountNamespace (share_mount share))
         (used_nodes (PvcName cache) pods) execs).
Proof.
  unfold Reconcile. intros H. apply exec_call_inv in H as ([cache|e] & t & -> & _ & H).
  2:{ left. destruct (IsNotFound e); by destruct H as [-> ->]. }
  case_bool_decide as Hd.
  { left. apply exec_call_inv in H as (d & t' & -> & _ & H).
    destruct d as [e|]; [destruct (IsNotFound e)|]; by destruct H as [-> ->]. }
  apply eq_None_not_Some in Hd. destruct (Cached cache) eqn:Hc; [left; by destruct H as [-> ->]|].
  apply exec_reconcile_uncached in H as [[Hn _]|(claim & sc & share & pods & mns & t' & rw & Hsc & _ & -> & Hw & _)].
  { left. exact Hn. }
  right. apply exec_warmUpAll in Hw as (execs & c & x & -> & _ & Hf & Hm).
  by exists cache, claim, sc, share, pods, mns, execs, c, x.
Qed.

(** ** Where the warm-up happens *)

Lemma cache_path_root share scName pvName :
  plain scName = true -> plain pvName = true ->
  cache_path share scName pvName EmptyString =
  if share then PathJoin [PathJoin [PodMountBase; scName]; pvName] else PathJoin [PodMountBase; pvName].
Proof.
  intros Hs Hp. destruct share.
  - rewrite (PathJoin_plain PodMountBase), PathJoin_plain; [done|by apply clean_dir_join|done..].
  - by rewrite PathJoin_plain.
Qed.

Lemma cache_path_sub share scName pvName q :
  q <> EmptyString -> cache_path share scName pvName q = PathJoin [cache_path share scName pvName EmptyString; q].
Proof. intros Hq. unfold cache_path. destruct q; [done|]. simpl. done. Qed.

(** A name twice on the way makes a different path. *)
Lemma PathJoin_twice d e q :
  clean_dir d = true -> plain e = true -> plain q = true ->
  PathJoin [PathJoin [d; e]; q] <> PathJoin [PathJoin [PathJoin [d; e]; e]; q].
Proof.
  intros Hd He Hq. pose proof (clean_dir_join d e Hd He) as Hde.
  rewrite (PathJoin_plain d), (PathJoin_plain (d +:+ "/" +:+ e) e) by done.
  rewrite !PathJoin_plain by (done || by apply clean_dir_join).
  intros Heq%(f_equal String.length). rewrite !slength_app in Heq. simpl in Heq. lia.
Qed.

(** C31 The warm-up finds the mount: for a volume of the class that the node
    service mounts under its unique id, the command runs in the very pod
    [JMount] uses on that node, on its mount path; a path inside the volume is
    warmed up exactly with the shared mount, because without it the directory
    of the volume below the mount path is left out. *)
Theorem warm_up_finds_mount cfg pvName scName tr id q :
  exec (GetUniqueId pvName) tr (Ok id) ->
  (forall g, (PVGet pvName ▷ g) ∈ tr -> exists pv, g = inl pv /\ pv_StorageClassName pv = scName) ->
  plain scName = true -> plain pvName = true -> plain q = true ->
  exists share, (LookupEnv "STORAGE_CLASS_SHARE_MOUNT" ▷ share) ∈ tr /\
    let mountPath := PathJoin [PodMountBase; id] in
    mount_pod_name (share_mount share) (cfg_NodeName cfg) scName pvName = GeneratePodNameByVolumeId cfg id /\
    cache_path (share_mount share) scName pvName EmptyString =
      (if share_mount share then PathJoin [mountPath; pvName] else mountPath) /\
    (cache_path (share_mount share) scName pvName q = PathJoin [PathJoin [mountPath; pvName]; q] <->
     share_mount share = true).
Proof.
  intros H Hpv Hs Hp Hq. assert (q <> EmptyString) as Hq0 by (by intros ->).
  apply exec_GetUniqueId_ok in H as (v & [(Hv & -> & ->)|(-> & g & -> & Hg)]).
  - exists v. split; [set_solver|].
    assert (share_mount v = false) as -> by (unfold share_mount; apply String.eqb_neq; destruct v; naive_solver).
    cbv zeta. rewrite (cache_path_sub _ _ _ q), cache_path_root by done. split_and!; [done|done|].
    split; [|done]. intros Heq. by apply PathJoin_twice in Heq.
  - destruct (Hpv g) as (pv & -> & Hsc); [set_solver|]. exists (Some "true"). split; [set_solver|].
    rewrite Hsc in Hg. destruct (String.eqb_spec scName EmptyString) as [->|_]; [done|]. subst id.
    cbv zeta. rewrite (cache_path_sub _ _ _ q), cache_path_root by done. done.
Qed.
