(* ===== verification/DeepCopy.v ===== *)
(** * Deep copies of the cache objects

    [pkg/warmup/api/v1alpha1/zz_generated.deepcopy.go]: the controller's
    cache of objects hands out copies of what it keeps.  Pointers, maps and
    slices are locations of a heap, so that a copy that shares one with its
    original is visible.  The copies of [ObjectMeta] and [ListMeta] are those
    of the API machinery ([zz_generated.deepcopy.go] of its package v1). *)
From S2P Require Import Prelude.
From stdpp Require Import options.

(** ** The heap *)

Notation loc := positive (only parsing).

Record OwnerReference := mkOwner {
  or_APIVersion : string; or_Kind : string; or_Name : string; or_UID : string;
  or_Controller : option loc;
  or_BlockOwnerDeletion : option loc;
}.

Record ManagedFieldsEntry := mkManaged {
  mf_Manager : string; mf_Operation : string; mf_APIVersion : string;
  mf_Time : option loc;
  mf_FieldsType : string;
  mf_FieldsV1 : option loc;
  mf_Subresource : string;
}.

(** The fields of an [ObjectMeta] that an assignment copies. *)
Record PlainMeta := mkPlain {
  pm_Name : string; pm_GenerateName : string; pm_Namespace : string; pm_SelfLink : string; pm_UID : string;
  pm_ResourceVersion : string; pm_Generation : Z; pm_CreationTimestamp : Z; pm_ClusterName : string;
}.

Record ObjectMeta := mkObjectMeta {
  om_plain : PlainMeta;
  om_DeletionTimestamp : option loc;
  om_DeletionGracePeriodSeconds : option loc;
  om_Labels : option loc;
  om_Annotations : option loc;
  om_OwnerReferences : option loc;
  om_Finalizers : option loc;
  om_ManagedFields : option loc;
}.

Record ListMeta := mkListMeta {
  lm_SelfLink : string; lm_ResourceVersion : string; lm_Continue : string;
  lm_RemainingItemCount : option loc;
}.

Record TypeMeta := mkTypeMeta { tm_Kind : string; tm_APIVersion : string }.

Record CacheSpec := mkCacheSpec { cs_PvcName : string; cs_Path : string }.
Record CacheStatus := mkCacheStatus { cs_Cached : bool; cs_Message : string }.

Record Cache := mkCache {
  c_TypeMeta : TypeMeta;
  c_ObjectMeta : ObjectMeta;
  c_Spec : CacheSpec;
  c_Status : CacheStatus;
}.

Record CacheList := mkCacheList {
  cl_TypeMeta : TypeMeta;
  cl_ListMeta : ListMeta;
  cl_Items : option loc;
}.

(** What a location holds: a variable, a map, or the elements of a slice.
    [CFieldsV1] is the structure around the slice of bytes [Raw]. *)
Inductive cell :=
| CBool (b : bool)
| CInt64 (n : Z)
| CTime (t : Z)
| CMap (m : gmap string string)
| CStrings (l : list string)
| CBytes (raw : string)
| CFieldsV1 (raw : option loc)
| COwners (l : list OwnerReference)
| CManaged (l : list ManagedFieldsEntry)
| CItems (l : list Cache)
| CCache (c : Cache)
| CCacheList (l : CacheList)
| CCacheSpec (s : CacheSpec)
| CCacheStatus (s : CacheStatus).

Notation heap := (gmap positive cell).

(** Values of type [T] in cells. *)
Class Stored (T : Type) := {
  inj_cell : T -> cell;
  proj_cell : cell -> option T;
  proj_inj x : proj_cell (inj_cell x) = Some x;
}.

#[export, refine] Instance Stored_bool : Stored bool :=
  { inj_cell := CBool; proj_cell c := match c with CBool x => Some x | _ => None end }.
Proof. done. Defined.
Definition Stored_int64 : Stored Z.
Proof. refine {| inj_cell := CInt64; proj_cell c := match c with CInt64 x => Some x | _ => None end |}. done. Defined.
Definition Stored_time : Stored Z.
Proof. refine {| inj_cell := CTime; proj_cell c := match c with CTime x => Some x | _ => None end |}. done. Defined.
#[export, refine] Instance Stored_map : Stored (gmap string string) :=
  { inj_cell := CMap; proj_cell c := match c with CMap x => Some x | _ => None end }.
Proof. done. Defined.
#[export, refine] Instance Stored_strings : Stored (list string) :=
  { inj_cell := CStrings; proj_cell c := match c with CStrings x => Some x | _ => None end }.
Proof. done. Defined.
#[export, refine] Instance Stored_bytes : Stored string :=
  { inj_cell := CBytes; proj_cell c := match c with CBytes x => Some x | _ => None end }.
Proof. done. Defined.
#[export, refine] Instance Stored_fields : Stored (option loc) :=
  { inj_cell := CFieldsV1; proj_cell c := match c with CFieldsV1 x => Some x | _ => None end }.
Proof. done. Defined.
#[export, refine] Instance Stored_owners : Stored (list OwnerReference) :=
  { inj_cell := COwners; proj_cell c := match c with COwners x => Some x | _ => None end }.
Proof. done. Defined.
#[export, refine] Instance Stored_managed : Stored (list ManagedFieldsEntry) :=
  { inj_cell := CManaged; proj_cell c := match c with CManaged x => Some x | _ => None end }.
Proof. done. Defined.
#[export, refine] Instance Stored_items : Stored (list Cache) :=
  { inj_cell := CItems; proj_cell c := match c with CItems x => Some x | _ => None end }.
Proof. done. Defined.
#[export, refine] Instance Stored_cache : Stored Cache :=
  { inj_cell := CCache; proj_cell c := match c with CCache x => Some x | _ => None end }.
Proof. done. Defined.
#[export, refine] Instance Stored_cache_list : Stored CacheList :=
  { inj_cell := CCacheList; proj_cell c := match c with CCacheList x => Some x | _ => None end }.
Proof. done. Defined.
#[export, refine] Instance Stored_spec : Stored CacheSpec :=
  { inj_cell := CCacheSpec; proj_cell c := match c with CCacheSpec x => Some x | _ => None end }.
Proof. done. Defined.
#[export, refine] Instance Stored_status : Stored CacheStatus :=
  { inj_cell := CCacheStatus; proj_cell c := match c with CCacheStatus x => Some x | _ => None end }.
Proof. done. Defined.

(** Code over the heap; [None] is a dereference that fails. *)
Definition M (A : Type) : Type := heap -> option (A * heap).
#[export] Instance M_ret : MRet M := fun _ a h => Some (a, h).
#[export] Instance M_bind : MBind M := fun _ _ f m h => m h ≫= fun '(a, h') => f a h'.

Definition load `{Stored T} (l : loc) : M T := fun h => (fun x => (x, h)) <$> (h !! l ≫= proj_cell).
Definition alloc `{Stored T} (x : T) : M loc := fun h => let l := fresh (dom h) in Some (l, <[l := inj_cell x]> h).

(** A field that is not nil is copied: [p] points to what is in the field. *)
Definition copy_pointer `{Stored T} (copy : T -> M T) (p : option loc) : M (option loc) :=
  match p with
  | None => mret None
  | Some l => x ← load l; y ← copy x; l' ← alloc y; mret (Some l')
  end.

(** The loop that copies the elements of a slice. *)
Fixpoint copy_each {A} (copy : A -> M A) (l : list A) : M (list A) :=
  match l with
  | [] => mret []
  | x :: l' => y ← copy x; r ← copy_each copy l'; mret (y :: r)
  end.

(** ** The API machinery *)

Definition OwnerReference_DeepCopyInto (o : OwnerReference) : M OwnerReference :=
  c ← copy_pointer (T := bool) mret (or_Controller o);
  b ← copy_pointer (T := bool) mret (or_BlockOwnerDeletion o);
  mret (mkOwner (or_APIVersion o) (or_Kind o) (or_Name o) (or_UID o) c b).

(** [FieldsV1.DeepCopyInto] copies the bytes. *)
Definition FieldsV1_DeepCopyInto : option loc -> M (option loc) := copy_pointer (T := string) mret.

Definition ManagedFieldsEntry_DeepCopyInto (e : ManagedFieldsEntry) : M ManagedFieldsEntry :=
  t ← copy_pointer (H := Stored_time) mret (mf_Time e);
  f ← copy_pointer (T := option loc) FieldsV1_DeepCopyInto (mf_FieldsV1 e);
  mret (mkManaged (mf_Manager e) (mf_Operation e) (mf_APIVersion e) t (mf_FieldsType e) f (mf_Subresource e)).

Definition ObjectMeta_DeepCopyInto (m : ObjectMeta) : M ObjectMeta :=
  dt ← copy_pointer (H := Stored_time) mret (om_DeletionTimestamp m);
  gp ← copy_pointer (H := Stored_int64) mret (om_DeletionGracePeriodSeconds m);
  labels ← copy_pointer (T := gmap string string) mret (om_Labels m);
  annotations ← copy_pointer (T := gmap string string) mret (om_Annotations m);
  owners ← copy_pointer (copy_each OwnerReference_DeepCopyInto) (om_OwnerReferences m);
  finalizers ← copy_pointer (T := list string) mret (om_Finalizers m);
  managed ← copy_pointer (copy_each ManagedFieldsEntry_DeepCopyInto) (om_ManagedFields m);
  mret (mkObjectMeta (om_plain m) dt gp labels annotations owners finalizers managed).

Definition ListMeta_DeepCopyInto (m : ListMeta) : M ListMeta :=
  c ← copy_pointer (H := Stored_int64) mret (lm_RemainingItemCount m);
  mret (mkListMeta (lm_SelfLink m) (lm_ResourceVersion m) (lm_Continue m) c).

(** ** The cache objects *)

Definition Cache_DeepCopyInto (in_ : Cache) : M Cache :=
  m ← ObjectMeta_DeepCopyInto (c_ObjectMeta in_);
  mret (mkCache (c_TypeMeta in_) m (c_Spec in_) (c_Status in_)).

Definition Cache_DeepCopy (p : option loc) : M (option loc) :=
  match p with
  | None => mret None
  | Some l => in_ ← load l; out ← Cache_DeepCopyInto in_; l' ← alloc out; mret (Some l')
  end.

Definition CacheList_DeepCopyInto (in_ : CacheList) : M CacheList :=
  m ← ListMeta_DeepCopyInto (cl_ListMeta in_);
  items ← copy_pointer (copy_each Cache_DeepCopyInto) (cl_Items in_);
  mret (mkCacheList (cl_TypeMeta in_) m items).

Definition CacheList_DeepCopy (p : option loc) : M (option loc) :=
  match p with
  | None => mret None
  | Some l => in_ ← load l; out ← CacheList_DeepCopyInto in_; l' ← alloc out; mret (Some l')
  end.

Definition CacheSpec_DeepCopyInto (in_ : CacheSpec) : M CacheSpec := mret in_.
Definition CacheSpec_DeepCopy : option loc -> M (option loc) := copy_pointer CacheSpec_DeepCopyInto.
Definition CacheStatus_DeepCopyInto (in_ : CacheStatus) : M CacheStatus := mret in_.
Definition CacheStatus_DeepCopy : option loc -> M (option loc) := copy_pointer CacheStatus_DeepCopyInto.

(** A [runtime.Object]: a pointer with its type; [None] is the nil interface. *)
Inductive Object := ObjCache (p : option loc) | ObjCacheList (p : option loc).

Definition Cache_DeepCopyObject (p : option loc) : M (option Object) :=
  c ← Cache_DeepCopy p;
  mret (match c with Some l => Some (ObjCache (Some l)) | None => None end).

Definition CacheList_DeepCopyObject (p : option loc) : M (option Object) :=
  c ← CacheList_DeepCopy p;
  mret (match c with Some l => Some (ObjCacheList (Some l)) | None => None end).

(** The call through the interface. *)
Definition DeepCopyObject (o : Object) : M (option Object) :=
  match o with ObjCache p => Cache_DeepCopyObject p | ObjCacheList p => CacheList_DeepCopyObject p end.

(** ** What an object shows *)

(** [see h a]: the value of [a] with everything it points to in [h], if
    every pointer can be followed.  [reach h a]: the locations it is read
    from. *)
Definition see_plain {A} (h : heap) (a : A) : option A := Some a.
Definition reach_plain {A} (h : heap) (a : A) : gset loc := ∅.

Definition see_pointer `{Stored T} {V} (see : heap -> T -> option V) (h : heap) (p : option loc) : option (option V) :=
  match p with
  | None => Some None
  | Some l => Some <$> ((h !! l ≫= proj_cell) ≫= see h)
  end.
Definition reach_pointer `{Stored T} (reach : heap -> T -> gset loc) (h : heap) (p : option loc) : gset loc :=
  match p with
  | None => ∅
  | Some l => {[l]} ∪ match h !! l ≫= proj_cell with Some x => reach h x | None => ∅ end
  end.

Definition see_each {A V} (see : heap -> A -> option V) (h : heap) (l : list A) : option (list V) := mapM (see h) l.
Definition reach_each {A} (reach : heap -> A -> gset loc) (h : heap) (l : list A) : gset loc := ⋃ (map (reach h) l).

Definition copy_pair {A B} (c1 : A -> M A) (c2 : B -> M B) (p : A * B) : M (A * B) :=
  x ← c1 (fst p); y ← c2 (snd p); mret (x, y).
Definition see_pair {A B V W} (s1 : heap -> A -> option V) (s2 : heap -> B -> option W) (h : heap) (p : A * B) :
  option (V * W) := v ← s1 h (fst p); w ← s2 h (snd p); Some (v, w).
Definition reach_pair {A B} (r1 : heap -> A -> gset loc) (r2 : heap -> B -> gset loc) (h : heap) (p : A * B) : gset loc :=
  r1 h (fst p) ∪ r2 h (snd p).

(** A copy shows what the original shows, at locations that were not there. *)
Class Copies {A V} (copy : A -> M A) (see : heap -> A -> option V) (reach : heap -> A -> gset loc) : Prop := {
  see_local h h' a : (forall l, l ∈ reach h a -> h' !! l = h !! l) -> see h' a = see h a /\ reach h' a = reach h a;
  see_reach h a v : see h a = Some v -> reach h a ⊆ dom h;
  copy_see h a v : see h a = Some v ->
    exists a' h', copy a h = Some (a', h') /\ h ⊆ h' /\ see h' a' = Some v /\ reach h' a' ## dom h;
}.

Section copies.
Context {A V} {copy : A -> M A} {see : heap -> A -> option V} {reach : heap -> A -> gset loc}.
Context {Hc : Copies copy see reach}.

Lemma see_grow h h' a v : h ⊆ h' -> see h a = Some v -> see h' a = Some v /\ reach h' a = reach h a.
Proof using Hc.
  intros Hh Hs. rewrite <-Hs. apply see_local. intros l Hl. apply (see_reach _ _ _ Hs) in Hl.
  apply elem_of_dom in Hl as [c Hl]. rewrite Hl. by eapply lookup_weaken.
Qed.
End copies.

Lemma M_bind_ok {A B} (m : M A) (f : A -> M B) h a h' : m h = Some (a, h') -> (m ≫= f) h = f a h'.
Proof. intros H. unfold mbind, M_bind. by rewrite H. Qed.

Lemma load_ok `{Stored T} h l c x : h !! l = Some c -> proj_cell c = Some x -> load l h = Some (x, h).
Proof. intros Hl Hx. unfold load. rewrite Hl. simpl. by rewrite Hx. Qed.

Lemma dom_grow (h h' : heap) : h ⊆ h' -> dom h ⊆ dom h'.
Proof. apply subseteq_dom. Qed.

#[export] Instance Copies_plain {A} : Copies (A := A) mret see_plain reach_plain.
Proof.
  split.
  - done.
  - intros. unfold reach_plain. set_solver.
  - intros h a v [= ->]. exists v, h. split_and!; [done..|]. unfold reach_plain. set_solver.
Qed.

#[export] Instance Copies_pointer `{HT : Stored T} {V} (copy : T -> M T) (see : heap -> T -> option V) reach :
  Copies copy see reach -> Copies (copy_pointer copy) (see_pointer see) (reach_pointer reach).
Proof.
  intros Hc. split.
  - intros h h' [l|]; [|done]. simpl. intros Hl. rewrite (Hl l) by set_solver.
    destruct (h !! l) as [c|]; [|done]. simpl in *. destruct (proj_cell c) as [x|]; [|done]. simpl in *.
    destruct (see_local h h' x) as [-> ->]; [|done]. intros l' Hl'. apply Hl. set_solver.
  - intros h [l|] v; simpl; [|set_solver]. destruct (h !! l) as [c|] eqn:Hl; [|done]. simpl.
    destruct (proj_cell c) as [x|] eqn:Hx; [|done]. simpl. intros Hv. destruct (see h x) as [w|] eqn:Hw; [|done].
    apply see_reach in Hw. apply elem_of_dom_2 in Hl. set_solver.
  - intros h [l|] v; simpl; [|by intros [= <-]; exists None, h; split_and!; set_solver].
    destruct (h !! l) as [c|] eqn:Hl; [|done]. simpl.
    destruct (proj_cell c) as [x|] eqn:Hx; [|done]. simpl. destruct (see h x) as [w|] eqn:Hw; [|done].
    intros [= <-]. destruct (copy_see _ _ _ Hw) as (y & h1 & Hy & Hh & Hs & Hr).
    rewrite (M_bind_ok _ _ _ _ _ (load_ok _ _ _ _ Hl Hx)), (M_bind_ok _ _ _ _ _ Hy).
    set (l' := fresh (dom h1)). assert (l' ∉ dom h1) as Hf by apply is_fresh.
    assert (h1 ⊆ <[l' := inj_cell y]> h1) as Hh' by (by apply insert_subseteq, not_elem_of_dom).
    exists (Some l'), (<[l' := inj_cell y]> h1). split; [done|]. destruct (see_grow _ _ _ _ Hh' Hs) as [Hs' Hr'].
    split; [by etrans|]. simpl. rewrite lookup_insert_eq. simpl. rewrite proj_inj. simpl. rewrite Hs', Hr'. split; [done|].
    pose proof (dom_grow _ _ Hh). set_solver.
Qed.

#[export] Instance Copies_pair {A B V W} (c1 : A -> M A) (c2 : B -> M B) (s1 : heap -> A -> option V)
    (s2 : heap -> B -> option W) r1 r2 :
  Copies c1 s1 r1 -> Copies c2 s2 r2 -> Copies (copy_pair c1 c2) (see_pair s1 s2) (reach_pair r1 r2).
Proof.
  intros H1 H2. unfold see_pair, reach_pair. split.
  - intros h h' [a b] Hl. simpl in *. destruct (see_local (Copies := H1) h h' a) as [-> ->]; [set_solver|].
    destruct (see_local (Copies := H2) h h' b) as [-> ->]; [set_solver|]. done.
  - intros h [a b] v. simpl. destruct (s1 h a) eqn:Ha; [|done]. destruct (s2 h b) eqn:Hb; [|done]. intros _.
    apply (see_reach (Copies := H1)) in Ha. apply (see_reach (Copies := H2)) in Hb. set_solver.
  - intros h [a b] v. simpl. destruct (s1 h a) as [va|] eqn:Ha; [|done]. destruct (s2 h b) as [vb|] eqn:Hb; [|done].
    intros [= <-]. destruct (copy_see (Copies := H1) _ _ _ Ha) as (a' & h1 & Hc1 & Hh1 & Hs1 & Hr1).
    destruct (see_grow (Hc := H2) _ _ _ _ Hh1 Hb) as [Hb' _].
    destruct (copy_see (Copies := H2) _ _ _ Hb') as (b' & h2 & Hc2 & Hh2 & Hs2 & Hr2).
    destruct (see_grow (Hc := H1) _ _ _ _ Hh2 Hs1) as [Hs1' Hr1'].
    exists (a', b'), h2. unfold copy_pair. simpl. rewrite (M_bind_ok _ _ _ _ _ Hc1), (M_bind_ok _ _ _ _ _ Hc2).
    rewrite Hs1', Hs2. simpl. split_and!; [done|by etrans|done|]. pose proof (dom_grow _ _ Hh1). rewrite Hr1'. set_solver.
Qed.

#[export] Instance Copies_each {A V} (copy : A -> M A) (see : heap -> A -> option V) reach :
  Copies copy see reach -> Copies (copy_each copy) (see_each see) (reach_each reach).
Proof.
  intros Hc. unfold see_each, reach_each. split.
  - intros h h' l. induction l as [|x l IH]; simpl; [done|]. intros Hl.
    destruct (see_local h h' x) as [-> ->]; [set_solver|]. destruct IH as [-> ->]; [set_solver|]. done.
  - intros h l. induction l as [|x l IH]; simpl; intros v; [set_solver|].
    destruct (see h x) as [vx|] eqn:Hx; [|done]. simpl. destruct (mapM (see h) l) as [vs|] eqn:Hl; [|done]. intros _.
    apply see_reach in Hx. specialize (IH _ eq_refl). set_solver.
  - intros h l. revert h. induction l as [|x l IH]; simpl; intros h v.
    + intros [= <-]. exists [], h. split_and!; [done..|set_solver].
    + destruct (see h x) as [vx|] eqn:Hx; [|done]. simpl. destruct (mapM (see h) l) as [vs|] eqn:Hl; [|done].
      intros [= <-]. destruct (copy_see _ _ _ Hx) as (x' & h1 & Hc1 & Hh1 & Hs1 & Hr1).
      assert (mapM (see h1) l = Some vs) as Hl1.
      { apply mapM_Some. apply mapM_Some in Hl. eapply Forall2_impl; [exact Hl|]. intros a b Hab. by eapply see_grow in Hab as [? _]. }
      destruct (IH _ _ Hl1) as (l' & h2 & Hc2 & Hh2 & Hs2 & Hr2).
      destruct (see_grow _ _ _ _ Hh2 Hs1) as [Hs1' Hr1'].
      exists (x' :: l'), h2. rewrite (M_bind_ok _ _ _ _ _ Hc1), (M_bind_ok _ _ _ _ _ Hc2). simpl. rewrite Hs1'. simpl. rewrite Hs2. simpl.
      split_and!; [done|by etrans|done|]. pose proof (dom_grow _ _ Hh1). rewrite Hr1'. set_solver.
Qed.

(** A record whose pointers are [parts] and whose other fields are seen with
    the pointers set to nil. *)
Section record.
Context {R A V : Type} (parts : R -> A) (build : R -> A -> R) (nil_ : A).

Definition see_record (see : heap -> A -> option V) (h : heap) (r : R) : option (R * V) :=
  pair (build r nil_) <$> see h (parts r).
Definition reach_record (reach : heap -> A -> gset loc) (h : heap) (r : R) : gset loc := reach h (parts r).

Lemma Copies_record (copyR : R -> M R) (copy : A -> M A) see reach :
  Copies copy see reach ->
  (forall r a, parts (build r a) = a) -> (forall r a b, build (build r a) b = build r b) ->
  (forall r h, copyR r h = (a ← copy (parts r); mret (build r a)) h) ->
  Copies copyR (see_record see) (reach_record reach).
Proof.
  intros Hc Hp Hb HR. unfold see_record, reach_record. split.
  - intros h h' r Hl. by destruct (see_local h h' (parts r) Hl) as [-> ->].
  - intros h r v. destruct (see h (parts r)) eqn:Hs; [|done]. intros _. by eapply see_reach.
  - intros h r v. destruct (see h (parts r)) as [w|] eqn:Hs; [|done]. intros [= <-].
    destruct (copy_see _ _ _ Hs) as (a' & h' & Hc' & Hh & Hs' & Hr). exists (build r a'), h'.
    rewrite HR, (M_bind_ok _ _ _ _ _ Hc'). simpl. rewrite Hp, Hb, Hs'. done.
Qed.
End record.

(** *** The records *)

(** The steps of a copy one by one. *)
Ltac follow_steps :=
  intros; unfold copy_pair, mbind, M_bind; simpl;
  repeat (match goal with
          | |- context [copy_pointer ?c ?p ?h] => destruct (copy_pointer c p h) as [[? ?]|]
          | |- context [OwnerReference_DeepCopyInto ?o ?h] => destruct (OwnerReference_DeepCopyInto o h) as [[? ?]|]
          | |- context [ObjectMeta_DeepCopyInto ?m ?h] => destruct (ObjectMeta_DeepCopyInto m h) as [[? ?]|]
          | |- context [ListMeta_DeepCopyInto ?m ?h] => destruct (ListMeta_DeepCopyInto m h) as [[? ?]|]
          end; simpl); reflexivity.

Definition owner_parts (o : OwnerReference) := (or_Controller o, or_BlockOwnerDeletion o).
Definition owner_build (o : OwnerReference) (a : option loc * option loc) : OwnerReference :=
  mkOwner (or_APIVersion o) (or_Kind o) (or_Name o) (or_UID o) (fst a) (snd a).
Definition see_owner := see_record owner_parts owner_build (None, None)
  (see_pair (see_pointer (T := bool) see_plain) (see_pointer (T := bool) see_plain)).
Definition reach_owner := reach_record owner_parts
  (reach_pair (reach_pointer (T := bool) reach_plain) (reach_pointer (T := bool) reach_plain)).

#[export] Instance Copies_owner : Copies OwnerReference_DeepCopyInto see_owner reach_owner.
Proof.
  refine (Copies_record _ _ _ _ (copy_pair (copy_pointer mret) (copy_pointer mret)) _ _ _ _ _ _);
    [by intros r []|done|]. unfold OwnerReference_DeepCopyInto. follow_steps.
Qed.

Definition managed_parts (e : ManagedFieldsEntry) := (mf_Time e, mf_FieldsV1 e).
Definition managed_build (e : ManagedFieldsEntry) (a : option loc * option loc) : ManagedFieldsEntry :=
  mkManaged (mf_Manager e) (mf_Operation e) (mf_APIVersion e) (fst a) (mf_FieldsType e) (snd a) (mf_Subresource e).
Definition see_managed := see_record managed_parts managed_build (None, None)
  (see_pair (see_pointer (H := Stored_time) see_plain) (see_pointer (T := option loc) (see_pointer (T := string) see_plain))).
Definition reach_managed := reach_record managed_parts
  (reach_pair (reach_pointer (H := Stored_time) reach_plain)
     (reach_pointer (T := option loc) (reach_pointer (T := string) reach_plain))).

#[export] Instance Copies_managed : Copies ManagedFieldsEntry_DeepCopyInto see_managed reach_managed.
Proof.
  refine (Copies_record _ _ _ _ (copy_pair (copy_pointer (H := Stored_time) mret) (copy_pointer FieldsV1_DeepCopyInto)) _ _ _ _ _ _);
    [by intros r []|done|]. unfold ManagedFieldsEntry_DeepCopyInto. follow_steps.
Qed.

Definition meta_parts (m : ObjectMeta) :=
  (om_DeletionTimestamp m, (om_DeletionGracePeriodSeconds m, (om_Labels m, (om_Annotations m,
   (om_OwnerReferences m, (om_Finalizers m, om_ManagedFields m)))))).
Definition meta_build (m : ObjectMeta)
    (a : option loc * (option loc * (option loc * (option loc * (option loc * (option loc * option loc)))))) : ObjectMeta :=
  let '(dt, (gp, (labels, (annotations, (owners, (finalizers, managed)))))) := a in
  mkObjectMeta (om_plain m) dt gp labels annotations owners finalizers managed.
Definition see_meta := see_record meta_parts meta_build (None, (None, (None, (None, (None, (None, None))))))
  (see_pair (see_pointer (H := Stored_time) see_plain)
  (see_pair (see_pointer (H := Stored_int64) see_plain)
  (see_pair (see_pointer (T := gmap string string) see_plain)
  (see_pair (see_pointer (T := gmap string string) see_plain)
  (see_pair (see_pointer (see_each see_owner))
  (see_pair (see_pointer (T := list string) see_plain)
            (see_pointer (see_each see_managed)))))))).
Definition reach_meta := reach_record meta_parts
  (reach_pair (reach_pointer (H := Stored_time) reach_plain)
  (reach_pair (reach_pointer (H := Stored_int64) reach_plain)
  (reach_pair (reach_pointer (T := gmap string string) reach_plain)
  (reach_pair (reach_pointer (T := gmap string string) reach_plain)
  (reach_pair (reach_pointer (reach_each reach_owner))
  (reach_pair (reach_pointer (T := list string) reach_plain)
              (reach_pointer (reach_each reach_managed)))))))).

#[export] Instance Copies_meta : Copies ObjectMeta_DeepCopyInto see_meta reach_meta.
Proof.
  refine (Copies_record _ _ _ _
    (copy_pair (copy_pointer (H := Stored_time) mret) (copy_pair (copy_pointer (H := Stored_int64) mret)
    (copy_pair (copy_pointer mret) (copy_pair (copy_pointer mret)
    (copy_pair (copy_pointer (copy_each OwnerReference_DeepCopyInto)) (copy_pair (copy_pointer mret)
    (copy_pointer (copy_each ManagedFieldsEntry_DeepCopyInto)))))))) _ _ _ _ _ _);
    [by intros r (?&?&?&?&?&?&?)|by intros r (?&?&?&?&?&?&?) (?&?&?&?&?&?&?)|].
  unfold ObjectMeta_DeepCopyInto. follow_steps.
Qed.

Definition listmeta_build (m : ListMeta) (c : option loc) : ListMeta :=
  mkListMeta (lm_SelfLink m) (lm_ResourceVersion m) (lm_Continue m) c.
Definition see_listmeta := see_record lm_RemainingItemCount listmeta_build None (see_pointer (H := Stored_int64) see_plain).
Definition reach_listmeta := reach_record lm_RemainingItemCount (reach_pointer (H := Stored_int64) reach_plain).

#[export] Instance Copies_listmeta : Copies ListMeta_DeepCopyInto see_listmeta reach_listmeta.
Proof. refine (Copies_record _ _ _ _ (copy_pointer (H := Stored_int64) mret) _ _ _ _ _ _); done. Qed.

Definition no_meta : ObjectMeta :=
  mkObjectMeta (mkPlain EmptyString EmptyString EmptyString EmptyString EmptyString EmptyString 0 0 EmptyString)
    None None None None None None None.
Definition cache_build (c : Cache) (m : ObjectMeta) : Cache := mkCache (c_TypeMeta c) m (c_Spec c) (c_Status c).
Definition see_cache := see_record c_ObjectMeta cache_build no_meta see_meta.
Definition reach_cache := reach_record c_ObjectMeta reach_meta.

#[export] Instance Copies_cache : Copies Cache_DeepCopyInto see_cache reach_cache.
Proof. refine (Copies_record _ _ _ _ ObjectMeta_DeepCopyInto _ _ _ _ _ _); done. Qed.

Definition cache_list_parts (l : CacheList) := (cl_ListMeta l, cl_Items l).
Definition cache_list_build (l : CacheList) (a : ListMeta * option loc) : CacheList :=
  mkCacheList (cl_TypeMeta l) (fst a) (snd a).
Definition see_cache_list := see_record cache_list_parts cache_list_build
  (mkListMeta EmptyString EmptyString EmptyString None, None) (see_pair see_listmeta (see_pointer (see_each see_cache))).
Definition reach_cache_list := reach_record cache_list_parts
  (reach_pair reach_listmeta (reach_pointer (reach_each reach_cache))).

#[export] Instance Copies_cache_list : Copies CacheList_DeepCopyInto see_cache_list reach_cache_list.
Proof.
  refine (Copies_record _ _ _ _ (copy_pair ListMeta_DeepCopyInto (copy_pointer (copy_each Cache_DeepCopyInto))) _ _ _ _ _ _);
    [by intros r []|done|]. unfold CacheList_DeepCopyInto. follow_steps.
Qed.

(** ** Objects *)

Definition see_object (h : heap) (o : Object) :=
  match o with
  | ObjCache (Some l) => inl <$> see_pointer see_cache h (Some l)
  | ObjCacheList (Some l) => inr <$> see_pointer see_cache_list h (Some l)
  | _ => None
  end.
Definition reach_object (h : heap) (o : Object) : gset loc :=
  match o with
  | ObjCache p => reach_pointer reach_cache h p
  | ObjCacheList p => reach_pointer reach_cache_list h p
  end.

(** An object that is not nil. *)
Lemma DeepCopyObject_see h o v :
  see_object h o = Some v ->
  exists o' h', DeepCopyObject o h = Some (Some o', h') /\ h ⊆ h' /\ see_object h' o' = Some v /\ reach_object h' o' ## dom h.
Proof.
  destruct o as [[l|]|[l|]]; [|done| |done]; unfold see_object, reach_object; intros H.
  - destruct (see_pointer see_cache h (Some l)) as [w|] eqn:Hw; [|done]. injection H as <-.
    destruct (copy_see (Copies := Copies_pointer _ _ _ Copies_cache) _ _ _ Hw) as (p' & h' & Hc & Hh & Hs & Hr).
    unfold DeepCopyObject, Cache_DeepCopyObject. change (Cache_DeepCopy (Some l)) with (copy_pointer Cache_DeepCopyInto (Some l)).
    rewrite (M_bind_ok _ _ _ _ _ Hc). destruct p' as [l'|].
    + exists (ObjCache (Some l')), h'. by rewrite Hs.
    + simpl in Hs, Hw. destruct (_ ≫= _) in Hw; simplify_eq.
  - destruct (see_pointer see_cache_list h (Some l)) as [w|] eqn:Hw; [|done]. injection H as <-.
    destruct (copy_see (Copies := Copies_pointer _ _ _ Copies_cache_list) _ _ _ Hw) as (p' & h' & Hc & Hh & Hs & Hr).
    unfold DeepCopyObject, CacheList_DeepCopyObject.
    change (CacheList_DeepCopy (Some l)) with (copy_pointer CacheList_DeepCopyInto (Some l)).
    rewrite (M_bind_ok _ _ _ _ _ Hc). destruct p' as [l'|].
    + exists (ObjCacheList (Some l')), h'. by rewrite Hs.
    + simpl in Hs, Hw. destruct (_ ≫= _) in Hw; simplify_eq.
Qed.

Lemma object_local h h' o : (forall l, l ∈ reach_object h o -> h' !! l = h !! l) -> see_object h' o = see_object h o.
Proof.
  destruct o as [[l|]|[l|]]; [|done| |done]; unfold see_object, reach_object; intros H.
  - by destruct (see_local (Copies := Copies_pointer _ _ _ Copies_cache) h h' (Some l) H) as [-> _].
  - by destruct (see_local (Copies := Copies_pointer _ _ _ Copies_cache_list) h h' (Some l) H) as [-> _].
Qed.

Lemma object_reach h o v : see_object h o = Some v -> reach_object h o ⊆ dom h.
Proof.
  destruct o as [[l|]|[l|]]; [|done| |done]; unfold see_object, reach_object; intros H.
  - destruct (see_pointer see_cache h (Some l)) as [w|] eqn:Hw; [|done].
    by apply (see_reach (Copies := Copies_pointer _ _ _ Copies_cache)) in Hw.
  - destruct (see_pointer see_cache_list h (Some l)) as [w|] eqn:Hw; [|done].
    by apply (see_reach (Copies := Copies_pointer _ _ _ Copies_cache_list)) in Hw.
Qed.

(** C40 A deep copy of a cache object or of a list of them shows what its
    original shows and shares no pointer, map or slice with it: whatever is
    then written through the copy leaves the original as it was, and
    whatever is written elsewhere leaves the copy as it was. *)
Theorem DeepCopyObject_independent h o v :
  see_object h o = Some v ->
  exists o' h', DeepCopyObject o h = Some (Some o', h') /\ see_object h' o' = Some v /\
    (forall h2, (forall l, l ∉ reach_object h' o' -> h2 !! l = h' !! l) -> see_object h2 o = Some v) /\
    (forall h2, (forall l, l ∈ reach_object h' o' -> h2 !! l = h' !! l) -> see_object h2 o' = Some v).
Proof.
  intros H. destruct (DeepCopyObject_see _ _ _ H) as (o' & h' & Hc & Hh & Hs & Hr). exists o', h'.
  split_and!; [done..| |].
  - intros h2 H2. rewrite <-H. apply object_local. intros l Hl. apply (object_reach _ _ _ H) in Hl as Hd.
    rewrite H2 by set_solver. apply elem_of_dom in Hd as [c Hd]. rewrite Hd. by eapply lookup_weaken.
  - intros h2 H2. rewrite <-Hs. by apply object_local.
Qed.

(** A nil pointer gives the nil interface, not an object with a nil pointer. *)
Lemma DeepCopyObject_nil h : DeepCopyObject (ObjCache None) h = Some (None, h) /\ DeepCopyObject (ObjCacheList None) h = Some (None, h).
Proof. done. Qed.
