(* ===== verification/Sim.v ===== *)
(** * A simulated node

    An executable environment for the programs of the driver: an API server,
    a file system and mount table, a clock and the state of the process.  It
    is the concrete instance at which the theorems that quantify over the
    environment are applied to show that their hypotheses can hold, and it
    fulfils the laws of [RefServer]. *)
From S2P Require Import Prelude GoStrings GoPath GoTime Sha256 Json K8sTypes PatchText Prog Protocol Config K8sClient Util MountPod PodMount RefLock Registry.
From stdpp Require Import options.
#[local] Open Scope Z_scope.

Record sim := mkSim {
  sim_pods : gmap (string * string) Pod;          (* by namespace and name *)
  sim_held : bool;                                (* the reference lock *)
  sim_locks : ObjLocks;
  sim_vols : gmap string Z;
  sim_files : gmap string FileInfo;
  sim_mounts : list MountInfo;
  sim_env : gmap string string;
  sim_clock : Z;
}.

Definition sim_empty : sim := mkSim ∅ false NewObjLocks ∅ ∅ [] ∅ 0.

Definition set_pods (p : gmap (string * string) Pod) (w : sim) : sim :=
  mkSim p (sim_held w) (sim_locks w) (sim_vols w) (sim_files w) (sim_mounts w) (sim_env w) (sim_clock w).
Definition set_held (b : bool) (w : sim) : sim :=
  mkSim (sim_pods w) b (sim_locks w) (sim_vols w) (sim_files w) (sim_mounts w) (sim_env w) (sim_clock w).
Definition set_locks (l : ObjLocks) (w : sim) : sim :=
  mkSim (sim_pods w) (sim_held w) l (sim_vols w) (sim_files w) (sim_mounts w) (sim_env w) (sim_clock w).
Definition set_vols (v : gmap string Z) (w : sim) : sim :=
  mkSim (sim_pods w) (sim_held w) (sim_locks w) v (sim_files w) (sim_mounts w) (sim_env w) (sim_clock w).
Definition set_files (f : gmap string FileInfo) (w : sim) : sim :=
  mkSim (sim_pods w) (sim_held w) (sim_locks w) (sim_vols w) f (sim_mounts w) (sim_env w) (sim_clock w).
Definition set_mounts (m : list MountInfo) (w : sim) : sim :=
  mkSim (sim_pods w) (sim_held w) (sim_locks w) (sim_vols w) (sim_files w) m (sim_env w) (sim_clock w).
Definition set_env (e : gmap string string) (w : sim) : sim :=
  mkSim (sim_pods w) (sim_held w) (sim_locks w) (sim_vols w) (sim_files w) (sim_mounts w) e (sim_clock w).
Definition set_clock (t : Z) (w : sim) : sim :=
  mkSim (sim_pods w) (sim_held w) (sim_locks w) (sim_vols w) (sim_files w) (sim_mounts w) (sim_env w) t.

(** ** The API server *)

Definition with_labels (l : gomap) (p : Pod) : Pod :=
  let m := Meta p in
  mkPod (mkMeta (Name m) (Namespace m) (UID m) l (Annotations m) (Finalizers m) (DeletionTimestamp m)) (Spec p) (Status p).

Definition deleting (t : Z) (p : Pod) : Pod :=
  let m := Meta p in
  mkPod (mkMeta (Name m) (Namespace m) (UID m) (Labels m) (Annotations m) (Finalizers m) (Some t)) (Spec p) (Status p).


(** One operation of a JSON patch; removing what is not there is an error. *)
Definition apply_op (o : JsonPatchOp) (p : Pod) : option Pod :=
  match o with
  | ReplaceMap path v =>
      if String.eqb path "/metadata/annotations" then Some (with_annotations (Some v) p) else None
  | ReplaceList path v =>
      if String.eqb path "/metadata/finalizers" then Some (with_finalizers v p) else None
  | RemovePath path =>
      match pointer path with
      | Some ["metadata"; "annotations"; k] =>
          match mlookup (pod_Annotations p) k with
          | Some _ => Some (with_annotations (Some (delete k (gm (pod_Annotations p)))) p)
          | None => None
          end
      | _ => None
      end
  end.

Definition apply_patch (pt : Patch) (p : Pod) : option Pod :=
  match pt with
  | JSONPatch ops => fold_left (fun r o => r ≫= apply_op o) ops (Some p)
  | StrategicMergeLabels m => Some (with_labels (Some (m ∪ gm (Labels (Meta p)))) p)
  | StrategicMergeAnnotations m => Some (with_annotations (Some (m ∪ gm (pod_Annotations p))) p)
  end.

(** A deleted pod goes when its last finalizer is taken off. *)
Definition goes (pt : Patch) (p : Pod) : bool :=
  match pt with
  | JSONPatch [ReplaceList _ (Some [])] => bool_decide (is_Some (DeletionTimestamp (Meta p)))
  | _ => false
  end.

(** ** The console *)

(** The management console serves one volume with one quota and one access
    rule. *)
Definition console_answer (url : string) : string :=
  marshal (Jarr [Jobj
    (if Contains url "/quotas" then
       [("Id", Jnum 5); ("path", Jstr "/pvc-1"); ("size", Jnum 10); ("inodes", Jnum 0)]
     else if Contains url "/exports" then [("id", Jnum 1); ("desc", Jstr "default"); ("apionly", Jbool false)]
     else [("id", Jnum 3); ("name", Jstr "fs1"); ("size", Jnum 0); ("state", Jnull)])]).

(** ** Every call *)

Definition is_mounted (w : sim) (path : string) : bool :=
  existsb (fun mi => String.eqb (mi_MountPoint mi) path) (sim_mounts w).

(** Where a client process or the kubelet's start of a mount pod leaves the
    root of a mounted volume. *)
Definition mounted_root (path : string) (w : sim) : sim :=
  set_mounts (sim_mounts w ++ [mkMI 7 "/" path]) (set_files (<[path := mkFI 1 511]> (sim_files w)) w).

Definition sim_handle (o : op) (w : sim) : resp o * sim :=
  match o return resp o * sim with
  | PodsGet n ns =>
      (match sim_pods w !! (ns, n) with Some p => inl p | None => inr (ErrApi ReasonNotFound) end, w)
  | PodsCreate p =>
      match sim_pods w !! (pod_Namespace p, pod_Name p) with
      | Some _ => (inr (ErrApi ReasonAlreadyExists), w)
      | None => (inl p, let w := set_pods (<[(pod_Namespace p, pod_Name p) := p]> (sim_pods w)) w in
                        match GetMountPathOfPod p with inl (path, _) => mounted_root path w | inr _ => w end)
      end
  | PodsUpdate p =>
      match sim_pods w !! (pod_Namespace p, pod_Name p) with
      | None => (Some (ErrApi ReasonNotFound), w)
      | Some _ => (None, set_pods (<[(pod_Namespace p, pod_Name p) := p]> (sim_pods w)) w)
      end
  | PodsPatch ns n pt =>
      match sim_pods w !! (ns, n) with
      | None => (Some (ErrApi ReasonNotFound), w)
      | Some p => match apply_patch pt p with
                  | Some p' => (None, set_pods (if goes pt p then delete (ns, n) (sim_pods w)
                                                else <[(ns, n) := p']> (sim_pods w)) w)
                  | None => (Some (ErrApi (ReasonOther "Invalid")), w)
                  end
      end
  | PodsDelete ns n =>
      match sim_pods w !! (ns, n) with
      | None => (Some (ErrApi ReasonNotFound), w)
      | Some p => (None, set_pods (if (length (default [] (pod_Finalizers p)) =? 0)%nat then delete (ns, n) (sim_pods w)
                                   else <[(ns, n) := deleting (sim_clock w) p]> (sim_pods w)) w)
      end
  | PodsList ns _ =>
      (inl (List.filter (fun p => String.eqb ns EmptyString || String.eqb (pod_Namespace p) ns)
              (map snd (map_to_list (sim_pods w)))), w)
  | PodsLogs _ _ _ => (inl EmptyString, w)
  | PVGet _ => (inr (ErrApi ReasonNotFound), w)
  | PVList => (inl [], w)
  | OsStat path => (match sim_files w !! path with Some fi => inl fi | None => inr (ErrOs ENOENT) end, w)
  | OsMkdirAll path perm => (None, set_files (<[path := mkFI 2 perm]> (sim_files w)) w)
  | OsChmod path perm => (None, set_files (<[path := mkFI 2 perm]> (sim_files w)) w)
  | OsRemove path => (None, set_files (delete path (sim_files w)) w)
  | OsWriteFile path _ perm => (None, set_files (<[path := mkFI 2 perm]> (sim_files w)) w)
  | LookupEnv k => (sim_env w !! k, w)
  | Setenv k v => (tt, set_env (<[k := v]> (sim_env w)) w)
  | Environ => ([], w)
  | Command cmd args _ =>
      if String.eqb cmd "umount" && negb (is_mounted w (default EmptyString (last args)))
      then (("umount: not mounted", Some (ErrExec "exit status 32")), w)
      else if String.eqb cmd "umount"
      then ((EmptyString, None),
            set_mounts (List.filter (fun mi => negb (String.eqb (mi_MountPoint mi) (default EmptyString (last args))))
                          (sim_mounts w)) w)
      else ((EmptyString, None), w)
  | ReadMountInfo => (inl (sim_mounts w), w)
  | DoMount source target _ _ => (None, set_mounts (sim_mounts w ++ [mkMI 7 source target]) w)
  | DoUnmount target =>
      (None, set_mounts (List.filter (fun mi => negb (String.eqb (mi_MountPoint mi) target)) (sim_mounts w)) w)
  | LikelyNotMountPoint path => (inl (negb (is_mounted w path)), w)
  | TimeNow => (sim_clock w, w)
  | LocalOffset _ => (0, w)
  | Sleep t => (tt, set_clock (sim_clock w + t) w)
  | CtxDone _ => (None, w)
  | MutexLock m => (tt, match m with JLock => set_held true w | _ => w end)
  | MutexUnlock m => (tt, match m with JLock => set_held false w | _ => w end)
  | RangeMap m => (map_to_list m, w)
  | LocksTryAcquire id => let (b, l) := TryAcquire (sim_locks w) id in (b, set_locks l w)
  | LocksRelease id => (tt, set_locks (Release (sim_locks w) id) w)
  | VolsGet name => (sim_vols w !! name, w)
  | VolsSet name size => (tt, set_vols (<[name := size]> (sim_vols w)) w)
  | VolsDelete name => (tt, set_vols (delete name (sim_vols w)) w)
  | HttpDo _ url _ => (inl (200, console_answer url, None), w)
  | Spawn _ args _ => (tt, match args with _ :: path :: _ => mounted_root path w | _ => w end)
  | HttpsGet _ _ _ _ => (inl ("pods", None), w)
  | BackOffActive _ => (false, w)
  | BackOffNext _ => (tt, w)
  | BackOffReset _ => (tt, w)
  | ErrStore _ => (tt, w)
  | GroupCancel _ => (tt, w)
  | ErrLoad => (None, w)
  | CommandContext _ _ _ => (None, w)
  | ClaimGet _ _ => (inr (ErrApi ReasonNotFound), w)
  | CacheGet _ _ => (inr (ErrApi ReasonNotFound), w)
  | CacheDelete _ => (None, w)
  | CacheStatusUpdate _ => (None, w)
  | PodExec ns n _ =>
      (match sim_pods w !! (ns, n) with
       | Some _ => inl (EmptyString, EmptyString, None)
       | None => inr (ErrApi ReasonNotFound)
       end, w)
  | InClusterConfig | GetConfig | BuildConfigFromFlags _ | NewForConfig => (None, w)
  | UserHomeDir => (inl "/root", w)
  | ReadFile _ => (inl "token", w)
  | TLSConfigFor _ => (inl true, w)
  | HTTPWrappersForConfig _ => (None, w)
  | NewManager _ | NewController _ | Watch _ | AddHealthzCheck _ | AddReadyzCheck _ | StartManager => (None, w)
  | NetListen _ _ | Serve => (None, w)
  | StopServer | Infof _ _ => (tt, w)
  | Println _ | GoReconcile _ _ | GoManager => (tt, w)
  end.

Lemma sim_resp_ok o w : resp_ok o (fst (sim_handle o w)).
Proof. destruct o; try exact I. simpl. reflexivity. Qed.

(** Runs on the simulated node are executions. *)
Definition sim_trace {A} (p : prog A) (w : sim) : list event := fst (fst (run sim_handle p w)).
Definition sim_result {A} (p : prog A) (w : sim) : result A := snd (fst (run sim_handle p w)).
Definition sim_after {A} (p : prog A) (w : sim) : sim := snd (run sim_handle p w).

Lemma sim_exec {A} (p : prog A) w r : sim_result p w = r -> exec p (sim_trace p w) r.
Proof.
  intros <-. unfold sim_trace, sim_result.
  destruct (run sim_handle p w) as [[tr r] w'] eqn:Hr. eapply run_exec, Hr. apply sim_resp_ok.
Qed.

(** ** The laws *)

(** Pods are kept under their own names. *)
Definition keyed (w : sim) : Prop :=
  map_Forall (fun k p => k = (pod_Namespace p, pod_Name p)) (sim_pods w).

Definition sim_answers (o : op) (w : sim) (x : resp o) (w' : sim) : Prop :=
  keyed w /\ (o = MutexLock JLock -> sim_held w = false) /\ sim_handle o w = (x, w').

Definition sim_annotations (w : sim) (ns n : string) : option (gmap string string) :=
  (fun p => gm (pod_Annotations p)) <$> sim_pods w !! (ns, n).

Lemma sim_create_keeps w p ns n a :
  sim_pods w !! (pod_Namespace p, pod_Name p) = None -> sim_annotations w ns n = Some a ->
  (fun p => gm (pod_Annotations p)) <$> <[(pod_Namespace p, pod_Name p) := p]> (sim_pods w) !! (ns, n) = Some a.
Proof.
  unfold sim_annotations. intros Hn Ha.
  rewrite lookup_insert_ne; [done|]. intros Heq. rewrite <-Heq, Hn in Ha. done.
Qed.

Lemma sim_frame o w x w' ns n a :
  is_reflock o = false -> sim_answers o w x w' ->
  sim_held w' = sim_held w /\ (sim_annotations w ns n = Some a -> sim_annotations w' ns n = Some a).
Proof.
  intros Ho (_ & _ & H). destruct o; try discriminate Ho; simpl in H;
    try (destruct m; [discriminate Ho|]); repeat case_match; simplify_eq/=; try done;
    (split; [done|]; by apply sim_create_keeps).
Qed.

Lemma sim_patch_inv w ns n pt x w' :
  sim_answers (PodsPatch ns n pt) w x w' ->
  (w' = w /\ x <> None) \/
  exists p p', sim_pods w !! (ns, n) = Some p /\ apply_patch pt p = Some p' /\ x = None /\
    w' = set_pods (if goes pt p then delete (ns, n) (sim_pods w) else <[(ns, n) := p']> (sim_pods w)) w.
Proof.
  intros (_ & _ & H). cbn [sim_handle] in H.
  destruct (sim_pods w !! (ns, n)) as [p|] eqn:Hp; [destruct (apply_patch pt p) as [p'|] eqn:Hpt|];
    injection H as <- <-; [right; by exists p, p'|by left..].
Qed.

Lemma sim_annotations_patched w ns n pt p p' :
  goes pt p = false ->
  sim_annotations (set_pods (if goes pt p then delete (ns, n) (sim_pods w) else <[(ns, n) := p']> (sim_pods w)) w) ns n
  = Some (gm (pod_Annotations p')).
Proof. intros ->. unfold sim_annotations. simpl. by rewrite lookup_insert_eq. Qed.

Lemma sim_remove w ns n path k a w' :
  pointer path = Some ["metadata"; "annotations"; k] ->
  sim_answers (PodsPatch ns n (JSONPatch [RemovePath path])) w None w' ->
  sim_annotations w ns n = Some a -> sim_annotations w' ns n = Some (delete k a).
Proof.
  intros Hpath [[_ Hx]|(p & p' & Hp & Hpt & _ & ->)]%sim_patch_inv Ha; [done|].
  cbn [apply_patch fold_left mbind option_bind apply_op] in Hpt. rewrite Hpath in Hpt.
  case_match; [|done]. injection Hpt as <-.
  rewrite sim_annotations_patched by done. unfold sim_annotations in Ha. rewrite Hp in Ha. by injection Ha as <-.
Qed.

#[global, refine] Instance sim_RefServer : RefServer sim := {
  answers := sim_answers;
  annotations := sim_annotations;
  held := sim_held;
  frame_law := sim_frame;
  remove_law := sim_remove;
}.
Proof.
  - intros w x w' (_ & Hh & H). simpl in H. simplify_eq. split; [by apply Hh|done].
  - intros w x w' (_ & _ & H). simpl in H. by simplify_eq.
  - intros w n ns p w' (Hk & _ & H). simpl in H. case_match eqn:Hp; simplify_eq.
    apply Hk in Hp as Heq. simplify_eq. split_and!; [done..|]. unfold sim_annotations. by rewrite Hp.
  - intros w ns n pt e w' [[-> _]|(p & p' & _ & _ & [=] & _)]%sim_patch_inv. by left.
  - by intros w ns n pt x w' [[-> _]|(p & p' & _ & _ & _ & ->)]%sim_patch_inv.
  - intros w ns n pt x w' ns' n' [[-> _]|(p & p' & _ & _ & _ & ->)]%sim_patch_inv Hne; [done|].
    unfold sim_annotations. simpl. destruct (goes pt p); [by rewrite lookup_delete_ne|by rewrite lookup_insert_ne].
  - intros w ns n a w' [[_ Hx]|(p & p' & _ & Hpt & _ & ->)]%sim_patch_inv; [done|].
    simpl in Hpt. simplify_eq. by rewrite sim_annotations_patched by done.
  - intros w ns n m a w' [[_ Hx]|(p & p' & Hp & Hpt & _ & ->)]%sim_patch_inv Ha; [done|].
    simpl in Hpt. simplify_eq. rewrite sim_annotations_patched by done. unfold sim_annotations in Ha. rewrite Hp in Ha.
    by injection Ha as <-.
  - intros w ns n x w' (_ & _ & H). simpl in H. case_match; by simplify_eq.
Defined.

#[global, refine] Instance sim_RegistryServer : RegistryServer sim := {}.
Proof.
  - intros o w x w' Ho (_ & _ & H) ns n. unfold annotations. simpl. unfold sim_annotations.
    destruct o; try discriminate Ho; simpl in H; try (destruct m; [discriminate Ho|]); repeat case_match; by simplify_eq/=.
  - intros w p q w' (_ & _ & H). cbn [sim_handle] in H.
    destruct (sim_pods w !! (pod_Namespace p, pod_Name p)) as [p'|] eqn:Hp; [done|].
    assert (sim_pods w' = <[(pod_Namespace p, pod_Name p) := p]> (sim_pods w)) as Hw.
    { cbv zeta in H. injection H as _ <-. by destruct (GetMountPathOfPod p) as [[]|]. }
    unfold annotations. simpl. unfold sim_annotations. rewrite Hw, Hp, lookup_insert_eq. split_and!; [done..|].
    intros ns n Hne. by rewrite lookup_insert_ne.
  - intros w p e w' (_ & _ & H). left. intros ns n. cbn [sim_handle] in H. by case_match; simplify_eq.
  - intros w ns n x w' (_ & _ & H). unfold annotations. simpl. unfold sim_annotations. cbn [sim_handle] in H.
    destruct (sim_pods w !! (ns, n)) as [p|] eqn:Hp; [|injection H as <- <-; rewrite Hp; split; [by left|done]].
    injection H as <- <-. simpl.
    destruct (_ =? _)%nat; rewrite ?lookup_delete_eq, ?lookup_insert_eq, ?Hp; (split; [simpl; auto|]);
      intros ns' n' Hne; by rewrite ?lookup_delete_ne, ?lookup_insert_ne.
Defined.

(** ** Interleavings on the simulated node *)

Definition is_JLock (o : op) : bool := match o with MutexLock JLock => true | _ => false end.

Definition sim_ok (o : op) (w : sim) : bool :=
  bool_decide (keyed w) && (negb (is_JLock o) || negb (sim_held w)).

Lemma sim_ok_answers o w :
  sim_ok o w = true -> answers o w (fst (sim_handle o w)) (snd (sim_handle o w)) /\ resp_ok o (fst (sim_handle o w)).
Proof.
  unfold sim_ok. intros H. apply andb_prop in H as [Hk Hl]. apply bool_decide_eq_true in Hk.
  split; [|apply sim_resp_ok]. split_and!; [done| |by destruct (sim_handle o w)].
  intros ->. simpl in Hl. by apply negb_true_iff in Hl.
Qed.

(** A lock table alone: the other calls are answered as on an empty node. *)
Definition table_handle (o : op) (w : ObjLocks) : resp o * ObjLocks :=
  match o return resp o -> resp o * ObjLocks with
  | LocksTryAcquire id => fun _ => TryAcquire w id
  | LocksRelease id => fun _ => (tt, Release w id)
  | _ => fun x => (x, w)
  end (fst (sim_handle o sim_empty)).
