(* ===== verification/Examples.v ===== *)
(** * The theorems at work

    The properties of the other files applied to concrete runs on the
    simulated node: a node with one mounted volume, its pod and its target. *)
From S2P Require Import Prelude GoStrings GoPath GoTime Sha256 K8sTypes PatchText Prog Protocol Config K8sClient Util Console MountInfoTable MountPod PodMount Progress RefLock Registry Publication Sim ProcessMount Juicefs ControllerService NodeService IdLocks PodDriver PodShape.
From stdpp Require Import options.
#[local] Open Scope Z_scope.

#[local] Arguments exec : simpl never.

(** ** The setting *)

Definition demo_cfg : Config := mkConfig "node1" "kube-system" "mount:v1" "/var/lib/mosfs-mnt" "/root/.juicefs".

Definition demo_setting : JfsSetting :=
  mkSetting false true "fs1" EmptyString "fs1" EmptyString None None
    EmptyString EmptyString EmptyString EmptyString "10m".

Definition demo_lib : Libs :=
  mkLibs (fun _ m => (Some (<["BASE_URL" := "http://console"]> (gm m)), None))
    (fun _ => inl "console") (fun _ => true).

Definition demo_secrets : gomap :=
  Some (<["name" := "fs1"]> (<["envs" := "BASE_URL: http://console"]> {["consoleToken" := "t0"]})).

Definition demo_target : string := "/var/lib/kubelet/pods/uid-1/volumes/kubernetes.io~csi/pvc-1/mount".
Definition other_target : string := "/var/lib/kubelet/pods/uid-2/volumes/kubernetes.io~csi/pvc-1/mount".

(** A request to publish the volume at a target. *)
Definition publish_at (target : string) : NodePublishVolumeRequest :=
  mkNPV "pvc-1" target (Some (mkCap MULTI_NODE_MULTI_WRITER None)) false (Some {["subPath" := "pvc-1"]}) demo_secrets.

(** A mount pod with the given annotations. *)
Definition demo_pod (a : gmap string string) : Pod :=
  mkPod (mkMeta "mosfs-node1-pvc-1" "kube-system" "u0" (Some {[PodTypeKey := PodTypeValue]}) (Some a)
           (Some [Finalizer]) None)
    (mkSpec [mkContainer "jfs-mount" "mount:v1" ["sh"; "-c"; "/sbin/mount.juicefs fs1 /mosfs/pvc-1 -o foreground"]
               true (mkRes None None) [] [] [] []] [] "node1" None "Never") zeroStatus.

Definition node_with (a : gmap string string) : sim :=
  set_mounts [mkMI 7 "/" "/mosfs/pvc-1"]
    (set_files {["/mosfs/pvc-1" := mkFI 1 511]}
      (set_pods {[("kube-system", "mosfs-node1-pvc-1") := demo_pod a]} sim_empty)).

(** The reference of a target. *)
Definition ref (t : string) : gmap string string := {[GetReferenceKey t := t]}.

(** The calls of the node service. *)
Definition demo_JMount : prog unit :=
  JMount demo_cfg (fun _ => true) (Some demo_setting) 5 EmptyString "pvc-1" "/mosfs/pvc-1" demo_target [].
Definition demo_JUmount : prog unit := JUmount demo_cfg 5 "pvc-1" demo_target.

(** ** Mounting and unmounting through a pod *)

Example mount_creates_the_pod :
  sim_result demo_JMount sim_empty = Ok tt /\
  size (sim_pods (sim_after demo_JMount sim_empty)) = 1%nat.
Proof. split; vm_compute; reflexivity. Qed.

Lemma JUmount_delete_guard_witness :
  exists pre gn gns po,
    sim_trace demo_JUmount (node_with (ref demo_target)) =
      pre ++ locked [PodsGet gn gns ▷ inl po; PodsDelete "kube-system" "mosfs-node1-pvc-1" ▷ None] /\
    hasRef po = false /\ "mosfs-node1-pvc-1" = pod_Name po /\ "kube-system" = pod_Namespace po /\
    @Ok unit tt = Ok tt.
Proof.
  apply (JUmount_delete_guard demo_cfg 5 "pvc-1" demo_target _ (Ok tt) _ _ None).
  - apply sim_exec. vm_compute. reflexivity.
  - apply (list_elem_of_lookup_2 _ 8%nat). vm_compute. reflexivity.
Defined.

Lemma JUmount_never_delays_witness :
  calls is_delay (sim_trace demo_JUmount (node_with (<[DeleteDelayTimeKey := "10m"]> (ref demo_target)))) = [].
Proof.
  apply (JUmount_never_delays demo_cfg 5 "pvc-1" demo_target _ (Ok tt)). apply sim_exec. vm_compute. reflexivity.
Defined.

(** The reference that [AddRefOfMount] writes next to another one. *)
Lemma AddRefOfMount_ok_witness :
  exists pre p,
    conflicts (add_ref demo_cfg demo_target "mosfs-node1-pvc-1") [Sleep (10 * millisecond) ▷ tt] pre /\
    ((sim_trace (AddRefOfMount demo_cfg 5 demo_target "mosfs-node1-pvc-1") (node_with (ref other_target)) =
        pre ++ locked [PodsGet "mosfs-node1-pvc-1" "kube-system" ▷ inl p] /\
      is_Some (mlookup (pod_Annotations p) (GetReferenceKey demo_target))) \/
     exists a x,
       sim_trace (AddRefOfMount demo_cfg 5 demo_target "mosfs-node1-pvc-1") (node_with (ref other_target)) =
         pre ++ locked [PodsGet "mosfs-node1-pvc-1" "kube-system" ▷ inl p;
                        PodsPatch (pod_Namespace p) (pod_Name p)
                          (JSONPatch [ReplaceMap "/metadata/annotations" a]) ▷ x] /\
       a !! GetReferenceKey demo_target = Some demo_target /\ a !! DeleteDelayAtKey = None /\
       (forall k, k <> GetReferenceKey demo_target -> k <> DeleteDelayAtKey ->
                  a !! k = gm (pod_Annotations p) !! k)).
Proof.
  apply (AddRefOfMount_ok demo_cfg 5 demo_target "mosfs-node1-pvc-1").
  apply sim_exec. vm_compute. reflexivity.
Defined.

Lemma AddRefOfMount_swallows_witness :
  exec (AddRefOfMount demo_cfg 1 demo_target "mosfs-node1-pvc-1")
    (locked [PodsGet "mosfs-node1-pvc-1" "kube-system" ▷ inl (demo_pod ∅);
             PodsPatch "kube-system" "mosfs-node1-pvc-1"
               (JSONPatch [ReplaceMap "/metadata/annotations" (referenced (demo_pod ∅) demo_target)])
               ▷ Some (ErrApi (ReasonOther "Forbidden"))]) (Ok tt).
Proof. by apply (AddRefOfMount_swallows demo_cfg 0 demo_target "mosfs-node1-pvc-1" (demo_pod ∅)). Defined.

Lemma JMount_ok_witness :
  exists pre po retries p body pre' fi,
    sim_trace demo_JMount sim_empty =
      (MutexLock (GetPodLock "mosfs-node1-pvc-1") ▷ tt) :: pre ++
      [PodsGet "mosfs-node1-pvc-1" "kube-system" ▷ inl po] ++
      retries ++ locked ((PodsGet "mosfs-node1-pvc-1" "kube-system" ▷ inl p) :: body) ++ pre' ++
      [OsStat "/mosfs/pvc-1" ▷ inl fi; MutexUnlock (GetPodLock "mosfs-node1-pvc-1") ▷ tt] /\
    DeletionTimestamp (Meta po) = None /\
    conflicts (add_ref demo_cfg demo_target "mosfs-node1-pvc-1") [Sleep (10 * millisecond) ▷ tt] retries /\
    reference_sent demo_target p body /\ fi_Ino fi = 1.
Proof.
  apply (JMount_ok demo_cfg (fun _ => true) demo_setting 5 EmptyString "pvc-1" "/mosfs/pvc-1" demo_target []).
  apply sim_exec. vm_compute. reflexivity.
Defined.

(** The unmount of the only reference. *)
Definition demo_umount_trace : list event := sim_trace demo_JUmount (node_with (ref demo_target)).

Lemma JUmount_ok_witness :
  let key := GetReferenceKey demo_target in
  (exists e, demo_umount_trace = [PodsGet "mosfs-node1-pvc-1" "kube-system" ▷ inr e] /\ IsNotFound e = true) \/
  exists pod pre po drop newPod post,
    let look := PodsGet (pod_Name pod) (pod_Namespace pod) in
    demo_umount_trace = (PodsGet "mosfs-node1-pvc-1" "kube-system" ▷ inl pod) ::
           pre ++ locked ((look ▷ inl po) :: drop) ++ (look ▷ inl newPod) :: post /\
    conflicts (del_ref key (pod_Name pod) (pod_Namespace pod)) [] pre /\
    drop = (if bool_decide (is_Some (mlookup (pod_Annotations po) key))
            then [PodsPatch (pod_Namespace po) (pod_Name po)
                    (JSONPatch [RemovePath ("/metadata/annotations/" +:+ key)]) ▷ None]
            else []) /\
    (if hasRef newPod then post = []
     else exists po', post = locked ((look ▷ inl po') ::
            if hasRef po' then [] else [PodsDelete (pod_Namespace po') (pod_Name po') ▷ None])).
Proof.
  apply (JUmount_ok demo_cfg 5 "pvc-1" demo_target demo_umount_trace).
  apply sim_exec. vm_compute. reflexivity.
Defined.

(** The results are not computed but follow from the answers. *)
Lemma JUmount_completes_witness : sim_result demo_JUmount (node_with (ref demo_target)) = Ok tt.
Proof.
  apply (JUmount_completes demo_cfg 5 "pvc-1" demo_target demo_umount_trace).
  - by apply sim_exec.
  - vm_compute. reflexivity.
  - vm_compute. reflexivity.
  - vm_compute. lia.
Defined.

Lemma JMount_completes_witness : sim_result demo_JMount sim_empty = Ok tt.
Proof.
  apply (JMount_completes demo_cfg (fun _ => true) demo_setting 5 EmptyString "pvc-1" "/mosfs/pvc-1" demo_target []
           (sim_trace demo_JMount sim_empty)).
  - by apply sim_exec.
  - reflexivity.
  - vm_compute. reflexivity.
  - vm_compute. reflexivity.
  - vm_compute. lia.
  - vm_compute. lia.
Defined.

(** The pod the first mount creates. *)
Definition created_pod : Pod :=
  default (demo_pod ∅) (sim_pods (sim_after demo_JMount sim_empty) !! ("kube-system", "mosfs-node1-pvc-1")).

Lemma JMount_created_pod_witness :
  GetMountPathOfPod created_pod = inl ("/mosfs/pvc-1", "pvc-1") /\
  pod_Name created_pod = "mosfs-node1-pvc-1" /\
  mlookup (pod_Annotations created_pod) (GetReferenceKey demo_target) = Some demo_target /\
  mlookup (pod_Annotations created_pod) DeleteDelayTimeKey = Some "10m" /\
  pod_Finalizers created_pod = Some [Finalizer].
Proof.
  apply (JMount_created_pod demo_cfg (fun _ => true) demo_setting 5 EmptyString "pvc-1" demo_target []
           (sim_trace demo_JMount sim_empty) (Ok tt) created_pod (inl created_pod)); try done.
  - apply sim_exec. vm_compute. reflexivity.
  - apply (list_elem_of_lookup_2 _ 5%nat). vm_compute. reflexivity.
Defined.

(** ** Concurrent calls *)

(** The volume is taken from one target and published at another, while
    another volume is being deleted. *)
Definition three_requests : list Call :=
  [CallUnpublish "pvc-1" demo_target; CallPublish (publish_at other_target); CallController (ReqDeleteVolume "pvc-2" demo_secrets)].
Definition requests_conf (a : gmap string string) : conf :=
  mkConf (node_with a) (map (perform demo_cfg demo_lib 5) three_requests).

(** The requests take turns until one waits for the lock of the references:
    the unpublication deletes the pod after the publication has read it. *)
Definition in_turns : list nat := [2; 2; 2; 0; 1; 1; 0; 1; 0; 1; 0; 1; 0; 1; 0; 1; 0; 1; 0; 1; 0; 1; 0; 0; 0; 0]%nat ++ replicate 12 1%nat.

Lemma node_deletes_unreferenced_witness :
  exists c a, annotations (world c) "kube-system" "mosfs-node1-pvc-1" = Some a /\
    (forall k v, a !! k = Some v -> HasPrefix k "mosfs-" = false) /\
    exists tr, steps answers (requests_conf (ref demo_target)) tr c.
Proof.
  destruct (sched_last sim_ok sim_handle answers sim_ok_answers (take 25 in_turns) (requests_conf (ref demo_target))
              (0%nat, PodsDelete "kube-system" "mosfs-node1-pvc-1" ▷ None)) as (tr1 & c1 & c' & H1 & H2);
    [vm_compute; reflexivity|].
  destruct (node_deletes_unreferenced demo_cfg demo_lib 5 three_requests
              (node_with (ref demo_target)) tr1 c1 0 _ _ _ c' H1 H2) as (a & Ha & Hk).
  exists c1, a. eauto.
Defined.

(** The patch that takes the reference away leaves the other one. *)
Lemma node_keeps_other_references_witness :
  exists c c' call a a', three_requests !! 0%nat = Some call /\
    annotations (world c) "kube-system" "mosfs-node1-pvc-1" = Some a /\
    annotations (world c') "kube-system" "mosfs-node1-pvc-1" = Some a' /\
    (forall k, k <> GetReferenceKey (call_target call) -> k <> DeleteDelayAtKey -> a' !! k = a !! k) /\
    (forall ns n, (ns, n) <> ("kube-system", "mosfs-node1-pvc-1") ->
                  annotations (world c') ns n = annotations (world c) ns n).
Proof.
  destruct (sched_last sim_ok sim_handle answers sim_ok_answers (take 17 in_turns)
              (requests_conf (ref demo_target ∪ ref other_target))
              (0%nat, PodsPatch "kube-system" "mosfs-node1-pvc-1"
                 (JSONPatch [RemovePath ("/metadata/annotations/" +:+ GetReferenceKey demo_target)]) ▷ None))
    as (tr1 & c1 & c' & H1 & H2); [vm_compute; reflexivity|].
  exists c1, c'.
  exact (node_keeps_other_references demo_cfg demo_lib 5 three_requests
           (node_with (ref demo_target ∪ ref other_target)) tr1 c1 0 _ _ _ _ c' H1 H2).
Defined.

(** Both requests to their ends as actions of the registry. *)
Lemma node_refines_registry_witness :
  exists (tr : list (nat * event)) (c : conf) l,
    rsteps three_requests (registry_of (node_with (ref demo_target))) l (registry_of (world c)) /\
    map fst l = map fst tr /\ map fst tr = in_turns.
Proof.
  destruct (sched_runs sim_ok sim_handle answers sim_ok_answers in_turns (requests_conf (ref demo_target)))
    as (tr & c & H & Ho); [vm_compute; reflexivity|].
  destruct (node_refines_registry demo_cfg demo_lib 5 three_requests
              (node_with (ref demo_target)) tr c H) as (l & Hl & Heq).
  exists tr, c, l. split_and!; [exact Hl|exact Heq|exact Ho].
Defined.

(** The reference of the other target is there when the first was dropped. *)
Lemma node_reference_survives_witness :
  exists c a', annotations (world c) "kube-system" "mosfs-node1-pvc-1" = Some a' /\
    GetReferenceKey other_target ∈ references a'.
Proof.
  destruct (sched_runs sim_ok sim_handle answers sim_ok_answers (take 21 in_turns)
              (requests_conf (ref demo_target ∪ ref other_target))) as (tr & c & H & _); [vm_compute; reflexivity|].
  exists c. apply (node_reference_survives demo_cfg demo_lib 5 three_requests
              (node_with (ref demo_target ∪ ref other_target)) tr c "kube-system" "mosfs-node1-pvc-1"
              (ref demo_target ∪ ref other_target) (GetReferenceKey other_target)).
  - exact H.
  - reflexivity.
  - apply (bool_decide_unpack _). vm_compute. exact I.
  - intros call Hc Hm. unfold three_requests in Hc. set_unfold in Hc.
    destruct Hc as [->|[->|[->|[]]]]; [vm_compute; discriminate|discriminate Hm..].
Defined.

(** The publication is over, and its reference outlived the other request. *)
Definition published_last (tr : list (nat * event)) (c : @conf sim) : bool :=
  match pool c !! 1%nat with Some (Ret tt) => only_conflictsb (thread 1 tr) | _ => false end.

Lemma publication_lasts_witness :
  exists tr (c : conf), steps answers (requests_conf (ref demo_target)) tr c /\ map fst tr = in_turns /\
    exists id uid, uid ⊆ thread 1 tr /\ exec (GetUniqueId "pvc-1") uid (Ok id) /\
      has_key (world c) "kube-system" (GeneratePodNameByVolumeId demo_cfg id) (GetReferenceKey other_target).
Proof.
  destruct (sched_end sim_ok sim_handle answers sim_ok_answers
              (fun tr c => published_last tr c && bool_decide (map fst tr = in_turns)) in_turns (requests_conf (ref demo_target)))
    as (tr & c & H & Hd); [vm_compute; reflexivity|].
  apply andb_prop in Hd as [Hd Ho]. apply bool_decide_eq_true in Ho. unfold published_last in Hd.
  destruct (pool c !! 1%nat) as [[[]| | | |]|] eqn:Hp; try discriminate Hd.
  exists tr, c. split; [exact H|]. split; [exact Ho|].
  apply (publication_lasts demo_cfg demo_lib 5 three_requests (node_with (ref demo_target)) tr c 1 (publish_at other_target)).
  - exact H.
  - reflexivity.
  - exact Hp.
  - by apply only_conflictsb_spec.
  - intros call Hc Hm. unfold three_requests in Hc. set_unfold in Hc.
    destruct Hc as [->|[->|[->|[]]]]; [vm_compute; discriminate|discriminate Hm..].
Defined.

(** The table of a node on which no application pod is known. *)
Definition empty_table : mountInfoTable := newMountInfoTable.

(** C19 The reconciler takes no lock against the node service: there is an
    interleaving of a mount with a pass over the unreferenced pod in which the
    pass deletes the pod after the mount recorded its reference on it. *)
Theorem Run_deletes_referenced :
  exists tr c c' x a,
    steps answers (mkConf (node_with ∅) [demo_JMount; Run empty_table (demo_pod ∅)]) tr c /\
    annotations (world c) "kube-system" "mosfs-node1-pvc-1" = Some a /\
    a !! GetReferenceKey demo_target = Some demo_target /\
    step answers c (1%nat, PodsDelete "kube-system" "mosfs-node1-pvc-1" ▷ x) c' /\ x = None.
Proof.
  destruct (sched_turn sim_ok sim_handle answers sim_ok_answers
              (fun w => bool_decide (sim_annotations w "kube-system" "mosfs-node1-pvc-1" ≫= lookup (GetReferenceKey demo_target)
                                     = Some demo_target))
              (1 :: replicate 7 0)%nat 1%nat (mkConf (node_with ∅) [demo_JMount; Run empty_table (demo_pod ∅)])
              (1%nat, PodsDelete "kube-system" "mosfs-node1-pvc-1" ▷ None)) as (tr & c & c' & H & Ha & Hs);
    [vm_compute; reflexivity|].
  apply bool_decide_eq_true, bind_Some in Ha as (a & Ha & Hk). by exists tr, c, c', None, a.
Qed.

Lemma table_handle_answer o w :
  true = true -> table_answer o w (fst (table_handle o w)) (snd (table_handle o w)) /\ resp_ok o (fst (table_handle o w)).
Proof.
  intros _. split; [|destruct o; try exact I; simpl; reflexivity].
  destruct o; try reflexivity. simpl. by destruct (TryAcquire w id).
Qed.

(** Two deletions of one volume, one after the other. *)
Lemma controller_exclusion_witness :
  (0%nat, LocksRelease "pvc-1" ▷ tt) ∈
    [(0%nat, LookupEnv "STORAGE_CLASS_SHARE_MOUNT" ▷ None); (0%nat, LocksRelease "pvc-1" ▷ tt)].
Proof.
  destruct (sched_trace (fun _ _ => true) table_handle table_answer table_handle_answer
              [0; 0; 0; 1]%nat
              (mkConf NewObjLocks (map (serve demo_cfg demo_lib 5) [ReqDeleteVolume "pvc-1" None; ReqDeleteVolume "pvc-1" None]))
              ([] ++ (0%nat, LocksTryAcquire "pvc-1" ▷ true) ::
                 [(0%nat, LookupEnv "STORAGE_CLASS_SHARE_MOUNT" ▷ None); (0%nat, LocksRelease "pvc-1" ▷ tt)] ++
                 [(1%nat, LocksTryAcquire "pvc-1" ▷ true)])) as (c & H); [vm_compute; reflexivity|].
  exact (controller_exclusion demo_cfg demo_lib 5 _ _ _ _ _ _ c "pvc-1" H).
Defined.

(** ** The recovery of mount pods *)

(** The pod of the first target runs, that of the second is gone. *)
Definition demo_mit : mountInfoTable := mkMit [] {["uid-1" := false]}.
Definition both : gmap string string := ref demo_target ∪ ref other_target.
Definition demo_Run (a : gmap string string) : prog unit := Run demo_mit (demo_pod a).

Lemma Run_removes_exactly_stale_witness :
  "mosfs-node1-pvc-1" = pod_Name (demo_pod both) /\ "kube-system" = pod_Namespace (demo_pod both) /\
  exists del order newPod rest,
    [RemovePath ("/metadata/annotations/" +:+ GetReferenceKey other_target)] =
      map (fun k => RemovePath ("/metadata/annotations/" +:+ k)) del /\
    (forall k, k ∈ del <-> stale demo_mit (demo_pod both) k) /\
    sim_trace (demo_Run both) (node_with both) =
      (RangeMap (gm (pod_Annotations (demo_pod both))) ▷ order) ::
      (PodsGet "mosfs-node1-pvc-1" "kube-system" ▷ inl newPod) ::
      (PodsPatch "kube-system" "mosfs-node1-pvc-1"
         (JSONPatch [RemovePath ("/metadata/annotations/" +:+ GetReferenceKey other_target)]) ▷ None) :: rest /\
    size (GetAllRefKeys newPod) = size (GetAllRefKeys (demo_pod both)).
Proof.
  apply (Run_removes_exactly_stale demo_mit (demo_pod both) _ (Ok tt)).
  - apply sim_exec. vm_compute. reflexivity.
  - apply (list_elem_of_lookup_2 _ 2%nat). vm_compute. reflexivity.
Defined.

(** The second reference alone: the pod is deleted. *)
Lemma Run_delete_cases_witness :
  "mosfs-node1-pvc-1" = "mosfs-node1-pvc-1" /\ "kube-system" = "kube-system" /\
  DeletionTimestamp (Meta (demo_pod (ref other_target))) = None /\
  (live_refs demo_mit (demo_pod (ref other_target)) = ∅ \/ IsPodError (demo_pod (ref other_target)) = true \/
   (IsPodReady (demo_pod (ref other_target)) = false /\ Phase (Status (demo_pod (ref other_target))) = "Succeeded")).
Proof.
  apply (Run_delete_cases demo_mit (demo_pod (ref other_target))
           (sim_trace (demo_Run (ref other_target)) (node_with (ref other_target))) (Ok tt)
           "kube-system" "mosfs-node1-pvc-1" None).
  - apply sim_exec. vm_compute. reflexivity.
  - apply (list_elem_of_lookup_2 _ 3%nat). vm_compute. reflexivity.
Defined.

Lemma Run_deletes_unreferenced_witness :
  exists pre, sim_trace (demo_Run (ref other_target)) (node_with (ref other_target)) =
    pre ++ [PodsDelete "kube-system" "mosfs-node1-pvc-1" ▷ None].
Proof.
  apply (Run_deletes_unreferenced demo_mit (demo_pod (ref other_target))).
  - vm_compute. reflexivity.
  - reflexivity.
  - vm_compute. reflexivity.
  - apply sim_exec. vm_compute. reflexivity.
Defined.

(** The copy the pass works on is behind: a reference was added since. *)
Lemma Run_conflict_on_change_witness :
  @nil event = [] /\
  sim_result (demo_Run (ref other_target)) (node_with both) = Err (ErrApi ReasonConflict).
Proof.
  refine (Run_conflict_on_change demo_mit (demo_pod (ref other_target)) (GetReferenceKey other_target)
            (map_to_list (ref other_target)) (demo_pod both) [] _ _ _ _).
  - left. apply elem_of_dom. exists other_target. vm_compute. reflexivity.
  - vm_compute. discriminate.
  - change (exec (demo_Run (ref other_target)) (sim_trace (demo_Run (ref other_target)) (node_with both))
              (sim_result (demo_Run (ref other_target)) (node_with both))). by apply sim_exec.
Defined.

(** A deleted pod that is still referenced. *)
Definition deleted_pod : Pod := deleting 5 (demo_pod (ref demo_target)).
Definition deleted_node : sim := set_pods {[("kube-system", "mosfs-node1-pvc-1") := deleted_pod]} sim_empty.
Definition demo_deleted : prog unit := podDeletedHandler (Some deleted_pod).

Lemma podDeletedHandler_recreates_witness :
  exists y rest,
    sim_trace demo_deleted deleted_node =
      (PodsPatch "kube-system" "mosfs-node1-pvc-1" (JSONPatch [ReplaceList "/metadata/finalizers" (Some [])]) ▷ y) :: rest /\
    match y with
    | Some e => rest = [] /\ sim_result demo_deleted deleted_node = Err e
    | None => sim_result demo_deleted deleted_node = Ok tt /\
        exists order after, rest = (RangeMap (ref demo_target) ▷ order) :: after /\ remade deleted_pod "/mosfs/pvc-1" after
    end.
Proof.
  pose proof (podDeletedHandler_recreates deleted_pod (sim_trace demo_deleted deleted_node) _ (sim_exec demo_deleted deleted_node _ eq_refl)) as H.
  assert (negb (ContainsString (default [] (pod_Finalizers deleted_pod)) Finalizer) || IsPodResourceError deleted_pod = false) as H1
    by (vm_compute; reflexivity).
  assert (GetMountPathOfPod deleted_pod = inl ("/mosfs/pvc-1", "pvc-1")) as H2 by (vm_compute; reflexivity).
  assert (referenced_by (ref demo_target) = true) as H3 by (vm_compute; reflexivity).
  rewrite H1 in H. destruct H as (y & rest & Ht & H). exists y, rest. split; [exact Ht|].
  destruct y; [exact H|]. change (pod_Annotations deleted_pod) with (Some (ref demo_target)) in H. cbv beta iota in H.
  rewrite H2, H3 in H. exact H.
Defined.

(** Its pod was made again, with the finalizer. *)
Example deleted_remade :
  (fun p => (pod_Finalizers p, DeletionTimestamp (Meta p))) <$>
    sim_pods (sim_after demo_deleted deleted_node) !! ("kube-system", "mosfs-node1-pvc-1") = Some (Some [Finalizer], None).
Proof. vm_compute. reflexivity. Qed.

(** A ready pod whose target is a broken mount: on this node every path but
    the mount is unreachable. *)
Definition broken_handle (o : op) (w : sim) : resp o * sim :=
  match o return resp o * sim -> resp o * sim with
  | OsStat path => fun r => if HasPrefix path "/var/lib/kubelet" then (inr (ErrOs ENOTCONN), w) else r
  | _ => fun r => r
  end (sim_handle o w).

Definition recovery : list event * result unit * sim :=
  run broken_handle (podReadyHandler (Some (demo_pod (ref demo_target)))) (node_with (ref demo_target)).

Lemma podReadyHandler_recovers_witness :
  snd (fst recovery) = Ok tt /\
  exists src pre post, fst (fst recovery) = pre ++ post /\ exec (recovery_source "/mosfs/pvc-1" "pvc-1") pre (Ok src) /\
    match src with
    | None => post = []
    | Some sourcePath =>
        (sourcePath = "/mosfs/pvc-1" \/ sourcePath = "/mosfs/pvc-1" +:+ "/" +:+ "pvc-1") /\
        exists order evs, post = (RangeMap (ref demo_target) ▷ order) :: concat evs /\
          order ≡ₚ map_to_list (ref demo_target) /\ Forall2 (recovered sourcePath) order evs
    end.
Proof.
  apply (podReadyHandler_recovers (demo_pod (ref demo_target))); [reflexivity..|].
  apply (run_exec broken_handle _ (node_with (ref demo_target)) _ _ (snd recovery)).
  - intros o w. destruct o; try exact I. simpl. reflexivity.
  - unfold recovery. by destruct (run _ _ _) as [[tr r] w].
Defined.

(** The run mounts the target again. *)
Example recovery_mounts : last (fst (fst recovery)) = Some (DoMount "/mosfs/pvc-1" demo_target "none" ["bind"] ▷ None).
Proof. vm_compute. reflexivity. Qed.

(** A pod that was refused for lack of memory. *)
Definition refused_pod : Pod :=
  let p := demo_pod (ref demo_target) in
  mkPod (Meta p)
    (Spec (with_containers (map (with_resources (mkRes None (Some {["memory" := "1Gi"]}))) (Containers (Spec p))) p))
    (mkStatus "Failed" "OutOfmemory" EmptyString [] [] []).

Definition refused_node : sim :=
  set_pods {[("kube-system", "mosfs-node1-pvc-1") := refused_pod]} sim_empty.
Definition redeployed_pod : Pod := DeleteResourceOfPod (AddFinalizer (copy_of_pod refused_pod) Finalizer).

Lemma podErrorHandler_strips_witness :
  IsPodResourceError refused_pod = true /\
  pod_Name redeployed_pod = pod_Name refused_pod /\ pod_Namespace redeployed_pod = pod_Namespace refused_pod /\
  Labels (Meta redeployed_pod) = Labels (Meta refused_pod) /\
  pod_Annotations redeployed_pod = pod_Annotations refused_pod /\
  map cn_Command (Containers (Spec redeployed_pod)) = map cn_Command (Containers (Spec refused_pod)) /\
  pod_Finalizers redeployed_pod = Some [Finalizer] /\ IsPodHasResource redeployed_pod = false.
Proof.
  apply (podErrorHandler_strips refused_pod (sim_trace (podErrorHandler (Some refused_pod)) refused_node)
           (Ok tt) redeployed_pod (inl redeployed_pod)).
  - apply sim_exec. vm_compute. reflexivity.
  - apply (list_elem_of_lookup_2 _ 4%nat). vm_compute. reflexivity.
Defined.

(** The pods of the mount and of the pass above have the shape. *)
Lemma JMount_creates_mount_pods_witness :
  new_mount_pod created_pod /\
  (Contains (quoteForShell (mount_command demo_setting "/mosfs/pvc-1" [])) "cache-dir" = false ->
   NoDup (map vol_Name (Volumes (Spec created_pod)))).
Proof.
  apply (JMount_creates_mount_pods demo_cfg (fun _ => true) demo_setting 5 EmptyString "pvc-1" "/mosfs/pvc-1" demo_target []
           (sim_trace demo_JMount sim_empty) (Ok tt) created_pod (inl created_pod)).
  - apply sim_exec. vm_compute. reflexivity.
  - apply (list_elem_of_lookup_2 _ 5%nat). vm_compute. reflexivity.
Defined.

Definition refused_pass : prog unit := Run demo_mit refused_pod.

Lemma Run_creates_mount_pods_witness : mount_pod refused_pod /\ new_mount_pod redeployed_pod.
Proof.
  assert (mount_pod refused_pod) as Hp by (apply (bool_decide_unpack _); vm_compute; exact I). split; [exact Hp|].
  apply (Run_creates_mount_pods demo_mit refused_pod (sim_trace refused_pass refused_node) (Ok tt) redeployed_pod
           (inl redeployed_pod) Hp).
  - apply sim_exec. vm_compute. reflexivity.
  - apply (list_elem_of_lookup_2 _ 5%nat). vm_compute. reflexivity.
Defined.

(** ** Packages util and config *)

Definition delayed_pod : Pod := demo_pod {[DeleteDelayTimeKey := "10m"]}.

(** A node in the zone UTC+8. *)
Definition zone_handle (o : op) (w : sim) : resp o * sim :=
  match o return resp o * sim -> resp o * sim with
  | LocalOffset _ => fun _ => (28800, w)
  | _ => fun r => r
  end (sim_handle o w).

Lemma zone_resp_ok o w : resp_ok o (fst (zone_handle o w)).
Proof. destruct o; try exact I. simpl. reflexivity. Qed.

(** A delay of ten minutes that starts at the epoch. *)
Definition first_pass : list event * result bool * sim :=
  run zone_handle (ShouldDelay delayed_pod) (node_with {[DeleteDelayTimeKey := "10m"]}).

Lemma ShouldDelay_two_passes_witness :
  exists t1 off s,
    fst (fst first_pass) =
    [TimeNow ▷ t1; LocalOffset (t1 + 600000000000) ▷ off;
     PodsPatch "kube-system" "mosfs-node1-pvc-1" (StrategicMergeAnnotations {[DeleteDelayAtKey := s]}) ▷ None] /\
    (0 <= (t1 + 600000000000) / nanos + off < 253402300800 ->
     exec (ShouldDelay (annotated delayed_pod DeleteDelayAtKey s)) [TimeNow ▷ 660000000000] (Ok true) ->
     exists t2, [TimeNow ▷ 660000000000] = [TimeNow ▷ t2] /\
                @Ok bool true = Ok (t2 <? ((t1 + 600000000000) / nanos + off) * nanos)).
Proof.
  apply (ShouldDelay_two_passes delayed_pod "10m" 600000000000).
  - vm_compute. reflexivity.
  - vm_compute. reflexivity.
  - vm_compute. reflexivity.
  - apply (run_exec zone_handle _ (node_with {[DeleteDelayTimeKey := "10m"]}) _ _ (snd first_pass)); [apply zone_resp_ok|].
    vm_compute. reflexivity.
Defined.

(** Eleven minutes after the first pass the deletion is still put off. *)
Example delay_is_late :
  snd (fst (run zone_handle (ShouldDelay (annotated delayed_pod DeleteDelayAtKey (Format 28800 600000000000)))
              (set_clock 660000000000 sim_empty))) = Ok true.
Proof. vm_compute. reflexivity. Qed.
