(* ===== verification/ExamplesDriver.v ===== *)
(** * The services at work

    The properties of the provider, the console and the two services applied
    to concrete requests on the simulated node. *)
From S2P Require Import Prelude GoStrings GoPath GoTime Sha256 Json K8sTypes PatchText Prog Protocol Config K8sClient Util Kubelet Console MountInfoTable MountPod PodMount RefLock Sim ProcessMount Juicefs Secrets ControllerService NodeService Completion IdLocks PodDriver Reconciler Examples.
From stdpp Require Import options.
#[local] Open Scope Z_scope.

#[local] Arguments exec : simpl never.

(** ** The node service *)

Definition demo_publish : NodePublishVolumeRequest := publish_at demo_target.

Definition demo_NodePublish : prog unit := NodePublishVolume demo_cfg demo_lib 5 demo_publish.
Definition demo_NodeUnpublish : prog unit := NodeUnpublishVolume demo_cfg demo_lib 5 "pvc-1" demo_target.

(** Published and unpublished, the volume leaves no mount at the target and
    its pod is being deleted. *)
Example publish_unpublish :
  let w := sim_after demo_NodePublish sim_empty in
  let w' := sim_after demo_NodeUnpublish w in
  sim_result demo_NodePublish sim_empty = Ok tt /\ is_mounted w demo_target = true /\
  sim_result demo_NodeUnpublish w = Ok tt /\ is_mounted w' demo_target = false /\
  (fun p => DeletionTimestamp (Meta p)) <$> sim_pods w' !! ("kube-system", "mosfs-node1-pvc-1") = Some (Some 0).
Proof. vm_compute. split_and!; reflexivity. Qed.

Lemma NodePublishVolume_ok_witness :
  exists volCap t1 t2 opts mount fs vol bindSource bind,
    Some (mkCap MULTI_NODE_MULTI_WRITER None) = Some volCap /\ isValidVolumeCapabilities [volCap] = true /\
    sim_trace demo_NodePublish sim_empty = t1 ++ t2 ++ mount ++ vol ++ bind /\
    exec (CreateTarget 5 demo_target) t1 (Ok tt) /\
    exec (publish_options demo_publish volCap) t2 (Ok opts) /\
    exec (JfsMount demo_cfg demo_lib 5 "pvc-1" demo_target demo_secrets (Some {["subPath" := "pvc-1"]}) opts true)
      mount (Ok fs) /\
    exec (CreateVol demo_lib fs "pvc-1" "pvc-1" 0 EmptyString) vol (Ok bindSource) /\
    exec (checkBindAndMount (MountPath fs) bindSource demo_target) bind (Ok tt).
Proof.
  apply (NodePublishVolume_ok demo_cfg demo_lib 5 demo_publish). apply sim_exec. vm_compute. reflexivity.
Defined.

Definition published : sim := sim_after demo_NodePublish sim_empty.

Lemma NodeUnpublishVolume_ok_witness :
  demo_target <> EmptyString /\
  exists outs out e lazy cleanup uid id drop,
    sim_trace demo_NodeUnpublish published =
      (map (fun o => Command "umount" [demo_target] [] ▷ (o, None)) outs ++
       (Command "umount" [demo_target] [] ▷ (out, Some e)) :: lazy) ++ cleanup ++ uid ++ drop /\
    ((not_mounted_msg out = true /\ lazy = []) \/
     exists o, lazy = [Command "umount" ["-l"; demo_target] [] ▷ (o, None)]) /\
    exec (CleanupMountPoint demo_target) cleanup (Ok tt) /\
    exec (GetUniqueId "pvc-1") uid (Ok id) /\
    exec (JUmount demo_cfg 5 id demo_target) drop (Ok tt).
Proof.
  apply (NodeUnpublishVolume_ok demo_cfg demo_lib 5 "pvc-1" demo_target). apply sim_exec. vm_compute. reflexivity.
Defined.

(** The node serves both requests. *)
Lemma NodePublishVolume_completes_witness : sim_result demo_NodePublish sim_empty = Ok tt.
Proof.
  apply (NodePublishVolume_completes demo_cfg demo_lib 5 demo_publish (sim_trace demo_NodePublish sim_empty)).
  - by apply sim_exec.
  - vm_compute. reflexivity.
  - vm_compute. reflexivity.
  - vm_compute. reflexivity.
  - vm_compute. reflexivity.
  - apply Nat.ltb_lt. vm_compute. reflexivity.
  - apply Nat.ltb_lt. vm_compute. reflexivity.
Defined.

Lemma NodeUnpublishVolume_completes_witness : sim_result demo_NodeUnpublish published = Ok tt.
Proof.
  apply (NodeUnpublishVolume_completes demo_cfg demo_lib 5 "pvc-1" demo_target (sim_trace demo_NodeUnpublish published)).
  - by apply sim_exec.
  - discriminate.
  - vm_compute. reflexivity.
  - vm_compute. reflexivity.
  - vm_compute. reflexivity.
  - apply Nat.ltb_lt. vm_compute. reflexivity.
  - apply Nat.ltb_lt. vm_compute. reflexivity.
Defined.

Lemma CreateTarget_ok_witness :
  exists pre, (exists fi, sim_trace (CreateTarget 5 demo_target) sim_empty = pre ++ [OsStat demo_target ▷ inl fi]) \/
    exists e, IsNotExist e = true /\
      sim_trace (CreateTarget 5 demo_target) sim_empty = pre ++ [OsStat demo_target ▷ inr e; OsMkdirAll demo_target 493 ▷ None].
Proof. apply (CreateTarget_ok 5 demo_target). apply sim_exec. vm_compute. reflexivity. Defined.

(** A volume mounted at its path, and nothing at the target. *)
Definition mounted_node : sim := set_mounts [mkMI 7 "/" "/mosfs/pvc-1"] sim_empty.

Lemma checkBindAndMount_ok_witness :
  exists l rest m,
    sim_trace (checkBindAndMount "/mosfs/pvc-1" "/mosfs/pvc-1/pvc-1" demo_target) mounted_node = (ReadMountInfo ▷ inl l) :: rest /\
    mount_minor l "/mosfs/pvc-1" = Some m /\
    ((exists pre, rest = pre ++ [DoMount "/mosfs/pvc-1/pvc-1" demo_target fsTypeNone ["bind"] ▷ None]) \/
     (rest = [] /\ exists mi, mi ∈ l /\ mi_MountPoint mi = demo_target /\ mi_Minor <$> last l = Some m)).
Proof.
  apply (checkBindAndMount_ok "/mosfs/pvc-1" "/mosfs/pvc-1/pvc-1" demo_target). apply sim_exec. vm_compute. reflexivity.
Defined.

(** The target is bound to file system 9, the volume is 7, and the table ends
    with another mount of 7. *)
Definition stale_table : list MountInfo :=
  [mkMI 7 "/" "/mosfs/pvc-1"; mkMI 9 "/" demo_target; mkMI 7 "/x" other_target].

Lemma checkBindAndMount_reads_last_entry_witness :
  @nil event = [] /\ @Ok unit tt = Ok tt.
Proof.
  apply (checkBindAndMount_reads_last_entry "/mosfs/pvc-1" "/mosfs/pvc-1/pvc-1" demo_target stale_table
           (mkMI 9 "/" demo_target) 7).
  - reflexivity.
  - apply (list_elem_of_lookup_2 _ 1%nat). reflexivity.
  - reflexivity.
  - discriminate.
  - reflexivity.
  - exact (sim_exec (checkBindAndMount "/mosfs/pvc-1" "/mosfs/pvc-1/pvc-1" demo_target)
             (set_mounts stale_table sim_empty) (Ok tt) eq_refl).
Defined.

(** Two mounts are stacked on the target, and two rounds are not enough. *)
Definition always_mounted (o : op) (w : sim) : resp o * sim :=
  match o return resp o * sim -> resp o * sim with
  | Command _ _ _ => fun _ => ((EmptyString, None), w)
  | _ => fun r => r
  end (sim_handle o w).

Lemma umount_loop_fuel_witness :
  exists outs, length outs = 2%nat /\
    fst (fst (run always_mounted (umount_loop 2 demo_target) sim_empty)) =
      map (fun o => Command "umount" [demo_target] [] ▷ (o, None)) outs.
Proof.
  apply (umount_loop_fuel 2 demo_target).
  apply (run_exec always_mounted _ sim_empty _ _ sim_empty); [|reflexivity].
  intros o w. destruct o; try exact I. simpl. reflexivity.
Defined.

(** ** The controller service *)

Definition demo_create : CreateVolumeRequest :=
  mkCVR "pvc-1" (Some [mkCap MULTI_NODE_MULTI_WRITER None]) 1024 None demo_secrets None.
Definition demo_CreateVolume : prog CsiVolume := CreateVolume demo_cfg demo_lib 5 demo_create.
Definition demo_volume : CsiVolume := mkCsiVolume "pvc-1" 1024 {["subPath" := "pvc-1"]} None.

Lemma CreateVolume_ok_witness :
  demo_volume = mkCsiVolume "pvc-1" 1024 (<["subPath" := "pvc-1"]> ∅) None /\ "pvc-1" <> EmptyString /\
  exists capa mount content unmount fs,
    sim_trace demo_CreateVolume sim_empty =
      (LocksTryAcquire "pvc-1" ▷ true) :: (VolsGet "pvc-1" ▷ capa) :: (VolsSet "pvc-1" 1024 ▷ tt) ::
      mount ++ content ++ unmount ++ [LocksRelease "pvc-1" ▷ tt] /\
    (forall c, capa = Some c -> 1024 <= c) /\
    exec (JfsMount demo_cfg demo_lib 5 "pvc-1" EmptyString demo_secrets None [] false) mount (Ok fs) /\
    exec (create_content demo_lib fs demo_create (ParseQosParams None)) content (Ok tt) /\
    exec (JfsUnmount (MountPath fs)) unmount (Ok tt).
Proof.
  apply (CreateVolume_ok demo_cfg demo_lib 5 demo_create). apply sim_exec. vm_compute. reflexivity.
Defined.

(** The call is served under the lock of the volume. *)
Lemma serve_outcomes_witness :
  outcome (ReqCreateVolume demo_create)
    (sim_trace (serve demo_cfg demo_lib 5 (ReqCreateVolume demo_create)) sim_empty) (Ok tt).
Proof.
  apply (serve_outcomes demo_cfg demo_lib 5 (ReqCreateVolume demo_create)); [|discriminate].
  apply sim_exec. vm_compute. reflexivity.
Defined.

Lemma CreateVolume_larger_witness :
  [LocksRelease "pvc-1" ▷ tt] = [LocksRelease "pvc-1" ▷ tt] /\
  @Err CsiVolume (ErrStatus AlreadyExists "Volume: %q, capacity bytes: %d" ["pvc-1"; "1024"] None) =
  Err (ErrStatus AlreadyExists "Volume: %q, capacity bytes: %d" ["pvc-1"; itoa 1024] None).
Proof.
  apply (CreateVolume_larger demo_cfg demo_lib 5 demo_create 10).
  - discriminate.
  - discriminate.
  - reflexivity.
  - exact (sim_exec demo_CreateVolume (set_vols {["pvc-1" := 10]} sim_empty)
             (Err (ErrStatus AlreadyExists "Volume: %q, capacity bytes: %d" ["pvc-1"; "1024"] None)) eq_refl).
Defined.

Definition demo_Expand : prog (Z * bool) := ControllerExpandVolume demo_lib "pvc-1" (Some 2048) demo_secrets.

Lemma ControllerExpandVolume_ok_witness :
  Some 2048 = Some 2048 /\ false = false /\
  exists pre method url fields st ans,
    sim_trace demo_Expand sim_empty =
      (LocksTryAcquire "pvc-1" ▷ true) :: pre ++ [HttpDo method url (marshal (Jobj fields)) ▷ inl (st, ans, None);
                                                 LocksRelease "pvc-1" ▷ tt] /\
    st < 400 /\ (method = "POST" \/ method = "PUT") /\
    ("path", Jstr ("/" +:+ "pvc-1")) ∈ fields /\ ("size", Jnum 2048) ∈ fields.
Proof.
  apply (ControllerExpandVolume_ok demo_lib "pvc-1" (Some 2048) demo_secrets). apply sim_exec. vm_compute. reflexivity.
Defined.

(** ** The provider *)

Definition demo_jfs : jfs := mkJfs (mkConsole "console" "t0") "fs1" "/var/lib/mosfs/pvc-1" [] demo_setting.

Lemma JfsMount_ok_witness :
  exists fs id t1 t2 t3,
    sim_trace (JfsMount demo_cfg demo_lib 5 "pvc-1" demo_target demo_secrets None [] true) sim_empty = t1 ++ t2 ++ t3 /\
    exec (GetUniqueId "pvc-1") t1 (Ok id) /\
    MountPath fs = PathJoin [PodMountBase; id] /\ UsePod (jfs_Setting fs) = true /\
    exec (iJMount (NewPodMount demo_cfg (quantity_parses demo_lib) 5 (Some (jfs_Setting fs)))
            (Storage (jfs_Setting fs)) id (MountPath fs) demo_target []) t3 (Ok tt).
Proof.
  destruct (sim_result (JfsMount demo_cfg demo_lib 5 "pvc-1" demo_target demo_secrets None [] true) sim_empty)
    as [fs| | |] eqn:H; [|exfalso; vm_compute in H; discriminate H..].
  exists fs. apply (JfsMount_ok demo_cfg demo_lib 5 "pvc-1" demo_target demo_secrets None [] true). by apply sim_exec.
Defined.

Lemma CreateVol_ok_witness :
  "/var/lib/mosfs/pvc-1/pvc-1" = PathJoin [MountPath demo_jfs; "pvc-1"] /\
  exists pre fi ch post,
    sim_trace (CreateVol demo_lib demo_jfs "pvc-1" "pvc-1" 10 "0:0") sim_empty =
      pre ++ [OsStat "/var/lib/mosfs/pvc-1/pvc-1" ▷ inl fi] ++ ch ++ post /\
    ((fi_Perm fi = 511 /\ ch = []) \/ ch = [OsChmod "/var/lib/mosfs/pvc-1/pvc-1" 511 ▷ None]) /\
    exec (quota_and_qos demo_lib demo_jfs "pvc-1" 10 "0:0") post (Ok tt).
Proof.
  apply (CreateVol_ok demo_lib demo_jfs "pvc-1" "pvc-1" 10 "0:0"). apply sim_exec. vm_compute. reflexivity.
Defined.

(** A mount whose directory is still there. *)
Definition cleanup_node : sim :=
  set_files {["/var/lib/mosfs/pvc-1" := mkFI 2 493]} (set_mounts [mkMI 7 "/" "/var/lib/mosfs/pvc-1"] sim_empty).

Lemma JfsUnmount_removes_unmounted_witness :
  "/var/lib/mosfs/pvc-1" = "/var/lib/mosfs/pvc-1" /\
  exists pre, sim_trace (JfsUnmount "/var/lib/mosfs/pvc-1") cleanup_node =
    pre ++ [LikelyNotMountPoint "/var/lib/mosfs/pvc-1" ▷ inl true; OsRemove "/var/lib/mosfs/pvc-1" ▷ None].
Proof.
  apply (JfsUnmount_removes_unmounted "/var/lib/mosfs/pvc-1" _ (Ok tt)).
  - apply sim_exec. vm_compute. reflexivity.
  - apply (list_elem_of_lookup_2 _ 3%nat). vm_compute. reflexivity.
Defined.

Definition secrets_with (token key : string) : gomap :=
  Some (<["name" := "fs1"]> (<["token" := token]> {["secretkey" := key]})).

(** ** The log *)

(** The line that two files of secrets with the same name have in common. *)
Definition auth_log : list event :=
  [Infof "AuthFs: cmd %q, args %#v" [[CliPath]; ["auth"; "fs1"; "--accesskey="; "--token=[secret]"; "--secretkey=[secret]"]] ▷ tt].

Lemma AuthFs_log_hides_witness :
  calls is_log (sim_trace (AuthFs (secrets_with "t1" "k1") None) sim_empty) = auth_log /\
  exists tr2, exec (AuthFs (secrets_with "t2" "k2") None) tr2 (sim_result (AuthFs (secrets_with "t1" "k1") None) sim_empty) /\
    Forall2 alike (sim_trace (AuthFs (secrets_with "t1" "k1") None) sim_empty) tr2 /\
    calls is_log tr2 = calls is_log (sim_trace (AuthFs (secrets_with "t1" "k1") None) sim_empty).
Proof.
  split; [vm_compute; reflexivity|].
  apply (AuthFs_log_hides (gm (secrets_with "t1" "k1")) (gm (secrets_with "t2" "k2")) None).
  - split.
    + intros k Hk. unfold mget, mlookup, secrets_with. cbn [gm default from_option id].
      destruct (decide (k = "name")) as [->|Hn]; [reflexivity|].
      rewrite !lookup_insert_ne, !lookup_singleton_ne by (intros <-; first [by apply Hn|apply Hk; repeat constructor]). reflexivity.
    + intros k Hk. set_unfold in Hk. destruct Hk as [->|[->|[]]]; vm_compute; reflexivity.
  - apply sim_exec. vm_compute. reflexivity.
Defined.

(** The formatting hides the password in the address of the metadata engine,
    and the mount that follows logs it. *)
Definition ce_secrets : gomap := Some (<["metaurl" := "redis://:pw@db/1"]> (gm demo_secrets)).

Example metaurl_is_logged :
  map (@projT1 op resp) (calls is_log (sim_trace (JfsMount demo_cfg demo_lib 5 "pvc-1" demo_target ce_secrets None [] true) sim_empty)) =
  [Infof "ceFormat: cmd %q, args %#v" [[CeCliPath];
     ["format"; "--storage="; "--bucket="; "--access-key="; "--secret-key=[secret]"; "[metaurl]"; "fs1"]];
   Infof "Mount: mounting %q at %q with options %v" [["redis://:pw@db/1"]; ["/mosfs/pvc-1"]; []]].
Proof. vm_compute. reflexivity. Qed.

Lemma snapshot_path_roundtrip_witness :
  Base "/var/lib/mosfs/pvc-1/pvc-1_snap-1" = "pvc-1_snap-1" /\
  PathJoin ["/var/lib/mosfs/pvc-1"; Base "/var/lib/mosfs/pvc-1/pvc-1_snap-1"] = "/var/lib/mosfs/pvc-1/pvc-1_snap-1".
Proof. apply (snapshot_path_roundtrip demo_jfs "pvc-1" "snap-1"); reflexivity. Defined.

(** ** The console *)

Definition demo_console : Console := mkConsole "console" "t0".

Lemma GetQuota_ok_witness :
  exists st b vols v st' b' quotas,
    sim_trace (GetQuota demo_lib demo_console "fs1" "/pvc-1") sim_empty =
    [HttpDo "GET" (api demo_console EmptyString) EmptyString ▷ inl (st, b, None);
     HttpDo "GET" (api demo_console ("/" +:+ itoa (vi_Id v) +:+ "/quotas")) EmptyString ▷ inl (st', b', None)] /\
    unmarshal_volumes b = inl vols /\ v ∈ vols /\ vi_Name v = "fs1" /\
    unmarshal_quotas b' = inl quotas /\
    ("/pvc-1" = "/pvc-1" /\ 3 = vi_Id v /\
     exists q', q' ∈ quotas /\ q_Id q' = 5 /\ q_Path q' = "/pvc-1" /\ q_Size q' = 10 /\ q_Inode q' = 0).
Proof.
  apply (GetQuota_ok demo_lib demo_console "fs1" "/pvc-1" _ (Some (mkQuota 5 3 "/pvc-1" 10 0))).
  apply sim_exec. vm_compute. reflexivity.
Defined.

Lemma CreateQuota_ok_witness :
  exists st b vols v st' b',
    sim_trace (CreateQuota demo_lib demo_console "fs1" "/pvc-1" 0 10) sim_empty =
    [HttpDo "GET" (api demo_console EmptyString) EmptyString ▷ inl (st, b, None);
     HttpDo "POST" (api demo_console ("/" +:+ itoa (vi_Id v) +:+ "/quotas"))
       (marshal (Jobj [("inodes", Jnum 0); ("path", Jstr "/pvc-1"); ("size", Jnum 10)])) ▷ inl (st', b', None)] /\
    unmarshal_volumes b = inl vols /\ v ∈ vols /\ vi_Name v = "fs1" /\ st' < 400.
Proof.
  apply (CreateQuota_ok demo_lib demo_console "fs1" "/pvc-1" 0 10). apply sim_exec. vm_compute. reflexivity.
Defined.

(** ** The process mount *)

Definition ce_setting : JfsSetting := with_source "redis://h/1" demo_setting.

Lemma process_JMount_ready_witness :
  exists pre args envs waits fi,
    sim_trace (process_JMount ce_setting EmptyString "pvc-1" "/var/lib/mosfs/pvc-1" EmptyString []) sim_empty =
      pre ++ [Spawn CeMountPath args envs ▷ tt] ++ waits ++ [OsStat "/var/lib/mosfs/pvc-1" ▷ inl fi] /\
    fi_Ino fi = 1 /\ (length waits <= 58)%nat.
Proof.
  apply (process_JMount_ready ce_setting EmptyString "pvc-1" "/var/lib/mosfs/pvc-1" EmptyString []).
  - reflexivity.
  - apply sim_exec. vm_compute. reflexivity.
Defined.

(** ** Settings *)

Definition parsed_setting : JfsSetting :=
  mkSetting false true "fs1" EmptyString EmptyString EmptyString None (Some {["BASE_URL" := "http://console"]})
    EmptyString EmptyString EmptyString EmptyString "1h30m".

Lemma ParseSetting_ok_witness :
  ("1h30m" = EmptyString \/ is_Some (ParseDuration "1h30m")) /\
  (true = true -> true = true) /\ (demo_secrets = None \/ "fs1" <> EmptyString) /\
  (false = true <-> is_Some (mlookup demo_secrets "metaurl")).
Proof.
  apply (ParseSetting_ok (yaml_map demo_lib) demo_secrets
           (Some {["mountpod/mount-delete-delay" := "1h30m"]}) true parsed_setting).
  vm_compute. reflexivity.
Defined.

(** ** The reconcilers *)

(** The kubelet of the node reports the pods of the simulated node. *)
Definition demo_kubelet : KubeletClient := mkKubelet "10.0.0.1" 10250 "token" None 10000000000.
Definition demo_pods : list Pod := map snd (map_to_list (sim_pods (node_with both))).
Definition demo_poll : prog (list (prog unit)) := doReconcile demo_cfg 1000 (fun _ => inl (Some demo_pods)) demo_kubelet.
Definition demo_tasks : list (prog unit) :=
  match sim_result demo_poll (node_with both) with Ok tasks => tasks | _ => [] end.

Lemma doReconcile_selects_witness :
  demo_tasks = [] \/
  exists podList get l, sim_trace demo_poll (node_with both) = get ++ [ReadMountInfo ▷ inl l] /\
    exec (GetNodeRunningPods (fun _ => inl (Some demo_pods)) demo_kubelet) get (Ok (Some podList)) /\
    demo_tasks = map (fun pod => group_go (reconcile_pod 1000 (mkMit l ∅) podList pod))
              (List.filter (fun p => String.eqb (pod_Namespace p) "kube-system" &&
                 bool_decide (mlookup (Labels (Meta p)) PodTypeKey = Some PodTypeValue)) podList).
Proof.
  apply (doReconcile_selects demo_cfg 1000 (fun _ => inl (Some demo_pods)) demo_kubelet).
  by apply sim_exec.
Defined.

(** One goroutine is started, for the one mount pod of the node. *)
Example poll_one_task :
  length demo_tasks = 1%nat.
Proof. vm_compute. reflexivity. Qed.

(** One volume of the driver is claimed in the namespace "apps". *)
Definition claims_handle (o : op) (w : sim) : resp o * sim :=
  match o return resp o * sim -> resp o * sim with
  | PVList => fun _ => (inl [mkPV "pv1" "sc" (Some DriverName) (Some "apps")], w)
  | _ => fun r => r
  end (sim_handle o w).

Lemma claims_resp_ok o w : resp_ok o (fst (claims_handle o w)).
Proof. destruct o; try exact I. simpl. reflexivity. Qed.

Definition listing : list event * result (list Pod) * sim := run claims_handle (ListAppPod false) sim_empty.

Lemma ListAppPod_complete_witness :
  exists pvs rest, fst (fst listing) = (PVList ▷ inl pvs) :: rest /\
    forall pv ns, pv ∈ pvs -> pv_CSIDriver pv = Some DriverName -> pv_ClaimNamespace pv = Some ns ->
      exists rv l, (PodsList ns rv ▷ inl l) ∈ fst (fst listing) /\ l ⊆ [].
Proof.
  apply (ListAppPod_complete false).
  apply (run_exec claims_handle _ sim_empty _ _ (snd listing)); [apply claims_resp_ok|vm_compute; reflexivity].
Defined.

(** A pod whose deletion is due ten minutes after the epoch. *)
Definition dated : gmap string string :=
  <[DeleteDelayAtKey := Format 0 600000000000]> (<[DeleteDelayTimeKey := "10m"]> ∅).
Definition demo_Reconcile : prog Result := Reconcile demo_cfg false "mosfs-node1-pvc-1" "kube-system".

Lemma Reconcile_requeue_witness :
  exists mountPod pre t now,
    sim_trace demo_Reconcile (node_with dated) =
      (PodsGet "mosfs-node1-pvc-1" "kube-system" ▷ inl mountPod) :: pre ++ [TimeNow ▷ now] /\
    GetTime (mget (pod_Annotations mountPod) DeleteDelayAtKey) = inl t /\
    600000000000 = Z.max 0 (Z.min (2 ^ 63 - 1) (t - now)).
Proof.
  apply (Reconcile_requeue demo_cfg false "mosfs-node1-pvc-1" "kube-system" _ (mkResult true 600000000000)).
  - apply sim_exec. vm_compute. reflexivity.
  - reflexivity.
Defined.
