(* ===== verification/ExamplesPolling.v ===== *)
(** * The polling loop, run

    Concrete turns of the polling loop: the witnesses of [Polling] and
    [Backoff], and the two interleavings in which the variable that the
    goroutines share carries the outcome of one pass to another pod. *)
From S2P Require Import Prelude GoStrings GoTime K8sTypes PatchText Prog Protocol Config K8sClient Util MountInfoTable PodDriver Reconciler Backoff Polling Sim Examples.
From stdpp Require Import options.
#[local] Open Scope Z_scope.

#[local] Arguments exec : simpl never.

(** ** A turn over two pods *)

Definition named_pod (n : string) : Pod :=
  let p := demo_pod ∅ in
  mkPod (mkMeta n "kube-system" n (Some {[PodTypeKey := PodTypeValue]}) (Some ∅) (Some [Finalizer]) None) (Spec p) (Status p).

(** Two mount pods without references, which their passes delete. *)
Definition pod_a : Pod := named_pod "a".
Definition pod_b : Pod := named_pod "b".

Definition two_goroutines : list (prog unit) := goroutines 1000 (mkMit [] ∅) [] [pod_a; pod_b].
Definition first_turn : turn_state := mkTurn [] false reconciler_backoff 0.

(** A server that refuses to delete the first pod. *)
Definition refusing (o : op) (w : turn_state) : resp o * turn_state :=
  match o return resp o -> resp o * turn_state with
  | ErrStore e => fun _ => (tt, assign e w)
  | ErrLoad => fun _ => (err_value w, w)
  | GroupCancel _ => fun _ => (tt, cancel_group w)
  | CtxDone _ => fun _ => (if cancelled w then Some Canceled else None, w)
  | BackOffActive id => fun _ => (IsInBackOffSinceUpdate (table w) id (clock w), w)
  | BackOffNext id => fun _ => (tt, with_table (Next (table w) id (clock w) (clock w)) w)
  | BackOffReset id => fun _ => (tt, with_table (Reset (table w) id) w)
  | PodsDelete _ n => fun _ => (if String.eqb n "a" then Some (ErrApi (ReasonOther "Timeout")) else None, w)
  | _ => fun x => (x, w)
  end (fst (sim_handle o sim_empty)).

Lemma refusing_answer o w :
  true = true -> turn_answer o w (fst (refusing o w)) (snd (refusing o w)) /\ resp_ok o (fst (refusing o w)).
Proof.
  intros _. split; [|destruct o; try exact I; simpl; reflexivity].
  exists (clock w). split; [lia|]. replace (at_time (clock w) w) with w by (by destruct w).
  destruct o; try reflexivity; try (by split).
  - simpl. by destruct (cancelled w).
  - simpl. exists (clock w). split; [lia|done].
Qed.

Definition play (l : list nat) := sched (fun _ _ => true) refusing l (mkConf first_turn two_goroutines).
Definition back_off (id : string) (w : turn_state) : Z := Get (table w) id.
Definition refused : error := ErrApi (ReasonOther "Timeout").

(** The calls of a goroutine up to its assignment. *)
Definition until_assigned (i : nat) (pod : Pod) (e : option error) : list (nat * event) :=
  map (pair i)
    [CtxDone 1000 ▷ None; BackOffActive (backOffID pod) ▷ false; RangeMap ∅ ▷ [];
     PodsDelete "kube-system" (pod_Name pod) ▷ e; ErrStore e ▷ tt].

Lemma played l id tr b :
  (fun r => (r.1, back_off id (world r.2))) <$> play l = Some (tr, b) ->
  exists c', steps turn_answer (mkConf first_turn two_goroutines) tr c' /\ back_off id (world c') = b.
Proof. apply (sched_view (fun _ _ => true) refusing turn_answer refusing_answer). Qed.

(** C39 The pass over the first pod fails and the one over the second succeeds.
    In one interleaving the failure is overwritten before it is looked at,
    and the back-off of the first pod is reset; in another the second
    goroutine finds the failure of the first, and its pod is put in
    back-off. *)
Theorem shared_err_race :
  (exists tr c', steps turn_answer (mkConf first_turn two_goroutines) tr c' /\
     passed 1000 (mkMit [] ∅) [] [pod_a; pod_b] 0 (Err refused) tr /\
     (0%nat, BackOffReset "mountpod/a" ▷ tt) ∈ tr /\ back_off "mountpod/a" (world c') = 0) /\
  (exists tr c', steps turn_answer (mkConf first_turn two_goroutines) tr c' /\
     passed 1000 (mkMit [] ∅) [] [pod_a; pod_b] 1 (Ok tt) tr /\
     (1%nat, BackOffNext "mountpod/b" ▷ tt) ∈ tr /\ back_off "mountpod/b" (world c') = retryPeriod).
Proof.
  split.
  - set (tr := until_assigned 0 pod_a (Some refused) ++ until_assigned 1 pod_b None ++
                 [(0%nat, ErrLoad ▷ None); (0%nat, BackOffReset "mountpod/a" ▷ tt)]).
    destruct (played ([0; 0; 0; 0; 0; 1; 1; 1; 1; 1; 0; 0]%nat) "mountpod/a" tr 0) as (c' & H & Hb);
      [vm_compute; reflexivity|].
    exists tr, c'. split_and!; [done| |unfold tr; set_solver|done].
    apply (assigned_outcome 1000 _ [] _ (mkConf first_turn two_goroutines) tr c' 0 (Some refused)); [done..|].
    apply (list_elem_of_lookup_2 _ 4%nat). reflexivity.
  - set (tr := until_assigned 1 pod_b None ++ until_assigned 0 pod_a (Some refused) ++
                 [(1%nat, ErrLoad ▷ Some refused); (1%nat, BackOffNext "mountpod/b" ▷ tt)]).
    destruct (played ([1; 1; 1; 1; 1; 0; 0; 0; 0; 0; 1; 1]%nat) "mountpod/b" tr retryPeriod) as (c' & H & Hb);
      [vm_compute; reflexivity|].
    exists tr, c'. split_and!; [done| |unfold tr; set_solver|done].
    apply (assigned_outcome 1000 _ [] _ (mkConf first_turn two_goroutines) tr c' 1 None); [done..|].
    apply (list_elem_of_lookup_2 _ 4%nat). reflexivity.
Qed.

(** The first goroutine runs to its end before the second begins, which finds
    the group cancelled. *)
Definition one_after_the_other : list (nat * event) :=
  until_assigned 0 pod_a (Some refused) ++
  [(0%nat, ErrLoad ▷ Some refused); (0%nat, BackOffNext "mountpod/a" ▷ tt); (0%nat, ErrLoad ▷ Some refused);
   (0%nat, GroupCancel refused ▷ tt); (1%nat, CtxDone 1000 ▷ Some Canceled)].


(** Eight failures, a minute and a half apart. *)
Definition eight_failures : list (Z * Z) := map (fun i => (90 * second * i, 90 * second * i)) (seqZ 0 8).

Lemma failures_double_witness :
  sane reconciler_backoff /\ bounded reconciler_backoff /\
  Get (failures reconciler_backoff "mountpod/a" eight_failures) "mountpod/a" = maxRetryPeriod /\
  Get (failures reconciler_backoff "mountpod/a" (take 3 eight_failures)) "mountpod/a" = 20 * second.
Proof.
  assert (sane reconciler_backoff) as Hs by (unfold sane; vm_compute; done).
  assert (bounded reconciler_backoff) as Hb by apply map_Forall_empty.
  split_and!; [done|done| |].
  - apply (failures_double reconciler_backoff "mountpod/a" 0 0 (tail eight_failures)); [done|done|reflexivity|].
    vm_compute. repeat (split; [discriminate|]). exact I.
  - apply (failures_double reconciler_backoff "mountpod/a" 0 0 (tail (take 3 eight_failures))); [done|done|reflexivity|].
    vm_compute. repeat (split; [discriminate|]). exact I.
Defined.
