(* ===== verification/ExamplesWarmup.v ===== *)
(** * The warm-up controller at work

    The properties of [Warmup.v] applied to a cluster with one application pod
    and a shared mount pod on its node. *)
From S2P Require Import Prelude GoStrings GoPath GoTime Sha256 K8sTypes PatchText Prog Protocol Config K8sClient Util MountPod PodMount RefLock Sim Juicefs PodDriver Reconciler Warmup Examples.
From stdpp Require Import options.
#[local] Open Scope Z_scope.

#[local] Arguments exec : simpl never.

(** An application pod on node1 uses the claim "data", bound to pvc-1. *)
Definition app_pod : Pod :=
  mkPod (mkMeta "app" "apps" "uid-1" None None None None)
    (mkSpec [] [mkVolume "v" (PersistentVolumeClaim "data")] "node1" None "Always") zeroStatus.

Definition demo_cache : Cache := mkCache "warm" "apps" None "data" "models" false EmptyString.

Definition warm_handle (o : op) (w : sim) : resp o * sim :=
  match o return resp o * sim -> resp o * sim with
  | CacheGet _ _ => fun _ => (inl demo_cache, w)
  | ClaimGet _ _ => fun _ => (inl (mkClaim (Some "sc") "pvc-1"), w)
  | PVGet _ => fun _ => (inl (mkPV "pvc-1" "sc" (Some DriverName) (Some "apps")), w)
  | _ => fun r => r
  end (sim_handle o w).

Lemma warm_resp_ok o w : resp_ok o (fst (warm_handle o w)).
Proof. destruct o; try exact I. simpl. reflexivity. Qed.

(** The mount pod of the shared class runs on the node. *)
Definition shared_node : sim :=
  set_env (<["STORAGE_CLASS_SHARE_MOUNT" := "true"]> {["MOSFS_MOUNT_NAMESPACE" := "kube-system"]})
    (set_pods (<[("apps", "app") := app_pod]> {[("kube-system", "mosfs-node1-sc") := demo_pod ∅]}) sim_empty).

Definition demo_warm_up : prog (Result * option error) := Warmup.Reconcile (fun _ => EmptyString) "apps" "warm".
Definition warming : list event * result (Result * option error) * sim := run warm_handle demo_warm_up shared_node.

Lemma warming_exec : exec demo_warm_up (fst (fst warming)) (Ok (mkResult false 0, None)).
Proof. apply (run_exec warm_handle _ shared_node _ _ (snd warming)); [apply warm_resp_ok|vm_compute; reflexivity]. Qed.

Lemma Reconcile_done_witness :
  mkResult false 0 = mkResult false 0 /\
  ((exists e, fst (fst warming) = [CacheGet "apps" "warm" ▷ inr e] /\ IsNotFound e = true) \/
   exists cache t, fst (fst warming) = (CacheGet "apps" "warm" ▷ inl cache) :: t /\
     ((is_Some (cache_DeletionTimestamp cache) /\ exists d, t = [CacheDelete cache ▷ d] /\
         match d with Some e => IsNotFound e = true | None => True end) \/
      (cache_DeletionTimestamp cache = None /\ Cached cache = true /\ t = []) \/
      (cache_DeletionTimestamp cache = None /\ Cached cache = false /\
       exists claim scName share pods mountNamespace execs,
         pvc_StorageClassName claim = Some scName /\ used_nodes (PvcName cache) pods <> [] /\
         t = prepared "apps" cache claim share pods mountNamespace ++ execs ++
               [CacheStatusUpdate (with_status true (cache_Message cache) cache) ▷ None] /\
         Forall2 (warmed scName (pvc_VolumeName claim)
                    (cache_path (share_mount share) scName (pvc_VolumeName claim) (cache_Path cache))
                    mountNamespace (share_mount share))
           (used_nodes (PvcName cache) pods) execs))).
Proof. apply (Reconcile_done (fun _ => EmptyString) "apps" "warm"). exact warming_exec. Defined.

Lemma Reconcile_marks_witness :
  calls is_warm_up (fst (fst warming)) = [] \/
  exists cache claim scName share pods mountNamespace execs c x,
    cache_DeletionTimestamp cache = None /\ Cached cache = false /\ pvc_StorageClassName claim = Some scName /\
    fst (fst warming) = (CacheGet "apps" "warm" ▷ inl cache) :: prepared "apps" cache claim share pods mountNamespace ++
           execs ++ [CacheStatusUpdate c ▷ x] /\
    Forall (fun e => exists node y, e = (PodExec mountNamespace
              (mount_pod_name (share_mount share) node scName (pvc_VolumeName claim))
              (warm_up_command (cache_path (share_mount share) scName (pvc_VolumeName claim) (cache_Path cache))) ▷ y))
      execs /\
    (Cached c = true ->
       c = with_status true (cache_Message cache) cache /\
       Forall2 (warmed scName (pvc_VolumeName claim)
                  (cache_path (share_mount share) scName (pvc_VolumeName claim) (cache_Path cache))
                  mountNamespace (share_mount share))
         (used_nodes (PvcName cache) pods) execs).
Proof. apply (Reconcile_marks (fun _ => EmptyString) "apps" "warm" _ (Ok (mkResult false 0, None))). exact warming_exec. Defined.

(** One command, on the directory of the volume below the shared mount. *)
Example warming_command :
  map (fun e => match e with existT (PodExec ns n cmd) _ => Some (ns, n, cmd) | _ => None end)
    (calls is_warm_up (fst (fst warming))) =
  [Some ("kube-system", "mosfs-node1-sc", ["/usr/bin/dfscli"; "warmup"; "/mosfs/sc/pvc-1/models"]); None].
Proof. vm_compute. reflexivity. Qed.

(** The node service looks up the unique id in the same cluster. *)
Definition shared_id : list event * result string * sim := run warm_handle (GetUniqueId "pvc-1") shared_node.

Lemma warm_up_finds_mount_witness :
  exists share, (LookupEnv "STORAGE_CLASS_SHARE_MOUNT" ▷ share) ∈ fst (fst shared_id) /\
    let mountPath := PathJoin [PodMountBase; "sc"] in
    mount_pod_name (share_mount share) "node1" "sc" "pvc-1" = GeneratePodNameByVolumeId demo_cfg "sc" /\
    cache_path (share_mount share) "sc" "pvc-1" EmptyString =
      (if share_mount share then PathJoin [mountPath; "pvc-1"] else mountPath) /\
    (cache_path (share_mount share) "sc" "pvc-1" "models" = PathJoin [PathJoin [mountPath; "pvc-1"]; "models"] <->
     share_mount share = true).
Proof.
  apply (warm_up_finds_mount demo_cfg "pvc-1" "sc" (fst (fst shared_id)) "sc" "models").
  - apply (run_exec warm_handle _ shared_node _ _ (snd shared_id)); [apply warm_resp_ok|vm_compute; reflexivity].
  - intros g Hg. exists (mkPV "pvc-1" "sc" (Some DriverName) (Some "apps")). split; [|done].
    apply (event_inj (PVGet "pvc-1")). revert Hg.
    replace (fst (fst shared_id)) with
      ([LookupEnv "STORAGE_CLASS_SHARE_MOUNT" ▷ Some "true";
        PVGet "pvc-1" ▷ inl (mkPV "pvc-1" "sc" (Some DriverName) (Some "apps"))]) by (vm_compute; reflexivity).
    rewrite elem_of_cons, list_elem_of_singleton. intros [Hg|Hg]; [by apply (f_equal projT1) in Hg|done].
  - reflexivity.
  - reflexivity.
  - reflexivity.
Defined.
