(* ===== verification/ExamplesStartup.v ===== *)
(** * The processes at work

    The properties of [Kubelet.v], [Driver.v] and [Startup.v] applied to the
    environment of a driver pod, and a mount against the fake client. *)
From S2P Require Import Prelude GoStrings GoPath GoTime Json K8sTypes PatchText Prog Config K8sClient Util Kubelet MountPod PodMount FakeClient Sim Driver Flags Startup.
From stdpp Require Import options.
#[local] Open Scope Z_scope.

#[local] Arguments exec : simpl never.

Definition container (name image : string) : Container :=
  mkContainer name image [] false (mkRes None None) [] [] [] [].

Definition driver_pod : Pod :=
  mkPod (mkMeta "csi-0" "kube-system" "uid-0" None None None None)
    (mkSpec [container "registrar" "registrar:1"; container "mosfs-plugin" "mosfs:7"] [] "node1" None "Always") zeroStatus.

Definition driver_env : gmap string string :=
  list_to_map [("NODE_NAME", "node1"); ("MOSFS_MOUNT_NAMESPACE", "kube-system"); ("POD_NAME", "csi-0");
               ("MOSFS_MOUNT_PATH", "/var/lib/mosfs/volume"); ("MOSFS_CONFIG_PATH", "/var/lib/mosfs/config");
               ("HOST_IP", "10.0.0.1"); ("KUBELET_PORT", "10250"); ("MOSFS_RECONCILE_TIMEOUT", "10m")].

Definition driver_node : sim := set_env driver_env (set_pods {[("kube-system", "csi-0") := driver_pod]} sim_empty).

Definition demo_vars : Vars :=
  mkVars (mkConfig "node1" "kube-system" "mosfs:7" "/var/lib/mosfs/volume" "/var/lib/mosfs/config")
    "csi-0" "10.0.0.1" "10250" 600000000000.

(** The flags of klog that the manifests of the driver set. *)
Definition klog_flags : LibFlags := fun name =>
  if String.eqb name "logtostderr" then Some (true, fun s => bool_decide (is_Some (ParseBool s)))
  else if String.eqb name "v" then Some (false, fun s => bool_decide (is_Some (Atoi s)))
  else None.

(** The command line of the daemon set. *)
Definition demo_args : list string :=
  ["--endpoint=unix://tmp/csi.sock"; "--logtostderr"; "--nodeid=node1"; "--v=5"; "--enable-manager=true"].
Definition demo_flags : Flags := mkFlags "unix://tmp/csi.sock" false "node1" true.

Example parse_demo : parse_flags klog_flags demo_args = Parsed demo_flags [].
Proof. vm_compute. reflexivity. Qed.

Lemma parse_flags_iff_witness :
  exists sets tail, demo_args = concat (map setting_args sets) ++ tail /\ after_flags tail [] /\
    forallb (fun s => setting_ok (driver_flags klog_flags) s && setting_accepted klog_flags s) sets = true /\
    demo_flags = mkFlags (last_text "endpoint" sets "unix://tmp/csi.sock") (last_bool "version" sets false)
                   (last_text "nodeid" sets EmptyString) (last_bool "enable-manager" sets false).
Proof. apply (parse_flags_iff klog_flags demo_args demo_flags []). vm_compute. reflexivity. Defined.

Example parse_spellings :
  parse_flags klog_flags ["-nodeid"; "a"; "--nodeid"; "b"; "-version"; "false"] = Parsed (mkFlags "unix://tmp/csi.sock" true "b" false) ["false"] /\
  parse_flags klog_flags ["-nodeid"] = Failed /\ parse_flags klog_flags ["--version=yes"] = Failed /\
  parse_flags klog_flags ["--nodeid"; "--version"] = Parsed (mkFlags "unix://tmp/csi.sock" false "--version" false) [] /\
  parse_flags klog_flags ["--"; "--version"] = Parsed default_flags ["--version"] /\
  parse_flags klog_flags ["-h"] = Help /\ parse_flags klog_flags ["---version"] = Failed.
Proof. vm_compute. split_and!; reflexivity. Qed.

Example warmup_defaults :
  parse_warmup_flags klog_flags ["--leader-elect=false"] = Parsed (mkWarmupFlags ":8080" ":8081" false) [].
Proof. vm_compute. reflexivity. Qed.

Example init_demo : sim_result (init klog_flags demo_args) driver_node = Ok (Continue (demo_flags, demo_vars)).
Proof. vm_compute. reflexivity. Qed.

Lemma init_ok_witness :
  (exists rest, parse_flags klog_flags demo_args = Parsed demo_flags rest) /\
  "csi-0" <> EmptyString /\ "kube-system" <> EmptyString /\
  (exists pod c, (PodsGet "csi-0" "kube-system" ▷ inl pod) ∈ sim_trace (init klog_flags demo_args) driver_node /\
     c ∈ Containers (Spec pod) /\ cn_Name c = "mosfs-plugin" /\ "mosfs:7" = cn_Image c) /\
  defaultReconcileTimeout <= 600000000000 /\
  (exists t, (LookupEnv "MOSFS_RECONCILE_TIMEOUT" ▷ t) ∈ sim_trace (init klog_flags demo_args) driver_node /\
     forall d, ParseDuration (default EmptyString t) = Some d -> defaultReconcileTimeout < d -> 600000000000 = d).
Proof. apply (init_ok klog_flags demo_args _ demo_flags demo_vars). apply sim_exec. vm_compute. reflexivity. Defined.

(** ** The whole process *)

Definition demo_url (s : string) : URL + error := inl (mkURL "unix" "tmp" "/csi.sock").
Definition demo_build : Build := mkBuild "v1" "abc" "2023" "go1.19" "gc" "linux" "amd64".
Definition demo_pods (s : string) : option (list Pod) + error := inl (Some []).
Definition demo_process : prog (flow unit) := process klog_flags demo_build demo_url demo_pods demo_args.

(** The reconciler polls and the server was started and stopped. *)
Example process_demo :
  sim_result demo_process driver_node = Ok (Continue tt) /\
  map projT1 (calls is_main (sim_trace demo_process driver_node)) =
    [GoReconcile (mkClient false)
       (mkKubelet "10.0.0.1" 10250 "token"
          (Some (mkTLS EmptyString EmptyString EmptyString EmptyString EmptyString EmptyString true)) 10000000000);
     Serve].
Proof. split; vm_compute; reflexivity. Qed.

Lemma process_one_reconciler_witness :
  let tr := sim_trace demo_process driver_node in
  (length (calls is_go tr) <= 1)%nat /\
  (calls is_go tr <> [] -> enables_manager klog_flags demo_args = true) /\
  (forall x, (Serve ▷ x) ∈ tr -> enables_manager klog_flags demo_args = true -> length (calls is_go tr) = 1%nat) /\
  (forall ks kc, (GoReconcile ks kc ▷ tt) ∈ calls is_go tr ->
     exists pre t post pods, tr = pre ++ t ++ post /\ exec (GetNodeRunningPods demo_pods kc) t (Ok pods)).
Proof.
  apply (process_one_reconciler klog_flags demo_build demo_url demo_pods demo_args _ (Ok (Continue tt))).
  apply sim_exec. vm_compute. reflexivity.
Defined.

Lemma process_serves_witness :
  exists flags rest, parse_flags klog_flags demo_args = Parsed flags rest /\ f_version flags = false /\ f_nodeID flags <> EmptyString /\
  exists pre services sock scheme addr y d,
    sim_trace demo_process driver_node = pre ++ services ++ sock ++ [NetListen scheme addr ▷ None; Serve ▷ y] /\
    exec (NewDriver (f_endpoint flags) (f_nodeID flags)) services (Ok d) /\
    exec (ParseEndpoint demo_url (f_endpoint flags)) sock (Ok (scheme, addr)).
Proof.
  apply (process_serves klog_flags demo_build demo_url demo_pods demo_args _ (Ok (Continue tt)) None).
  - apply sim_exec. vm_compute. reflexivity.
  - apply (list_elem_of_lookup_2 _ (length (sim_trace demo_process driver_node) - 1)). vm_compute. reflexivity.
Defined.

Definition version_args : list string := ["--version"].
Definition demo_version : prog (flow unit) := process klog_flags demo_build demo_url demo_pods version_args.

Lemma version_needs_pod_witness :
  calls is_println (sim_trace demo_version sim_empty) = [] /\
  forall fl rest, parse_flags klog_flags version_args = Parsed fl rest -> Ok (Exit fatal) = @Ok (flow unit) (Exit fatal).
Proof.
  apply (version_needs_pod klog_flags demo_build demo_url demo_pods version_args).
  - apply sim_exec. vm_compute. reflexivity.
  - intros x Hx. assert (Forall (fun e => e = (LookupEnv (match projT1 e with LookupEnv k => k | _ => EmptyString end) ▷ None))
      (sim_trace demo_version sim_empty)) as Hall by (repeat constructor).
    rewrite Forall_forall in Hall. apply Hall in Hx. simpl in Hx. by apply event_inj in Hx.
Defined.

(** In the pod, the version is printed. *)
Example version_demo : map projT1 (calls is_main (sim_trace demo_version driver_node)) = [Println (GetVersionJSON demo_build)].
Proof. vm_compute. reflexivity. Qed.

Lemma ParseEndpoint_ok_witness :
  exists u, demo_url "unix://tmp/csi.sock" = inl u /\ "unix" = ToLower (u_Scheme u) /\
    ("unix" = "tcp" /\ sim_trace (ParseEndpoint demo_url "unix://tmp/csi.sock") sim_empty = [] /\
       "/tmp/csi.sock" = PathJoin [u_Host u; u_Path u] \/
     "unix" = "unix" /\ "/tmp/csi.sock" = PathJoin ["/"; PathJoin [u_Host u; u_Path u]] /\
     (exists l, Forall (fun e => plain e = true) l /\ "/tmp/csi.sock" = "/" +:+ Join l "/") /\
     exists x, sim_trace (ParseEndpoint demo_url "unix://tmp/csi.sock") sim_empty = [OsRemove "/tmp/csi.sock" ▷ x] /\
       (x = None \/ x = Some (ErrOs ENOENT))).
Proof. apply (ParseEndpoint_ok demo_url "unix://tmp/csi.sock"). apply sim_exec. vm_compute. reflexivity. Defined.

(** ** The client of the kubelet *)

Definition demo_kubelet : prog KubeletClient := NewKubeletClient "10.0.0.1" 10250.

Lemma NewKubeletClient_ok_witness :
  let tr := sim_trace demo_kubelet driver_node in
  let kc := mkKubelet "10.0.0.1" 10250 "token"
              (Some (mkTLS EmptyString EmptyString EmptyString EmptyString EmptyString EmptyString true)) 10000000000 in
  kc_host kc = "10.0.0.1" /\ kc_port kc = 10250 /\
  (forall t, kc_tls kc = Some t -> tls_Insecure t = true /\ HasCA t = false) /\
  (exists cert key, (LookupEnv "KUBELET_CLIENT_CERT" ▷ cert) ∈ tr /\ (LookupEnv "KUBELET_CLIENT_KEY" ▷ key) ∈ tr /\
     (forall t, kc_tls kc = Some t ->
        tls_CertFile t = default EmptyString cert /\ tls_KeyFile t = default EmptyString key) /\
     if String.eqb (default EmptyString cert) EmptyString && String.eqb (default EmptyString key) EmptyString
     then (ReadFile serviceAccountTokenFile ▷ inl (kc_bearer kc)) ∈ tr else kc_bearer kc = EmptyString) /\
  (exists v, (LookupEnv "KUBELET_TIMEOUT" ▷ v) ∈ tr /\
     exists n, (if String.eqb (default EmptyString v) EmptyString then Some defaultKubeletTimeout
                else Atoi (default EmptyString v)) = Some n /\ kc_timeout kc = wrap64 (n * 1000000000)).
Proof. apply (NewKubeletClient_ok "10.0.0.1" 10250). apply sim_exec. vm_compute. reflexivity. Defined.

(** ** The fake client *)

Definition fake_store : FakeK8sClient := mkFake {[0%nat := driver_pod]} {["csi-0" := 0%nat]}.

(** The reference is reported as recorded; [fake_loses_references] says that
    it is not. *)
Example fake_reports :
  snd (fst (run (fake_handle (fun o => fst (sim_handle o sim_empty)))
              (AddRefOfMount (v_Config demo_vars) 5 "/target" "csi-0") fake_store)) = Ok tt.
Proof. vm_compute. reflexivity. Qed.
