(* ===== verification/ExamplesDeepCopy.v ===== *)
(** * A deep copy at work

    [DeepCopy.v] applied to a list of two cache objects whose labels are one
    map. *)
From S2P Require Import Prelude DeepCopy.
From stdpp Require Import options.

Definition plain (name : string) : PlainMeta :=
  mkPlain name EmptyString "default" EmptyString "uid" "7" 1 0 EmptyString.

Definition demo_cache (name : string) : Cache :=
  mkCache (mkTypeMeta "Cache" "v1alpha1") (mkObjectMeta (plain name) (Some 5%positive) None (Some 3%positive) None (Some 4%positive) None None)
    (mkCacheSpec "pvc-1" "models") (mkCacheStatus false EmptyString).

(** The pointers of the list: the slice, the shared labels, the owner with
    its flag and the time of deletion. *)
Definition demo_heap : heap :=
  list_to_map [
    (1%positive, CCacheList (mkCacheList (mkTypeMeta "CacheList" "v1alpha1") (mkListMeta EmptyString "9" EmptyString None) (Some 2%positive)));
    (2%positive, CItems [demo_cache "a"; demo_cache "b"]);
    (3%positive, CMap {["app" := "warm"]});
    (4%positive, COwners [mkOwner "v1" "Pod" "owner" "uid-9" (Some 6%positive) None]);
    (5%positive, CTime 42);
    (6%positive, CBool true)].

Definition demo_object : Object := ObjCacheList (Some 1%positive).

Definition demo_value := default (inr None) (see_object demo_heap demo_object).

(** The copy has ten locations of its own: the labels are no longer shared. *)
Example copy_unshares :
  match DeepCopyObject demo_object demo_heap with
  | Some (Some o, h) => (size h, size (reach_object h o)) = (16, 10)%nat
  | _ => False
  end.
Proof. vm_compute. reflexivity. Qed.

Lemma DeepCopyObject_independent_witness :
  exists o' h', DeepCopyObject demo_object demo_heap = Some (Some o', h') /\ see_object h' o' = Some demo_value /\
    (forall h2, (forall l, l ∉ reach_object h' o' -> h2 !! l = h' !! l) -> see_object h2 demo_object = Some demo_value) /\
    (forall h2, (forall l, l ∈ reach_object h' o' -> h2 !! l = h' !! l) -> see_object h2 o' = Some demo_value).
Proof. apply (DeepCopyObject_independent demo_heap demo_object demo_value). vm_compute. reflexivity. Defined.
